(* ===== verification/_CoqProject ===== *)
-Q . S2P
Prelude.v
Utf8.v
Fairness.v
Error.v
Severity.v
Response.v
Request.v
Json.v
JsonRef.v
Wire.v
Interrupt.v
Retry.v
InterruptWorld.v
Transport.v
Stub.v
DropLogger.v
Dispatcher.v
DispatcherInv.v
DispatcherSpec.v
DispatcherProps.v
DispatcherLive.v
DispatcherShutdown.v
Client.v
ClientSystem.v
DeliverySystem.v
DeliveryInv.v
DeliveryOwner.v
DeliveryCalls.v
DeliveryProps.v
DeliveryFair.v
DeliveryLive.v
DeliveryHealthy.v
Programs.v
UnitTests.v
SystemTests.v
Loopback.v
ThreadTests.v
