(* ===== verification/Prelude.v ===== *)
(** * The Oppex Rust SDK: a verification development

    The crate under src/rust posts incidents to the Oppex API: a validated request
    is rendered as JSON, sent over HTTPS, retried on a fixed backoff schedule, and
    delivered either on the calling thread or by two background workers behind a
    bounded queue that drops its oldest entry when full. Closing the client drains
    the queue for at most ten seconds.

    ** How the program is put together

    A call of [IncidentClient] (client.rs) checks the flag [closed] and the service
    key. [post] then runs [Inner::deliver]: it serializes the request (wire.rs) and
    runs the retry loop (retry.rs) over [Transport::send] (transport.rs), which does
    one HTTP exchange with [ureq] and decodes the answer (wire.rs, with serde_json).
    Between attempts the loop waits on the client's interrupt (interrupt.rs).
    [post_async] boxes the same delivery as a task and submits it to the dispatcher
    (dispatcher.rs), which counts evictions in the drop logger (drop_logger.rs).
    [close] swaps the flag, signals the interrupt and closes the dispatcher.

    ** The files, and the code each of them models

    - [Prelude]: [Result] and the operator [?], machine integers, instants and
      durations, strings as lists of Unicode scalar values, counting lemmas, the
      tactic [cases] and the hint databases [rust_str] and [rust_inv].
    - [Fairness]: the one argument about fair schedulers that the liveness theorems
      share, over any step relation.
    - [Error], [Severity], [Response]: error.rs, severity.rs, response.rs. The accessors
      of a response and of a request are the modules [IncidentResponse] and
      [IncidentRequest], beside the fields they return.
    - [Request]: request.rs; the builder is the module [IncidentRequestBuilder],
      [build] keeps the order of the checks of the code. The clock it may read is an
      argument.
    - [Json]: the interface to serde_json, a class of operations and a class of laws;
      [JsonRef] is an executable reader and writer that satisfies the laws.
    - [Wire]: wire.rs, one definition per push function, the buffer and its flag
      [first] passed as a pair; [parse_response].
    - [Interrupt]: interrupt.rs as a step relation over the flag, the clock and the
      threads inside [signal] and [wait]; the loop of [wait_timeout_while] is written
      out in [check].
    - [Retry]: retry.rs; [retry_loop] is defined by well-founded recursion on the
      delays that are left, over a world in which the operation and the wait act. The
      interface to the interrupt is the class [Waiter] with [WaiterLaws].
    - [InterruptWorld]: discharges that interface: a world whose wait is an execution
      of [Interrupt.step], so that the laws are consequences of its invariant.
    - [Transport]: transport.rs; [ureq] is the class [Ureq]. [Stub] is a scripted
      network for the witnesses and models no code.
    - [DropLogger]: drop_logger.rs.
    - [Dispatcher]: dispatcher.rs. The critical sections are functions
      ([submit_section], [close_section], [work_section], [done_section],
      [drain_section]); [run_thread] strings them together with the notifications and
      the logging in the order of the source; [step] adds the scheduler, the choice of
      the thread [notify_one] wakes, spurious wake-ups, timeouts, time and panicking
      tasks. [play] executes a schedule.
    - [DispatcherInv]: its invariants by rule induction. [DispatcherSpec]: the abstract
      bounded queue and the simulation. [DispatcherProps]: its properties.
    - [DispatcherLive]: infinite executions of the dispatcher under a fair scheduler,
      and what becomes of its queue. [DispatcherShutdown]: what becomes of its calls and
      of its workers.
    - [Client]: client.rs without the sharing between threads: the builder, the checks,
      the four calls and the delivery. A task is the data its closure captures.
    - [ClientSystem]: client.rs as a system: the calls of any number of threads, each a
      sequence of atomic steps, on top of the steps of the dispatcher. What a delivery
      does is left open.
    - [DeliverySystem]: the whole SDK at work. A synchronous call and every task a worker
      runs is the retry loop cut at its visible points (an attempt starts, an attempt
      ends, a wait starts, a wait ends); the waits are those of the one [Interrupt]
      machine the close signals. [play_events] executes a schedule.
    - [DeliveryInv]: what a single delivery keeps: it replays the loop of [Retry].
      [DeliveryOwner]: the system simulates [ClientSystem], and each delivery under way
      belongs to one call or one worker. [DeliveryCalls]: where deliveries come from, how
      many requests are left to each after the signal, the result handed to the caller
      and the debug log. [DeliveryProps]: the properties of the whole.
    - [DeliveryFair]: infinite runs of the whole system in which every call, delivery,
      backoff, owner and thread of the dispatcher gets its turns and time goes on; its
      dispatcher then runs as in [DispatcherLive]. [DeliveryLive]: what such runs come
      to, and fair runs from finite schedules. [DeliveryHealthy]: the system on a network
      that answers every request with success.
    - [Programs]: lib.rs's [VERSION], and the two programs of the repository that use the
      crate, .github/smoke/rust/src/main.rs ([Smoke]) and src/rust/examples/plain.rs
      ([Plain]), in a small monad for a process that prints and exits and holds its
      clients; [close] is the swap of the flag, the signal and the drain, and a client is
      dropped, which closes it, at the end of its scope ([dropping]).
    - [UnitTests], [SystemTests]: the crate's own tests and tests/public_api.rs as
      executable definitions, with the lemmas that they pass on the model: those of the
      retry loop in every world that meets the contract of the interrupt, those of the
      public API on every network, the others on the reference instance of serde_json,
      on a loopback server and under a round-robin scheduler. [Loopback]: that server's
      reading and writing of bytes, over the UTF-8 of [Utf8]. [ThreadTests]: the test that
      posts from eight threads, in the system of [DeliverySystem]; it passes in every
      interleaving in which its threads end.

    ** What the theorems show

    - Requests: [Request.build_ok], [Request.build_err]: which builders are accepted, with
      which request, and which error is reported first.
    - Wire format: [Wire.serialize_is_reference], [Wire.payload_roundtrip],
      [Wire.parse_envelope]: the payload is the reference rendering and reads back to the
      request; responses decode with the documented defaults.
    - Attempts: [Transport.send_retry_policy], [Transport.send_no_echo]: which attempts
      may be retried, and what may appear in a message.
    - Retries: [Retry.execute_spec] (termination and exact result) and its consequences
      for the returned failure and the time bound; the interrupt meets the contract the
      loop relies on ([Interrupt.wait_meets_contract],
      [Interrupt.signal_wakes_everyone]).
    - Dispatcher: [DispatcherSpec.dispatcher_refines_queue] (refinement),
      [DispatcherProps.tasks_conserved], [DispatcherProps.dispatcher_bounds],
      [DispatcherProps.early_close_loses_nothing],
      [DispatcherProps.evictions_accounted] (safety), [DispatcherProps.open_wakeups],
      [DispatcherProps.calls_return] (wake-ups and termination),
      [DispatcherShutdown.shutdown_completes] (liveness under fairness), and two corners
      in which it does not do what its comments say: [DispatcherProps.close_loses_wakeup],
      [DispatcherProps.panic_delays_close].
    - Client: [Client.post_errors], [Client.post_sends], [Client.posted_service_key],
      [Client.post_results_typed] (errors, requests sent, the service key of each request
      sent, types of the results); as a system, [ClientSystem.async_result],
      [ClientSystem.shutdown_order], [ClientSystem.close_completes].
    - The whole system: a delivery returns what the loop of [Retry]
      returns, however it was interleaved ([DeliveryProps.delivery_runs_the_loop]); attempts are
      spaced by the schedule ([DeliveryProps.attempts_spaced]), and after the signal of a
      close each delivery sends at most one more request
      ([DeliveryProps.signal_stops_retries]); behind every request of an execution is a
      call of that execution that passed its checks, and the request has the key that
      call prescribes ([DeliveryProps.requests_justified]); every accepted task is
      delivered at most once and in order ([DeliveryProps.delivered_once]), a synchronous
      call returns its own delivery's result ([DeliveryProps.post_returns]), and the
      failures of the others are logged, once each ([DeliveryProps.failures_logged]).
    - The whole system under a fair scheduler: every call returns
      ([DeliveryLive.calls_complete]), every accepted incident leaves the queue and every
      delivery that begins is returned to its owner ([DeliveryLive.incidents_complete]),
      a closed client comes to rest, with its workers gone and nothing sent any more
      ([DeliveryLive.close_quiesces]), and on a network that works every post returns what
      the server answered its single request ([DeliveryHealthy.healthy_posts_succeed]).
    - Programs: [Programs.Smoke.smoke_passes]: where nobody listens the smoke program
      goes through the whole schedule, and succeeds.
    - Smaller facts of the same kind are lemmas beside these, among them
      [Wire.payload_injective], [Request.rebuild], [Client.async_agrees_with_sync],
      [Retry.failure_is_last_attempt], [DeliveryProps.system_refines] (the runs of the
      system are runs of [ClientSystem] and of [Interrupt]), [DispatcherLive.accepted_leave],
      [Programs.close_shuts], [Programs.Plain.plain_posts], [DispatcherProps.close_releases_workers], [DispatcherProps.panics_stop_delivery]
      and [DropLogger.summaries_rate_limited].

    ** Bounds and conventions

    Integers are [Z]; a conversion that can fail checks its range ([i32_try_from],
    [i64_try_from]), and the [u64] of the drop logger wraps at 2^64 as in a release
    build. The type of [priority] ([u8]) and of [src_timestamp] ([i64]) bounds what the
    program can pass; the theorems that need such a bound state it. Time is in
    nanoseconds from an arbitrary origin, and a critical section reads the clock at one
    instant. No definition that models code of the repository uses fuel: the retry loop
    and the loop of the loopback server recurse on a measure, the drain of a program on
    the tasks that are queued, and the concurrent parts are relations. Two models of
    library code do: UTF-8 decoding takes as much fuel as there are bytes, which
    [Utf8.decode_loop_enough] shows to be enough, and the reader of [JsonRef] as much as
    there are chars, which its laws show to be enough for what the client writes. The states of [ClientSystem] and
    [DeliverySystem] carry ghost fields that no step reads to decide anything: what was
    accepted, started and evicted, the requests, attempts and answers of each delivery.

    ** What is not modelled, and why

    The derived Debug formatting (a parameter where a program prints with it); the
    resident memory and the sockets of [ureq]; TLS; the poisoning of locks, which the code
    always recovers from (no code that can panic runs with a lock held, short of
    an exhausted allocator); failure to spawn a worker, which panics; the wrap-around
    of the [usize] counter of attempts and of [active], which is bounded by the number
    of workers. A task that panics is a step of [Dispatcher], and not of
    [DeliverySystem], whose deliveries do not panic; the liveness theorems of the
    dispatcher are about executions without panics. Fairness is an assumption of theirs:
    a thread that can move is not passed over for ever, an exchange with the network is
    over at some point, with an answer or with the error of one of the timeouts [ureq] is
    given, and the clock goes on. The programs of [Programs] and the tests run their
    client on one thread, but for the test of [ThreadTests]; of what the workers may do
    beside it they see one order, in which the queued tasks are delivered one by one
    while [close] drains (every other one is [DeliverySystem]'s), and the lines they
    log are not kept, since no program installs a logger; of the sockets of the tests'
    server only the bytes of one connection are modelled. The SDKs in the other languages
    of the repository are separate programs. *)

From stdpp Require Import prelude list strings.
From Stdlib Require Import NArith ZArith Lia.
From Stdlib Require Import DecimalString DecimalZ.

(** ** Scopes and hint databases *)

Declare Scope rust_scope.
Delimit Scope rust_scope with rust.
Open Scope rust_scope.

(** Rewriting rules that run a chain of buffer pushes. *)
Create Rewrite HintDb rust_str.
(** Bounds and preservation lemmas of the state machines. *)
Create HintDb rust_inv.

(** Method chaining: [self.method(args)]. *)
Notation "x |> f" := (f x) (at level 63, left associativity, only parsing) : rust_scope.

(** ** Result: fallible code *)

(** Rust's [Result<T, E>]. *)
Inductive Result (T E : Type) : Type :=
| Ok (value : T)
| Err (error : E).
Arguments Ok {T E} value.
Arguments Err {T E} error.

(** The [?] operator: return early with the error. *)
Definition try_bind {T U E : Type} (r : Result T E) (k : T -> Result U E) : Result U E :=
  match r with
  | Ok value => k value
  | Err error => Err error
  end.

Notation "'let?' x := e 'in' k" := (try_bind e (fun x => k))
  (at level 10, x name, e at level 200, k at level 200) : rust_scope.

(** [Result::map_err]. *)
Definition map_err {T E F : Type} (f : E -> F) (r : Result T E) : Result T F :=
  match r with
  | Ok value => Ok value
  | Err error => Err (f error)
  end.

Definition is_ok {T E : Type} (r : Result T E) : bool :=
  match r with Ok _ => true | Err _ => false end.

Lemma try_bind_ok {T U E : Type} (r : Result T E) (k : T -> Result U E) (u : U) :
  try_bind r k = Ok u <-> exists t, r = Ok t /\ k t = Ok u.
Proof. destruct r as [t|e]; simpl; split; [eauto|by intros (? & [= ->] & ?)|done|by intros (? & ? & ?)]. Qed.

Lemma try_bind_err {T U E : Type} (r : Result T E) (k : T -> Result U E) (e : E) :
  try_bind r k = Err e <-> r = Err e \/ exists t, r = Ok t /\ k t = Err e.
Proof.
  destruct r as [t|e']; simpl; split; [eauto| |by left; simplify_eq|].
  - intros [?|(? & [= ->] & ?)]; done.
  - intros [[= ->]|(? & ? & _)]; done.
Qed.

(** ** Machine integers and time *)

(** The widths the SDK uses. Values are [Z]; a conversion checks its range. *)
Definition i32_min : Z := -(2 ^ 31).
Definition i32_max : Z := 2 ^ 31 - 1.
Definition i64_min : Z := -(2 ^ 63).
Definition i64_max : Z := 2 ^ 63 - 1.
Definition u64_modulus : Z := 2 ^ 64.

(** [i32::try_from(n).ok()] for an [i64] [n]. *)
Definition i32_try_from (n : Z) : option Z :=
  if (i32_min <=? n)%Z && (n <=? i32_max)%Z then Some n else None.

(** [i64::try_from(n).ok()] for a [u128] [n]. *)
Definition i64_try_from (n : Z) : option Z :=
  if (i64_min <=? n)%Z && (n <=? i64_max)%Z then Some n else None.

(** [(lo..hi).contains(&x)] *)
Definition range_contains (lo hi x : Z) : bool := ((lo <=? x) && (x <? hi))%Z.

(** [Duration] and [Instant] have nanosecond resolution: both are a number of
    nanoseconds, an instant counted from an arbitrary origin. *)
Definition from_millis (n : Z) : Z := (n * 1000000)%Z.
Definition from_secs (n : Z) : Z := (n * 1000000000)%Z.

(** [later.duration_since(earlier)], which saturates at zero. *)
Definition saturating_duration_since (later earlier : Z) : Z := Z.max 0 (later - earlier).

(** [later.checked_duration_since(earlier)]: [None] when [earlier] is later. *)
Definition checked_duration_since (later earlier : Z) : option Z :=
  if (earlier <=? later)%Z then Some (later - earlier)%Z else None.

(** ** Strings *)

(** A [char] is a Unicode scalar value, and a [String] its sequence of chars,
    so [s.chars().count()] is [length s]. *)
Abbreviation char := N.
Abbreviation str := (list N).

(** An ASCII literal of the source. *)
Fixpoint lit (s : string) : str :=
  match s with
  | EmptyString => []
  | String a s => Ascii.N_of_ascii a :: lit s
  end.

#[global] Arguments lit : simpl never.

(** [char::is_whitespace]: the Unicode [White_Space] property. *)
Definition is_whitespace (c : char) : bool :=
  (((9 <=? c) && (c <=? 13)) || (c =? 32) || (c =? 133) || (c =? 160) || (c =? 5760)
   || ((8192 <=? c) && (c <=? 8202)) || (c =? 8232) || (c =? 8233) || (c =? 8239)
   || (c =? 8287) || (c =? 12288))%N.

Fixpoint trim_start (s : str) : str :=
  match s with
  | [] => []
  | c :: s' => if is_whitespace c then trim_start s' else s
  end.

Definition trim_end (s : str) : str := rev (trim_start (rev s)).

(** [str::trim] *)
Definition trim (s : str) : str := trim_end (trim_start s).

(** [str::is_empty] *)
Definition is_empty (s : str) : bool := match s with [] => true | _ => false end.

(** [s.trim().is_empty()] *)
Definition is_blank (s : str) : bool := is_empty (trim s).

(** [Display] of an integer. *)
Definition display_Z (n : Z) : str := lit (NilZero.string_of_int (Z.to_int n)).

(** The double quote, which a literal of this development does not spell. *)
Definition dquote : char := 34%N.

(** [iter.join(sep)] on rendered members. *)
Fixpoint join (sep : str) (members : list str) : str :=
  match members with
  | [] => []
  | [m] => m
  | m :: rest => m ++ sep ++ join sep rest
  end.

(** The first value an association list has under a key. *)
Fixpoint assoc {A : Type} (k : str) (l : list (str * A)) : option A :=
  match l with
  | [] => None
  | (k', v) :: l => if decide (k = k') then Some v else assoc k l
  end.

Lemma assoc_Some {A : Type} (k : str) (l : list (str * A)) (v : A) :
  assoc k l = Some v -> (k, v) ∈ l.
Proof.
  induction l as [|[k' v'] l IH]; simpl; [done|].
  case_decide; intros Heq; simplify_eq; rewrite elem_of_cons; auto.
Qed.

Lemma assoc_None {A : Type} (k : str) (l : list (str * A)) :
  assoc k l = None -> k ∉ map fst l.
Proof.
  induction l as [|[k' v'] l IH]; simpl; intros Hn; [by apply not_elem_of_nil|].
  case_decide; [done|]. apply not_elem_of_cons. auto.
Qed.

(** ** Lemmas on strings *)

Lemma trim_start_nil (s : str) :
  trim_start s = [] <-> Forall (fun c => is_whitespace c = true) s.
Proof.
  induction s as [|c s IH]; simpl; [done|].
  rewrite Forall_cons, <-IH. destruct (is_whitespace c); [tauto|]. by split; [|intros [? _]].
Qed.

Lemma trim_start_ends (s : str) :
  trim_start s = [] \/ exists c rest, trim_start s = c :: rest /\ is_whitespace c = false.
Proof.
  induction s as [|c s IH]; simpl; [by left|].
  destruct (is_whitespace c) eqn:Hc; [done|right; eauto].
Qed.

(** A string is blank exactly when every char of it is white space. *)
Lemma is_blank_spec (s : str) :
  is_blank s = true <-> Forall (fun c => is_whitespace c = true) s.
Proof.
  rewrite <-trim_start_nil. unfold is_blank, trim, trim_end.
  destruct (trim_start_ends s) as [->|(c & rest & -> & Hc)]; [done|].
  split; [|done]. simpl. intros Hempty.
  assert (Hnil : trim_start (rev rest ++ [c]) = []).
  { destruct (trim_start (rev rest ++ [c])) as [|x l]; [done|].
    simpl in Hempty. by destruct (rev l). }
  apply trim_start_nil, Forall_app in Hnil as [_ Hlast].
  apply Forall_cons in Hlast as [Hw _]. congruence.
Qed.

Lemma is_blank_false (s : str) :
  is_blank s = false <-> Exists (fun c => is_whitespace c = false) s.
Proof.
  rewrite <-not_true_iff_false, is_blank_spec. split.
  - intros Hn. apply not_Forall_Exists in Hn; [|solve_decision].
    eapply Exists_impl; [exact Hn|]. intros c. apply not_true_is_false.
  - intros (c & Hin & Hc)%Exists_exists Hall.
    rewrite Forall_forall in Hall. specialize (Hall _ Hin). congruence.
Qed.

Lemma lit_app (s t : string) : lit (s +:+ t) = lit s ++ lit t.
Proof.
  induction s as [|a s IH]; [done|].
  change (Ascii.N_of_ascii a :: lit (s +:+ t) = Ascii.N_of_ascii a :: (lit s ++ lit t)).
  by rewrite IH.
Qed.

Lemma lit_inj (s t : string) : lit s = lit t -> s = t.
Proof.
  revert t. induction s as [|a s IH]; intros [|b t] Heq; cbn in Heq; simplify_eq/=; [done|].
  assert (a = b) as ->.
  { rewrite <-(Ascii.ascii_N_embedding a), <-(Ascii.ascii_N_embedding b). by f_equal. }
  f_equal. auto.
Qed.

Lemma to_int_not_nil (n : Z) :
  Z.to_int n <> Decimal.Pos Decimal.Nil /\ Z.to_int n <> Decimal.Neg Decimal.Nil.
Proof.
  split; intros Hn; pose proof (DecimalZ.of_to n) as Hof; rewrite Hn in Hof;
    simpl in Hof; subst n; discriminate.
Qed.

Lemma display_Z_inj (m n : Z) : display_Z m = display_Z n -> m = n.
Proof.
  intros Heq%lit_inj.
  destruct (to_int_not_nil m), (to_int_not_nil n).
  assert (Hd : Some (Z.to_int m) = Some (Z.to_int n))
    by (rewrite <-!NilZero.isi by done; by rewrite Heq).
  apply DecimalZ.to_int_inj. congruence.
Qed.

(** ** Lemmas on machine integers *)

Lemma i32_try_from_Some (n m : Z) :
  i32_try_from n = Some m <-> m = n /\ (i32_min <= n <= i32_max)%Z.
Proof.
  unfold i32_try_from. destruct (_ && _) eqn:Hb; split; intros H; simplify_eq.
  - split; [done|]. lia.
  - by destruct H as [-> _].
  - lia.
Qed.

Lemma i64_try_from_Some (n m : Z) :
  i64_try_from n = Some m <-> m = n /\ (i64_min <= n <= i64_max)%Z.
Proof.
  unfold i64_try_from. destruct (_ && _) eqn:Hb; split; intros H; simplify_eq.
  - split; [done|]. lia.
  - by destruct H as [-> _].
  - lia.
Qed.

Lemma range_contains_spec (lo hi x : Z) :
  range_contains lo hi x = true <-> (lo <= x < hi)%Z.
Proof. unfold range_contains. lia. Qed.

(** ** Counting the elements of a list that satisfy a test *)

Section Count.
Context {A : Type} (f : A -> bool).

Fixpoint count (l : list A) : nat :=
  match l with
  | [] => 0
  | x :: l => (if f x then 1 else 0) + count l
  end.

Lemma count_app (l1 l2 : list A) : count (l1 ++ l2) = count l1 + count l2.
Proof. induction l1; simpl; lia. Qed.

Lemma count_insert (l : list A) (i : nat) (x y : A) :
  l !! i = Some x ->
  count (<[i := y]> l) + (if f x then 1 else 0) = count l + (if f y then 1 else 0).
Proof.
  revert i. induction l as [|z l IH]; intros [|i] Hi; simplify_eq/=.
  - lia.
  - specialize (IH _ Hi). lia.
Qed.

Lemma count_pos (l : list A) : 0 < count l <-> exists i x, l !! i = Some x /\ f x = true.
Proof.
  induction l as [|z l IH]; simpl.
  - split; [lia|]. by intros (i & x & Hi & _).
  - destruct (f z) eqn:Hz.
    + split; [intros _; by exists 0, z|intros _; lia].
    + rewrite Nat.add_0_l, IH. split.
      * intros (i & x & Hi & Hx). by exists (S i), x.
      * intros ([|i] & x & Hi & Hx); simplify_eq/=; [congruence|eauto].
Qed.

Lemma count_zero (l : list A) : count l = 0 <-> forall i x, l !! i = Some x -> f x = false.
Proof.
  split.
  - intros H0 i x Hi. destruct (f x) eqn:Hx; [|done].
    assert (0 < count l) by (apply count_pos; eauto). lia.
  - intros H. destruct (count l) eqn:Hc; [done|].
    assert (0 < count l) as (i & x & Hi & Hx)%count_pos by lia.
    rewrite (H _ _ Hi) in Hx. done.
Qed.

Lemma count_le_length (l : list A) : count l <= length l.
Proof. induction l as [|z l IH]; simpl; [done|]. destruct (f z); lia. Qed.

Lemma count_replicate (n : nat) (x : A) : count (replicate n x) = if f x then n else 0.
Proof. induction n as [|n IH]; simpl; [by destruct (f x)|]. rewrite IH. by destruct (f x). Qed.
End Count.

(** Mapping a list in place does not change a count its map preserves. *)
Lemma count_map {A : Type} (f g : A -> bool) (h : A -> A) (l : list A) :
  (forall x, g x = f (h x)) -> count f (h <$> l) = count g l.
Proof.
  intros Hgf. induction l as [|x l IH]; [done|].
  change (h <$> x :: l) with (h x :: (h <$> l)). simpl. by rewrite IH, Hgf.
Qed.

(** ** Summing a measure over the elements of a list *)

Section Total.
Context {A : Type} (f : A -> Z).

Fixpoint total (l : list A) : Z :=
  match l with
  | [] => 0
  | x :: l => (f x + total l)%Z
  end.

Lemma total_app (l1 l2 : list A) : total (l1 ++ l2) = (total l1 + total l2)%Z.
Proof. induction l1; simpl; lia. Qed.

Lemma total_insert (l : list A) (i : nat) (x y : A) :
  l !! i = Some x -> (total (<[i := y]> l) + f x = total l + f y)%Z.
Proof.
  revert i. induction l as [|z l IH]; intros [|i] Hi; simplify_eq/=.
  - lia.
  - specialize (IH _ Hi). lia.
Qed.

Lemma total_zero (l : list A) : (forall x, x ∈ l -> f x = 0%Z) -> total l = 0%Z.
Proof.
  induction l as [|x l IH]; intros Hf; simpl; [done|].
  rewrite (Hf x) by by left. rewrite IH; [done|]. intros y Hy. apply Hf. by right.
Qed.

Lemma total_nonneg (l : list A) : (forall x, (0 <= f x)%Z) -> (0 <= total l)%Z.
Proof. intros Hf. induction l as [|x l IH]; simpl; [done|]. specialize (Hf x). lia. Qed.
End Total.

Lemma total_map {A : Type} (f g : A -> Z) (h : A -> A) (l : list A) :
  (forall x, g x = f (h x)) -> total f (h <$> l) = total g l.
Proof.
  intros Hgf. induction l as [|x l IH]; [done|].
  change (h <$> x :: l) with (h x :: (h <$> l)). simpl. by rewrite IH, Hgf.
Qed.

(** ** Tactics *)

(** Case analysis on the matches of the goal and the hypotheses,
    using the equations it gives. *)
Ltac cases := repeat (case_match; simplify_eq/=; try done).
