(* ===== verification/Utf8.v ===== *)
(** * Text as bytes

    The UTF-8 encoding of the strings of [Prelude], and its reading back, strict
    ([str::from_utf8]) and lossy ([String::from_utf8_lossy]). It models the part of
    Rust's standard library that the loopback server of the tests uses on its sockets,
    and no code of the crate. *)

From stdpp Require Import prelude list.
From Stdlib Require Import NArith ZArith Lia ZifyBool ZifyN.
From S2P Require Import Prelude.

Abbreviation bytes := (list N).

(** The Unicode scalar values. *)
Definition is_char (c : char) : bool := ((c <? 55296) || ((57343 <? c) && (c <? 1114112)))%N.

Definition encode_char (c : char) : bytes :=
  (if c <? 128 then [c]
   else if c <? 2048 then [192 + c / 64; 128 + c mod 64]
   else if c <? 65536 then [224 + c / 4096; 128 + (c / 64) mod 64; 128 + c mod 64]
   else [240 + c / 262144; 128 + (c / 4096) mod 64; 128 + (c / 64) mod 64; 128 + c mod 64])%N.

(** [str::as_bytes] *)
Definition encode (s : str) : bytes := concat (encode_char <$> s).

Definition between (lo hi b : N) : bool := ((lo <=? b) && (b <=? hi))%N.
Definition continues (b : N) : bool := between 128 191 b.

(** The range of the second byte of a sequence of three or four. *)
Definition second_ok (b0 b1 : N) : bool :=
  (between (if b0 =? 224 then 160 else if b0 =? 240 then 144 else 128)
           (if b0 =? 237 then 159 else if b0 =? 244 then 143 else 191) b1)%N.

(** The first char, or [None] for the longest prefix that could begin one, and the
    bytes behind it. *)
Definition decode_char (b0 : N) (rest : bytes) : option char * bytes :=
  (if b0 <? 128 then (Some b0, rest)
   else if between 194 223 b0 then
     match rest with
     | b1 :: rest1 => if continues b1 then (Some ((b0 - 192) * 64 + (b1 - 128)), rest1) else (None, rest)
     | [] => (None, [])
     end
   else if between 224 239 b0 then
     match rest with
     | b1 :: rest1 =>
         if second_ok b0 b1 then
           match rest1 with
           | b2 :: rest2 =>
               if continues b2
               then (Some ((b0 - 224) * 4096 + (b1 - 128) * 64 + (b2 - 128)), rest2) else (None, rest1)
           | [] => (None, [])
           end
         else (None, rest)
     | [] => (None, [])
     end
   else if between 240 244 b0 then
     match rest with
     | b1 :: rest1 =>
         if second_ok b0 b1 then
           match rest1 with
           | b2 :: rest2 =>
               if continues b2 then
                 match rest2 with
                 | b3 :: rest3 =>
                     if continues b3
                     then (Some ((b0 - 240) * 262144 + (b1 - 128) * 4096 + (b2 - 128) * 64 + (b3 - 128)), rest3)
                     else (None, rest2)
                 | [] => (None, [])
                 end
               else (None, rest1)
           | [] => (None, [])
           end
         else (None, rest)
     | [] => (None, [])
     end
   else (None, rest))%N.

(** What a text comes to, [None] standing for what cannot be decoded. Every turn
    consumes a byte, so as much fuel as there are bytes is enough. *)
Fixpoint decode_loop (fuel : nat) (l : bytes) : list (option char) :=
  match fuel, l with
  | S fuel, b0 :: rest => let '(c, rest) := decode_char b0 rest in c :: decode_loop fuel rest
  | _, _ => []
  end.

Definition decode (l : bytes) : list (option char) := decode_loop (length l) l.

(** [str::from_utf8] *)
Definition from_utf8 (l : bytes) : option str := mapM id (decode l).

(** [String::from_utf8_lossy]: U+FFFD for what cannot be decoded. *)
Definition from_utf8_lossy (l : bytes) : str := default 65533%N <$> decode l.

(** ** What is written is read back *)

Lemma decode_char_le (b0 : N) (rest : bytes) : length (decode_char b0 rest).2 <= length rest.
Proof. unfold decode_char. repeat case_match; simpl; lia. Qed.

(** More fuel than there are bytes makes no difference. *)
Lemma decode_loop_enough (fuel : nat) (l : bytes) : length l <= fuel -> decode_loop fuel l = decode l.
Proof.
  unfold decode. revert l. assert (Hany : forall n m l, length l <= n -> length l <= m -> decode_loop n l = decode_loop m l).
  { induction n as [|n IH]; intros [|m] [|b0 rest]; simpl; try done; try lia. intros Hn Hm.
    pose proof (decode_char_le b0 rest). destruct (decode_char b0 rest) as [c rest']. simpl in *. f_equal. apply IH; lia. }
  intros l Hl. by apply Hany.
Qed.

Lemma decode_cons (b0 : N) (rest : bytes) :
  decode (b0 :: rest) = (decode_char b0 rest).1 :: decode (decode_char b0 rest).2.
Proof.
  unfold decode at 1. simpl. pose proof (decode_char_le b0 rest). destruct (decode_char b0 rest) as [c rest'].
  simpl in *. by rewrite decode_loop_enough.
Qed.

(** Decides the test of the next conditional, by arithmetic. *)
Local Ltac Zify.zify_post_hook ::= Z.to_euclidean_division_equations.
Ltac decide_test :=
  match goal with
  | |- context [if ?b then _ else _] =>
      first [ let H := fresh in assert (H : b = true) by (unfold second_ok, continues, between; repeat case_match; lia);
              rewrite H; clear H
            | let H := fresh in assert (H : b = false) by (unfold between; lia); rewrite H; clear H ]
  end.

Lemma decode_encode_char (c : char) (rest : bytes) :
  is_char c = true -> exists b0 tail, encode_char c = b0 :: tail /\ decode_char b0 (tail ++ rest) = (Some c, rest).
Proof.
  intros Hc. unfold is_char in Hc. unfold encode_char.
  destruct (N.ltb_spec c 128); [|destruct (N.ltb_spec c 2048); [|destruct (N.ltb_spec c 65536)]];
    (eexists _, _; split; [reflexivity|]); unfold decode_char;
    cbn [app]; repeat decide_test; first [reflexivity|do 2 f_equal; lia].
Qed.

Lemma decode_encode (s : str) (rest : bytes) :
  forallb is_char s = true -> decode (encode s ++ rest) = (Some <$> s) ++ decode rest.
Proof.
  induction s as [|c s IH]; [done|]. simpl. intros [Hc Hs]%andb_prop.
  change (encode (c :: s)) with (encode_char c ++ encode s). rewrite <-app_assoc.
  destruct (decode_encode_char c (encode s ++ rest) Hc) as (b0 & tail & -> & Hd).
  simpl app. rewrite decode_cons, Hd. simpl. by rewrite IH.
Qed.

Lemma from_utf8_encode (s : str) : forallb is_char s = true -> from_utf8 (encode s) = Some s.
Proof.
  intros Hs. unfold from_utf8. rewrite <-(app_nil_r (encode s)), decode_encode by done.
  rewrite app_nil_r. apply mapM_Some. apply Forall2_fmap_l, Forall_Forall2_diag. by apply Forall_true.
Qed.

Lemma from_utf8_lossy_encode (s : str) : forallb is_char s = true -> from_utf8_lossy (encode s) = s.
Proof.
  intros Hs. unfold from_utf8_lossy. rewrite <-(app_nil_r (encode s)), decode_encode by done.
  rewrite app_nil_r, <-list_fmap_compose. by apply list_fmap_id.
Qed.

(** A text without a line feed has no byte of one. *)
Lemma encode_no_newline (s : str) : 10%N ∉ s -> 10%N ∉ encode s.
Proof.
  induction s as [|c s IH]; [by rewrite !elem_of_nil|].
  change (encode (c :: s)) with (encode_char c ++ encode s). rewrite elem_of_cons, elem_of_app. intros Hno [Hin|Hin]; [|by apply IH; auto].
  apply Hno. left. unfold encode_char in Hin. repeat case_match; rewrite ?elem_of_cons, elem_of_nil in Hin; lia.
Qed.
