(* ===== verification/Fairness.v ===== *)
(** * Progress in fair executions

    The one argument behind the liveness theorems of the dispatcher and of the whole
    system, over any step relation: an action that is ready until it happens, and
    that a fair scheduler does not pass over for ever, happens. *)

From stdpp Require Import prelude.

Section Progress.
Context {State : Type} (exec : nat -> State).
(** The steps of the action. *)
Context (acts : State -> State -> Prop).

(** The scheduler is fair to it: again and again it happens, or is not ready. *)
Definition fair_to : Prop :=
  forall n, exists m, n <= m /\ (acts (exec m) (exec (S m)) \/ ~ exists s, acts (exec m) s).

Hypothesis Hfair : fair_to.
Context (P goal : State -> Prop) (measure : State -> nat).

(** Whatever happens keeps [P], and does not take the goal further away. *)
Hypothesis Hkeep : forall n, P (exec n) ->
  goal (exec (S n)) \/ (P (exec (S n)) /\ measure (exec (S n)) <= measure (exec n)).
(** The action is ready, and brings the goal nearer. *)
Hypothesis Hready : forall n, P (exec n) -> goal (exec n) \/ exists s, acts (exec n) s.
Hypothesis Hact : forall n, P (exec n) -> acts (exec n) (exec (S n)) ->
  goal (exec (S n)) \/ measure (exec (S n)) < measure (exec n).

Lemma kept (n m : nat) :
  n <= m -> P (exec n) ->
  (exists k, n <= k <= m /\ goal (exec k)) \/ (P (exec m) /\ measure (exec m) <= measure (exec n)).
Proof.
  intros Hle HP. induction Hle as [|m Hle [(k & Hk & Hg)|[Hm Hmeasure]]]; [by right| |].
  - left. exists k. split; [lia|done].
  - destruct (Hkeep m Hm) as [Hg|[Hm' Hmeasure']].
    + left. exists (S m). split; [lia|done].
    + right. split; [done|]. lia.
Qed.

Lemma progress (n : nat) : P (exec n) -> exists m, n <= m /\ goal (exec m).
Proof.
  remember (measure (exec n)) as r eqn:Hr. revert n Hr. induction (lt_wf r) as [r _ IH]. intros n -> HP.
  destruct (Hfair n) as (m & Hle & Hm).
  destruct (kept n m Hle HP) as [(k & Hk & Hg)|[HPm Hmeasure]]; [exists k; split; [lia|done]|].
  destruct Hm as [Hm|Hno].
  - destruct (Hact m HPm Hm) as [Hg|Hlt]; [exists (S m); split; [lia|done]|].
    destruct (Hkeep m HPm) as [Hg|[HPm' _]]; [exists (S m); split; [lia|done]|].
    destruct (IH (measure (exec (S m))) ltac:(lia) (S m) eq_refl HPm') as (k & Hk & Hg).
    exists k. split; [lia|done].
  - destruct (Hready m HPm) as [Hg|He]; [by exists m|by destruct Hno].
Qed.
End Progress.
