(* ===== verification/Error.v ===== *)
(** * Errors (src/rust/src/error.rs)

    Every failure the SDK reports, with its constructors, its accessors and its
    [Display] and [Error::source] implementations. *)

From stdpp Require Import prelude list strings.
From S2P Require Import Prelude.

(** The error types of the two libraries whose failures the SDK boxes: they are
    opaque to the SDK, so they are parameters of the whole development. *)
Class ErrorTypes := {
  ureq_error : Type;
  json_error : Type;
}.

(** A [Box<dyn Error + Send + Sync>] the SDK builds holds one of the two. *)
Inductive BoxedError `{ErrorTypes} : Type :=
| BoxUreq (e : ureq_error)
| BoxJson (e : json_error).

Section Error.
Context `{ErrorTypes}.

(** The status code reported when no HTTP status line was received. *)
Definition NO_STATUS_CODE : Z := (-1)%Z.

Inductive IncidentError : Type :=
| InvalidRequest (message : str)
| ClientClosed
| Delivery (message : str) (status_code : Z) (retryable : bool) (source : option BoxedError).

Definition invalid (message : str) : IncidentError := InvalidRequest message.

Definition delivery (message : str) (status_code : Z) (retryable : bool) : IncidentError :=
  Delivery message status_code retryable None.

Definition delivery_caused_by (message : str) (status_code : Z) (retryable : bool)
    (source : BoxedError) : IncidentError :=
  Delivery message status_code retryable (Some source).

(** [IncidentError::status_code] *)
Definition status_code (e : IncidentError) : option Z :=
  match e with
  | Delivery _ code _ _ => if negb (code =? NO_STATUS_CODE)%Z then Some code else None
  | _ => None
  end.

(** [IncidentError::is_retryable] *)
Definition is_retryable (e : IncidentError) : bool :=
  match e with
  | Delivery _ _ true _ => true
  | _ => false
  end.

(** [impl Display for IncidentError] *)
Definition fmt_error (e : IncidentError) : str :=
  match e with
  | InvalidRequest message => lit "invalid request: " ++ message
  | ClientClosed => lit "the incident client is closed"
  | Delivery message _ _ _ => message
  end.

(** [impl Error for IncidentError]: [source] *)
Definition source (e : IncidentError) : option BoxedError :=
  match e with
  | Delivery _ _ _ (Some cause) => Some cause
  | _ => None
  end.

(** An error that stands for a delivery that was attempted, as opposed to one
    the SDK refused before any network call. *)
Definition attempted (e : IncidentError) : bool :=
  match e with Delivery _ _ _ _ => true | _ => false end.

(** A status code an [IncidentError] may carry is an [i32]. *)
Definition error_wf (e : IncidentError) : Prop :=
  match e with
  | Delivery _ code _ _ => (i32_min <= code <= i32_max)%Z
  | _ => True
  end.

Lemma status_code_no_status (e : IncidentError) : status_code e <> Some NO_STATUS_CODE.
Proof.
  destruct e as [| |m code r src]; try done. simpl.
  destruct (Z.eqb_spec code NO_STATUS_CODE); [done|]. intros [= Heq]. done.
Qed.

Lemma status_code_Some (e : IncidentError) (code : Z) :
  status_code e = Some code <->
  code <> NO_STATUS_CODE /\ exists m r src, e = Delivery m code r src.
Proof.
  destruct e as [m| |m c r src]; simpl.
  - split; [done|]. by intros (_ & ? & ? & ? & ?).
  - split; [done|]. by intros (_ & ? & ? & ? & ?).
  - destruct (Z.eqb_spec c NO_STATUS_CODE); simpl; split.
    + done.
    + intros (Hne & ? & ? & ? & [= -> -> -> ->]). done.
    + intros [= ->]. eauto.
    + by intros (Hne & ? & ? & ? & [= -> -> -> ->]).
Qed.

Lemma is_retryable_attempted (e : IncidentError) : is_retryable e = true -> attempted e = true.
Proof. by destruct e as [| |m c [] src]. Qed.
End Error.

(** An instance for the witnesses. *)
Definition unit_errors : ErrorTypes := {| ureq_error := unit; json_error := unit |}.
