(* ===== verification/Severity.v ===== *)
(** * Severity (src/rust/src/severity.rs)

    The five-step severity scale, its wire values and its names. *)

From stdpp Require Import prelude list strings.
From S2P Require Import Prelude Error.

Inductive Severity : Type :=
| Lowest
| Low
| Medium
| High
| Critical.

#[export] Instance Severity_eq_dec : EqDecision Severity.
Proof. solve_decision. Defined.

(** [Severity::value], a [u8] *)
Definition value (s : Severity) : Z :=
  match s with
  | Lowest => 1
  | Low => 2
  | Medium => 3
  | High => 4
  | Critical => 5
  end.

(** [Severity::from_value] *)
Definition from_value `{ErrorTypes} (v : Z) : Result Severity IncidentError :=
  match v with
  | 1%Z => Ok Lowest
  | 2%Z => Ok Low
  | 3%Z => Ok Medium
  | 4%Z => Ok High
  | 5%Z => Ok Critical
  | _ => Err (invalid (lit "severity must be between 1 and 5"))
  end.

(** [impl Display for Severity] *)
Definition fmt_severity (s : Severity) : str :=
  match s with
  | Lowest => lit "LOWEST"
  | Low => lit "LOW"
  | Medium => lit "MEDIUM"
  | High => lit "HIGH"
  | Critical => lit "CRITICAL"
  end.

(** The derived [Ord]: constructors in declaration order. *)
Definition severity_index (s : Severity) : nat :=
  match s with
  | Lowest => 0
  | Low => 1
  | Medium => 2
  | High => 3
  | Critical => 4
  end.
Definition severity_le (s t : Severity) : Prop := severity_index s <= severity_index t.

#[export] Instance severity_le_dec : RelDecision severity_le.
Proof. intros s t. unfold severity_le. apply _. Defined.

Lemma value_bounds (s : Severity) : (1 <= value s <= 5)%Z.
Proof. destruct s; simpl; lia. Qed.

(** [from_value] is the inverse of [value]: it accepts a wire value exactly
    when some severity has it, and returns that severity, so wire values and
    severities correspond one to one. *)
Lemma from_value_spec `{ErrorTypes} (v : Z) (s : Severity) :
  from_value v = Ok s <-> value s = v.
Proof.
  split.
  - unfold from_value. intros Hv. repeat case_match; simplify_eq; reflexivity.
  - intros <-. by destruct s.
Qed.

(** [from_value] succeeds exactly on 1 to 5, and any other value is
    reported as [InvalidRequest] with one fixed message. *)
Lemma from_value_total `{ErrorTypes} (v : Z) :
  (is_ok (from_value v) = true <-> (1 <= v <= 5)%Z) /\
  (forall e, from_value v = Err e ->
     e = InvalidRequest (lit "severity must be between 1 and 5")).
Proof.
  split.
  - unfold from_value. repeat case_match; simpl; split; intros; try done; lia.
  - unfold from_value. intros e He. repeat case_match; simplify_eq; reflexivity.
Qed.

(** The derived order of severities is the order of their wire values, and
    no two severities share a display name. *)
Lemma severity_order (s t : Severity) :
  (severity_le s t <-> (value s <= value t)%Z) /\
  (fmt_severity s = fmt_severity t -> s = t).
Proof.
  split.
  - destruct s, t; unfold severity_le; simpl; lia.
  - by destruct s, t.
Qed.
