(* ===== verification/Response.v ===== *)
(** * The result of a delivered incident (src/rust/src/response.rs) *)

From stdpp Require Import prelude list strings.
From S2P Require Import Prelude.

Record IncidentResponse : Type := IncidentResponse_new {
  successful : bool;
  code : Z;
  message : option str;
  incident_id : option str;
}.

(** [IncidentResponse::is_successful] *)
Definition is_successful (r : IncidentResponse) : bool := successful r.

(** The other methods of the type: a borrowed view of a field is its value. *)
Module IncidentResponse.
Definition code (self : IncidentResponse) : Z := code self.
Definition message (self : IncidentResponse) : option str := message self.
Definition incident_id (self : IncidentResponse) : option str := incident_id self.
End IncidentResponse.

#[export] Instance IncidentResponse_eq_dec : EqDecision IncidentResponse.
Proof. solve_decision. Defined.

(** A response's [code] is an [i32]. *)
Definition response_wf (r : IncidentResponse) : Prop := (i32_min <= code r <= i32_max)%Z.
