(* ===== verification/Request.v ===== *)
(** * Incident requests and their builder (src/rust/src/request.rs)

    The validated, immutable [IncidentRequest] and the builder whose [build] is
    the only way to make one. [build] reads the clock once, when no timestamp
    was set: [now] is the system time in nanoseconds since the Unix epoch
    (negative before 1970). *)

From stdpp Require Import prelude list strings.
From S2P Require Import Prelude Error Severity.

(** The maximum length of [source], counted in chars. *)
Definition MAX_SOURCE_LENGTH : nat := 255.

Record IncidentRequest : Type := {
  service_key : option str;
  title : str;
  source : str;
  severity : Severity;
  priority : Z;
  src_timestamp : Z;
  component : option str;
  group : option str;
  incident_type : option str;
  details : option str;
}.

#[export] Instance IncidentRequest_eq_dec : EqDecision IncidentRequest.
Proof. solve_decision. Defined.

(** The methods of a built request: a borrowed view of a field is its value. *)
Module IncidentRequest.
Definition service_key (self : IncidentRequest) : option str := service_key self.
Definition title (self : IncidentRequest) : str := title self.
Definition source (self : IncidentRequest) : str := source self.
Definition severity (self : IncidentRequest) : Severity := severity self.
Definition priority (self : IncidentRequest) : Z := priority self.
Definition src_timestamp (self : IncidentRequest) : Z := src_timestamp self.
Definition component (self : IncidentRequest) : option str := component self.
Definition group (self : IncidentRequest) : option str := group self.
Definition incident_type (self : IncidentRequest) : option str := incident_type self.
Definition details (self : IncidentRequest) : option str := details self.
End IncidentRequest.

Module IncidentRequestBuilder.

Record t : Type := new {
  service_key : option str;
  title : option str;
  source : option str;
  severity : option Severity;
  priority : option Z;
  src_timestamp : option Z;
  component : option str;
  group : option str;
  incident_type : option str;
  details : option str;
}.

(** [IncidentRequest::builder], the derived [Default]. *)
Definition builder : t := new None None None None None None None None None None.

(** The setters consume the builder and overwrite one field. *)
Definition set_title (v : str) (b : t) : t :=
  new (service_key b) (Some v) (source b) (severity b) (priority b) (src_timestamp b)
    (component b) (group b) (incident_type b) (details b).

Definition set_source (v : str) (b : t) : t :=
  new (service_key b) (title b) (Some v) (severity b) (priority b) (src_timestamp b)
    (component b) (group b) (incident_type b) (details b).

Definition set_severity (v : Severity) (b : t) : t :=
  new (service_key b) (title b) (source b) (Some v) (priority b) (src_timestamp b)
    (component b) (group b) (incident_type b) (details b).

Definition set_priority (v : Z) (b : t) : t :=
  new (service_key b) (title b) (source b) (severity b) (Some v) (src_timestamp b)
    (component b) (group b) (incident_type b) (details b).

Definition set_src_timestamp (v : Z) (b : t) : t :=
  new (service_key b) (title b) (source b) (severity b) (priority b) (Some v)
    (component b) (group b) (incident_type b) (details b).

Definition set_service_key (v : str) (b : t) : t :=
  new (Some v) (title b) (source b) (severity b) (priority b) (src_timestamp b)
    (component b) (group b) (incident_type b) (details b).

Definition set_component (v : str) (b : t) : t :=
  new (service_key b) (title b) (source b) (severity b) (priority b) (src_timestamp b)
    (Some v) (group b) (incident_type b) (details b).

Definition set_group (v : str) (b : t) : t :=
  new (service_key b) (title b) (source b) (severity b) (priority b) (src_timestamp b)
    (component b) (Some v) (incident_type b) (details b).

Definition set_incident_type (v : str) (b : t) : t :=
  new (service_key b) (title b) (source b) (severity b) (priority b) (src_timestamp b)
    (component b) (group b) (Some v) (details b).

Definition set_details (v : str) (b : t) : t :=
  new (service_key b) (title b) (source b) (severity b) (priority b) (src_timestamp b)
    (component b) (group b) (incident_type b) (Some v).

End IncidentRequestBuilder.

(** [now_millis]: [duration_since(UNIX_EPOCH)] fails before 1970, and the
    conversion to [i64] fails past the year 292278994; both yield 0. *)
Definition now_millis (now : Z) : Z :=
  if (now <? 0)%Z then 0
  else default 0%Z (i64_try_from (now / 1000000)).

Section Build.
Context `{ErrorTypes}.

Definition require_non_blank (v : option str) (field : str) : Result str IncidentError :=
  match v with
  | Some v =>
      if negb (is_blank v) then Ok v
      else Err (invalid (field ++ lit " must not be blank"))
  | None => Err (invalid (field ++ lit " must be set"))
  end.

Definition reject_blank (v : option str) (field : str) : Result (option str) IncidentError :=
  match v with
  | Some s =>
      if is_blank s then Err (invalid (field ++ lit " must not be blank when supplied"))
      else Ok v
  | None => Ok v
  end.

(** [if cond { return Err(InvalidRequest) }] *)
Definition ensure (cond : bool) (msg : str) : Result unit IncidentError :=
  if cond then Ok tt else Err (invalid msg).

(** [IncidentRequestBuilder::build] *)
Definition build (now : Z) (self : IncidentRequestBuilder.t) : Result IncidentRequest IncidentError :=
  let? title := require_non_blank (IncidentRequestBuilder.title self) (lit "title") in
  let? source := require_non_blank (IncidentRequestBuilder.source self) (lit "source") in
  let? _u := ensure (negb (MAX_SOURCE_LENGTH <? length source)%nat)
    (lit "source must not exceed " ++ display_Z (Z.of_nat MAX_SOURCE_LENGTH) ++ lit " characters") in
  let? severity := match IncidentRequestBuilder.severity self with
    | Some s => Ok s
    | None => Err (invalid (lit "severity must be set"))
    end in
  let priority := default 1%Z (IncidentRequestBuilder.priority self) in
  let? _u := ensure ((1 <=? priority) && (priority <=? 5))%Z
    (lit "priority must be between 1 and 5") in
  let src_timestamp := match IncidentRequestBuilder.src_timestamp self with
    | Some timestamp => timestamp
    | None => now_millis now
    end in
  let? _u := ensure (negb (src_timestamp <=? 0)%Z)
    (lit "srcTimestamp must be greater than zero") in
  let? service_key := reject_blank (IncidentRequestBuilder.service_key self) (lit "serviceKey") in
  let? component := reject_blank (IncidentRequestBuilder.component self) (lit "component") in
  let? group := reject_blank (IncidentRequestBuilder.group self) (lit "group") in
  let? incident_type := reject_blank (IncidentRequestBuilder.incident_type self) (lit "type") in
  let? details := reject_blank (IncidentRequestBuilder.details self) (lit "details") in
  Ok {| service_key := service_key; title := title; source := source; severity := severity;
        priority := priority; src_timestamp := src_timestamp; component := component;
        group := group; incident_type := incident_type; details := details |}.
End Build.

(** ** Specification of validation *)

Definition blank_opt (v : option str) : bool :=
  match v with Some s => is_blank s | None => false end.

(** The timestamp [build] uses. *)
Definition effective_timestamp (now : Z) (b : IncidentRequestBuilder.t) : Z :=
  default (now_millis now) (IncidentRequestBuilder.src_timestamp b).

(** What every request satisfies, however it was made: the type's invariant. *)
Definition request_wf (r : IncidentRequest) : Prop :=
  is_blank (title r) = false /\ is_blank (source r) = false /\
  length (source r) <= MAX_SOURCE_LENGTH /\
  (1 <= priority r <= 5)%Z /\ (0 < src_timestamp r)%Z /\
  blank_opt (service_key r) = false /\ blank_opt (component r) = false /\
  blank_opt (group r) = false /\ blank_opt (incident_type r) = false /\
  blank_opt (details r) = false.

(** [r] is the request the fields of [b] describe. *)
Definition describes (now : Z) (b : IncidentRequestBuilder.t) (r : IncidentRequest) : Prop :=
  IncidentRequestBuilder.title b = Some (title r) /\
  IncidentRequestBuilder.source b = Some (source r) /\
  IncidentRequestBuilder.severity b = Some (severity r) /\
  default 1%Z (IncidentRequestBuilder.priority b) = priority r /\
  effective_timestamp now b = src_timestamp r /\
  IncidentRequestBuilder.service_key b = service_key r /\
  IncidentRequestBuilder.component b = component r /\
  IncidentRequestBuilder.group b = group r /\
  IncidentRequestBuilder.incident_type b = incident_type r /\
  IncidentRequestBuilder.details b = details r.

(** The documented checks, in the order of the source: whether the builder
    passes, and what is reported when it does not. *)
Definition required_checks (v : option str) (field : str) : list (bool * str) :=
  [(bool_decide (is_Some v), field ++ lit " must be set");
   (negb (blank_opt v), field ++ lit " must not be blank")].

Definition optional_check (v : option str) (field : str) : bool * str :=
  (negb (blank_opt v), field ++ lit " must not be blank when supplied").

Definition validation_order (now : Z) (b : IncidentRequestBuilder.t) : list (bool * str) :=
  required_checks (IncidentRequestBuilder.title b) (lit "title")
  ++ required_checks (IncidentRequestBuilder.source b) (lit "source")
  ++ [(bool_decide (length (default [] (IncidentRequestBuilder.source b)) <= 255),
         lit "source must not exceed 255 characters");
      (bool_decide (is_Some (IncidentRequestBuilder.severity b)), lit "severity must be set");
      (bool_decide (1 <= default 1 (IncidentRequestBuilder.priority b) <= 5)%Z,
         lit "priority must be between 1 and 5");
      (bool_decide (0 < effective_timestamp now b)%Z,
         lit "srcTimestamp must be greater than zero");
      optional_check (IncidentRequestBuilder.service_key b) (lit "serviceKey");
      optional_check (IncidentRequestBuilder.component b) (lit "component");
      optional_check (IncidentRequestBuilder.group b) (lit "group");
      optional_check (IncidentRequestBuilder.incident_type b) (lit "type");
      optional_check (IncidentRequestBuilder.details b) (lit "details")].

Fixpoint first_failure (checks : list (bool * str)) : option str :=
  match checks with
  | [] => None
  | (passes, msg) :: rest => if passes then first_failure rest else Some msg
  end.

(** ** Lemmas on the helpers *)

(** A clock past the first millisecond of 1970, and before the conversion fails. *)
Lemma clock_millis (now : Z) :
  (1000000 <= now < 2 ^ 63 * 1000000)%Z -> exists q, now_millis now = Zpos q.
Proof.
  intros [Hlo Hhi]. unfold now_millis. destruct (Z.ltb_spec now 0) as [?|_]; [lia|].
  assert (1 <= now / 1000000)%Z by (apply Z.div_le_lower_bound; lia).
  assert (now / 1000000 < 2 ^ 63)%Z by (apply Z.div_lt_upper_bound; lia).
  unfold i64_try_from. rewrite (proj2 (Z.leb_le _ _)), (proj2 (Z.leb_le _ _)) by (unfold i64_min, i64_max; lia).
  simpl. destruct (now / 1000000)%Z as [|q|q]; [lia|by exists q|lia].
Qed.

Section HelperLemmas.
Context `{ErrorTypes}.

(** The early-return chain of [build], one check at a time. *)
Lemma require_non_blank_run {U} (v : option str) (field : str)
    (k : str -> Result U IncidentError) :
  try_bind (require_non_blank v field) k =
  match first_failure (required_checks v field) with
  | Some msg => Err (InvalidRequest msg)
  | None => k (default [] v)
  end.
Proof. destruct v as [s|]; simpl; [|done]. by destruct (is_blank s). Qed.

Lemma reject_blank_run {U} (v : option str) (field : str)
    (k : option str -> Result U IncidentError) :
  try_bind (reject_blank v field) k =
  match first_failure [optional_check v field] with
  | Some msg => Err (InvalidRequest msg)
  | None => k v
  end.
Proof. destruct v as [s|]; simpl; [|done]. by destruct (is_blank s). Qed.

Lemma ensure_run {U} (cond : bool) (msg : str) (k : unit -> Result U IncidentError) :
  try_bind (ensure cond msg) k =
  match first_failure [(cond, msg)] with
  | Some msg => Err (InvalidRequest msg)
  | None => k tt
  end.
Proof. by destruct cond. Qed.

Lemma first_failure_app (l1 l2 : list (bool * str)) :
  first_failure (l1 ++ l2) =
  match first_failure l1 with Some m => Some m | None => first_failure l2 end.
Proof. induction l1 as [|[[] m] l1 IH]; simpl; done. Qed.

Lemma first_failure_None (l : list (bool * str)) :
  first_failure l = None <-> Forall (fun c => c.1 = true) l.
Proof.
  induction l as [|[[] m] l IH]; simpl.
  - done.
  - rewrite IH, Forall_cons. simpl. tauto.
  - rewrite Forall_cons. split; [done|]. by intros [[=] _].
Qed.

(** The request the builder's fields give once every check has passed. *)
Definition request_from (now : Z) (b : IncidentRequestBuilder.t) : IncidentRequest :=
  {| service_key := IncidentRequestBuilder.service_key b;
     title := default [] (IncidentRequestBuilder.title b);
     source := default [] (IncidentRequestBuilder.source b);
     severity := default Lowest (IncidentRequestBuilder.severity b);
     priority := default 1%Z (IncidentRequestBuilder.priority b);
     src_timestamp := effective_timestamp now b;
     component := IncidentRequestBuilder.component b;
     group := IncidentRequestBuilder.group b;
     incident_type := IncidentRequestBuilder.incident_type b;
     details := IncidentRequestBuilder.details b |}.

(** The tests of the source are the declarative checks. *)
Lemma source_length_test (s : str) :
  negb (MAX_SOURCE_LENGTH <? length s)%nat = bool_decide (length s <= 255).
Proof. unfold MAX_SOURCE_LENGTH. case_bool_decide; destruct (Nat.ltb_spec 255 (length s)); simpl; lia || done. Qed.

Lemma priority_test (p : Z) : ((1 <=? p) && (p <=? 5))%Z = bool_decide (1 <= p <= 5)%Z.
Proof. case_bool_decide; lia. Qed.

Lemma timestamp_test (z : Z) : negb (z <=? 0)%Z = bool_decide (0 < z)%Z.
Proof. case_bool_decide; lia. Qed.

(** [build] runs the checks in order and stops at the first that fails. *)
Lemma build_checks (now : Z) (b : IncidentRequestBuilder.t) :
  build now b =
  match first_failure (validation_order now b) with
  | Some msg => Err (InvalidRequest msg)
  | None => Ok (request_from now b)
  end.
Proof.
  unfold build, validation_order. rewrite !first_failure_app.
  rewrite require_non_blank_run. destruct (first_failure (required_checks _ (lit "title"))); [done|].
  rewrite require_non_blank_run. destruct (first_failure (required_checks _ (lit "source"))); [done|].
  rewrite ensure_run, source_length_test. simpl.
  destruct (bool_decide (length _ <= 255)); [simpl|done].
  unfold effective_timestamp.
  destruct (IncidentRequestBuilder.severity b) eqn:Hsev; [simpl|done].
  rewrite ensure_run, priority_test. simpl.
  destruct (bool_decide (1 <= _ <= 5)%Z); [simpl|done].
  rewrite ensure_run, timestamp_test. simpl.
  replace (match IncidentRequestBuilder.src_timestamp b with
           | Some timestamp => timestamp | None => now_millis now end)
    with (default (now_millis now) (IncidentRequestBuilder.src_timestamp b))
    by (by destruct (IncidentRequestBuilder.src_timestamp b)).
  destruct (bool_decide (0 < _)%Z); [simpl|done].
  do 5 (rewrite reject_blank_run; simpl; destruct (blank_opt _); [done|simpl]).
  unfold request_from. by rewrite Hsev.
Qed.

Lemma describes_request_from (now : Z) (b : IncidentRequestBuilder.t) (r : IncidentRequest) :
  is_Some (IncidentRequestBuilder.title b) ->
  is_Some (IncidentRequestBuilder.source b) ->
  is_Some (IncidentRequestBuilder.severity b) ->
  (request_from now b = r <-> describes now b r).
Proof.
  intros [t Ht] [s Hs] [v Hv]. unfold request_from, describes. rewrite Ht, Hs, Hv. simpl. split.
  - intros <-. simpl. done.
  - intros (Et & Es & Ev & -> & -> & -> & -> & -> & -> & ->). destruct r; simpl in *. congruence.
Qed.

(** The checks pass exactly when the described request is well-formed. *)
Lemma checks_pass (now : Z) (b : IncidentRequestBuilder.t) (r : IncidentRequest) :
  describes now b r ->
  (first_failure (validation_order now b) = None <-> request_wf r).
Proof.
  intros (Et & Es & Ev & Ep & Ets & Esk & Ec & Eg & Ei & Ed).
  rewrite first_failure_None. unfold validation_order, required_checks, optional_check.
  rewrite Et, Es, Ev, Ep, Ets, Esk, Ec, Eg, Ei, Ed.
  unfold request_wf, MAX_SOURCE_LENGTH. simpl.
  rewrite !Forall_cons, Forall_nil. simpl.
  rewrite !bool_decide_eq_true, !negb_true_iff.
  split; [tauto|]. intros (? & ? & ? & ? & ? & ? & ? & ? & ? & ?).
  repeat split; eauto; lia.
Qed.

Lemma checks_pass_describes (now : Z) (b : IncidentRequestBuilder.t) :
  first_failure (validation_order now b) = None -> describes now b (request_from now b).
Proof.
  rewrite first_failure_None. unfold validation_order, required_checks. simpl.
  rewrite !Forall_cons. simpl. rewrite !bool_decide_eq_true.
  intros (Ht & _ & Hs & _ & _ & Hv & _). by apply describes_request_from.
Qed.
End HelperLemmas.

(** The builder calls that set every field of [r]. *)
Definition opt_set {B : Type} (set : str -> B -> B) (v : option str) (b : B) : B :=
  match v with Some s => set s b | None => b end.

Definition builder_of (r : IncidentRequest) : IncidentRequestBuilder.t :=
  IncidentRequestBuilder.builder
  |> IncidentRequestBuilder.set_title (title r)
  |> IncidentRequestBuilder.set_source (source r)
  |> IncidentRequestBuilder.set_severity (severity r)
  |> IncidentRequestBuilder.set_priority (priority r)
  |> IncidentRequestBuilder.set_src_timestamp (src_timestamp r)
  |> opt_set IncidentRequestBuilder.set_service_key (service_key r)
  |> opt_set IncidentRequestBuilder.set_component (component r)
  |> opt_set IncidentRequestBuilder.set_group (group r)
  |> opt_set IncidentRequestBuilder.set_incident_type (incident_type r)
  |> opt_set IncidentRequestBuilder.set_details (details r).

Lemma builder_of_describes (now : Z) (r : IncidentRequest) : describes now (builder_of r) r.
Proof.
  unfold describes, builder_of, effective_timestamp.
  destruct r as [[] ? ? ? ? ? [] [] [] []]; simpl; done.
Qed.

(** ** Properties *)

Section Properties.
Context `{ErrorTypes}.

(** C34: [build] succeeds exactly on valid input, and the request it returns is
    the one the builder's fields describe, with priority 1 and the current time
    as the defaults: it holds every field that was set, and satisfies the
    documented limits (title and source not blank, source of at most 255
    chars, priority 1 to 5, a positive timestamp, no blank optional field). *)
Theorem build_ok (now : Z) (b : IncidentRequestBuilder.t) (r : IncidentRequest) :
  build now b = Ok r <-> describes now b r /\ request_wf r.
Proof.
  rewrite build_checks. split.
  - destruct (first_failure _) eqn:Hf; [done|]. intros [= <-].
    pose proof (checks_pass_describes _ _ Hf) as Hd.
    split; [done|]. by apply (checks_pass now b).
  - intros [Hd Hwf]. rewrite (proj2 (checks_pass _ _ _ Hd) Hwf).
    f_equal. pose proof Hd as (Et & Es & Ev & _). by apply describes_request_from; eauto.
Qed.

(** C35: [build] fails exactly when one of the documented checks fails, always
    with [InvalidRequest], and it reports the first failing check in the order
    title, source, source length, severity, priority, timestamp, then the
    optional fields serviceKey, component, group, type and details. *)
Theorem build_err (now : Z) (b : IncidentRequestBuilder.t) (e : IncidentError) :
  build now b = Err e <->
  exists msg, first_failure (validation_order now b) = Some msg /\ e = InvalidRequest msg.
Proof.
  rewrite build_checks. destruct (first_failure _) as [msg|]; split.
  - intros [= <-]. eauto.
  - by intros (m & [= ->] & ->).
  - done.
  - by intros (m & [=] & _).
Qed.

(** Round trip through the builder: setting every field of a well-formed
    request with the builder's setters and calling [build] gives that request
    back, whatever the clock says. Every well-formed request can be built. *)
Lemma rebuild (now : Z) (r : IncidentRequest) :
  request_wf r -> build now (builder_of r) = Ok r.
Proof.
  intros Hwf. pose proof (builder_of_describes now r) as Hd.
  rewrite build_checks, (proj2 (checks_pass _ _ _ Hd) Hwf).
  f_equal. pose proof Hd as (Et & Es & Ev & _). by apply describes_request_from; eauto.
Qed.

(** When no timestamp is set, a request that is built carries the clock
    in whole milliseconds, and the clock was at least one millisecond past the
    epoch and fits an [i64]: a clock before 1970, or one too far in the future,
    makes [build] fail and never sends a nonsensical timestamp. *)
Lemma default_timestamp (now : Z) (b : IncidentRequestBuilder.t) (r : IncidentRequest) :
  IncidentRequestBuilder.src_timestamp b = None ->
  build now b = Ok r ->
  src_timestamp r = (now / 1000000)%Z /\ (1000000 <= now)%Z /\
  (now / 1000000 <= i64_max)%Z.
Proof.
  intros Hts. rewrite build_checks. destruct (first_failure _) eqn:Hf; [done|]. intros [= <-].
  pose proof (proj1 (checks_pass _ _ _ (checks_pass_describes _ _ Hf)) Hf)
    as (_ & _ & _ & _ & Hpos & _).
  revert Hpos. unfold request_from, effective_timestamp. rewrite Hts. simpl.
  unfold now_millis. destruct (Z.ltb_spec now 0); [lia|].
  destruct (i64_try_from _) as [m|] eqn:Hm; simpl; [|lia].
  apply i64_try_from_Some in Hm as [-> Hrange]. intros Hpos.
  repeat split; try lia. pose proof (Z.div_le_upper_bound now 1000000 1). 
  destruct (Z.lt_ge_cases now 1000000); [|lia].
  rewrite Z.div_small in Hpos; lia.
Qed.
End Properties.

(** ** Witnesses *)

Definition sample_builder : IncidentRequestBuilder.t :=
  IncidentRequestBuilder.builder
  |> IncidentRequestBuilder.set_title (lit "Checkout latency")
  |> IncidentRequestBuilder.set_source (lit "checkout-api")
  |> IncidentRequestBuilder.set_severity High.

Definition sample_request (key : option str) : IncidentRequest :=
  {| service_key := key; title := lit "Checkout latency"; source := lit "checkout-api";
     severity := High; priority := 1; src_timestamp := 1700000000000; component := None;
     group := Some (lit "payments"); incident_type := None; details := None |}.

Lemma sample_request_wf (key : option str) :
  blank_opt key = false -> request_wf (sample_request key).
Proof.
  intros Hk. unfold request_wf, sample_request, MAX_SOURCE_LENGTH. simpl.
  repeat split; try done; lia.
Qed.

Lemma rebuild_witness :
  request_wf (sample_request None) /\
  @build unit_errors 0 (builder_of (sample_request None)) = Ok (sample_request None).
Proof.
  split; [by apply sample_request_wf|].
  apply (@rebuild unit_errors 0 (sample_request None)). by apply sample_request_wf.
Defined.

Lemma default_timestamp_witness :
  src_timestamp (request_from 1700000000123456789 sample_builder) = 1700000000123%Z /\
  (1000000 <= 1700000000123456789)%Z /\ (1700000000123456789 / 1000000 <= i64_max)%Z.
Proof.
  apply (@default_timestamp unit_errors 1700000000123456789 sample_builder
           (request_from 1700000000123456789 sample_builder)); vm_compute; reflexivity.
Defined.
