(* ===== verification/Json.v ===== *)
(** * The interface to serde_json

    The SDK uses [serde_json] for two things: escaping the strings of the
    payload ([Value::from(&str).to_string()]) and decoding a response body
    ([from_str] and the [Value] accessors). Its code is not part of the
    repository, so its operations are the fields of a class, and what the SDK
    relies on is the class of laws below, each a documented behaviour of the
    crate. [JsonRef] discharges both classes with an executable reader. *)

From stdpp Require Import prelude list strings.
From S2P Require Import Prelude Error.

Class SerdeJson `{ErrorTypes} := {
  Value : Type;
  Map : Type;
  (** [serde_json::from_str::<Value>] *)
  from_str : str -> Result Value json_error;
  (** [Value::from(&str)] and [Value::to_string] *)
  value_from : str -> Value;
  to_string : Value -> str;
  (** The accessors of [Value] and [Map]. *)
  as_object : Value -> option Map;
  get : Map -> str -> option Value;
  as_bool : Value -> option bool;
  as_i64 : Value -> option Z;
  as_str : Value -> option str;
}.

(** The text of a JSON object whose members are strings, integers and booleans. *)
Inductive Scalar : Type :=
| SString (s : str)
| SInt (n : Z)
| SBool (b : bool).

#[export] Instance Scalar_eq_dec : EqDecision Scalar.
Proof. solve_decision. Defined.

Definition scalar_string (s : Scalar) : option str :=
  match s with SString s => Some s | _ => None end.
Definition scalar_int (s : Scalar) : option Z :=
  match s with SInt n => Some n | _ => None end.
Definition scalar_bool (s : Scalar) : option bool :=
  match s with SBool b => Some b | _ => None end.

Section Text.
Context `{SerdeJson}.

Definition quoted (s : str) : str := to_string (value_from s).

Definition scalar_text (v : Scalar) : str :=
  match v with
  | SString s => quoted s
  | SInt n => display_Z n
  | SBool b => lit (if b then "true" else "false")
  end.

Definition member_text (kv : str * Scalar) : str :=
  quoted kv.1 ++ lit ":" ++ scalar_text kv.2.

Definition object_text (members : list (str * Scalar)) : str :=
  lit "{" ++ join (lit ",") (map member_text members) ++ lit "}".

(** [v] is what the reader makes of [s]: an accessor answers on a value of its
    own kind, and on no other. *)
Definition reads_as (s : Scalar) (v : Value) : Prop :=
  as_str v = scalar_string s /\ as_i64 v = scalar_int s /\ as_bool v = scalar_bool s.

Definition scalar_wf (s : Scalar) : Prop :=
  match s with
  | SInt n => (i64_min <= n <= i64_max)%Z
  | _ => True
  end.
End Text.

(** What the SDK relies on. *)
Class SerdeJsonLaws `{SerdeJson} : Prop := {
  (** [as_i64] returns an [i64]. *)
  as_i64_range : forall (v : Value) (n : Z), as_i64 v = Some n -> (i64_min <= n <= i64_max)%Z;
  (** Reading back an object of distinct keys gives each member's value, and
      nothing for any other key. *)
  from_object_text : forall members : list (str * Scalar),
    NoDup (map fst members) ->
    Forall (fun kv => scalar_wf kv.2) members ->
    exists (v : Value) (m : Map),
      from_str (object_text members) = Ok v /\ as_object v = Some m /\
      (forall k, match assoc k members with
                 | Some s => exists w, get m k = Some w /\ reads_as s w
                 | None => get m k = None
                 end);
}.
