(* ===== verification/JsonRef.v ===== *)
(** * A reference JSON reader

    An executable instance of the [SerdeJson] interface, with a proof of its
    laws: the writer escapes strings as the payload tests expect, and the reader
    is a recursive-descent parser of JSON texts (escapes of a single UTF-16 unit
    only, fractions kept as opaque text). It models no code of the repository;
    it shows that the laws the other files assume can hold together, and lets
    the witnesses run the model on concrete texts. *)

From stdpp Require Import prelude list strings.
From Stdlib Require Import DecimalString DecimalZ.
From S2P Require Import Prelude Error Json.

Inductive json : Type :=
| JNull
| JBool (b : bool)
| JInt (n : Z)
| JFloat (text : str)
| JStr (s : str)
| JArr (l : list json)
| JObj (l : list (str * json)).

(** ** Writing strings *)

Definition hex_digit (n : N) : char := if (n <? 10)%N then (48 + n)%N else (87 + n)%N.

Definition escape_char (c : char) : str :=
  if (c =? 34)%N then [92; 34]%N
  else if (c =? 92)%N then [92; 92]%N
  else if (c =? 8)%N then [92; 98]%N
  else if (c =? 9)%N then [92; 116]%N
  else if (c =? 10)%N then [92; 110]%N
  else if (c =? 12)%N then [92; 102]%N
  else if (c =? 13)%N then [92; 114]%N
  else if (c <? 32)%N then [92; 117; 48; 48; hex_digit (c / 16); hex_digit (c mod 16)]%N
  else [c].

Definition write_string (s : str) : str := dquote :: flat_map escape_char s ++ [dquote].

(** ** Reading *)

Definition is_json_space (c : char) : bool := ((c =? 32) || (c =? 9) || (c =? 10) || (c =? 13))%N.

Fixpoint skip_ws (s : str) : str :=
  match s with
  | c :: s' => if is_json_space c then skip_ws s' else s
  | [] => []
  end.

Definition unhex (c : char) : option N :=
  if ((48 <=? c) && (c <=? 57))%N then Some (c - 48)%N
  else if ((97 <=? c) && (c <=? 102))%N then Some (c - 87)%N
  else if ((65 <=? c) && (c <=? 70))%N then Some (c - 55)%N
  else None.

Definition unhex4 (a b c d : char) : option char :=
  match unhex a, unhex b, unhex c, unhex d with
  | Some a, Some b, Some c, Some d =>
      let u := (4096 * a + 256 * b + 16 * c + d)%N in
      if ((55296 <=? u) && (u <=? 57343))%N then None else Some u
  | _, _, _, _ => None
  end.

Definition unescape (c : char) : option char :=
  match c with
  | 34%N => Some 34%N
  | 92%N => Some 92%N
  | 47%N => Some 47%N
  | 98%N => Some 8%N
  | 116%N => Some 9%N
  | 110%N => Some 10%N
  | 102%N => Some 12%N
  | 114%N => Some 13%N
  | _ => None
  end.

Definition push_char (c : option char) (r : option (str * str)) : option (str * str) :=
  match c, r with
  | Some c, Some (s, rest) => Some (c :: s, rest)
  | _, _ => None
  end.

(** The chars of a string literal, up to and with the closing quote. *)
Fixpoint read_chars (s : str) : option (str * str) :=
  match s with
  | [] => None
  | c :: s =>
      if (c =? 34)%N then Some ([], s)
      else if (c =? 92)%N then
        match s with
        | 117%N :: h1 :: h2 :: h3 :: h4 :: s => push_char (unhex4 h1 h2 h3 h4) (read_chars s)
        | e :: s => push_char (unescape e) (read_chars s)
        | [] => None
        end
      else if (c <? 32)%N then None
      else push_char (Some c) (read_chars s)
  end.

Definition is_number_char (c : char) : bool :=
  (((48 <=? c) && (c <=? 57)) || (c =? 43) || (c =? 45) || (c =? 46) || (c =? 69) || (c =? 101))%N.

Fixpoint span_number (s : str) : str * str :=
  match s with
  | c :: s' => if is_number_char c then let '(t, rest) := span_number s' in (c :: t, rest) else ([], s)
  | [] => ([], [])
  end.

Fixpoint unlit (s : str) : string :=
  match s with
  | [] => EmptyString
  | c :: s => String (Ascii.ascii_of_N c) (unlit s)
  end.

Definition read_number (s : str) : option (json * str) :=
  match span_number s with
  | ([], _) => None
  | (t, rest) =>
      match NilZero.int_of_string (unlit t) with
      | Some i => Some (JInt (Z.of_int i), rest)
      | None => Some (JFloat t, rest)
      end
  end.

Fixpoint strip (prefix s : str) : option str :=
  match prefix, s with
  | [], _ => Some s
  | p :: prefix, c :: s => if (p =? c)%N then strip prefix s else None
  | _ :: _, [] => None
  end.

Fixpoint read_value (fuel : nat) (s : str) : option (json * str) :=
  match fuel with
  | 0 => None
  | S fuel =>
      let s := skip_ws s in
      match s with
      | 34%N :: s =>
          match read_chars s with Some (t, rest) => Some (JStr t, rest) | None => None end
      | 123%N :: s =>
          match skip_ws s with
          | 125%N :: rest => Some (JObj [], rest)
          | s => match read_members fuel s with Some (l, rest) => Some (JObj l, rest) | None => None end
          end
      | 91%N :: s =>
          match skip_ws s with
          | 93%N :: rest => Some (JArr [], rest)
          | s => match read_elements fuel s with Some (l, rest) => Some (JArr l, rest) | None => None end
          end
      | 116%N :: _ => match strip (lit "true") s with Some rest => Some (JBool true, rest) | None => None end
      | 102%N :: _ => match strip (lit "false") s with Some rest => Some (JBool false, rest) | None => None end
      | 110%N :: _ => match strip (lit "null") s with Some rest => Some (JNull, rest) | None => None end
      | _ => read_number s
      end
  end
with read_members (fuel : nat) (s : str) : option (list (str * json) * str) :=
  match fuel with
  | 0 => None
  | S fuel =>
      match skip_ws s with
      | 34%N :: s =>
          match read_chars s with
          | Some (k, s) =>
              match skip_ws s with
              | 58%N :: s =>
                  match read_value fuel s with
                  | Some (v, s) =>
                      match skip_ws s with
                      | 44%N :: s =>
                          match read_members fuel s with
                          | Some (l, rest) => Some ((k, v) :: l, rest)
                          | None => None
                          end
                      | 125%N :: rest => Some ([(k, v)], rest)
                      | _ => None
                      end
                  | None => None
                  end
              | _ => None
              end
          | None => None
          end
      | _ => None
      end
  end
with read_elements (fuel : nat) (s : str) : option (list json * str) :=
  match fuel with
  | 0 => None
  | S fuel =>
      match read_value fuel s with
      | Some (v, s) =>
          match skip_ws s with
          | 44%N :: s =>
              match read_elements fuel s with
              | Some (l, rest) => Some (v :: l, rest)
              | None => None
              end
          | 93%N :: rest => Some ([v], rest)
          | _ => None
          end
      | None => None
      end
  end.

(** A text is read with as much fuel as it has chars; trailing chars other than
    white space are refused. *)
Definition read_json (s : str) : Result json unit :=
  match read_value (length s) s with
  | Some (v, rest) => if is_empty (skip_ws rest) then Ok v else Err tt
  | None => Err tt
  end.

(** ** The instance *)

#[export] Instance ref_errors : ErrorTypes := unit_errors.

Definition ref_json_cause : BoxedError := @BoxJson ref_errors tt.
Definition ref_ureq_cause : BoxedError := @BoxUreq ref_errors tt.

(** Later members win, as in a map filled by insertion. *)
Definition json_get (m : list (str * json)) (k : str) : option json := assoc k (rev m).

#[export] Instance ref_json : SerdeJson := {|
  Value := json;
  Map := list (str * json);
  from_str := read_json;
  value_from := JStr;
  to_string v := match v with JStr s => write_string s | _ => [] end;
  as_object v := match v with JObj m => Some m | _ => None end;
  get := json_get;
  as_bool v := match v with JBool b => Some b | _ => None end;
  as_i64 v := match v with JInt n => i64_try_from n | _ => None end;
  as_str v := match v with JStr s => Some s | _ => None end;
|}.

Example ref_reads_envelope :
  read_json ([123; 34]%N ++ lit "code" ++ [34]%N ++ lit " : -201 , " ++ [34]%N ++ lit "ok" ++ [34]%N ++ lit ":true,"
    ++ [34]%N ++ lit "x" ++ [34]%N ++ lit ": [1.5e3, null, {}] } ")
  = Ok (JObj [(lit "code", JInt (-201)); (lit "ok", JBool true);
              (lit "x", JArr [JFloat (lit "1.5e3"); JNull; JObj []])]).
Proof. vm_compute. reflexivity. Qed.

(** ** The laws *)

Lemma unhex_hex_digit (n : N) : (n < 16)%N -> unhex (hex_digit n) = Some n.
Proof.
  intros Hn. unfold hex_digit, unhex.
  destruct (N.ltb_spec n 10).
  - rewrite (proj2 (N.leb_le 48 (48 + n))), (proj2 (N.leb_le (48 + n) 57)) by lia.
    simpl. f_equal. lia.
  - rewrite (proj2 (N.leb_gt (87 + n) 57)), andb_false_r by lia.
    rewrite (proj2 (N.leb_le 97 (87 + n))), (proj2 (N.leb_le (87 + n) 102)) by lia.
    simpl. f_equal. lia.
Qed.

Lemma unhex4_control (c : N) :
  (c < 32)%N -> unhex4 48 48 (hex_digit (c / 16)) (hex_digit (c mod 16)) = Some c.
Proof.
  intros Hc. pose proof (N.div_mod c 16 ltac:(done)). pose proof (N.mod_lt c 16 ltac:(done)).
  assert (c / 16 < 16)%N by (apply N.Div0.div_lt_upper_bound; lia).
  unfold unhex4. rewrite !unhex_hex_digit by done.
  change (unhex 48) with (Some 0%N). cbv beta iota zeta.
  replace (4096 * 0 + 256 * 0 + 16 * (c / 16) + c mod 16)%N with c by lia.
  by rewrite (proj2 (N.leb_gt 55296 c)) by lia.
Qed.

Lemma read_escape (c : char) (tail : str) :
  read_chars (escape_char c ++ tail) = push_char (Some c) (read_chars tail).
Proof.
  unfold escape_char.
  repeat match goal with
  | |- context [(c =? ?k)%N] =>
      lazymatch k with
      | 34%N => destruct (N.eqb_spec c 34) as [->|?]; [reflexivity|]
      | _ => destruct (N.eqb_spec c k) as [->|?]; [reflexivity|]
      end
  end.
  destruct (N.ltb_spec c 32).
  - cbn -[unhex4 hex_digit push_char N.div N.modulo]. by rewrite unhex4_control.
  - cbn -[N.ltb push_char]. rewrite (proj2 (N.eqb_neq c 34)), (proj2 (N.eqb_neq c 92)) by done.
    by rewrite (proj2 (N.ltb_ge c 32)).
Qed.

Lemma read_escaped (s tail : str) :
  read_chars (flat_map escape_char s ++ dquote :: tail) = Some (s, tail).
Proof.
  induction s as [|c s IH]; [done|].
  simpl flat_map. by rewrite <-app_assoc, read_escape, IH.
Qed.

Lemma unlit_lit (s : string) : unlit (lit s) = s.
Proof.
  induction s as [|a s IH]; [done|].
  change (String (Ascii.ascii_of_N (Ascii.N_of_ascii a)) (unlit (lit s)) = String a s).
  by rewrite IH, Ascii.ascii_N_embedding.
Qed.

Lemma lit_cons (a : Ascii.ascii) (s : string) : lit (String a s) = Ascii.N_of_ascii a :: lit s.
Proof. done. Qed.

(** Decimal digits are number chars. *)
Lemma span_uint (d : Decimal.uint) (rest : str) :
  match rest with c :: _ => is_number_char c = false | [] => True end ->
  span_number (lit (NilEmpty.string_of_uint d) ++ rest) = (lit (NilEmpty.string_of_uint d), rest).
Proof.
  intros Hrest. induction d.
  1: { destruct rest as [|c rest]; [done|]. cbv [NilEmpty.string_of_uint lit app span_number]. by rewrite Hrest. }
  all: cbn [NilEmpty.string_of_uint]; rewrite lit_cons, <-app_comm_cons.
  all: match goal with |- span_number (?c :: ?t) = _ =>
    change (span_number (c :: t)) with (let '(u, rest) := span_number t in (c :: u, rest)) end.
  all: by rewrite IHd.
Qed.

Lemma span_display (n : Z) (rest : str) :
  match rest with c :: _ => is_number_char c = false | [] => True end ->
  span_number (display_Z n ++ rest) = (display_Z n, rest).
Proof.
  intros Hrest. unfold display_Z.
  assert (Hu : forall d, span_number (lit (NilZero.string_of_uint d) ++ rest)
                         = (lit (NilZero.string_of_uint d), rest)).
  { intros []; try apply (span_uint _ _ Hrest). apply (span_uint (Decimal.D0 Decimal.Nil) _ Hrest). }
  destruct (Z.to_int n) as [d|d]; [apply Hu|].
  change (lit (NilZero.string_of_int (Decimal.Neg d))) with (45%N :: lit (NilZero.string_of_uint d)).
  change (span_number ((45%N :: lit (NilZero.string_of_uint d)) ++ rest))
    with (let '(t, rest) := span_number (lit (NilZero.string_of_uint d) ++ rest) in (45%N :: t, rest)).
  by rewrite Hu.
Qed.

Lemma read_display (n : Z) (rest : str) :
  match rest with c :: _ => is_number_char c = false | [] => True end ->
  read_number (display_Z n ++ rest) = Some (JInt n, rest).
Proof.
  intros Hrest. unfold read_number. rewrite (span_display n rest Hrest).
  destruct (to_int_not_nil n) as [Hp Hn].
  assert (Hread : NilZero.int_of_string (unlit (display_Z n)) = Some (Z.to_int n))
    by (unfold display_Z; rewrite unlit_lit; by apply NilZero.isi).
  rewrite Hread, DecimalZ.of_to.
  destruct (display_Z n) eqn:Hd; [|done]. 
  exfalso. simpl in Hread. discriminate.
Qed.

(** ** Reading a flat object back *)

Definition json_of (s : Scalar) : json :=
  match s with
  | SString s => JStr s
  | SInt n => JInt n
  | SBool b => JBool b
  end.

Lemma read_value_number (n : nat) (c : char) (s : str) :
  is_number_char c = true -> read_value (S n) (c :: s) = read_number (c :: s).
Proof.
  intros Hc. assert (Hcases : (48 <= c <= 57 \/ c = 43 \/ c = 45 \/ c = 46 \/ c = 69 \/ c = 101)%N).
  { unfold is_number_char in Hc. revert Hc.
    rewrite !orb_true_iff, !andb_true_iff, !N.leb_le, !N.eqb_eq. tauto. }
  destruct Hcases as [Hd|Hcases].
  - assert (Hl : c ∈ [48; 49; 50; 51; 52; 53; 54; 55; 56; 57]%N)
      by (rewrite !elem_of_cons; lia).
    repeat (apply elem_of_cons in Hl as [->|Hl]; [reflexivity|]). by apply not_elem_of_nil in Hl.
  - by destruct Hcases as [->|[->|[->|[->| ->]]]].
Qed.

Lemma display_head (n : Z) : exists c s, display_Z n = c :: s /\ is_number_char c = true.
Proof.
  pose proof (span_display n [] I) as Hspan. rewrite app_nil_r in Hspan.
  destruct (display_Z n) as [|c s] eqn:Hd.
  - pose proof (read_display n [] I) as Hr. rewrite Hd in Hr. done.
  - exists c, s. split; [done|]. simpl in Hspan.
    destruct (is_number_char c); [done|]. discriminate.
Qed.

Lemma read_quoted (n : nat) (s rest : str) :
  read_value (S n) (write_string s ++ rest) = Some (JStr s, rest).
Proof.
  unfold write_string. rewrite <-app_comm_cons, <-app_assoc.
  change (read_value (S n) (dquote :: flat_map escape_char s ++ [dquote] ++ rest))
    with (match read_chars (flat_map escape_char s ++ dquote :: rest) with
          | Some (t, rest) => Some (JStr t, rest) | None => None end).
  by rewrite read_escaped.
Qed.

(** A scalar is read up to a comma or a closing brace. *)
Lemma read_scalar (n : nat) (v : Scalar) (c : char) (rest : str) :
  is_number_char c = false ->
  read_value (S n) (scalar_text v ++ c :: rest) = Some (json_of v, c :: rest).
Proof.
  intros Hc. destruct v as [s|z|b]; simpl scalar_text.
  - apply read_quoted.
  - destruct (display_head z) as (d & t & Hd & Hnum).
    pose proof (read_display z (c :: rest) Hc) as Hr. rewrite Hd in Hr |- *.
    rewrite <-app_comm_cons in Hr |- *. by rewrite read_value_number.
  - by destruct b.
Qed.

(** One step of each reader, on an input whose next char is known. *)
Lemma read_members_step (n : nat) (s : str) :
  read_members (S n) (dquote :: s) =
  match read_chars s with
  | Some (k, s) =>
      match skip_ws s with
      | 58%N :: s =>
          match read_value n s with
          | Some (v, s) =>
              match skip_ws s with
              | 44%N :: s => match read_members n s with
                             | Some (l, rest) => Some ((k, v) :: l, rest)
                             | None => None
                             end
              | 125%N :: rest => Some ([(k, v)], rest)
              | _ => None
              end
          | None => None
          end
      | _ => None
      end
  | None => None
  end.
Proof. done. Qed.

Lemma read_object_step (n : nat) (s : str) :
  read_value (S n) (123%N :: dquote :: s) =
  match read_members n (dquote :: s) with
  | Some (l, rest) => Some (JObj l, rest)
  | None => None
  end.
Proof. done. Qed.

Lemma read_member (n : nat) (k : str) (v : Scalar) (c : char) (rest : str) :
  c = 44%N \/ c = 125%N ->
  read_members (S (S n)) (member_text (k, v) ++ c :: rest) =
  if (c =? 44)%N then
    match read_members (S n) rest with
    | Some (l, rest) => Some ((k, json_of v) :: l, rest)
    | None => None
    end
  else Some ([(k, json_of v)], rest).
Proof.
  intros Hc. unfold member_text, quoted. simpl fst. simpl snd.
  change (to_string (value_from k)) with (write_string k).
  unfold write_string. rewrite <-!app_assoc. rewrite <-app_comm_cons, <-!app_assoc.
  rewrite read_members_step.
  change ([dquote] ++ ?t) with (dquote :: t). rewrite read_escaped.
  change (skip_ws (lit ":" ++ ?s)) with (58%N :: s). cbv iota.
  rewrite read_scalar by (by destruct Hc as [->| ->]).
  by destruct Hc as [->| ->].
Qed.

Lemma read_members_text (members : list (str * Scalar)) (n : nat) (rest : str) :
  members <> [] -> length members < n ->
  read_members n (join (lit ",") (map member_text members) ++ 125%N :: rest) =
  Some (prod_map id json_of <$> members, rest).
Proof.
  revert n. induction members as [|[k v] members IH]; intros n Hne Hn; [done|].
  destruct n as [|[|n]]; [simpl in Hn; lia..|].
  destruct members as [|kv members].
  - simpl join. rewrite read_member by (by right). done.
  - change (join (lit ",") (map member_text ((k, v) :: kv :: members)))
      with (member_text (k, v) ++ lit "," ++ join (lit ",") (map member_text (kv :: members))).
    rewrite <-!app_assoc.
    change (lit "," ++ ?t) with (44%N :: t).
    rewrite read_member by (by left). simpl N.eqb. cbv iota.
    rewrite IH; [done|done|simpl in *; lia].
Qed.

Lemma member_text_length (kv : str * Scalar) : 1 <= length (member_text kv).
Proof. destruct kv as [k v]. unfold member_text. rewrite !length_app. change (length (lit ":")) with 1. lia. Qed.

Lemma join_length (members : list (str * Scalar)) :
  length members <= length (join (lit ",") (map member_text members)).
Proof.
  induction members as [|kv [|kv' members] IH]; [done| |].
  - simpl. apply member_text_length.
  - change (join (lit ",") (map member_text (kv :: kv' :: members)))
      with (member_text kv ++ lit "," ++ join (lit ",") (map member_text (kv' :: members))).
    rewrite !length_app. pose proof (member_text_length kv). simpl length in *. lia.
Qed.

Lemma join_members_head (kv : str * Scalar) (members : list (str * Scalar)) :
  exists t, join (lit ",") (map member_text (kv :: members)) = dquote :: t.
Proof. destruct members; eexists; reflexivity. Qed.

Lemma read_object_text (members : list (str * Scalar)) :
  read_json (object_text members) = Ok (JObj (prod_map id json_of <$> members)).
Proof.
  unfold read_json, object_text.
  destruct members as [|kv members]; [reflexivity|].
  set (ms := kv :: members). set (body := join (lit ",") (map member_text ms)).
  pose proof (join_length ms) as Hlen. fold body in Hlen.
  destruct (join_members_head kv members) as [t Ht]. fold ms body in Ht.
  assert (Hread : read_members (length (body ++ lit "}")) (body ++ lit "}")
                  = Some (prod_map id json_of <$> ms, [])).
  { apply (read_members_text ms); [done|]. rewrite length_app. change (length (lit "}")) with 1. lia. }
  change (length (lit "{" ++ body ++ lit "}")) with (S (length (body ++ lit "}"))).
  change (lit "{" ++ body ++ lit "}") with (123%N :: body ++ lit "}").
  rewrite Ht in Hread |- *. rewrite <-app_comm_cons in Hread |- *.
  rewrite read_object_step.
  by rewrite Hread.
Qed.

Lemma assoc_app {A : Type} (k : str) (l1 l2 : list (str * A)) :
  assoc k (l1 ++ l2) = match assoc k l1 with Some v => Some v | None => assoc k l2 end.
Proof. induction l1 as [|[k' v] l1 IH]; simpl; [done|]. by case_decide. Qed.

Lemma json_get_members (members : list (str * Scalar)) (k : str) :
  NoDup (map fst members) ->
  json_get (prod_map id json_of <$> members) k = json_of <$> assoc k members.
Proof.
  unfold json_get. induction members as [|[k' v] members IH]; [done|].
  intros [Hk' Hnd]%NoDup_cons.
  change (rev (prod_map id json_of <$> (k', v) :: members))
    with (rev (prod_map id json_of <$> members) ++ [(k', json_of v)]).
  rewrite assoc_app, IH by done. simpl.
  case_decide as Hk; [subst k'|].
  - destruct (assoc k members) as [w|] eqn:Hw; [|done].
    exfalso. apply Hk'. apply assoc_Some in Hw. by apply (list_elem_of_fmap_2 fst) in Hw.
  - by destruct (assoc k members).
Qed.

#[export] Instance ref_json_laws : SerdeJsonLaws.
Proof.
  split.
  - intros v n. destruct v; simpl; try done. intros [-> Hr]%i64_try_from_Some. exact Hr.
  - intros members Hnd Hwf.
    exists (JObj (prod_map id json_of <$> members)), (prod_map id json_of <$> members).
    split; [apply read_object_text|]. split; [done|].
    intros k. destruct (assoc k members) as [s|] eqn:Hs.
    + exists (json_of s). split.
      { change (json_get (prod_map id json_of <$> members) k = Some (json_of s)).
        by rewrite json_get_members, Hs. }
      apply assoc_Some in Hs. rewrite Forall_forall in Hwf. specialize (Hwf _ Hs).
      destruct s as [t|z|b]; simpl in *; split_and!; try done.
      simpl. by apply i64_try_from_Some.
    + change (json_get (prod_map id json_of <$> members) k = None).
      by rewrite json_get_members, Hs.
Qed.
