(* ===== verification/Wire.v ===== *)
(** * The wire format (src/rust/src/internal/wire.rs)

    Rendering a request as the JSON payload and decoding a response body. The
    pushes thread the source's two mutable variables, [payload] and [first]. *)

From stdpp Require Import prelude list strings.
From S2P Require Import Prelude Error Severity Response Request Json JsonRef.

Section Wire.
Context `{SerdeJson}.

(** ** Rendering *)

(** The mutable [payload: String] and [first: bool]. *)
Definition Buffer : Type := str * bool.

Definition push_str (s : str) (b : Buffer) : Buffer := (b.1 ++ s, b.2).

Definition push_separator (b : Buffer) : Buffer :=
  let '(payload, first) := b in
  if first then (payload, false) else (payload ++ lit ",", first).

Definition push_string (name value : str) (b : Buffer) : Buffer :=
  push_separator b
  |> push_str (quoted name)
  |> push_str (lit ":")
  |> push_str (quoted value).

Definition push_optional_string (name : str) (value : option str) (b : Buffer) : Buffer :=
  match value with
  | Some value => push_string name value b
  | None => b
  end.

Definition push_number (name : str) (value : Z) (b : Buffer) : Buffer :=
  push_separator b
  |> push_str (quoted name)
  |> push_str (lit ":")
  |> push_str (display_Z value).

Definition serialize_request (request : IncidentRequest) (resolved_service_key : option str) : str :=
  let b := (([], true) : Buffer)
    |> push_str (lit "{")
    |> push_optional_string (lit "serviceKey") resolved_service_key
    |> push_string (lit "title") (title request)
    |> push_string (lit "source") (Request.source request)
    |> push_number (lit "severity") (Severity.value (severity request))
    |> push_number (lit "priority") (priority request)
    |> push_number (lit "srcTimestamp") (src_timestamp request)
    |> push_optional_string (lit "component") (component request)
    |> push_optional_string (lit "group") (group request)
    |> push_optional_string (lit "type") (incident_type request)
    |> push_optional_string (lit "detailsJSON") (details request)
    |> push_str (lit "}") in
  b.1.

(** ** Decoding *)

Definition status_text (prefix : string) (http_status : Z) : str :=
  lit prefix ++ display_Z http_status ++ lit ")".

(** [object.get(key).and_then(accessor)] *)
Definition get_as {A : Type} (accessor : Value -> option A) (object : Map) (key : string) : option A :=
  get object (lit key) ≫= accessor.

Definition parse_response (http_status : Z) (body : str) : Result IncidentResponse IncidentError :=
  let successful := range_contains 200 300 http_status in
  if is_blank body then Ok (IncidentResponse_new successful http_status None None)
  else
    let? parsed := map_err
      (fun cause => delivery_caused_by
        (status_text "Oppex returned a non-JSON response (status " http_status)
        http_status false (BoxJson cause))
      (from_str body) in
    match as_object parsed with
    | None => Err (delivery
        (status_text "Oppex returned a non-object JSON response (status " http_status)
        http_status false)
    | Some object => Ok (IncidentResponse_new
        (default successful (get_as as_bool object "success"))
        (default http_status (get_as as_i64 object "code" ≫= i32_try_from))
        (get_as as_str object "message")
        (get_as as_str object "data"))
    end.

(** ** Specification *)

(** The members of the payload, in wire order; an absent optional is omitted. *)
Definition opt_member (name : string) (value : option str) : list (str * Scalar) :=
  match value with
  | Some s => [(lit name, SString s)]
  | None => []
  end.

Definition payload_members (request : IncidentRequest) (key : option str) : list (str * Scalar) :=
  opt_member "serviceKey" key
  ++ [(lit "title", SString (title request));
      (lit "source", SString (Request.source request));
      (lit "severity", SInt (Severity.value (severity request)));
      (lit "priority", SInt (priority request));
      (lit "srcTimestamp", SInt (src_timestamp request))]
  ++ opt_member "component" (component request)
  ++ opt_member "group" (group request)
  ++ opt_member "type" (incident_type request)
  ++ opt_member "detailsJSON" (details request).

(** Every key the payload may have, in wire order. *)
Definition wire_names : list str :=
  map lit ["serviceKey"; "title"; "source"; "severity"; "priority"; "srcTimestamp";
           "component"; "group"; "type"; "detailsJSON"]%string.

(** A decoded object has the given value under a key, or does not have the key. *)
Definition field_is (m : Map) (name : string) (v : option Scalar) : Prop :=
  match v with
  | Some s => exists w, get m (lit name) = Some w /\ reads_as s w
  | None => get m (lit name) = None
  end.

(** A decoded object is the payload of request [r] sent with service key [key]. *)
Definition decodes_to (m : Map) (r : IncidentRequest) (key : option str) : Prop :=
  field_is m "serviceKey" (SString <$> key) /\
  field_is m "title" (Some (SString (title r))) /\
  field_is m "source" (Some (SString (Request.source r))) /\
  field_is m "severity" (Some (SInt (Severity.value (severity r)))) /\
  field_is m "priority" (Some (SInt (priority r))) /\
  field_is m "srcTimestamp" (Some (SInt (src_timestamp r))) /\
  field_is m "component" (SString <$> component r) /\
  field_is m "group" (SString <$> group r) /\
  field_is m "type" (SString <$> incident_type r) /\
  field_is m "detailsJSON" (SString <$> details r) /\
  (forall k, k ∉ wire_names -> get m k = None).

(** The buffer after some members have been pushed. *)
Definition buffer_of (members : list (str * Scalar)) : Buffer :=
  (lit "{" ++ join (lit ",") (map member_text members),
   match members with [] => true | _ => false end).

Lemma join_snoc (sep : str) (l : list str) (x : str) :
  join sep (l ++ [x]) = match l with [] => x | _ => join sep l ++ sep ++ x end.
Proof.
  induction l as [|y l IH]; [done|].
  destruct l as [|z l]; [done|].
  change (join sep ((y :: z :: l) ++ [x])) with (y ++ sep ++ join sep ((z :: l) ++ [x])).
  rewrite IH. change (join sep (y :: z :: l)) with (y ++ sep ++ join sep (z :: l)).
  by rewrite <-!app_assoc.
Qed.

Lemma buffer_of_snoc (members : list (str * Scalar)) (kv : str * Scalar) :
  buffer_of (members ++ [kv]) =
  (push_separator (buffer_of members) |> push_str (member_text kv)).
Proof.
  unfold buffer_of, push_str, push_separator.
  rewrite map_app. simpl map. rewrite join_snoc.
  destruct members as [|m members]; simpl; [done|]. f_equal. by rewrite <-!app_assoc.
Qed.

Lemma push_str_app (s t : str) (b : Buffer) : push_str t (push_str s b) = push_str (s ++ t) b.
Proof. unfold push_str. simpl. by rewrite <-app_assoc. Qed.

Lemma push_string_snoc (name : string) (value : str) (members : list (str * Scalar)) :
  push_string (lit name) value (buffer_of members) =
  buffer_of (members ++ [(lit name, SString value)]).
Proof. unfold push_string. by rewrite buffer_of_snoc, !push_str_app. Qed.

Lemma push_number_snoc (name : string) (value : Z) (members : list (str * Scalar)) :
  push_number (lit name) value (buffer_of members) =
  buffer_of (members ++ [(lit name, SInt value)]).
Proof. unfold push_number. by rewrite buffer_of_snoc, !push_str_app. Qed.

Lemma push_optional_snoc (name : string) (value : option str) (members : list (str * Scalar)) :
  push_optional_string (lit name) value (buffer_of members) =
  buffer_of (members ++ opt_member name value).
Proof. destruct value as [s|]; simpl; [apply push_string_snoc|by rewrite app_nil_r]. Qed.
End Wire.

#[export] Hint Rewrite @push_string_snoc @push_number_snoc @push_optional_snoc : rust_str.

(** ** Lemmas on the payload's members *)

Section Members.
Context `{SerdeJson}.

Lemma serialize_members (r : IncidentRequest) (key : option str) :
  serialize_request r key = object_text (payload_members r key).
Proof.
  unfold serialize_request.
  change ((([], true) : Buffer) |> push_str (lit "{")) with (buffer_of []).
  autorewrite with rust_str. unfold payload_members, object_text.
  rewrite app_nil_l, <-!app_assoc. simpl.
  unfold buffer_of. simpl. by rewrite <-?app_assoc.
Qed.

Lemma payload_keys_nodup (r : IncidentRequest) (key : option str) :
  NoDup (map fst (payload_members r key)).
Proof.
  destruct r as [? ? ? ? ? ? [] [] [] []], key;
    apply (bool_decide_unpack _); vm_compute; exact I.
Qed.

Lemma payload_keys_wire (r : IncidentRequest) (key : option str) :
  map fst (payload_members r key) ⊆ wire_names.
Proof.
  destruct r as [? ? ? ? ? ? [] [] [] []], key;
    apply (bool_decide_unpack _); vm_compute; exact I.
Qed.

(** A request whose timestamp is an [i64] has members the reader can read. *)
Lemma payload_members_wf (r : IncidentRequest) (key : option str) :
  request_wf r -> (src_timestamp r <= i64_max)%Z ->
  Forall (fun kv => scalar_wf kv.2) (payload_members r key).
Proof.
  intros (_ & _ & _ & Hp & Hts & _) Hmax. pose proof (value_bounds (severity r)).
  unfold payload_members, i64_max in *.
  rewrite !Forall_app, !Forall_cons, Forall_nil. simpl.
  unfold i64_min, i64_max.
  repeat split; try lia;
    match goal with |- Forall _ (opt_member _ ?v) => destruct v; by repeat constructor end.
Qed.

Context {laws : SerdeJsonLaws}.

Lemma payload_reads (r : IncidentRequest) (key : option str) :
  request_wf r -> (src_timestamp r <= i64_max)%Z ->
  exists (v : Value) (m : Map),
    from_str (serialize_request r key) = Ok v /\ as_object v = Some m /\ decodes_to m r key.
Proof.
  intros Hwf Hmax.
  destruct (from_object_text (payload_members r key)) as (v & m & Hv & Hm & Hget);
    [apply payload_keys_nodup|by apply payload_members_wf|].
  exists v, m. rewrite serialize_members. split; [done|]. split; [done|].
  assert (Hfield : forall name s, assoc (lit name) (payload_members r key) = s -> field_is m name s).
  { intros name s Hs. specialize (Hget (lit name)). rewrite Hs in Hget. by destruct s. }
  unfold decodes_to. split_and!; try apply Hfield.
  1-10: by destruct r as [? ? ? ? ? ? [] [] [] []], key.
  intros k Hk. specialize (Hget k). destruct (assoc k _) as [s|] eqn:Hs; [|done].
  exfalso. apply Hk, (payload_keys_wire r key). apply assoc_Some in Hs.
  apply (list_elem_of_fmap_2 fst) in Hs. exact Hs.
Qed.

(** An object has at most one string, and at most one integer, under a key. *)
Lemma field_is_string_inj (m : Map) (name : string) (a b : option str) :
  field_is m name (SString <$> a) -> field_is m name (SString <$> b) -> a = b.
Proof.
  destruct a, b; simpl; [intros (w & Hw & Ha & _) (w' & Hw' & Hb & _)|
    intros (w & Hw & Ha) Hb|intros Ha (w & Hw & Hb)|done]; simpl in *; congruence.
Qed.

Lemma field_is_int_inj (m : Map) (name : string) (a b : Z) :
  field_is m name (Some (SInt a)) -> field_is m name (Some (SInt b)) -> a = b.
Proof. intros (w & Hw & _ & Ha & _) (w' & Hw' & _ & Hb & _). simpl in *. congruence. Qed.
End Members.

(** ** Decoding lemmas *)

(** The member [key] of an envelope, when it is of the expected kind. *)
Definition member_as {A : Type} (kind : Scalar -> option A) (members : list (str * Scalar))
    (key : string) : option A :=
  assoc (lit key) members ≫= kind.

(** What the envelope's members say, with the HTTP status as the fallback. *)
Definition envelope_response (http_status : Z) (members : list (str * Scalar)) : IncidentResponse :=
  IncidentResponse_new
    (default (range_contains 200 300 http_status) (member_as scalar_bool members "success"))
    (default http_status (member_as scalar_int members "code" ≫= i32_try_from))
    (member_as scalar_string members "message")
    (member_as scalar_string members "data").

Section Decoding.
Context `{SerdeJson}.

Definition non_json_text (http_status : Z) : str :=
  status_text "Oppex returned a non-JSON response (status " http_status.
Definition non_object_text (http_status : Z) : str :=
  status_text "Oppex returned a non-object JSON response (status " http_status.

Lemma object_text_not_blank (members : list (str * Scalar)) :
  is_blank (object_text members) = false.
Proof. apply is_blank_false, Exists_cons. by left. Qed.

Lemma parse_response_err_cases (http_status : Z) (body : str) (e : IncidentError) :
  parse_response http_status body = Err e ->
  is_blank body = false /\
  ((exists cause, from_str body = Err cause /\
      e = Delivery (non_json_text http_status) http_status false (Some (BoxJson cause))) \/
   (exists v, from_str body = Ok v /\ as_object v = None /\
      e = Delivery (non_object_text http_status) http_status false None)).
Proof.
  unfold parse_response. destruct (is_blank body); [done|].
  destruct (from_str body) as [v|cause] eqn:Hfrom; simpl.
  - destruct (as_object v) eqn:Hobj; [done|]. intros [= <-]. split; [done|]. right. eauto.
  - intros [= <-]. split; [done|]. left. eauto.
Qed.

Context {laws : SerdeJsonLaws}.

Lemma parse_object_text (http_status : Z) (members : list (str * Scalar)) :
  NoDup (map fst members) -> Forall (fun kv => scalar_wf kv.2) members ->
  parse_response http_status (object_text members) = Ok (envelope_response http_status members).
Proof.
  intros Hnd Hwf. unfold parse_response. rewrite object_text_not_blank.
  destruct (from_object_text members Hnd Hwf) as (v & m & -> & Hm & Hget).
  simpl. rewrite Hm. unfold envelope_response.
  assert (Hfield : forall (A : Type) (acc : Value -> option A) (sc : Scalar -> option A) (k : string),
    (forall s w, reads_as s w -> acc w = sc s) ->
    get_as acc m k = member_as sc members k).
  { intros A acc sc k Hacc. unfold get_as, member_as. specialize (Hget (lit k)).
    destruct (assoc (lit k) members) as [s|].
    - destruct Hget as (w & -> & Hw). simpl. by apply Hacc.
    - by rewrite Hget. }
  rewrite (Hfield _ as_bool scalar_bool), (Hfield _ as_i64 scalar_int),
    !(Hfield _ as_str scalar_string); [done|..]; by intros s w (? & ? & ?).
Qed.
End Decoding.

(** ** Properties *)

Section Properties.
Context `{SerdeJson}.

(** C36: The payload the pushes build, separator flag and all, is the reference
    rendering: one JSON object whose members are the request's fields in the
    agreed wire order (a sublist of the ten agreed names), each key and string
    escaped by serde_json, with an absent optional field left out. *)
Theorem serialize_is_reference (r : IncidentRequest) (key : option str) :
  serialize_request r key = object_text (payload_members r key) /\
  map fst (payload_members r key) `sublist_of` wire_names.
Proof.
  split; [apply serialize_members|].
  destruct r as [? ? ? ? ? ? [] [] [] []], key;
    repeat first [apply sublist_nil|apply sublist_skip|apply sublist_cons].
Qed.

(** A response body that is refused is refused with a message that depends
    on the HTTP status alone, never on the body, so nothing a proxy echoes into
    its error page can reach the message; the error keeps the status and is not
    retryable, and a blank body is never refused. *)
Lemma parse_response_no_echo (http_status : Z) (body : str) (e : IncidentError) :
  parse_response http_status body = Err e ->
  is_blank body = false /\ is_retryable e = false /\
  (fmt_error e = non_json_text http_status \/ fmt_error e = non_object_text http_status) /\
  (http_status <> NO_STATUS_CODE -> status_code e = Some http_status).
Proof.
  intros (Hb & Hcases)%parse_response_err_cases. split; [done|].
  assert (Hcode : forall m src, http_status <> NO_STATUS_CODE ->
    status_code (Delivery m http_status false src) = Some http_status)
    by (intros m src Hne; apply status_code_Some; eauto 6).
  destruct Hcases as [(cause & _ & ->)|(v & _ & _ & ->)].
  - split; [done|]. split; [by left|apply Hcode].
  - split; [done|]. split; [by right|apply Hcode].
Qed.

Context {laws : SerdeJsonLaws}.

(** C7: Round trip: reading the payload back as JSON gives exactly the request:
    an object with every wire field under its agreed name, the resolved service
    key under serviceKey, no entry at all for an absent optional field, and no
    entry under any other name. *)
Theorem payload_roundtrip (r : IncidentRequest) (key : option str) :
  request_wf r -> (src_timestamp r <= i64_max)%Z ->
  exists (v : Value) (m : Map),
    from_str (serialize_request r key) = Ok v /\ as_object v = Some m /\ decodes_to m r key.
Proof. apply payload_reads. Qed.

(** The payload determines what was reported: two well-formed requests with
    the same payload have the same resolved service key and agree on every
    field that is sent. *)
Lemma payload_injective (r1 r2 : IncidentRequest) (k1 k2 : option str) :
  request_wf r1 -> (src_timestamp r1 <= i64_max)%Z ->
  request_wf r2 -> (src_timestamp r2 <= i64_max)%Z ->
  serialize_request r1 k1 = serialize_request r2 k2 ->
  k1 = k2 /\ title r1 = title r2 /\ Request.source r1 = Request.source r2 /\
  severity r1 = severity r2 /\ priority r1 = priority r2 /\
  src_timestamp r1 = src_timestamp r2 /\ component r1 = component r2 /\
  group r1 = group r2 /\ incident_type r1 = incident_type r2 /\ details r1 = details r2.
Proof.
  intros W1 M1 W2 M2 Heq.
  destruct (payload_reads r1 k1 W1 M1) as (v1 & m1 & Hv1 & Hm1 & D1).
  destruct (payload_reads r2 k2 W2 M2) as (v2 & m2 & Hv2 & Hm2 & D2).
  rewrite Heq, Hv2 in Hv1. injection Hv1 as <-. rewrite Hm2 in Hm1. injection Hm1 as <-.
  destruct D1 as (A1 & A2 & A3 & A4 & A5 & A6 & A7 & A8 & A9 & A10 & _).
  destruct D2 as (B1 & B2 & B3 & B4 & B5 & B6 & B7 & B8 & B9 & B10 & _).
  split_and!; try (by eapply field_is_string_inj); try (by eapply field_is_int_inj).
  - by apply (inj Some), (field_is_string_inj m2 "title").
  - by apply (inj Some), (field_is_string_inj m2 "source").
  - pose proof (field_is_int_inj _ _ _ _ A4 B4). by destruct (severity r1), (severity r2).
Qed.

(** C37: Decoding an envelope: whatever the order of its members and whichever
    other members it has, success, code, message and data are read from the
    body when they have the right JSON type (and code fits an [i32]), and
    otherwise success defaults to "2xx", code to the HTTP status, and the two
    strings to absent. *)
Theorem parse_envelope (http_status : Z) (members : list (str * Scalar)) :
  NoDup (map fst members) -> Forall (fun kv => scalar_wf kv.2) members ->
  parse_response http_status (object_text members) = Ok (envelope_response http_status members).
Proof. apply parse_object_text. Qed.

(** For any HTTP status and any body, the code of a decoded response is an
    [i32], even where the body's own code is out of range. *)
Lemma parse_response_code_range (http_status : Z) (body : str) (r : IncidentResponse) :
  (i32_min <= http_status <= i32_max)%Z ->
  parse_response http_status body = Ok r -> response_wf r.
Proof.
  intros Hst. unfold parse_response. destruct (is_blank body); [by intros [= <-]|].
  destruct (from_str body) as [v|]; simpl; [|done].
  destruct (as_object v) as [m|]; [|done]. intros [= <-]. unfold response_wf. simpl.
  destruct (get_as as_i64 m "code" ≫= i32_try_from) as [n|] eqn:Hc; simpl; [|done].
  apply bind_Some in Hc as (n' & _ & Hn). by apply i32_try_from_Some in Hn as [-> ?].
Qed.
End Properties.

(** ** Witnesses, run with the reference reader *)

Definition sample_envelope : list (str * Scalar) :=
  [(lit "data", SString (lit "INC-1")); (lit "success", SBool true);
   (lit "trace", SString (lit "x")); (lit "code", SInt 201)].

Lemma payload_roundtrip_witness :
  request_wf (sample_request None) /\
  exists v m,
    from_str (serialize_request (sample_request None) (Some (lit "key"))) = Ok v /\
    as_object v = Some m /\ decodes_to m (sample_request None) (Some (lit "key")).
Proof.
  split; [by apply sample_request_wf|].
  apply (payload_roundtrip (sample_request None) (Some (lit "key"))); [by apply sample_request_wf|].
  unfold i64_max. simpl. lia.
Defined.

Lemma payload_injective_witness :
  serialize_request (sample_request (Some (lit "own"))) (Some (lit "key")) =
  serialize_request (sample_request None) (Some (lit "key")) /\
  title (sample_request (Some (lit "own"))) = title (sample_request None).
Proof.
  split; [vm_compute; reflexivity|].
  apply (payload_injective (sample_request (Some (lit "own"))) (sample_request None)
           (Some (lit "key")) (Some (lit "key")));
    try (by apply sample_request_wf); try (unfold i64_max; simpl; lia).
  vm_compute. reflexivity.
Defined.

Lemma parse_envelope_witness :
  parse_response 503 (object_text sample_envelope) =
  Ok (IncidentResponse_new true 201 None (Some (lit "INC-1"))).
Proof.
  apply (parse_envelope 503 sample_envelope).
  - apply (bool_decide_unpack _). vm_compute. exact I.
  - repeat constructor; unfold i64_min, i64_max; simpl; lia.
Defined.

Lemma parse_response_no_echo_witness :
  fmt_error (Delivery (non_json_text 502) 502 false (Some ref_json_cause)) = non_json_text 502 \/
  fmt_error (Delivery (non_json_text 502) 502 false (Some ref_json_cause)) = non_object_text 502.
Proof.
  apply (parse_response_no_echo 502 (lit "<html>X-API-KEY: super-secret</html>")
           (Delivery (non_json_text 502) 502 false (Some ref_json_cause))).
  vm_compute. reflexivity.
Defined.

Lemma parse_response_code_range_witness :
  response_wf (IncidentResponse_new true 202 None None).
Proof.
  apply (parse_response_code_range 202 (lit "   ") (IncidentResponse_new true 202 None None)).
  - unfold i32_min, i32_max. lia.
  - vm_compute. reflexivity.
Defined.
