(* ===== verification/Interrupt.v ===== *)
(** * The one-way interrupt (src/rust/src/internal/interrupt.rs)

    A flag behind a mutex and the condition variable its waiters sleep on. Every
    access to the flag is made with the mutex held, so what a thread does between
    taking the lock and giving it back (returning, or starting to wait) is one
    step of the system; a waiting thread can be woken by the signal, by the end
    of its time, or for no reason at all. *)

From stdpp Require Import prelude list relations.
From S2P Require Import Prelude.

(** ** Threads *)

(** Where a thread that called [signal] or [wait] is. A [wait] remembers its
    [duration] and the instant [start] at which [wait_timeout_while] began. *)
Inductive pc : Type :=
| SignalCall
| SignalDone
| WaitCall (duration : Z)
| Waiting (duration start : Z)
| Woken (duration start : Z)
| WaitDone (result : bool) (duration start finish : Z).

(** [signal_time] is a ghost: the instant of the first signal, if any. *)
Record Sys : Type := mkSys {
  signalled : bool;
  signal_time : option Z;
  clock : Z;
  threads : list pc;
}.

Definition set_threads (l : list pc) (s : Sys) : Sys :=
  mkSys (signalled s) (signal_time s) (clock s) l.

Definition set_thread (i : nat) (p : pc) (s : Sys) : Sys :=
  set_threads (<[i := p]> (threads s)) s.

(** [notify_all]: every thread in the wait set must take the lock again. *)
Definition wake (p : pc) : pc :=
  match p with
  | Waiting duration start => Woken duration start
  | p => p
  end.

(** ** Critical sections *)

(** [Interrupt::new] *)
Definition new : bool := false.

(** [signal]: the lock is held while the flag is set and the waiters notified. *)
Definition signal (i : nat) (s : Sys) : Sys :=
  set_thread i SignalDone
    (mkSys true (Some (default (clock s) (signal_time s))) (clock s) (wake <$> threads s)).

(** One turn of the loop of [wait_timeout_while(signalled, duration, |s| !*s)]:
    return when the flag is set, or when more than [duration] has elapsed;
    otherwise release the lock and wait for the time that is left. *)
Definition check (now duration start : Z) (flag : bool) : pc :=
  if flag then WaitDone flag duration start now
  else if (duration <? saturating_duration_since now start)%Z then WaitDone flag duration start now
  else Waiting duration start.

(** [wait]: the clock is read with the lock held, then the loop is entered. *)
Definition wait_begin (i : nat) (duration : Z) (s : Sys) : Sys :=
  set_thread i (check (clock s) duration (clock s) (signalled s)) s.

Definition wait_again (i : nat) (duration start : Z) (s : Sys) : Sys :=
  set_thread i (check (clock s) duration start (signalled s)) s.

(** ** The system *)

Inductive step : Sys -> Sys -> Prop :=
| step_call (s : Sys) (p : pc) :
    p = SignalCall \/ (exists d, p = WaitCall d) ->
    step s (set_threads (threads s ++ [p]) s)
| step_tick (s : Sys) (d : Z) :
    (0 <= d)%Z -> step s (mkSys (signalled s) (signal_time s) (clock s + d) (threads s))
| step_signal (s : Sys) (i : nat) :
    threads s !! i = Some SignalCall -> step s (signal i s)
| step_wait (s : Sys) (i : nat) (d : Z) :
    threads s !! i = Some (WaitCall d) -> step s (wait_begin i d s)
| step_again (s : Sys) (i : nat) (d start : Z) :
    threads s !! i = Some (Woken d start) -> step s (wait_again i d start s)
| step_timeout (s : Sys) (i : nat) (d start : Z) :
    threads s !! i = Some (Waiting d start) -> (start + d <= clock s)%Z ->
    step s (set_thread i (Woken d start) s)
| step_spurious (s : Sys) (i : nat) (d start : Z) :
    threads s !! i = Some (Waiting d start) ->
    step s (set_thread i (Woken d start) s).

Definition init (t : Z) : Sys := mkSys new None t [].

Definition reachable (s : Sys) : Prop := exists t, rtc step (init t) s.

(** ** What a completed wait promises *)

(** The contract of a [wait(duration)] that began at [start] and returned
    [result] at [finish], when the interrupt is first signalled at
    [signal_time]: [true] means a signal came by the end of the wait, and
    [false] means that none came before it ended and that it lasted for at
    least the whole duration. *)
Definition wait_contract (signal_time : option Z) (duration start finish : Z) (result : bool) : Prop :=
  (start <= finish)%Z /\
  (if result then exists t, signal_time = Some t /\ (t <= finish)%Z
   else (start + duration <= finish)%Z /\
        forall t, signal_time = Some t -> (finish <= t)%Z).

(** ** Invariant *)

Definition thread_ok (s : Sys) (p : pc) : Prop :=
  match p with
  | Waiting _ start => signalled s = false /\ (start <= clock s)%Z
  | Woken _ start => (start <= clock s)%Z
  | WaitDone result duration start finish =>
      (finish <= clock s)%Z /\ wait_contract (signal_time s) duration start finish result
  | _ => True
  end.

Definition inv (s : Sys) : Prop :=
  signalled s = bool_decide (is_Some (signal_time s)) /\
  (forall t, signal_time s = Some t -> (t <= clock s)%Z) /\
  (forall i p, threads s !! i = Some p -> thread_ok s p).

Lemma inv_init (t : Z) : inv (init t).
Proof. split_and!; [done|done|]. intros i p Hi. by apply lookup_nil_Some in Hi || done. Qed.

Lemma check_ok (s : Sys) (d start : Z) :
  inv s -> (start <= clock s)%Z -> thread_ok s (check (clock s) d start (signalled s)).
Proof.
  intros (Hflag & Hsig & _) Hstart. unfold check.
  destruct (signalled s) eqn:Hs.
  - simpl. split; [lia|]. split; [done|].
    symmetry in Hflag. apply bool_decide_eq_true in Hflag as [t Ht]. eauto.
  - unfold saturating_duration_since. destruct (Z.ltb_spec d (Z.max 0 (clock s - start))); simpl.
    + split; [lia|]. split; [done|]. split; [lia|].
      intros t Ht. rewrite Ht in Hflag. by rewrite bool_decide_eq_true_2 in Hflag by eauto.
    + done.
Qed.

(** A change of one thread preserves the invariant when the new state of the
    thread is justified. *)
Lemma inv_set_thread (i : nat) (p : pc) (s : Sys) :
  inv s -> thread_ok s p -> inv (set_thread i p s).
Proof.
  intros (Hflag & Hsig & Hthr) Hp. split_and!; [done|done|].
  intros j q Hj. change (thread_ok s q). change (<[i := p]> (threads s) !! j = Some q) in Hj.
  destruct (decide (i = j)) as [<-|Hne].
  - apply list_lookup_insert_Some in Hj as [(_ & <- & _)|(Hne & _)]; done.
  - rewrite list_lookup_insert_ne in Hj by done. eauto.
Qed.

Lemma inv_signal (i : nat) (s : Sys) : inv s -> inv (signal i s).
Proof.
  intros (Hflag & Hsig & Hthr). unfold signal.
  set (s' := mkSys true _ _ _). apply (inv_set_thread i SignalDone s'); [|done].
  split_and!.
  - done.
  - subst s'. simpl. intros t [= <-]. destruct (signal_time s) as [t|]; simpl; [|lia].
    by apply Hsig.
  - intros j q Hj. subst s'. simpl in Hj. apply list_lookup_fmap_Some in Hj as (p & -> & Hp).
    specialize (Hthr _ _ Hp). destruct p as [| |d|d st|d st|[] d st fin]; simpl in *; try done; try tauto.
    + destruct Hthr as (Hfin & Hst & t & Ht & Hle). rewrite Ht. simpl.
      split; [done|]. split; [done|]. by exists t.
    + destruct Hthr as (Hfin & Hst & Hd & Hnone). split; [done|]. split; [done|]. split; [done|].
      intros t [= <-]. destruct (signal_time s) eqn:Ht; simpl; [by apply Hnone|done].
Qed.

Lemma inv_step (s s' : Sys) : inv s -> step s s' -> inv s'.
Proof.
  intros Hinv Hstep. pose proof Hinv as (Hflag & Hsig & Hthr). destruct Hstep as
    [s p Hp|s d Hd|s i Hi|s i d Hi|s i d start Hi|s i d start Hi Hle|s i d start Hi].
  - split_and!; [done|done|]. intros j q Hj. change (thread_ok s q).
    apply lookup_app_Some in Hj as [Hj|[_ Hj]]; [eauto|].
    apply list_lookup_singleton_Some in Hj as [_ <-]. by destruct Hp as [->|[? ->]].
  - split_and!; [done| |].
    + intros t Ht. apply Hsig in Ht. simpl. lia.
    + intros j q Hj. specialize (Hthr _ _ Hj).
      destruct q; simpl in *; intuition lia.
  - by apply inv_signal.
  - apply inv_set_thread; [done|]. apply check_ok; [done|lia].
  - apply inv_set_thread; [done|]. apply check_ok; [done|]. apply (Hthr _ _ Hi).
  - apply inv_set_thread; [done|]. apply (Hthr _ _ Hi).
  - apply inv_set_thread; [done|]. apply (Hthr _ _ Hi).
Qed.

#[export] Hint Resolve inv_init inv_set_thread inv_signal inv_step : rust_inv.

Lemma reachable_inv (s : Sys) : reachable s -> inv s.
Proof.
  intros [t Hrtc]. remember (init t) as s0 eqn:Hs0.
  assert (H0 : inv s0) by (subst; apply inv_init). clear Hs0.
  induction Hrtc; eauto with rust_inv.
Qed.

(** ** Properties *)

(** C24: Every completed [wait] of every interleaving of waiters, signallers,
    timeouts and spurious wake-ups meets its contract: it returns [true] only
    when a signal has come, and [false] only when no signal came before it
    returned and the full duration had elapsed. *)
Theorem wait_meets_contract (s : Sys) (i : nat) (result : bool) (duration start finish : Z) :
  reachable s -> threads s !! i = Some (WaitDone result duration start finish) ->
  wait_contract (signal_time s) duration start finish result.
Proof. intros (_ & _ & Hthr)%reachable_inv Hi. by apply Hthr in Hi as [_ ?]. Qed.

(** C25: No wake-up is lost: once the interrupt has been signalled no thread is
    left sleeping in [wait], now or at any later moment, and whatever waiting
    call is still under way returns [true] in its next step, without waiting
    any further. *)
Theorem signal_wakes_everyone (s s' : Sys) (i : nat) :
  reachable s -> signalled s = true -> rtc step s s' ->
  signalled s' = true /\
  (forall d start, threads s' !! i <> Some (Waiting d start)) /\
  (forall d, threads s' !! i = Some (WaitCall d) ->
     threads (wait_begin i d s') !! i = Some (WaitDone true d (clock s') (clock s'))) /\
  (forall d start, threads s' !! i = Some (Woken d start) ->
     threads (wait_again i d start s') !! i = Some (WaitDone true d start (clock s'))).
Proof.
  intros Hreach Hsig Hrtc. apply reachable_inv in Hreach.
  assert (Hs' : inv s' /\ signalled s' = true).
  { clear i. induction Hrtc as [|s s1 s2 Hstep _ IH]; [done|].
    apply IH; [by eapply inv_step|]. by destruct Hstep. }
  destruct Hs' as [(_ & _ & Hthr) Hs']. split_and!; [done|..].
  - intros d start Hi. apply Hthr in Hi as [Hf _]. congruence.
  - intros d Hi. unfold wait_begin, check. rewrite Hs'.
    apply list_lookup_insert_eq. by eapply lookup_lt_Some.
  - intros d start Hi. unfold wait_again, check. rewrite Hs'.
    apply list_lookup_insert_eq. by eapply lookup_lt_Some.
Qed.

(** ** Witnesses: a wait of 500 that is cut short by a signal at 100 *)

Definition before_signal : Sys :=
  mkSys false None 100 [Waiting 500 0; SignalCall].
Definition after_signal : Sys :=
  mkSys true (Some 100%Z) 100 [Woken 500 0; SignalDone].
Definition after_wait : Sys :=
  mkSys true (Some 100%Z) 100 [WaitDone true 500 0 100; SignalDone].

Lemma sample_run : rtc step (init 0) before_signal.
Proof.
  eapply rtc_l; [apply (step_call _ (WaitCall 500)); eauto|].
  eapply rtc_l; [by apply (step_wait _ 0 500)|].
  eapply rtc_l; [by apply (step_tick _ 100)|].
  eapply rtc_l; [apply (step_call _ SignalCall); by left|].
  apply rtc_refl.
Qed.

Lemma sample_signal : step before_signal after_signal.
Proof. by apply (step_signal before_signal 1). Qed.

Lemma sample_wait : step after_signal after_wait.
Proof. by apply (step_again after_signal 0 500 0). Qed.

Lemma wait_meets_contract_witness : wait_contract (Some 100%Z) 500 0 100 true.
Proof.
  apply (wait_meets_contract after_wait 0 true 500 0 100); [|reflexivity].
  exists 0%Z. etrans; [exact sample_run|].
  eapply rtc_l; [exact sample_signal|]. apply rtc_once, sample_wait.
Defined.

Lemma signal_wakes_everyone_witness :
  threads after_signal !! 0 <> Some (Waiting 500 0) /\
  threads (wait_again 0 500 0 after_signal) !! 0 = Some (WaitDone true 500 0 100).
Proof.
  assert (Hr : reachable after_signal).
  { exists 0%Z. eapply rtc_r; [exact sample_run|exact sample_signal]. }
  destruct (signal_wakes_everyone after_signal after_signal 0 Hr eq_refl (rtc_refl _ _))
    as (_ & Hnot & _ & Hagain).
  split; [apply Hnot|]. by apply Hagain.
Defined.
