(* ===== verification/Retry.v ===== *)
(** * Backoff and retry (src/rust/src/internal/retry.rs)

    [execute_with_retry] runs a fallible operation until it succeeds, fails for
    good or has used up the backoff schedule. The operation and the interruptible
    wait between attempts both act on a world [W] that the caller chooses; the
    loop only assumes of the wait what [Interrupt] proves of it. *)

From stdpp Require Import prelude list strings.
From Equations Require Import Equations.
From Stdlib Require Import Sumbool.
From S2P Require Import Prelude Error Interrupt.

(** The fixed schedule: five retries after the first attempt, doubling. *)
Definition DEFAULT_RETRY_DELAYS : list Z :=
  [from_millis 500; from_millis 1000; from_millis 2000; from_millis 4000; from_millis 8000].

Definition is_retryable_status (status : Z) : bool :=
  match status with
  | 429%Z | 500%Z | 502%Z | 503%Z | 504%Z => true
  | _ => false
  end.

(** ** The interface to the interrupt *)

(** A world in which a thread can wait on the client's interrupt. [signal_at] is
    the instant at which the interrupt is first signalled in this execution,
    [None] when it never is. *)
Class Waiter (W : Type) := {
  now : W -> Z;
  signal_at : W -> option Z;
  wait : Z -> W -> bool * W;
}.

(** What the wait promises: the contract of [Interrupt.wait_meets_contract]. *)
Class WaiterLaws (W : Type) `{Waiter W} : Prop := {
  wait_ok : forall (d : Z) (w : W), (0 <= d)%Z ->
    wait_contract (signal_at w) d (now w) (now (wait d w).2) (wait d w).1;
  wait_signal_at : forall (d : Z) (w : W), signal_at (wait d w).2 = signal_at w;
}.

Section Retry.
Context `{ErrorTypes} {W T : Type} `{Waiter W}.

(** Annotates only a failure that never reached a status line. *)
Definition with_attempt_count (failure : IncidentError) (attempts : nat) : IncidentError :=
  match failure with
  | Delivery message status_code retryable source =>
      if (status_code =? NO_STATUS_CODE)%Z && (1 <? attempts)%nat then
        Delivery (message ++ lit " (after " ++ display_Z (Z.of_nat attempts) ++ lit " attempts)")
          status_code retryable source
      else failure
  | other => other
  end.

Definition interrupted : IncidentError :=
  delivery (lit "incident delivery was interrupted during retry") NO_STATUS_CODE false.

(** A call of the closure: its result and the world it leaves. *)
Definition Operation : Type := W -> Result T IncidentError * W.

(** The loop, from [attempt] on. The decreasing quantity is the number of delays
    that are left. *)
Equations? retry_loop (delays : list Z) (operation : Operation) (attempt : nat) (w : W) :
    Result T IncidentError * W by wf (length delays - attempt) lt :=
  retry_loop delays operation attempt w with operation w => {
  | (Ok value, w1) => (Ok value, w1)
  | (Err failure, w1)
      with sumbool_of_bool (negb (is_retryable failure) || (length delays <=? attempt)%nat) => {
    | left _ => (Err (with_attempt_count failure (attempt + 1)), w1)
    | right Hleft with wait (nth attempt delays 0%Z) w1 => {
      | (true, w2) => (Err interrupted, w2)
      | (false, w2) => retry_loop delays operation (attempt + 1) w2 } } }.
Proof. apply orb_false_iff in Hleft as [_ Hleft]. apply Nat.leb_gt in Hleft. lia. Qed.

Definition execute_with_retry (delays : list Z) (operation : Operation) (w : W) :
    Result T IncidentError * W :=
  retry_loop delays operation 0 w.
End Retry.

(** ** Specification *)

Section Spec.
Context `{ErrorTypes} {W T : Type} `{Waiter W}.
Context (delays : list Z) (operation : Operation (W := W) (T := T)).

(** From [w], [k] attempts failed in a way eligible for retry, each followed by
    the full delay of the schedule, which leads to world [w']. *)
Inductive backoff (w : W) : nat -> W -> Prop :=
| backoff_start : backoff w 0 w
| backoff_next (k : nat) (w1 w2 w3 : W) (failure : IncidentError) :
    backoff w k w1 ->
    operation w1 = (Err failure, w2) -> is_retryable failure = true ->
    k < length delays -> wait (nth k delays 0%Z) w2 = (false, w3) ->
    backoff w (S k) w3.

(** How the attempt that ends the call ends it; [k] attempts came before. *)
Inductive finishes (k : nat) (w : W) : Result T IncidentError -> W -> Prop :=
| finishes_success (value : T) (w1 : W) :
    operation w = (Ok value, w1) -> finishes k w (Ok value) w1
| finishes_permanent (failure : IncidentError) (w1 : W) :
    operation w = (Err failure, w1) -> is_retryable failure = false ->
    finishes k w (Err (with_attempt_count failure (k + 1))) w1
| finishes_exhausted (failure : IncidentError) (w1 : W) :
    operation w = (Err failure, w1) -> is_retryable failure = true -> k = length delays ->
    finishes k w (Err (with_attempt_count failure (k + 1))) w1
| finishes_interrupted (failure : IncidentError) (w1 w2 : W) :
    operation w = (Err failure, w1) -> is_retryable failure = true -> k < length delays ->
    wait (nth k delays 0%Z) w1 = (true, w2) ->
    finishes k w (Err interrupted) w2.

Definition runs_to (w : W) (r : Result T IncidentError) (w' : W) : Prop :=
  exists k wk, k <= length delays /\ backoff w k wk /\ finishes k wk r w'.

(** One turn of the loop, without the proof terms of its definition. *)
Lemma retry_loop_step (attempt : nat) (w : W) :
  retry_loop delays operation attempt w =
  match operation w with
  | (Ok value, w1) => (Ok value, w1)
  | (Err failure, w1) =>
      if negb (is_retryable failure) || (length delays <=? attempt)%nat
      then (Err (with_attempt_count failure (attempt + 1)), w1)
      else match wait (nth attempt delays 0%Z) w1 with
           | (true, w2) => (Err interrupted, w2)
           | (false, w2) => retry_loop delays operation (attempt + 1) w2
           end
  end.
Proof.
  rewrite retry_loop_equation_1. unfold retry_loop_unfold_clause_1.
  destruct (operation w) as [[value|failure] w1]; [done|]. simpl.
  destruct (sumbool_of_bool _) as [Hb|Hb]; simpl; [by rewrite Hb|].
  destruct (wait _ w1) as [[] w2]; simpl; by rewrite Hb.
Qed.

Lemma retry_loop_runs (w wk : W) (k : nat) :
  k <= length delays -> backoff w k wk ->
  runs_to w (retry_loop delays operation k wk).1 (retry_loop delays operation k wk).2.
Proof.
  remember (length delays - k) as left eqn:Hleft. revert k wk Hleft.
  induction left as [|left IH]; intros k wk Hleft Hk Hb; rewrite retry_loop_step;
    destruct (operation wk) as [[value|failure] w1] eqn:Hop;
    try (exists k, wk; split_and!; [done|done|by constructor]);
    destruct (is_retryable failure) eqn:Hr; simpl;
    try (exists k, wk; split_and!; [done|done|by apply finishes_permanent]);
    destruct (Nat.leb_spec (length delays) k); try lia.
  - exists k, wk. split_and!; [done|done|]. apply finishes_exhausted; [done|done|lia].
  - destruct (wait _ w1) as [[] w2] eqn:Hw.
    + exists k, wk. split_and!; [done|done|]. by eapply finishes_interrupted.
    + rewrite Nat.add_1_r. apply IH; [lia|lia|]. by eapply backoff_next.
Qed.

(** The loop after [k] retries is the call from the start. *)
Lemma backoff_unfold (w wk : W) (k : nat) :
  backoff w k wk ->
  retry_loop delays operation 0 w = retry_loop delays operation k wk.
Proof.
  induction 1 as [|k w1 w2 w3 failure Hb IH Hop Hr Hk Hw]; [done|].
  rewrite IH, (retry_loop_step k w1), Hop, Hr. simpl.
  destruct (Nat.leb_spec (length delays) k); [lia|]. by rewrite Hw, Nat.add_1_r.
Qed.

Lemma finishes_loop (wk w' : W) (k : nat) (r : Result T IncidentError) :
  finishes k wk r w' -> retry_loop delays operation k wk = (r, w').
Proof.
  destruct 1 as [v w1 Hop|f w1 Hop Hr|f w1 Hop Hr Hk|f w1 w2 Hop Hr Hk Hw];
    rewrite retry_loop_step, Hop; [done|by rewrite Hr|..];
    rewrite Hr; simpl; destruct (Nat.leb_spec (length delays) k); try lia; [done|by rewrite Hw].
Qed.

Lemma execute_runs (w w' : W) (r : Result T IncidentError) :
  execute_with_retry delays operation w = (r, w') <-> runs_to w r w'.
Proof.
  unfold execute_with_retry. split.
  - intros Hex. pose proof (retry_loop_runs w w 0 ltac:(lia) (backoff_start w)) as Hruns.
    by rewrite Hex in Hruns.
  - intros (k & wk & _ & Hb & Hf). rewrite (backoff_unfold _ _ _ Hb). by apply finishes_loop.
Qed.
End Spec.

(** ** Properties *)

Section Properties.
Context `{ErrorTypes} {W T : Type} `{Waiter W}.

(** C5: The retry loop terminates on every operation, schedule and world, and its
    result is exactly the specified one: there is a number k of retries, at
    most the length of the schedule, such that k attempts failed in a way
    eligible for retry and were each followed by their full delay, and the
    next attempt ended the call by succeeding, failing for good, exhausting the
    schedule or being interrupted in its backoff. *)
Theorem execute_spec (delays : list Z) (operation : Operation (W := W) (T := T))
    (w w' : W) (r : Result T IncidentError) :
  execute_with_retry delays operation w = (r, w') <-> runs_to delays operation w r w'.
Proof. apply execute_runs. Qed.

(** Only the final failure is returned. A call that fails returns either the
    interruption error, which carries no status and is not retryable, or the
    failure of its last attempt with its status, its retry flag and its cause
    unchanged; the message of that failure is unchanged too, except that a
    failure without a status line that was retried says after how many
    attempts. *)
Lemma failure_is_last_attempt (delays : list Z) (operation : Operation (W := W) (T := T))
    (w w' : W) (e : IncidentError) :
  execute_with_retry delays operation w = (Err e, w') ->
  e = interrupted \/
  exists k wk failure,
    k <= length delays /\ backoff delays operation w k wk /\ operation wk = (Err failure, w') /\
    (is_retryable failure = false \/ k = length delays) /\
    status_code e = status_code failure /\ is_retryable e = is_retryable failure /\
    Error.source e = Error.source failure /\
    fmt_error e =
      match failure with
      | Delivery message (-1)%Z _ _ =>
          if bool_decide (0 < k)
          then message ++ lit " (after " ++ display_Z (Z.of_nat (k + 1)) ++ lit " attempts)"
          else message
      | _ => fmt_error failure
      end.
Proof.
  intros (k & wk & Hk & Hb & Hf)%execute_runs. remember (Err e) as r eqn:He.
  destruct Hf as [v w1 Hop|failure w1 Hop Hr|failure w1 Hop Hr Hlen|failure w1 w2 Hop Hr Hk' Hw];
    [done|injection He as <-; right|injection He as <-; right|injection He as <-; by left].
  all: exists k, wk, failure; split_and!; try done; try tauto.
  all: destruct failure as [m| |m c rt src]; try done; unfold with_attempt_count, NO_STATUS_CODE.
  all: destruct (Z.eqb_spec c (-1)) as [->|Hc]; simpl andb.
  all: repeat match goal with
    | |- context [(1 <? ?n)%nat] => destruct (Nat.ltb_spec 1 n)
    end; try done.
  all: first [rewrite bool_decide_eq_true_2 by lia; done
             |rewrite bool_decide_eq_false_2 by lia; done
             |destruct c as [|c|[c|c|]]; reflexivity || congruence].
Qed.

(** The world with a counter of the attempts made, and the operation that
    advances it. *)
Definition counting (operation : Operation (W := W) (T := T)) : Operation (W := W * nat) (T := T) :=
  fun w => let '(r, w1) := operation w.1 in (r, (w1, S w.2)).

#[local] Instance counting_waiter : Waiter (W * nat) := {|
  now w := now w.1;
  signal_at w := signal_at w.1;
  wait d w := let '(b, w1) := wait d w.1 in (b, (w1, w.2));
|}.

Lemma counting_op (operation : Operation (W := W) (T := T)) (w w1 : W * nat) (r : Result T IncidentError) :
  counting operation w = (r, w1) -> operation w.1 = (r, w1.1) /\ w1.2 = S w.2.
Proof. unfold counting. destruct (operation w.1) as [r0 w0]. by intros [= -> <-]. Qed.

Lemma counting_wait (d : Z) (w w1 : W * nat) (b : bool) :
  wait d w = (b, w1) -> wait d w.1 = (b, w1.1) /\ w1.2 = w.2.
Proof. simpl. destruct (wait d w.1) as [b0 w0]. by intros [= -> <-]. Qed.

Lemma counting_backoff (delays : list Z) (operation : Operation (W := W) (T := T))
    (w : W) (n k : nat) (wk : W * nat) :
  backoff delays (counting operation) (w, n) k wk ->
  backoff delays operation w k wk.1 /\ wk.2 = n + k.
Proof.
  induction 1 as [|k w1 w2 w3 failure Hb IH Hop Hr Hk Hw]; simpl.
  - split; [constructor|lia].
  - destruct IH as [IHb IHn].
    apply counting_op in Hop as [Hop Hn]. apply counting_wait in Hw as [Hw Hn'].
    split; [by eapply backoff_next|lia].
Qed.

Lemma counting_finishes (delays : list Z) (operation : Operation (W := W) (T := T))
    (k : nat) (wk w' : W * nat) (r : Result T IncidentError) :
  finishes delays (counting operation) k wk r w' ->
  finishes delays operation k wk.1 r w'.1 /\ w'.2 = S wk.2.
Proof.
  destruct 1 as [v w1 Hop|f w1 Hop Hr|f w1 Hop Hr ?|f w1 w2 Hop Hr ? Hw];
    apply counting_op in Hop as [Hop Hn];
    try (apply counting_wait in Hw as [Hw Hn']; rewrite Hn');
    (split; [by econstructor|done]).
Qed.

(** Bounded work: counting the attempts does not change what the call does,
    and it makes at least one attempt and at most one more than the schedule
    has delays: at most six with the fixed schedule. *)
Lemma attempts_bounded (delays : list Z) (operation : Operation (W := W) (T := T)) (w : W) (n : nat) :
  (execute_with_retry delays operation w).1 =
    (execute_with_retry delays (counting operation) (w, n)).1 /\
  (execute_with_retry delays operation w).2 =
    (execute_with_retry delays (counting operation) (w, n)).2.1 /\
  n + 1 <= (execute_with_retry delays (counting operation) (w, n)).2.2 <= n + 1 + length delays.
Proof.
  destruct (execute_with_retry delays (counting operation) (w, n)) as [r [w' m]] eqn:Hex. simpl.
  apply execute_runs in Hex as (k & wk & Hk & Hb & Hf).
  apply counting_backoff in Hb as [Hb Hn].
  apply counting_finishes in Hf as [Hf Hm]. simpl in Hf, Hm.
  assert (Hex : execute_with_retry delays operation w = (r, w')) by (apply execute_runs; by exists k, wk.1).
  rewrite Hex. split_and!; [done|done|lia|lia].
Qed.
End Properties.

(** ** Timing *)

Definition total (ds : list Z) : Z := foldr Z.add 0%Z ds.

Section Timing.
Context `{ErrorTypes} {W T : Type} `{WaiterLaws W}.
Context (delays : list Z) (operation : Operation (W := W) (T := T)).

Lemma total_take_S (ds : list Z) (k : nat) :
  k < length ds -> total (take (S k) ds) = (total (take k ds) + nth k ds 0)%Z.
Proof.
  revert k. induction ds as [|d ds IH]; intros [|k] Hk; simpl in *; try lia.
  rewrite IH by lia. lia.
Qed.

Lemma nth_nonneg (ds : list Z) (k : nat) :
  Forall (fun d => 0 <= d)%Z ds -> (0 <= nth k ds 0)%Z.
Proof. intros Hds. revert k. induction Hds; intros [|k]; simpl; try lia. apply IHHds. Qed.

(** The clock of an operation does not run backwards, and no operation changes
    when the interrupt is signalled. *)
Definition clock_ok : Prop :=
  (forall w, (now w <= now (operation w).2)%Z) /\
  (forall w, signal_at (operation w).2 = signal_at w).

Lemma backoff_elapsed (w wk : W) (k : nat) :
  clock_ok -> Forall (fun d => 0 <= d)%Z delays ->
  backoff delays operation w k wk ->
  (now w + total (take k delays) <= now wk)%Z /\ signal_at wk = signal_at w.
Proof.
  intros [Hmono Hsig] Hds. induction 1 as [|k w1 w2 w3 failure Hb IH Hop Hr Hk Hw].
  - split; [simpl; lia|done].
  - destruct IH as [IH1 IH2]. pose proof (Hmono w1) as Hm. pose proof (Hsig w1) as Hs.
    rewrite Hop in Hm, Hs. simpl in Hm, Hs.
    pose proof (wait_ok (nth k delays 0%Z) w2 (nth_nonneg _ _ Hds)) as (Hle & Hres).
    pose proof (wait_signal_at (nth k delays 0%Z) w2) as Hs'.
    rewrite Hw in *. simpl in *. destruct Hres as [Hd _]. rewrite total_take_S by done.
    split; [lia|congruence].
Qed.

(** The backoff is real: before its (k+1)-th attempt a call has spent at
    least the first k delays of the schedule, and no retry starts after the
    interrupt has been signalled, so closing the client ends every backoff. *)
Lemma retry_timing (w wk : W) (k : nat) :
  clock_ok -> Forall (fun d => 0 <= d)%Z delays ->
  backoff delays operation w k wk ->
  (now w + total (take k delays) <= now wk)%Z /\
  (0 < k -> forall t, signal_at w = Some t -> (now wk <= t)%Z).
Proof.
  intros Hok Hds Hb. pose proof (backoff_elapsed w wk k Hok Hds Hb) as [Hel Hsig].
  split; [done|]. intros Hk t Ht. rewrite <-Hsig in Ht.
  destruct Hb as [|k w1 w2 w3 failure Hb Hop Hr Hlen Hw]; [lia|].
  pose proof (wait_ok (nth k delays 0%Z) w2 (nth_nonneg _ _ Hds)) as (_ & Hfin).
  pose proof (wait_signal_at (nth k delays 0%Z) w2) as Hs'.
  rewrite Hw in *. simpl in *. destruct Hfin as [_ Hnone]. apply Hnone. congruence.
Qed.

(** A call whose first attempt ends after the interrupt was signalled makes
    no second attempt: a failure eligible for retry is reported at once as
    interrupted, without a status, as not retryable. This is what happens to
    every delivery that close finds queued or in flight. *)
Lemma signalled_single_attempt (w w1 : W) (failure : IncidentError) (t : Z) :
  Forall (fun d => 0 < d)%Z delays -> delays <> [] ->
  operation w = (Err failure, w1) -> is_retryable failure = true ->
  signal_at w1 = Some t -> (t <= now w1)%Z ->
  execute_with_retry delays operation w = (Err interrupted, (wait (nth 0 delays 0%Z) w1).2) /\
  status_code interrupted = None /\ is_retryable interrupted = false.
Proof.
  intros Hds Hne Hop Hr Hsig Ht. split; [|done].
  destruct delays as [|d ds]; [done|]. apply Forall_cons in Hds as [Hd _].
  pose proof (wait_ok d w1 ltac:(lia)) as (Hle & Hres).
  apply execute_runs. exists 0, w. split; [simpl; lia|]. split; [constructor|].
  destruct (wait d w1) as [[] w2] eqn:Hw.
  - simpl nth. rewrite Hw. eapply finishes_interrupted; [done|done|simpl; lia|done].
  - simpl in Hres. destruct Hres as [Hlong Hnone]. specialize (Hnone t Hsig). lia.
Qed.

(** Upper bounds on one attempt and on the overshoot of one wait. *)
Context (attempt_bound slack : Z).
Hypothesis attempt_bounded : forall w, (now (operation w).2 <= now w + attempt_bound)%Z.
Hypothesis wait_bounded : forall d w, (0 <= d)%Z -> (now (wait d w).2 <= now w + d + slack)%Z.

Lemma backoff_bounded (w wk : W) (k : nat) :
  Forall (fun d => 0 <= d)%Z delays -> backoff delays operation w k wk ->
  (now wk <= now w + Z.of_nat k * (attempt_bound + slack) + total (take k delays))%Z.
Proof.
  intros Hds. induction 1 as [|k w1 w2 w3 failure Hb IH Hop Hr Hk Hw]; [simpl; lia|].
  pose proof (attempt_bounded w1) as Ha. rewrite Hop in Ha. simpl in Ha.
  pose proof (wait_bounded (nth k delays 0%Z) w2 (nth_nonneg _ _ Hds)) as Hs.
  rewrite Hw in Hs. simpl in Hs. rewrite total_take_S by done. lia.
Qed.

Lemma total_take_le (ds : list Z) (k : nat) :
  Forall (fun d => 0 <= d)%Z ds -> (total (take k ds) <= total ds)%Z.
Proof.
  intros Hds. revert k. induction Hds as [|d ds Hd Hds IH]; intros [|k]; simpl; try lia.
  - assert (0 <= total ds)%Z by (specialize (IH 0); done). lia.
  - specialize (IH k). lia.
Qed.

(** C29: Bounded time: when an attempt takes at most [attempt_bound] and a wait
    overshoots its duration by at most [slack], a whole call with the fixed
    schedule takes at most six attempts, the 15.5 seconds of the schedule and
    five overshoots. *)
Theorem call_time_bound (w : W) :
  delays = DEFAULT_RETRY_DELAYS -> (0 <= attempt_bound)%Z -> (0 <= slack)%Z ->
  (now (execute_with_retry delays operation w).2 <=
     now w + 6 * attempt_bound + from_millis 15500 + 5 * slack)%Z.
Proof.
  intros Hdel Ha Hs.
  destruct (execute_with_retry delays operation w) as [r w'] eqn:Hex. simpl.
  apply execute_runs in Hex as (k & wk & Hk & Hb & Hf).
  assert (Hpos : Forall (fun d => 0 <= d)%Z delays)
    by (rewrite Hdel; repeat constructor; unfold from_millis; lia).
  pose proof (backoff_bounded _ _ _ Hpos Hb) as Hwk.
  assert (Hfin : (now w' <= now wk + attempt_bound)%Z \/
                 ((k < length delays)%nat /\
                  now w' <= now wk + attempt_bound + nth k delays 0 + slack)%Z).
  { destruct Hf as [v w1 Hop|f w1 Hop Hr|f w1 Hop Hr ?|f w1 w2 Hop Hr Hlt Hw];
      pose proof (attempt_bounded wk) as Hat; rewrite Hop in Hat; simpl in Hat; try (by left).
    right. split; [done|]. pose proof (wait_bounded (nth k delays 0%Z) w1 (nth_nonneg _ _ Hpos)) as Hwt.
    rewrite Hw in Hwt. simpl in Hwt. lia. }
  assert (Htot : total delays = from_millis 15500) by (by rewrite Hdel).
  assert (Hlen : length delays = 5) by (by rewrite Hdel).
  pose proof (total_take_le delays k Hpos).
  assert (Hk6 : (0 <= Z.of_nat k <= 5)%Z) by lia.
  destruct Hfin as [Hfin|[Hlt Hfin]]; [nia|].
  pose proof (total_take_le delays (S k) Hpos) as Htk. rewrite total_take_S in Htk by done. nia.
Qed.
End Timing.

(** ** A scripted world

    For the witnesses: the interrupt is signalled at a chosen instant or never,
    a wait sleeps exactly, and the answers of the outside are a list. *)

Record Timeline (A : Type) : Type := mkTimeline {
  time : Z;
  signal_time : option Z;
  script : list A;
}.
Arguments mkTimeline {A} time signal_time script.
Arguments time {A}.
Arguments signal_time {A}.
Arguments script {A}.

Definition timeline_wait {A : Type} (d : Z) (w : Timeline A) : bool * Timeline A :=
  let finish b t := (b, mkTimeline t (signal_time w) (script w)) in
  match signal_time w with
  | Some s => if (s <? time w + d)%Z then finish true (Z.max (time w) s) else finish false (time w + d)%Z
  | None => finish false (time w + d)%Z
  end.

#[export] Instance timeline_waiter (A : Type) : Waiter (Timeline A) :=
  {| now := time; signal_at := signal_time; wait := timeline_wait |}.

#[export] Instance timeline_laws (A : Type) : WaiterLaws (Timeline A).
Proof.
  split; intros d w; simpl; unfold timeline_wait.
  - intros Hd. destruct (signal_time w) as [s|]; [destruct (Z.ltb_spec s (time w + d))|]; simpl.
    + split; [lia|]. exists s. split; [done|lia].
    + split; [lia|]. split; [lia|]. intros t [= <-]. done.
    + split; [lia|]. split; [lia|done].
  - destruct (signal_time w) as [s|] eqn:Hs; [destruct (s <? time w + d)%Z|]; by simpl.
Qed.

(** Each attempt takes 100 ms and gives the next answer of the script. *)
Definition scripted `{ErrorTypes} {T : Type} (dflt : Result T IncidentError) :
    Operation (W := Timeline (Result T IncidentError)) (T := T) :=
  fun w => match script w with
           | r :: rest => (r, mkTimeline (time w + from_millis 100) (signal_time w) rest)
           | [] => (dflt, mkTimeline (time w + from_millis 100) (signal_time w) [])
           end.

Section Witnesses.
#[local] Existing Instance unit_errors.

Definition refused : IncidentError := delivery (lit "connection refused") NO_STATUS_CODE true.
Definition unavailable : IncidentError := delivery (lit "Oppex returned HTTP 503") 503 true.

Example exhausted_annotates :
  (execute_with_retry (W := Timeline (Result unit IncidentError)) DEFAULT_RETRY_DELAYS
     (scripted (Err refused)) (mkTimeline 0 None [])).1
  = Err (delivery (lit "connection refused (after 6 attempts)") NO_STATUS_CODE true).
Proof. vm_compute. reflexivity. Qed.

Lemma failure_is_last_attempt_witness :
  exists e,
    (execute_with_retry (W := Timeline (Result unit IncidentError)) DEFAULT_RETRY_DELAYS
       (scripted (Err refused)) (mkTimeline 0 None [Err unavailable])).1 = Err e /\
    (e = interrupted \/ exists failure : IncidentError, status_code e = status_code failure).
Proof.
  destruct (execute_with_retry (W := Timeline (Result unit IncidentError)) DEFAULT_RETRY_DELAYS
    (scripted (Err refused)) (mkTimeline 0 None [Err unavailable])) as [[v|e] w'] eqn:Hex.
  - vm_compute in Hex. discriminate.
  - exists e. split; [done|].
    destruct (failure_is_last_attempt _ _ _ _ _ Hex) as [->|(k & wk & f & _ & _ & _ & _ & Hst & _)].
    + by left.
    + right. by exists f.
Defined.

Lemma scripted_clock_ok {T : Type} (dflt : Result T IncidentError) : clock_ok (scripted dflt).
Proof. split; intros w; unfold scripted; destruct (script w); simpl; unfold from_millis; (lia || done). Qed.

Definition two_failures : Timeline (Result unit IncidentError) :=
  mkTimeline 0 (Some (from_secs 10)) [Err unavailable; Err unavailable].

Definition after_two_backoffs : Timeline (Result unit IncidentError) :=
  mkTimeline (from_millis 1700) (Some (from_secs 10)) [].

Lemma sample_backoff :
  backoff DEFAULT_RETRY_DELAYS (scripted (Ok tt)) two_failures 2 after_two_backoffs.
Proof.
  set (world := fun t l => mkTimeline (from_millis t) (Some (from_secs 10)) l
         : Timeline (Result unit IncidentError)).
  apply (backoff_next _ _ _ 1 (world 600 [Err unavailable])%Z (world 700 [])%Z _ unavailable);
    [|vm_compute; reflexivity|reflexivity|simpl; lia|vm_compute; reflexivity].
  apply (backoff_next _ _ _ 0 two_failures (world 100 [Err unavailable])%Z _ unavailable);
    [apply backoff_start|vm_compute; reflexivity|reflexivity|simpl; lia|vm_compute; reflexivity].
Qed.

Lemma default_delays_pos : Forall (fun d => 0 < d)%Z DEFAULT_RETRY_DELAYS.
Proof. repeat constructor; unfold from_millis; lia. Qed.

Lemma retry_timing_witness :
  (0 + from_millis 1500 <= from_millis 1700)%Z /\ (from_millis 1700 <= from_secs 10)%Z.
Proof.
  assert (Hds : Forall (fun d => 0 <= d)%Z DEFAULT_RETRY_DELAYS)
    by (eapply Forall_impl; [apply default_delays_pos|intros d ?; simpl in *; lia]).
  destruct (retry_timing DEFAULT_RETRY_DELAYS (scripted (Ok tt)) two_failures after_two_backoffs 2
              (scripted_clock_ok _) Hds sample_backoff) as [Hel Hsig].
  split; [exact Hel|]. apply Hsig; [lia|reflexivity].
Defined.

Lemma signalled_single_attempt_witness :
  (execute_with_retry DEFAULT_RETRY_DELAYS (scripted (T := unit) (Err unavailable))
     (mkTimeline 0 (Some (from_millis 50)) [])).1 = Err interrupted.
Proof.
  rewrite (proj1 (signalled_single_attempt DEFAULT_RETRY_DELAYS (scripted (T := unit) (Err unavailable))
    (mkTimeline 0 (Some (from_millis 50)) []) (mkTimeline (from_millis 100) (Some (from_millis 50)) [])
    unavailable (from_millis 50) default_delays_pos ltac:(done) ltac:(vm_compute; reflexivity)
    ltac:(reflexivity) ltac:(reflexivity) ltac:(unfold from_millis; simpl; lia))).
  reflexivity.
Defined.

Lemma call_time_bound_witness :
  (now (execute_with_retry DEFAULT_RETRY_DELAYS (scripted (T := unit) (Err unavailable))
          (mkTimeline 0 None [])).2 <= 0 + 6 * from_millis 100 + from_millis 15500 + 5 * 0)%Z.
Proof.
  refine (call_time_bound DEFAULT_RETRY_DELAYS (scripted (T := unit) (Err unavailable))
           (from_millis 100) 0 _ _ (mkTimeline 0 None []) _ _ _).
  - intros w. unfold scripted. destruct (script w); simpl; lia.
  - intros d w Hd. simpl. unfold timeline_wait.
    destruct (signal_time w) as [s|]; [destruct (Z.ltb_spec s (time w + d))|]; simpl; try lia.
  - reflexivity.
  - unfold from_millis; lia.
  - lia.
Defined.
End Witnesses.
