(* ===== verification/InterruptWorld.v ===== *)
(** * The interrupt behind the retry loop (src/rust/src/internal/interrupt.rs, retry.rs)

    The retry loop is proved against the interface [Retry.Waiter]. Here the
    interface is discharged by the interrupt itself: a world whose wait is an
    execution of [Interrupt.step], with a signal planned for some instant and
    spurious wake-ups at chosen ones, so that [Retry.WaiterLaws] follows from the
    invariant of the interrupt and not from an assumption. *)

From stdpp Require Import prelude list relations.
From S2P Require Import Prelude Retry Interrupt.

(** ** One sleep of a waiting thread *)

(** Time passes up to [target]. *)
Definition pass (target : Z) (s : Sys) : Sys :=
  mkSys (signalled s) (signal_time s) (Z.max (clock s) target) (threads s).

(** A thread calls [signal], which takes the next free place. *)
Definition signal_now (s : Sys) : Sys :=
  Interrupt.signal (length (threads s)) (set_threads (threads s ++ [SignalCall]) s).

(** Thread [i] sleeps until [target], or until the signal planned for an earlier
    instant comes, and takes the lock again. *)
Definition nap (plan : option Z) (target : Z) (i : nat) (d start : Z) (s : Sys) : Sys :=
  match plan with
  | Some p =>
      if negb (signalled s) && (p <=? Z.max (clock s) target)%Z then signal_now (pass p s)
      else set_thread i (Woken d start) (pass target s)
  | None => set_thread i (Woken d start) (pass target s)
  end.

(** The loop of a waiting thread: spurious wake-ups at the instants [wakes], then
    the end of its time. Returns the wake-ups that are left. *)
Fixpoint doze (plan : option Z) (wakes : list Z) (i : nat) (d start : Z) (s : Sys) : Sys * list Z :=
  match threads s !! i with
  | Some (Waiting _ _) =>
      match wakes with
      | w :: wakes => doze plan wakes i d start (wait_again i d start (nap plan w i d start s))
      | [] => (wait_again i d start (nap plan (start + d + 1) i d start s), [])
      end
  | _ => (s, wakes)
  end.

(** ** The world *)

(** The planned signal lies ahead until it has come, and comes when planned. *)
Definition plan_ok (plan : option Z) (s : Sys) : Prop :=
  match signal_time s with
  | Some t => plan = Some t
  | None => forall p, plan = Some p -> (clock s <= p)%Z
  end.

Definition world_ok (plan : option Z) (s : Sys) : Prop := reachable s /\ plan_ok plan s.

Lemma interrupt_reachable_step (s s' : Sys) : reachable s -> step s s' -> reachable s'.
Proof. intros [t Hrtc] Hstep. exists t. by eapply rtc_r. Qed.

Lemma pass_step (target : Z) (s : Sys) : reachable s -> reachable (pass target s).
Proof.
  intros Hs. eapply interrupt_reachable_step; [exact Hs|]. unfold pass.
  replace (Z.max (clock s) target) with (clock s + (Z.max (clock s) target - clock s))%Z by lia.
  apply step_tick. lia.
Qed.

Lemma signal_now_steps (s : Sys) : reachable s -> reachable (signal_now s).
Proof.
  intros Hs. unfold signal_now. set (s1 := set_threads _ s).
  assert (Hs1 : reachable s1) by (eapply interrupt_reachable_step; [exact Hs|apply step_call; by left]).
  eapply interrupt_reachable_step; [exact Hs1|]. apply step_signal. subst s1. simpl. by apply list_lookup_middle.
Qed.

(** After a nap the thread is awake, and the world is as planned. *)
Lemma nap_spec (plan : option Z) (target : Z) (i : nat) (d start : Z) (s : Sys) :
  world_ok plan s -> threads s !! i = Some (Waiting d start) ->
  let s' := nap plan target i d start s in
  world_ok plan s' /\ threads s' !! i = Some (Woken d start) /\ (clock s <= clock s')%Z /\
  (signalled s' = true \/ (target <= clock s')%Z).
Proof.
  intros [Hs Hplan] Hi. pose proof (reachable_inv _ Hs) as (Hflag & _ & Hthr).
  destruct (Hthr _ _ Hi) as [Hunsig Hstart]. simpl.
  assert (Hnone : signal_time s = None).
  { destruct (signal_time s); [|done]. by rewrite Hunsig, bool_decide_eq_true_2 in Hflag by eauto. }
  unfold plan_ok in Hplan. rewrite Hnone in Hplan.
  assert (Hlen : i < length (threads s)) by (by eapply lookup_lt_Some).
  assert (Hsleep : forall p, plan = Some p \/ plan = None -> (forall p, plan = Some p -> (Z.max (clock s) target <= p)%Z) ->
    let s' := set_thread i (Woken d start) (pass target s) in
    world_ok plan s' /\ threads s' !! i = Some (Woken d start) /\ (clock s <= clock s')%Z /\
    (signalled s' = true \/ (target <= clock s')%Z)).
  { intros p _ Hlate. simpl. split_and!; [split| |lia|right; lia].
    - eapply interrupt_reachable_step; [by apply (pass_step target)|]. by apply step_spurious.
    - unfold plan_ok. simpl. by rewrite Hnone.
    - by apply list_lookup_insert_eq. }
  unfold nap. destruct plan as [p|]; [|by apply (Hsleep 0%Z); [right|]].
  rewrite Hunsig. simpl. destruct (Z.leb_spec p (Z.max (clock s) target)) as [Hle|Hgt].
  - specialize (Hplan p eq_refl).
    assert (Hclock : Z.max (clock s) p = p) by lia.
    split_and!; [split| | |by left].
    + apply signal_now_steps. by apply pass_step.
    + unfold plan_ok. simpl. by rewrite Hnone, Hclock.
    + simpl. rewrite list_lookup_insert_ne by lia. rewrite list_lookup_fmap.
      by rewrite lookup_app_l, Hi.
    + simpl. lia.
  - apply (Hsleep p); [by left|]. intros p' [= <-]. lia.
Qed.

Lemma again_spec (plan : option Z) (i : nat) (d start : Z) (s : Sys) :
  world_ok plan s -> threads s !! i = Some (Woken d start) ->
  let s' := wait_again i d start s in
  world_ok plan s' /\ clock s' = clock s /\ threads s' !! i = Some (check (clock s) d start (signalled s)).
Proof.
  intros [Hs Hplan] Hi. simpl. split_and!; [split| |].
  - eapply interrupt_reachable_step; [exact Hs|]. by apply step_again.
  - exact Hplan.
  - done.
  - apply list_lookup_insert_eq. by eapply lookup_lt_Some.
Qed.

Lemma check_cases (now d start : Z) (flag : bool) :
  check now d start flag = WaitDone flag d start now \/ check now d start flag = Waiting d start.
Proof. unfold check. repeat case_match; auto. Qed.

(** The thread has returned, or sleeps on: what the last check of the loop said. *)
Lemma doze_spec (plan : option Z) (wakes : list Z) (i : nat) (d start : Z) (s : Sys) :
  world_ok plan s -> threads s !! i = Some (check (clock s) d start (signalled s)) ->
  let s' := (doze plan wakes i d start s).1 in
  world_ok plan s' /\ exists result, threads s' !! i = Some (WaitDone result d start (clock s')).
Proof.
  revert s. induction wakes as [|w wakes IH]; intros s Hok Hi; simpl.
  - destruct (check_cases (clock s) d start (signalled s)) as [Hc|Hc]; rewrite Hc in Hi; rewrite Hi; [eauto|].
    destruct (nap_spec plan (start + d + 1) i d start s Hok Hi) as (Hok1 & Hi1 & Hclock & Hend).
    destruct (again_spec plan i d start _ Hok1 Hi1) as (Hok2 & Hclock2 & Hi2).
    split; [exact Hok2|].
    assert (Hc' : exists r, check (clock (nap plan (start + d + 1) i d start s)) d start
              (signalled (nap plan (start + d + 1) i d start s)) =
            WaitDone r d start (clock (nap plan (start + d + 1) i d start s))).
    { unfold check, saturating_duration_since. destruct Hend as [->|Hend]; [by eexists|].
      rewrite (proj2 (Z.ltb_lt _ _)) by lia. case_match; by eexists. }
    destruct Hc' as [r Hr]. rewrite Hr in Hi2. exists r. exact Hi2.
  - destruct (check_cases (clock s) d start (signalled s)) as [Hc|Hc]; rewrite Hc in Hi; rewrite Hi; [eauto|].
    destruct (nap_spec plan w i d start s Hok Hi) as (Hok1 & Hi1 & _).
    destruct (again_spec plan i d start _ Hok1 Hi1) as (Hok2 & Hclock2 & Hi2).
    apply IH; [exact Hok2|exact Hi2].
Qed.

(** An execution of the interrupt, with what is still to come of it. *)
Record World : Type := mkWorld {
  sys : Sys;
  plan : option Z;
  wakes : list Z;
  consistent : world_ok plan sys;
}.

(** A thread calls [wait(d)] and runs it to its end. *)
Definition wait_run (d : Z) (w : World) : Sys * list Z :=
  let i := length (threads (sys w)) in
  let called := set_threads (threads (sys w) ++ [WaitCall d]) (sys w) in
  doze (plan w) (wakes w) i d (clock called) (wait_begin i d called).

Definition wait_result (i : nat) (s : Sys) : bool :=
  match threads s !! i with Some (WaitDone result _ _ _) => result | _ => false end.

Lemma wait_run_spec (d : Z) (w : World) :
  let i := length (threads (sys w)) in
  let s' := (wait_run d w).1 in
  world_ok (plan w) s' /\
  threads s' !! i = Some (WaitDone (wait_result i s') d (clock (sys w)) (clock s')).
Proof.
  destruct w as [s pl wk [Hs Hplan]]. unfold wait_run. simpl.
  set (called := set_threads (threads s ++ [WaitCall d]) s).
  assert (Hcall : reachable called) by (eapply interrupt_reachable_step; [exact Hs|apply step_call; right; eauto]).
  assert (Hi : threads called !! length (threads s) = Some (WaitCall d)) by (simpl; by apply list_lookup_middle).
  destruct (doze_spec pl wk (length (threads s)) d (clock called) (wait_begin (length (threads s)) d called))
    as (Hok & result & Hres).
  - split; [|exact Hplan]. eapply interrupt_reachable_step; [exact Hcall|]. by apply step_wait.
  - simpl. apply list_lookup_insert_eq. rewrite length_app. simpl. lia.
  - split; [exact Hok|]. unfold wait_result. simpl in Hres |- *. by rewrite Hres.
Qed.

Definition wait_world (d : Z) (w : World) : bool * World :=
  (wait_result (length (threads (sys w))) (wait_run d w).1,
   mkWorld (wait_run d w).1 (plan w) (wait_run d w).2 (proj1 (wait_run_spec d w))).

(** ** The interface is discharged *)

#[export] Instance interrupt_waiter : Waiter World := {|
  now w := clock (sys w);
  signal_at := plan;
  wait := wait_world;
|}.

(** The laws the retry loop relies on are the invariant of [Interrupt.step]. *)
#[export] Instance interrupt_waiter_laws : WaiterLaws World.
Proof.
  split; [|done]. intros d w _. simpl.
  destruct (wait_run_spec d w) as [[Hs Hplan] Hi].
  destruct (reachable_inv _ Hs) as (_ & _ & Hthr).
  destruct (Hthr _ _ Hi) as [_ [Hle Hcontract]]. split; [done|].
  unfold plan_ok in Hplan. destruct (wait_result _ _).
  - destruct Hcontract as (t & Ht & Hfin). rewrite Ht in Hplan. eauto.
  - destruct Hcontract as [Hlong Hnone]. split; [done|]. intros t Ht.
    destruct (signal_time (wait_run d w).1) as [t'|] eqn:Hsig; [|by apply Hplan].
    rewrite Hplan in Ht. injection Ht as ->. by apply Hnone.
Qed.

(** ** A run: two spurious wake-ups, then a signal in the middle of the wait *)

Definition world0 : World.
Proof.
  refine (mkWorld (init 0) (Some 300%Z) [100; 200]%Z _).
  split; [exists 0%Z; apply rtc_refl|]. by intros p [= <-].
Defined.

Example world0_wait : (wait 500 world0).1 = true /\ now (wait 500 world0).2 = 300%Z.
Proof. by vm_compute. Qed.

Example world0_elapses : (wait 250 world0).1 = false /\ now (wait 250 world0).2 = 251%Z.
Proof. by vm_compute. Qed.
