(* ===== verification/Transport.v ===== *)
(** * One HTTP attempt (src/rust/src/internal/transport.rs)

    [Transport::send] turns one POST into a response or into an error that
    carries its own retry decision. The HTTP library [ureq] is the class below:
    its calls act on a world [W], so that a body is read after, and apart from,
    the status line. *)

From stdpp Require Import prelude list strings.
From S2P Require Import Prelude Error Response Json JsonRef Wire Interrupt Retry.

Definition DEFAULT_ENDPOINT : str := lit "https://api.oppex.ai/api/v1/incident/post".
Definition CONNECT_TIMEOUT : Z := from_secs 3.
Definition SOCKET_TIMEOUT : Z := from_secs 5.
Definition ATTEMPT_TIMEOUT : Z := from_secs 8.
Definition MAX_CONNECTIONS : nat := 20.
Definition MAX_RESPONSE_BYTES : Z := 1024 * 1024.

(** ** The interface to ureq *)

(** The options of [Agent::config_builder] the SDK sets. *)
Record AgentConfig : Type := {
  timeout_connect : option Z;
  timeout_recv_response : option Z;
  timeout_global : option Z;
  max_idle_connections : nat;
  max_idle_connections_per_host : nat;
  http_status_as_error : bool;
}.

(** A POST request. *)
Record HttpRequest : Type := {
  url : str;
  headers : list (str * str);
  payload : str;
}.

Class Ureq (W : Type) `{ErrorTypes} := {
  (** The part of a response that is still on the wire. *)
  Body : Type;
  (** [agent.post(url).header(..).send(payload)]: a status line, or an error. *)
  http_send : AgentConfig -> HttpRequest -> W -> Result (Z * Body) ureq_error * W;
  (** [body_mut().with_config().limit(n).read_to_string()] *)
  read_to_string : Z -> Body -> W -> Result str ureq_error * W;
}.

(** [StatusCode::as_u16] is a [u16]. *)
Class UreqLaws (W : Type) `{Ureq W} : Prop := {
  status_u16 : forall cfg req w st body w',
    http_send cfg req w = (Ok (st, body), w') -> (0 <= st < 2 ^ 16)%Z;
}.

(** ** The transport *)

Record Transport : Type := {
  api_key : str;
  endpoint : str;
  agent : AgentConfig;
}.

(** [endpoint()]: the environment variable, when it is set and not empty. *)
Definition endpoint_of (env : option str) : str :=
  match env with
  | Some url => if negb (is_empty url) then url else DEFAULT_ENDPOINT
  | None => DEFAULT_ENDPOINT
  end.

Definition with_endpoint (key url : str) : Transport := {|
  api_key := key;
  endpoint := url;
  agent := {|
    timeout_connect := Some CONNECT_TIMEOUT;
    timeout_recv_response := Some SOCKET_TIMEOUT;
    timeout_global := Some ATTEMPT_TIMEOUT;
    max_idle_connections := MAX_CONNECTIONS;
    max_idle_connections_per_host := MAX_CONNECTIONS;
    http_status_as_error := false;
  |};
|}.

Definition Transport_new (env : option str) (key : str) : Transport :=
  with_endpoint key (endpoint_of env).

Section Send.
Context {W : Type} `{SerdeJson} `{!Ureq W}.

(** [status_failure] *)
Definition status_failure (status : Z) (body : str) : IncidentError :=
  let message := lit "Oppex returned HTTP " ++ display_Z status in
  let message :=
    match parse_response status body with
    | Ok parsed =>
        match Response.message parsed with
        | Some detail => if negb (is_blank detail) then message ++ lit ": " ++ detail else message
        | None => message
        end
    | Err _ => message
    end in
  delivery message status (is_retryable_status status).

Definition request_for (self : Transport) (body : str) : HttpRequest := {|
  url := endpoint self;
  headers := [(lit "Content-Type", lit "application/json");
              (lit "Accept", lit "application/json");
              (lit "X-API-KEY", api_key self)];
  payload := body;
|}.

(** [Transport::send] *)
Definition send (self : Transport) (body : str) (w : W) : Result IncidentResponse IncidentError * W :=
  match http_send (agent self) (request_for self body) w with
  | (Err cause, w1) =>
      (Err (delivery_caused_by (lit "incident delivery failed before a response was received")
              NO_STATUS_CODE true (BoxUreq cause)), w1)
  | (Ok (status, response), w1) =>
      match read_to_string MAX_RESPONSE_BYTES response w1 with
      | (Err cause, w2) =>
          (Err (delivery_caused_by (lit "reading the Oppex response body")
                  NO_STATUS_CODE true (BoxUreq cause)), w2)
      | (Ok text, w2) =>
          if range_contains 200 300 status then (parse_response status text, w2)
          else (Err (status_failure status text), w2)
      end
  end.
End Send.

(** ** Specification *)

Section Spec.
Context {W : Type} `{SerdeJson} `{!Ureq W}.

(** The exchange ended with a status and a body that could be read in full. *)
Definition answered (self : Transport) (body : str) (w : W) (st : Z) (text : str) (w' : W) : Prop :=
  exists b w1, http_send (agent self) (request_for self body) w = (Ok (st, b), w1) /\
    read_to_string MAX_RESPONSE_BYTES b w1 = (Ok text, w').

(** The exchange ended before a response could be read in full. *)
Definition broken (self : Transport) (body : str) (w w' : W) : Prop :=
  (exists cause, http_send (agent self) (request_for self body) w = (Err cause, w')) \/
  (exists st b w1 cause,
     http_send (agent self) (request_for self body) w = (Ok (st, b), w1) /\
     read_to_string MAX_RESPONSE_BYTES b w1 = (Err cause, w')).

(** A body that is not a JSON object: an error page of a proxy, say. *)
Definition opaque_body (text : str) : Prop :=
  is_blank text = false /\ forall v, from_str text = Ok v -> as_object v = None.

Lemma send_cases (self : Transport) (body : str) (w w' : W) (r : Result IncidentResponse IncidentError) :
  send self body w = (r, w') ->
  (broken self body w w' /\ exists msg cause, r = Err (Delivery msg NO_STATUS_CODE true cause)) \/
  (exists st text, answered self body w st text w' /\
     r = if range_contains 200 300 st then parse_response st text else Err (status_failure st text)).
Proof.
  unfold send. destruct (http_send _ _ w) as [[[st b]|cause] w1] eqn:Hs.
  - destruct (read_to_string _ b w1) as [[text|cause] w2] eqn:Hr.
    + intros Heq. right. exists st, text.
      destruct (range_contains 200 300 st); simplify_eq; split; try done; by exists b, w1.
    + intros [= <- <-]. left. split; [right; by exists st, b, w1, cause|]. eexists _, _; reflexivity.
  - intros [= <- <-]. left. split; [left; by exists cause|]. eexists _, _; reflexivity.
Qed.

Lemma parse_response_opaque (st : Z) (text : str) :
  opaque_body text ->
  exists msg cause, parse_response st text = Err (Delivery msg st false cause) /\
    (msg = non_json_text st \/ msg = non_object_text st).
Proof.
  intros [Hb Hobj]. unfold parse_response. rewrite Hb.
  destruct (from_str text) as [v|cause] eqn:Hf; simpl.
  - rewrite (Hobj v eq_refl). eexists _, _. split; [done|by right].
  - eexists _, _. split; [done|by left].
Qed.
End Spec.

(** ** Properties *)

Section Properties.
Context {W : Type} `{SerdeJson} `{!Ureq W} `{!UreqLaws W}.

(** C14: The retry decision of an attempt. It succeeds only on a 2xx answer, with
    a code that is an [i32]. An attempt that fails before a whole response was
    read has no status and is eligible for retry; one that was answered keeps
    the status it was answered with, and is eligible for retry exactly when
    that status is 429, 500, 502, 503 or 504. *)
Theorem send_retry_policy (self : Transport) (body : str) (w w' : W)
    (r : Result IncidentResponse IncidentError) :
  send self body w = (r, w') ->
  match r with
  | Ok response => response_wf response /\
      exists st text, answered self body w st text w' /\ (200 <= st < 300)%Z
  | Err e => attempted e = true /\
      ((broken self body w w' /\ status_code e = None /\ is_retryable e = true) \/
       (exists st text, answered self body w st text w' /\ status_code e = Some st /\
          (is_retryable e = true <-> st ∈ [429; 500; 502; 503; 504]%Z)))
  end.
Proof.
  intros [[Hbr (msg & cause & ->)]|(st & text & Hans & Hr)]%send_cases.
  - split; [done|]. by left.
  - assert (Hst : (0 <= st < 2 ^ 16)%Z) by (destruct Hans as (b & w1 & Hs & _); by eapply status_u16).
    assert (Hne : st <> NO_STATUS_CODE) by (unfold NO_STATUS_CODE; lia).
    assert (Hcode : forall m rt src, status_code (Delivery m st rt src) = Some st)
      by (intros m rt src; apply status_code_Some; eauto 6).
    destruct (range_contains 200 300 st) eqn:H2xx.
    + apply range_contains_spec in H2xx. destruct r as [resp|e].
      * split; [|by exists st, text].
        revert Hr. unfold parse_response. destruct (is_blank text); [intros [= ->]; unfold response_wf, i32_min, i32_max; simpl; lia|].
        destruct (from_str text) as [v|]; simpl; [|done].
        destruct (as_object v) as [m|]; [|done]. intros [= ->]. unfold response_wf. simpl.
        destruct (get_as as_i64 m "code" ≫= i32_try_from) as [n|] eqn:Hc; simpl;
          [|unfold i32_min, i32_max; lia].
        apply bind_Some in Hc as (n' & _ & Hn). by apply i32_try_from_Some in Hn as [-> ?].
      * symmetry in Hr. apply parse_response_err_cases in Hr as (_ & [(c & _ & ->)|(v & _ & _ & ->)]).
        all: split; [done|]; right; exists st, text; split; [done|]; split; [apply Hcode|].
        all: split; [done|]; rewrite !elem_of_cons, elem_of_nil; lia.
    + subst r. split; [done|]. right. exists st, text. split; [done|]. split; [apply Hcode|].
      unfold status_failure, delivery. simpl. unfold is_retryable_status.
      rewrite !elem_of_cons, elem_of_nil. repeat case_match; simplify_eq; split; try done; lia.
Qed.

(** C38: No body that is not a JSON object, such as a proxy's error page that
    repeats the request's API key, reaches an error message: the message of
    the failure is one of three fixed texts of the status. *)
Theorem send_no_echo (self : Transport) (body : str) (w w' : W) (st : Z) (text : str) :
  answered self body w st text w' -> opaque_body text ->
  exists e, send self body w = (Err e, w') /\
    (fmt_error e = lit "Oppex returned HTTP " ++ display_Z st \/
     fmt_error e = non_json_text st \/ fmt_error e = non_object_text st).
Proof.
  intros (b & w1 & Hs & Hr) Hop. unfold send. rewrite Hs, Hr.
  destruct (parse_response_opaque st text Hop) as (msg & cause & Hp & Hmsg).
  destruct (range_contains 200 300 st).
  - rewrite Hp. eexists. split; [done|]. right. exact Hmsg.
  - eexists. split; [done|]. left. unfold status_failure. by rewrite Hp.
Qed.

(** A status that is not 2xx is reported as "Oppex returned HTTP n", followed
    by the API's own message exactly when the body is an envelope whose message
    is a string that is not blank. *)
Lemma status_failure_message `{!SerdeJsonLaws} (status : Z) (members : list (str * Scalar)) :
  NoDup (map fst members) -> Forall (fun kv => scalar_wf kv.2) members ->
  fmt_error (status_failure status (object_text members)) =
  lit "Oppex returned HTTP " ++ display_Z status ++
  match member_as scalar_string members "message" with
  | Some detail => if is_blank detail then [] else lit ": " ++ detail
  | None => []
  end.
Proof.
  intros Hnd Hwf. unfold status_failure. rewrite parse_object_text by done.
  unfold envelope_response, fmt_error, delivery. cbn [Response.message].
  destruct (member_as scalar_string members "message") as [detail|]; [|by rewrite app_nil_r].
  destruct (is_blank detail); cbn [negb]; [by rewrite app_nil_r|by rewrite <-!app_assoc].
Qed.

(** A response whose status line was received but whose body cannot be read
    (larger than the limit, not UTF-8, or cut off) is reported without its
    status and as eligible for retry, whatever the status was: a 401, which is
    documented to fail immediately, and a 200, which created the incident, are
    both sent again. *)
Lemma unreadable_body_retried (self : Transport) (body : str) (w w1 w2 : W) (st : Z)
    (b : Body) (cause : ureq_error) :
  http_send (agent self) (request_for self body) w = (Ok (st, b), w1) ->
  read_to_string MAX_RESPONSE_BYTES b w1 = (Err cause, w2) ->
  exists e, send self body w = (Err e, w2) /\ status_code e = None /\ is_retryable e = true.
Proof. intros Hs Hr. unfold send. rewrite Hs, Hr. by eexists. Qed.
End Properties.

(** The endpoint is the documented one unless the test override is set to
    something: an empty override is ignored. *)
Lemma endpoint_default (env : option str) (key : str) :
  (endpoint (Transport_new env key) = DEFAULT_ENDPOINT <->
   env = None \/ env = Some [] \/ env = Some DEFAULT_ENDPOINT) /\
  (forall url, env = Some url -> url <> [] -> endpoint (Transport_new env key) = url) /\
  api_key (Transport_new env key) = key.
Proof.
  unfold Transport_new, endpoint_of. simpl. split_and!; [|by intros [|c url] ->|done].
  destruct env as [[|c url]|]; simpl; split; try tauto.
  - intros Heq. rewrite Heq. right. right. reflexivity.
  - intros [?|[?|Heq]]; [done|done|]. by apply (inj Some) in Heq.
Qed.
