(* ===== verification/Stub.v ===== *)
(** * A loopback stand-in for the API

    A concrete network for the witnesses, in the way of the tests' [StubServer]:
    its answers are scripted, it records the requests it was sent, and it comes
    with the scripted interrupt of [Retry.Timeline]. It models no code of the
    SDK; it shows that the interfaces to [ureq] and to the interrupt can hold
    together, and lets the witnesses run whole calls. *)

From stdpp Require Import prelude list strings.
From S2P Require Import Prelude Error Response Json JsonRef Wire Interrupt Retry Transport.

(** The connection is refused, or a status arrives with a body; the body may be
    unreadable. *)
Inductive Answer : Type :=
| Refused
| Reply (status : Z) (body : option str).

Record Net : Type := mkNet {
  line : Timeline Answer;
  sent : list HttpRequest;
}.

#[export] Instance net_waiter : Waiter Net := {|
  now w := time (line w);
  signal_at w := signal_time (line w);
  wait d w := let '(b, l) := timeline_wait d (line w) in (b, mkNet l (sent w));
|}.

#[export] Instance net_waiter_laws : WaiterLaws Net.
Proof.
  split; intros d w; simpl.
  - intros Hd. pose proof (wait_ok d (line w) Hd) as Hok. simpl in Hok.
    by destruct (timeline_wait d (line w)).
  - pose proof (wait_signal_at d (line w)) as Hs. simpl in Hs.
    by destruct (timeline_wait d (line w)).
Qed.

(** Every exchange takes 100 ms; once the script is used up, nobody listens. *)
Definition stub_send (cfg : AgentConfig) (req : HttpRequest) (w : Net) :
    Result (Z * option str) unit * Net :=
  let l := line w in
  let next rest := mkNet (mkTimeline (time l + from_millis 100) (signal_time l) rest) (sent w ++ [req]) in
  match script l with
  | [] => (Err tt, next [])
  | Refused :: rest => (Err tt, next rest)
  | Reply st body :: rest => (Ok ((st mod 2 ^ 16)%Z, body), next rest)
  end.

Definition stub_read (limit : Z) (body : option str) (w : Net) : Result str unit * Net :=
  match body with
  | Some text => if (Z.of_nat (length text) <=? limit)%Z then (Ok text, w) else (Err tt, w)
  | None => (Err tt, w)
  end.

#[export] Instance stub_ureq : Ureq Net := {|
  Body := option str;
  http_send := stub_send;
  read_to_string := stub_read;
|}.

#[export] Instance stub_laws : UreqLaws Net.
Proof.
  split. intros cfg req w st body w'. simpl. unfold stub_send.
  destruct (script (line w)) as [|[|st' body'] rest]; [done|done|].
  intros [= <- _ _]. by apply Z.mod_pos_bound.
Qed.

Definition network (signal : option Z) (answers : list Answer) : Net :=
  mkNet (mkTimeline 0 signal answers) [].

Definition test_transport : Transport :=
  Transport_new (Some (lit "http://127.0.0.1:1")) (lit "api-key").

Definition error_page : str := lit "<html>X-API-KEY: super-secret</html>".

Definition denied : str :=
  object_text [(lit "success", SBool false); (lit "message", SString (lit "invalid api key"))].

(** ** Witnesses of the properties of [Transport] *)

Lemma send_retry_policy_witness :
  exists e w', send test_transport (lit "{}") (network None [Reply 401 (Some denied)]) = (Err e, w') /\
    attempted e = true /\ is_retryable e = false.
Proof.
  destruct (send test_transport (lit "{}") (network None [Reply 401 (Some denied)])) as [r w'] eqn:Hs.
  pose proof (send_retry_policy _ _ _ _ _ Hs) as Hp.
  destruct r as [resp|e]; [vm_compute in Hs; discriminate|].
  exists e, w'. split; [done|]. split; [exact (proj1 Hp)|].
  vm_compute in Hs. injection Hs as <- _. reflexivity.
Defined.

Lemma send_no_echo_witness :
  exists e w', send test_transport (lit "{}") (network None [Reply 502 (Some error_page)]) = (Err e, w') /\
    (fmt_error e = lit "Oppex returned HTTP " ++ display_Z 502 \/
     fmt_error e = non_json_text 502 \/ fmt_error e = non_object_text 502).
Proof.
  set (w := network None [Reply 502 (Some error_page)]).
  destruct (send_no_echo test_transport (lit "{}") w
              (stub_send (agent test_transport) (request_for test_transport (lit "{}")) w).2
              502 error_page) as (e & Hs & Hmsg).
  - exists (Some error_page). eexists. split; vm_compute; reflexivity.
  - split; [vm_compute; reflexivity|]. intros v Hv. vm_compute in Hv. discriminate.
  - exists e. eexists. split; [exact Hs|exact Hmsg].
Defined.

Lemma status_failure_message_witness :
  fmt_error (status_failure 401 denied) = lit "Oppex returned HTTP 401: invalid api key".
Proof.
  unfold denied. rewrite status_failure_message.
  - vm_compute. reflexivity.
  - apply (bool_decide_unpack _). vm_compute. exact I.
  - repeat constructor.
Defined.

Lemma unreadable_body_retried_witness :
  exists e w', send test_transport (lit "{}") (network None [Reply 401 None]) = (Err e, w') /\
    status_code e = None /\ is_retryable e = true.
Proof.
  set (w := network None [Reply 401 None]).
  destruct (unreadable_body_retried test_transport (lit "{}") w
    (stub_send (agent test_transport) (request_for test_transport (lit "{}")) w).2
    (stub_send (agent test_transport) (request_for test_transport (lit "{}")) w).2
    401 (None : @Body Net _ stub_ureq) (tt : @ureq_error ref_errors) ltac:(reflexivity) ltac:(reflexivity)) as (e & Hs & Hst & Hr).
  exists e. eexists. split; [exact Hs|]. split; [exact Hst|exact Hr].
Defined.
