(* ===== verification/DropLogger.v ===== *)
(** * Counting dropped incidents (src/rust/src/internal/drop_logger.rs)

    The counter behind the overflow warning: every drop is counted, and at most
    one summary is due per interval. *)

From stdpp Require Import prelude list.
From S2P Require Import Prelude.

Definition DROP_LOG_INTERVAL : Z := from_secs 60.

(** The logger with the state its mutex guards; [dropped] is a [u64]. *)
Record RateLimitedDropLogger : Type := mkLogger {
  interval : Z;
  dropped : Z;
  started_at : Z;
}.

(** [RateLimitedDropLogger::new] at the instant [now]. *)
Definition logger_new (interval now : Z) : RateLimitedDropLogger := mkLogger interval 0 now.

(** [record_drop], which reads the clock twice: [now] for the elapsed time and
    [reset] for the start of the next interval. The count is incremented with
    the wrap-around of a release build. *)
Definition record_drop (now reset : Z) (l : RateLimitedDropLogger) : option Z * RateLimitedDropLogger :=
  let count := ((dropped l + 1) mod u64_modulus)%Z in
  if (saturating_duration_since now (started_at l) <? interval l)%Z
  then (None, mkLogger (interval l) count (started_at l))
  else (Some count, mkLogger (interval l) 0 reset).

(** ** A run of drops *)

(** The clock readings of one call. *)
Definition readings : Type := Z * Z.

(** The summaries a run of drops makes due, each with the reading at which it
    was due and the start of the interval that follows. *)
Fixpoint summaries (rs : list readings) (l : RateLimitedDropLogger) :
    list (Z * readings) * RateLimitedDropLogger :=
  match rs with
  | [] => ([], l)
  | (now, reset) :: rs =>
      let '(due, l1) := record_drop now reset l in
      let '(out, l2) := summaries rs l1 in
      (match due with Some n => (n, (now, reset)) :: out | None => out end, l2)
  end.

Definition reported (out : list (Z * readings)) : Z := foldr (fun o n => (o.1 + n)%Z) 0%Z out.

(** Each summary comes at least [interval] after the start of its interval. *)
Fixpoint spaced (interval start : Z) (out : list (Z * readings)) : Prop :=
  match out with
  | [] => True
  | (_, (now, reset)) :: out => (start + interval <= now)%Z /\ spaced interval reset out
  end.

(** Readings of a clock that does not run backwards. *)
Fixpoint monotone (t : Z) (rs : list readings) : Prop :=
  match rs with
  | [] => True
  | (now, reset) :: rs => (t <= now <= reset)%Z /\ monotone reset rs
  end.

Lemma record_drop_count (now reset : Z) (l : RateLimitedDropLogger) :
  (0 <= dropped l < u64_modulus - 1)%Z ->
  (default 0 (record_drop now reset l).1 + dropped (record_drop now reset l).2 = dropped l + 1)%Z /\
  (0 <= dropped (record_drop now reset l).2 <= dropped l + 1)%Z.
Proof.
  intros Hd. unfold record_drop. rewrite Z.mod_small by lia.
  destruct (_ <? _)%Z; simpl; lia.
Qed.

Lemma summaries_count (rs : list readings) (l : RateLimitedDropLogger) :
  (0 <= dropped l)%Z -> (dropped l + Z.of_nat (length rs) < u64_modulus)%Z ->
  (reported (summaries rs l).1 + dropped (summaries rs l).2 = dropped l + Z.of_nat (length rs))%Z /\
  (0 <= dropped (summaries rs l).2)%Z.
Proof.
  revert l. induction rs as [|[now reset] rs IH]; intros l H0 Hb; simpl in *; [lia|].
  pose proof (record_drop_count now reset l ltac:(lia)) as [Hc Hr].
  destruct (record_drop now reset l) as [due l1]. simpl in Hc, Hr.
  destruct (IH l1 ltac:(lia) ltac:(lia)) as [IH1 IH2].
  destruct (summaries rs l1) as [out l2]. simpl in *. destruct due; simpl in *; lia.
Qed.

Lemma summaries_spaced (rs : list readings) (l : RateLimitedDropLogger) (t : Z) :
  (0 < interval l)%Z -> (started_at l <= t)%Z -> monotone t rs ->
  spaced (interval l) (started_at l) (summaries rs l).1.
Proof.
  revert l t. induction rs as [|[now reset] rs IH]; intros l t Hi Hs Hm; simpl in *; [done|].
  destruct Hm as [Ht Hm]. unfold record_drop.
  destruct (Z.ltb_spec (saturating_duration_since now (started_at l)) (interval l)) as [Hlt|Hge].
  - pose proof (IH (mkLogger (interval l) ((dropped l + 1) mod u64_modulus) (started_at l)) reset
      Hi ltac:(simpl; lia) Hm) as IH'.
    destruct (summaries rs _) as [out l2]. exact IH'.
  - pose proof (IH (mkLogger (interval l) 0 reset) reset Hi ltac:(simpl; lia) Hm) as IH'.
    destruct (summaries rs _) as [out l2]. simpl in *.
    unfold saturating_duration_since in Hge. split; [lia|exact IH'].
Qed.

(** ** Properties *)

(** No drop is lost or counted twice: over any run of drops the summaries
    plus the count still pending add up to the drops of the run and the count
    pending before it, as long as the [u64] does not overflow. *)
Lemma drops_conserved (rs : list readings) (l : RateLimitedDropLogger) :
  (0 <= dropped l)%Z -> (dropped l + Z.of_nat (length rs) < u64_modulus)%Z ->
  (reported (summaries rs l).1 + dropped (summaries rs l).2 = dropped l + Z.of_nat (length rs))%Z.
Proof. intros H0 Hb. by apply summaries_count. Qed.

(** At most one summary per interval: whatever the rate of the drops, each
    summary is due at least a whole interval after the previous one, and the
    first at least an interval after the logger was made. *)
Lemma summaries_rate_limited (rs : list readings) (l : RateLimitedDropLogger) (t : Z) :
  (0 < interval l)%Z -> (started_at l <= t)%Z -> monotone t rs ->
  spaced (interval l) (started_at l) (summaries rs l).1.
Proof. apply summaries_spaced. Qed.

(** The summary counts every drop since the previous one, not those of the
    last interval: a drop in the first minute is held back until the next drop,
    however much later that is, and is then reported with it, although the
    warning the dispatcher logs says the drops were "in the last minute". *)
Lemma summary_spans_any_gap (t gap : Z) :
  (DROP_LOG_INTERVAL <= gap)%Z ->
  (summaries [(t + 1, t + 1); (t + gap, t + gap)]%Z (logger_new DROP_LOG_INTERVAL t)).1 =
  [(2, (t + gap, t + gap))]%Z.
Proof.
  intros Hgap. pose proof (eq_refl : DROP_LOG_INTERVAL = 60000000000%Z) as Hint.
  assert (H1 : record_drop (t + 1) (t + 1) (logger_new DROP_LOG_INTERVAL t)
               = (None, mkLogger DROP_LOG_INTERVAL 1 t)).
  { unfold record_drop, logger_new, saturating_duration_since. cbn [dropped started_at interval].
    by rewrite (proj2 (Z.ltb_lt _ _)) by lia. }
  assert (H2 : record_drop (t + gap) (t + gap) (mkLogger DROP_LOG_INTERVAL 1 t)
               = (Some 2%Z, mkLogger DROP_LOG_INTERVAL 0 (t + gap))).
  { unfold record_drop, saturating_duration_since. cbn [dropped started_at interval].
    by rewrite (proj2 (Z.ltb_ge _ _)) by lia. }
  cbn [summaries]. by rewrite H1, H2.
Qed.

(** ** Witnesses *)

Definition sample_drops : list readings := [(1, 1); (2, 3); (61000000000, 61000000001); (62000000000, 62000000000)]%Z.

Lemma drops_conserved_witness :
  (reported (summaries sample_drops (logger_new DROP_LOG_INTERVAL 0)).1 +
   dropped (summaries sample_drops (logger_new DROP_LOG_INTERVAL 0)).2 = 4)%Z.
Proof. apply (drops_conserved sample_drops (logger_new DROP_LOG_INTERVAL 0)); vm_compute; (reflexivity || discriminate). Defined.

Lemma summaries_rate_limited_witness :
  spaced DROP_LOG_INTERVAL 0 (summaries sample_drops (logger_new DROP_LOG_INTERVAL 0)).1 /\
  (summaries sample_drops (logger_new DROP_LOG_INTERVAL 0)).1 = [(3, (61000000000, 61000000001))]%Z.
Proof.
  split; [|vm_compute; reflexivity].
  apply (summaries_rate_limited sample_drops (logger_new DROP_LOG_INTERVAL 0) 0).
  - unfold DROP_LOG_INTERVAL, from_secs. simpl. lia.
  - simpl. lia.
  - unfold sample_drops. simpl. lia.
Defined.

Lemma summary_spans_any_gap_witness :
  (summaries [(1, 1); (from_secs 36000, from_secs 36000)]%Z (logger_new DROP_LOG_INTERVAL 0)).1 =
  [(2, (from_secs 36000, from_secs 36000))]%Z.
Proof. apply (summary_spans_any_gap 0 (from_secs 36000)). unfold DROP_LOG_INTERVAL, from_secs. lia. Defined.
