(* ===== verification/Dispatcher.v ===== *)
(** * The asynchronous dispatcher (src/rust/src/internal/dispatcher.rs)

    A bounded queue of tasks served by a fixed number of worker threads, with
    one mutex around the whole state and one condition variable on which both
    the idle workers and the closing thread wait.

    Every access to the state is made with the mutex held, so what a thread does
    between taking the lock and giving it back (by leaving the block, returning
    or starting to wait) is one step of the system: the functions of the section
    [Critical]. Everything a thread does outside the lock (notifying, running a
    task, logging) is a step of its own, in the order of the source. The
    scheduler, the choice of the thread a notification wakes, spurious wake-ups,
    the passing of time and panicking tasks are the nondeterminism of [step]. *)

From stdpp Require Import prelude list strings relations.
From S2P Require Import Prelude DropLogger.

Definition QUEUE_CAPACITY : nat := 5000.
Definition WORKER_COUNT : nat := 2.
Definition CLOSE_DRAIN_TIMEOUT : Z := from_secs 10.

Section Dispatcher.
Context {Task : Type}.

(** ** The shared state *)

Record State : Type := mkState {
  tasks : list Task;
  accepting : bool;
  draining : bool;
  active : Z;
}.

Record Shared : Type := mkShared {
  capacity : nat;
  state : State;
  drop_logger : RateLimitedDropLogger;
}.

(** ** Critical sections *)

Definition with_state (sh : Shared) (st : State) : Shared := mkShared (capacity sh) st (drop_logger sh).

(** [VecDeque::pop_front] *)
Definition pop_front (l : list Task) : option Task * list Task :=
  match l with
  | [] => (None, [])
  | t :: l => (Some t, l)
  end.

(** [VecDeque::is_empty] *)
Definition is_empty_queue (l : list Task) : bool := match l with [] => true | _ => false end.

(** The block of [submit]: [None] when the dispatcher refuses, else the new
    state, the evicted task and the summary that is due. *)
Definition submit_section (now : Z) (task : Task) (sh : Shared) :
    option (Shared * option Task * option Z) :=
  let st := state sh in
  if negb (accepting st) then None
  else
    let '(evicted, queue, due, logger) :=
      if (capacity sh <=? length (tasks st))%nat then
        let '(evicted, queue) := pop_front (tasks st) in
        let '(due, logger) := record_drop now now (drop_logger sh) in
        (evicted, queue, due, logger)
      else (None, tasks st, None, drop_logger sh) in
    Some (mkShared (capacity sh)
            (mkState (queue ++ [task]) (accepting st) (draining st) (active st)) logger,
          evicted, due).

(** The first block of [close]: [None] when it returns at once. *)
Definition close_section (sh : Shared) : option Shared :=
  let st := state sh in
  if negb (accepting st) then None
  else Some (with_state sh (mkState (tasks st) false (draining st) (active st))).

(** One turn of the inner loop of [work]. *)
Inductive Poll : Type :=
| Took (task : Task) (sh : Shared)
| Leave
| Sleep.

Definition work_section (sh : Shared) : Poll :=
  let st := state sh in
  match pop_front (tasks st) with
  | (Some task, queue) =>
      Took task (with_state sh (mkState queue (accepting st) (draining st) (active st + 1)))
  | (None, _) => if negb (draining st) then Leave else Sleep
  end.

(** [self.lock().active -= 1] *)
Definition done_section (sh : Shared) : Shared :=
  let st := state sh in
  with_state sh (mkState (tasks st) (accepting st) (draining st) (active st - 1)).

(** One turn of the loop of [drain_until], with what follows the loop. *)
Inductive Drain : Type :=
| Drained (abandoned : list Task) (sh : Shared)
| DrainSleep.

Definition drain_section (now deadline : Z) (sh : Shared) : Drain :=
  let st := state sh in
  let finish := Drained (tasks st) (with_state sh (mkState [] (accepting st) false (active st))) in
  if negb (is_empty_queue (tasks st)) || (0 <? active st)%Z then
    match checked_duration_since deadline now with
    | None => finish
    | Some remaining => DrainSleep
    end
  else finish.

(** [Debug]: the counters, and nothing of the tasks, which cannot be printed. *)
Definition fmt_dispatcher (sh : Shared) : str :=
  let st := state sh in
  lit "AsyncDispatcher { capacity: " ++ display_Z (Z.of_nat (capacity sh)) ++
  lit ", queued: " ++ display_Z (Z.of_nat (length (tasks st))) ++
  lit ", active: " ++ display_Z (active st) ++
  lit ", accepting: " ++ (if accepting st then lit "true" else lit "false") ++
  lit ", .. }".

(** ** Threads *)

(** Where a thread is: a worker in [work], an application thread in [submit], or
    one in [close]. *)
Inductive pc : Type :=
(* work *)
| WLock
| WWait
| WRun (task : Task)
| WFinish
| WNotify
| WExit
| WPanic
(* submit *)
| SLock (task : Task)
| SNotify (due : option Z)
| SLog (due : option Z)
| SDone (accepted : bool)
(* close *)
| CLock (timeout : Z)
| CDeadline (timeout : Z)
| CDrain (deadline : Z)
| CWait (deadline : Z)
| CNotify (abandoned : nat)
| CWorkers (abandoned : nat)
| CLog (abandoned : nat)
| CDone.

(** What happened, in order: the fate of each task and the warnings logged. *)
Inductive event : Type :=
| Accepted (task : Task)
| Rejected (task : Task)
| Evicted (task : Task)
| Started (task : Task)
| Panicked (task : Task)
| Abandoned (task : Task)
| WarnDropped (n : Z)
| WarnForceDropped (n : nat).

Record Sys : Type := mkSys {
  shared : Shared;
  threads : list pc;
  clock : Z;
  history : list event;
}.

(** Thread [i] moves to [p], the shared state becomes [sh], and [es] happen. *)
Definition move (i : nat) (p : pc) (sh : Shared) (es : list event) (s : Sys) : Sys :=
  mkSys sh (<[i := p]> (threads s)) (clock s) (history s ++ es).

(** A woken thread takes the lock again and goes round its loop. *)
Definition wake (p : pc) : pc :=
  match p with
  | WWait => WLock
  | CWait deadline => CDrain deadline
  | p => p
  end.

Definition waiting (p : pc) : bool :=
  match p with WWait | CWait _ => true | _ => false end.

(** [Condvar::notify_all] *)
Definition notify_all (s : Sys) : Sys :=
  mkSys (shared s) (wake <$> threads s) (clock s) (history s).

Definition warn_dropped (due : option Z) : list event :=
  match due with Some n => [WarnDropped n] | None => [] end.

Definition warn_abandoned (abandoned : nat) : list event :=
  if (0 <? abandoned)%nat then [WarnForceDropped abandoned] else [].

(** ** The steps a thread makes by itself *)

Definition run_thread (i : nat) (s : Sys) : option Sys :=
  let sh := shared s in
  p ← threads s !! i;
  match p with
  (* work *)
  | WLock =>
      match work_section sh with
      | Took task sh => Some (move i (WRun task) sh [Started task] s)
      | Leave => Some (move i WExit sh [] s)
      | Sleep => Some (move i WWait sh [] s)
      end
  | WRun _ => Some (move i WFinish sh [] s)
  | WFinish => Some (move i WNotify (done_section sh) [] s)
  | WNotify => Some (move i WLock sh [] (notify_all s))
  (* submit *)
  | SLock task =>
      match submit_section (clock s) task sh with
      | None => Some (move i (SDone false) sh [Rejected task] s)
      | Some (sh, evicted, due) =>
          Some (move i (SNotify due) sh (option_list (Evicted <$> evicted) ++ [Accepted task]) s)
      end
  | SLog due => Some (move i (SDone true) sh (warn_dropped due) s)
  (* close *)
  | CLock timeout =>
      match close_section sh with
      | None => Some (move i CDone sh [] s)
      | Some sh => Some (move i (CDeadline timeout) sh [] s)
      end
  | CDeadline timeout => Some (move i (CDrain (clock s + timeout)) sh [] s)
  | CDrain deadline =>
      match drain_section (clock s) deadline sh with
      | Drained abandoned sh =>
          Some (move i (CNotify (length abandoned)) sh (Abandoned <$> abandoned) s)
      | DrainSleep => Some (move i (CWait deadline) sh [] s)
      end
  | CNotify abandoned => Some (move i (CWorkers abandoned) sh [] (notify_all s))
  | CWorkers abandoned => Some (move i (CLog abandoned) sh [] s)
  | CLog abandoned => Some (move i CDone sh (warn_abandoned abandoned) s)
  (* blocked, finished, or with a choice *)
  | WWait | CWait _ | SNotify _ | WExit | WPanic | SDone _ | CDone => None
  end.

(** ** The system *)

Inductive step (s : Sys) : Sys -> Prop :=
(** An application thread calls [submit] or [close]. *)
| step_submit (task : Task) :
    step s (mkSys (shared s) (threads s ++ [SLock task]) (clock s) (history s))
| step_close (timeout : Z) : (0 <= timeout)%Z ->
    step s (mkSys (shared s) (threads s ++ [CLock timeout]) (clock s) (history s))
| step_tick (d : Z) : (0 <= d)%Z ->
    step s (mkSys (shared s) (threads s) (clock s + d) (history s))
| step_run (i : nat) (s' : Sys) : run_thread i s = Some s' -> step s s'
(** A task panics: its worker unwinds, so neither the decrement nor the
    notification after the call is reached. *)
| step_panic (i : nat) (task : Task) : threads s !! i = Some (WRun task) ->
    step s (move i WPanic (shared s) [Panicked task] s)
(** [notify_one] wakes one thread of the wait set, whichever it is... *)
| step_notify_one (i j : nat) (due : option Z) (p : pc) :
    threads s !! i = Some (SNotify due) -> threads s !! j = Some p -> waiting p = true ->
    step s (move i (SLog due) (shared s) []
              (mkSys (shared s) (<[j := wake p]> (threads s)) (clock s) (history s)))
(** ... and does nothing when no thread waits. *)
| step_notify_none (i : nat) (due : option Z) :
    threads s !! i = Some (SNotify due) -> count waiting (threads s) = 0 ->
    step s (move i (SLog due) (shared s) [] s)
| step_spurious (j : nat) (p : pc) :
    threads s !! j = Some p -> waiting p = true ->
    step s (move j (wake p) (shared s) [] s)
(** The [wait_timeout] of the closing thread expires at its deadline. *)
| step_timeout (j : nat) (deadline : Z) :
    threads s !! j = Some (CWait deadline) -> (deadline <= clock s)%Z ->
    step s (move j (CDrain deadline) (shared s) [] s).

(** [AsyncDispatcher::new] at instant [now]. *)
Definition new (worker_count cap : nat) (now : Z) : Sys :=
  mkSys (mkShared cap (mkState [] true true 0) (logger_new DROP_LOG_INTERVAL now))
    (replicate worker_count WLock) now [].

Definition reachable (worker_count cap : nat) (s : Sys) : Prop :=
  exists now, rtc step (new worker_count cap now) s.

(** ** Executing a schedule *)

(** The choices of the scheduler and of the environment, as data. *)
Inductive action : Type :=
| ASubmit (task : Task)
| AClose (timeout : Z)
| ATick (d : Z)
| ARun (i : nat)
| APanic (i : nat)
| ANotify (i j : nat)
| ANotifyNone (i : nat)
| ATimeout (j : nat).

Definition act (a : action) (s : Sys) : option Sys :=
  match a with
  | ASubmit task => Some (mkSys (shared s) (threads s ++ [SLock task]) (clock s) (history s))
  | AClose timeout =>
      if (0 <=? timeout)%Z
      then Some (mkSys (shared s) (threads s ++ [CLock timeout]) (clock s) (history s)) else None
  | ATick d =>
      if (0 <=? d)%Z then Some (mkSys (shared s) (threads s) (clock s + d) (history s)) else None
  | ARun i => run_thread i s
  | APanic i =>
      match threads s !! i with
      | Some (WRun task) => Some (move i WPanic (shared s) [Panicked task] s)
      | _ => None
      end
  | ANotify i j =>
      match threads s !! i, threads s !! j with
      | Some (SNotify due), Some p =>
          if waiting p
          then Some (move i (SLog due) (shared s) []
                       (mkSys (shared s) (<[j := wake p]> (threads s)) (clock s) (history s)))
          else None
      | _, _ => None
      end
  | ANotifyNone i =>
      match threads s !! i with
      | Some (SNotify due) =>
          if (count waiting (threads s) =? 0)%nat
          then Some (move i (SLog due) (shared s) [] s) else None
      | _ => None
      end
  | ATimeout j =>
      match threads s !! j with
      | Some (CWait deadline) =>
          if (deadline <=? clock s)%Z then Some (move j (CDrain deadline) (shared s) [] s) else None
      | _ => None
      end
  end.

Fixpoint play (l : list action) (s : Sys) : option Sys :=
  match l with
  | [] => Some s
  | a :: l => s' ← act a s; play l s'
  end.

Lemma act_step (a : action) (s s' : Sys) : act a s = Some s' -> step s s'.
Proof.
  destruct a; simpl; intros Hact.
  - simplify_eq. constructor.
  - case_match; simplify_eq. constructor. lia.
  - case_match; simplify_eq. constructor. lia.
  - by eapply step_run.
  - repeat case_match; simplify_eq. by apply step_panic.
  - repeat case_match; simplify_eq. by eapply step_notify_one.
  - repeat case_match; simplify_eq. eapply step_notify_none; [done|]. by apply Nat.eqb_eq.
  - repeat case_match; simplify_eq. apply step_timeout; [done|lia].
Qed.

Lemma play_steps (l : list action) (s s' : Sys) : play l s = Some s' -> rtc step s s'.
Proof.
  revert s. induction l as [|a l IH]; simpl; intros s Hplay; [by simplify_eq|].
  destruct (act a s) as [s1|] eqn:Hact; [|done]. eapply rtc_l; [by eapply act_step|by apply IH].
Qed.

Lemma play_reachable (worker_count cap : nat) (now : Z) (l : list action) (s : Sys) :
  play l (new worker_count cap now) = Some s -> reachable worker_count cap s.
Proof. intros Hplay. exists now. by eapply play_steps. Qed.
End Dispatcher.

Arguments State : clear implicits.
Arguments Shared : clear implicits.
Arguments pc : clear implicits.
Arguments event : clear implicits.
Arguments Sys : clear implicits.
Arguments action : clear implicits.

Example fmt_new :
  fmt_dispatcher (shared (new (Task := nat) WORKER_COUNT QUEUE_CAPACITY 0)) =
  lit "AsyncDispatcher { capacity: 5000, queued: 0, active: 0, accepting: true, .. }".
Proof. vm_compute. reflexivity. Qed.
