(* ===== verification/DispatcherInv.v ===== *)
(** * Invariants of the dispatcher (src/rust/src/internal/dispatcher.rs)

    Rule induction over the steps of [Dispatcher.step]: what holds in every
    reachable state, whatever the interleaving of submitters, workers and closing
    threads, the choice of the woken thread, spurious wake-ups, the passing of
    time and panicking tasks. *)

From stdpp Require Import prelude list relations.
From S2P Require Import Prelude DropLogger Dispatcher.

(** ** Kinds of threads *)

Section Kinds.
Context {Task : Type}.
Implicit Type p : pc Task.

Definition is_worker p : bool :=
  match p with WLock | WWait | WRun _ | WFinish | WNotify | WExit | WPanic => true | _ => false end.
(** A worker whose task is counted in [active]. *)
Definition busy p : bool := match p with WRun _ | WFinish | WPanic => true | _ => false end.
Definition asleep p : bool := match p with WWait => true | _ => false end.
Definition locking p : bool := match p with WLock => true | _ => false end.
Definition awake p : bool := match p with WLock | WWait => true | _ => false end.
Definition finishing p : bool := match p with WNotify => true | _ => false end.
Definition panicked p : bool := match p with WPanic => true | _ => false end.
(** A submitter that has not notified yet. *)
Definition notifying p : bool := match p with SNotify _ => true | _ => false end.
(** The closing thread before it has stopped the workers. *)
Definition closing p : bool := match p with CDeadline _ | CDrain _ | CWait _ => true | _ => false end.
Definition close_wait p : bool := match p with CWait _ => true | _ => false end.
Definition close_notify p : bool := match p with CNotify _ => true | _ => false end.
End Kinds.

(** ** The tasks of a history *)

Section History.
Context {Task : Type}.
Implicit Types (e : event Task) (h : list (event Task)).

Definition accepted_of e : option Task := match e with Accepted t => Some t | _ => None end.
Definition started_of e : option Task := match e with Started t => Some t | _ => None end.
Definition evicted_of e : option Task := match e with Evicted t => Some t | _ => None end.
Definition abandoned_of e : option Task := match e with Abandoned t => Some t | _ => None end.
(** What takes a task out of the queue. *)
Definition removed_of e : option Task :=
  match e with Evicted t | Started t | Abandoned t => Some t | _ => None end.

Definition accepted h : list Task := omap accepted_of h.
Definition started h : list Task := omap started_of h.
Definition evicted h : list Task := omap evicted_of h.
Definition abandoned h : list Task := omap abandoned_of h.
Definition removed h : list Task := omap removed_of h.

Lemma omap_abandoned (f : event Task -> option Task) (l : list Task) :
  (forall t, f (Abandoned t) = Some t) -> omap f (Abandoned <$> l) = l.
Proof. intros Hf. induction l as [|t l IH]; [done|]. cbn. by rewrite Hf, IH. Qed.

Lemma omap_abandoned_none (f : event Task -> option Task) (l : list Task) :
  (forall t, f (Abandoned t) = None) -> omap f (Abandoned <$> l) = [].
Proof. intros Hf. induction l as [|t l IH]; [done|]. cbn. by rewrite Hf, IH. Qed.

Lemma omap_warn_dropped (f : event Task -> option Task) (due : option Z) :
  (forall n, f (WarnDropped n) = None) -> omap f (warn_dropped due) = [].
Proof. intros Hf. destruct due; [|done]. cbn. by rewrite Hf. Qed.

Lemma omap_warn_abandoned (f : event Task -> option Task) (n : nat) :
  (forall n, f (WarnForceDropped n) = None) -> omap f (warn_abandoned n) = [].
Proof. intros Hf. unfold warn_abandoned. case_match; [|done]. cbn. by rewrite Hf. Qed.

Lemma omap_sublist (f g : event Task -> option Task) h :
  (forall e t, f e = Some t -> g e = Some t) -> sublist (omap f h) (omap g h).
Proof.
  intros Hfg. induction h as [|e h IH]; [done|]. cbn.
  destruct (f e) eqn:Hf; [rewrite (Hfg _ _ Hf); by apply sublist_skip|].
  destruct (g e); [by apply sublist_cons|done].
Qed.
End History.

(** ** Rule induction *)

Section Invariants.
Context {Task : Type} (workers cap : nat).
Implicit Type s : Sys Task.

Notation reachable := (reachable workers cap).

Lemma reachable_ind' (P : Sys Task -> Prop) :
  (forall now, P (new workers cap now)) ->
  (forall s s', reachable s -> P s -> step s s' -> P s') ->
  forall s, reachable s -> P s.
Proof.
  intros Hinit Hpres s [now Hrtc]. revert s Hrtc.
  apply rtc_ind_r; [apply Hinit|]. intros s1 s2 Hrtc Hstep IH.
  apply (Hpres s1); [by exists now|done|done].
Qed.

Lemma reachable_step s s' : reachable s -> rtc step s s' -> reachable s'.
Proof. intros [now Hrtc] Hs. exists now. by etrans. Qed.

(** A property that single steps preserve holds all along a run. *)
Lemma rtc_preserves (P : Sys Task -> Prop) s s' :
  (forall s1 s2, reachable s1 -> P s1 -> step s1 s2 -> P s2) ->
  reachable s -> P s -> rtc step s s' -> P s'.
Proof.
  intros Hpres Hreach HP Hrtc. revert Hreach HP.
  induction Hrtc as [|s1 s2 s3 Hstep _ IH]; [done|].
  intros Hreach HP. apply IH; [|by eapply Hpres].
  eapply reachable_step; [done|]. by apply rtc_once.
Qed.
End Invariants.

#[export] Hint Resolve reachable_step rtc_once : rust_inv.

Lemma lookup_wake {Task : Type} (l : list (pc Task)) (i : nat) (p : pc Task) :
  l !! i = Some p -> (wake <$> l) !! i = Some (wake p).
Proof. intros Hi. by rewrite list_lookup_fmap, Hi. Qed.

(** Rule induction on a goal of the form [forall s, reachable s -> P s]. *)
Ltac reach_ind :=
  lazymatch goal with
  | |- forall s, reachable ?w ?c s -> @?P s => apply (reachable_ind' w c P); cbv beta
  end.

(** What waking every thread does to the counts. *)
Lemma count_wake {Task : Type} (l : list (pc Task)) :
  count is_worker (wake <$> l) = count is_worker l /\
  count busy (wake <$> l) = count busy l /\
  count asleep (wake <$> l) = 0 /\
  count locking (wake <$> l) = count awake l /\
  count finishing (wake <$> l) = count finishing l /\
  count panicked (wake <$> l) = count panicked l /\
  count notifying (wake <$> l) = count notifying l /\
  count closing (wake <$> l) = count closing l /\
  count close_wait (wake <$> l) = 0 /\
  count close_notify (wake <$> l) = count close_notify l.
Proof.
  split_and!; try (apply count_map; by intros []).
  - apply count_zero. intros i x (p & -> & _)%list_lookup_fmap_Some. by destruct p.
  - apply count_zero. intros i x (p & -> & _)%list_lookup_fmap_Some. by destruct p.
Qed.

Lemma lookup_wake_other {Task : Type} (l : list (pc Task)) (i j : nat) (x z : pc Task) :
  l !! i = Some x -> l !! j = Some z -> waiting z = true -> waiting x = false ->
  (<[j := wake z]> l) !! i = Some x.
Proof. intros Hi Hj Hz Hx. rewrite list_lookup_insert_ne; [done|]. intros ->. congruence. Qed.

(** One goal per way a step can be made; [Hi] is the thread that steps, [Hj] the
    one that is woken, and [Hi'] the former once the latter has been. *)
Ltac step_cases Hstep :=
  let Hrun := fresh "Hrun" in
  destruct Hstep as
    [?task|?timeout ?Htimeout|?d ?Hd|?i ?s' Hrun|?i ?task Hi|?i ?j ?due ?p Hi Hj Hwaiting|?i ?due Hi Hnone
    |?j ?p Hj Hwaiting|?j ?deadline Hj Hlate];
  [| | |
   match type of Hrun with run_thread ?k ?s = _ =>
     unfold run_thread, work_section, submit_section, close_section, done_section, drain_section, with_state in Hrun;
     destruct (threads s !! k) as [?p|] eqn:Hi; [|discriminate Hrun]; cbn [mbind option_bind] in Hrun
   end;
   match type of Hi with _ = Some ?q => destruct q; try discriminate Hrun end;
   repeat (case_match; try discriminate Hrun);
   try (pose proof (lookup_wake _ _ _ Hi) as Hi')
  |
  |pose proof (lookup_wake_other _ _ _ _ _ Hi Hj Hwaiting eq_refl) as Hi';
   match type of Hj with _ = Some ?q => destruct q; try discriminate Hwaiting end
  |
  |match type of Hj with _ = Some ?q => destruct q; try discriminate Hwaiting end
  |]; simplify_eq/=.

(** The counts of [f] over the threads before and after a step. *)
Ltac count_of f :=
  repeat match goal with
  | |- context [count f (?l1 ++ ?l2)] => rewrite (count_app f l1 l2)
  | |- context [count f (<[?i := ?y]> ?l)] =>
      match goal with
      | Hi : l !! i = Some ?x |- _ =>
          lazymatch goal with
          | _ : count f (<[i := y]> l) + _ = _ |- _ => fail
          | _ => pose proof (count_insert f l i x y Hi)
          end
      end
  | H : context [count f (<[?i := ?y]> ?l)] |- _ =>
      match goal with
      | Hi : l !! i = Some ?x |- _ =>
          lazymatch goal with
          | _ : count f (<[i := y]> l) + _ = _ |- _ => fail
          | _ => pose proof (count_insert f l i x y Hi)
          end
      end
  end.

(** The totals of [f] over the threads before and after a step. *)
Ltac total_of f :=
  repeat match goal with
  | |- context [total f (?l1 ++ ?l2)] => rewrite (total_app f l1 l2)
  | |- context [total f (<[?i := ?y]> ?l)] =>
      match goal with
      | Hi : l !! i = Some ?x |- _ =>
          lazymatch goal with
          | _ : (total f (<[i := y]> l) + _ = _)%Z |- _ => fail
          | _ => pose proof (total_insert f l i x y Hi)
          end
      end
  | H : context [total f (<[?i := ?y]> ?l)] |- _ =>
      match goal with
      | Hi : l !! i = Some ?x |- _ =>
          lazymatch goal with
          | _ : (total f (<[i := y]> l) + _ = _)%Z |- _ => fail
          | _ => pose proof (total_insert f l i x y Hi)
          end
      end
  end.

(** ** The counters *)

Section Counters.
Context {Task : Type} (workers cap : nat).
Implicit Type s : Sys Task.
Notation reachable := (reachable workers cap).

Lemma capacity_const s : reachable s -> capacity (shared s) = cap.
Proof.
  revert s. reach_ind; [done|]. intros s s' _ IH Hstep. rewrite <-IH.
  step_cases Hstep; done.
Qed.

Lemma workers_const s : reachable s -> count is_worker (threads s) = workers.
Proof.
  revert s. reach_ind; [intros; simpl; apply count_replicate|].
  intros s s' _ IH Hstep. pose proof (count_wake (threads s)).
  step_cases Hstep; count_of (@is_worker Task); simpl in *; lia.
Qed.

Lemma active_busy s : reachable s -> active (state (shared s)) = Z.of_nat (count busy (threads s)).
Proof.
  revert s. reach_ind; [intros; simpl; by rewrite count_replicate|].
  intros s s' _ IH Hstep. pose proof (count_wake (threads s)).
  step_cases Hstep; count_of (@busy Task); simpl in *; lia.
Qed.
End Counters.

Lemma history_grows {Task : Type} (s s' : Sys Task) : step s s' -> exists es, history s' = history s ++ es.
Proof. intros Hstep. step_cases Hstep; eauto; by exists []; rewrite app_nil_r. Qed.

(** ** The queue *)

Section Queue.
Context {Task : Type} (workers cap : nat).
Implicit Type s : Sys Task.
Notation reachable := (reachable workers cap).

Lemma queue_bounded s : reachable s -> length (tasks (state (shared s))) <= Nat.max 1 cap.
Proof.
  revert s. reach_ind; [simpl; lia|].
  intros s s' Hreach IH Hstep. pose proof (capacity_const _ _ _ Hreach) as Hcap.
  step_cases Hstep; try lia; rewrite ?length_app; simpl;
    repeat match goal with H : context [pop_front ?l] |- _ => destruct l; simplify_eq/= end;
    rewrite ?Nat.leb_gt in *; lia.
Qed.

(** Every accepted task is either still queued or was removed exactly once, and
    tasks leave the queue in the order in which they entered it. *)
Lemma queue_fifo s :
  reachable s -> accepted (history s) = removed (history s) ++ tasks (state (shared s)).
Proof.
  revert s. reach_ind; [done|]. intros s s' _ IH Hstep.
  unfold accepted, removed in *.
  step_cases Hstep; rewrite ?omap_app, ?IH; simpl; rewrite ?app_nil_r; try done;
    repeat match goal with
    | H : context [pop_front (tasks ?st)] |- _ => destruct (tasks st); simplify_eq/=
    end;
    rewrite ?omap_abandoned_none, ?omap_abandoned, ?app_nil_r, <-?app_assoc by done; try done.
  all: rewrite ?omap_warn_dropped, ?omap_warn_abandoned by done; by rewrite app_nil_r.
Qed.

(** ** The life cycle *)

(** [close] is under way in exactly one thread from the moment the dispatcher
    stops accepting to the moment it stops draining. *)
Lemma lifecycle s :
  reachable s ->
  let st := state (shared s) in
  count closing (threads s) = (if negb (accepting st) && draining st then 1 else 0) /\
  (accepting st = true -> draining st = true) /\
  (draining st = false -> tasks st = []).
Proof.
  revert s. reach_ind; [intros; simpl; by rewrite count_replicate|].
  intros s s' _ IH Hstep. pose proof (count_wake (threads s)).
  step_cases Hstep; count_of (@closing Task); simpl in *.
  all: destruct (accepting (state (shared s))), (draining (state (shared s))); simpl in *.
  all: destruct_and?; repeat match goal with
    | H : context [pop_front (tasks ?st)] |- _ => destruct (tasks st); simplify_eq/= end.
  all: intuition (try done; try lia).
Qed.
End Queue.

(** ** Wake-ups *)

Section WakeUps.
Context {Task : Type} (workers cap : nat).
Implicit Type s : Sys Task.
Notation reachable := (reachable workers cap).

(** A thread that waits is a worker or the closing thread. *)
Lemma waiting_kinds (l : list (pc Task)) : count waiting l = count asleep l + count close_wait l.
Proof. induction l as [|p l IH]; [done|]. simpl. rewrite IH. destruct p; simpl; lia. Qed.

Lemma close_wait_closing (l : list (pc Task)) : count close_wait l <= count closing l.
Proof. induction l as [|p l IH]; [done|]. simpl. destruct p; simpl; lia. Qed.

(** While the dispatcher accepts, each queued task has a wake-up of its own on
    the way as long as a worker is asleep: a submitter about to notify, or a
    worker about to take the lock. *)
Lemma worker_wakeup s :
  reachable s -> accepting (state (shared s)) = true -> 0 < count asleep (threads s) ->
  length (tasks (state (shared s))) <= count notifying (threads s) + count locking (threads s).
Proof.
  revert s. reach_ind; [simpl; intros; lia|].
  intros s s' Hreach IH Hstep. pose proof (count_wake (threads s)).
  pose proof (lifecycle _ _ _ Hreach) as (Hclosing & _ & _).
  pose proof (close_wait_closing (threads s)) as Hcw. pose proof (waiting_kinds (threads s)).
  step_cases Hstep; count_of (@asleep Task); count_of (@notifying Task); count_of (@locking Task);
    simpl in *; intros Hacc Hasleep; rewrite ?Hacc in *; simpl in *; rewrite ?length_app; simpl;
    repeat match goal with H : context [pop_front ?l] |- _ => destruct l; simplify_eq/= end;
    try (specialize (IH eq_refl)); try congruence; try lia.
  (* a woken closing thread: there is none while the dispatcher accepts *)
  all: assert (0 < count close_wait (threads s)) by (apply count_pos; eauto); lia.
Qed.

(** The closing thread only sleeps while there is something to wait for, or the
    notification that it has ended is on its way. *)
Lemma close_wakeup s :
  reachable s -> 0 < count close_wait (threads s) ->
  tasks (state (shared s)) <> [] \/ (0 < active (state (shared s)))%Z \/ 0 < count finishing (threads s).
Proof.
  revert s. reach_ind; [intros now; simpl; rewrite count_replicate; simpl; lia|].
  intros s s' Hreach IH Hstep. pose proof (count_wake (threads s)).
  pose proof (lifecycle _ _ _ Hreach) as (Hclosing & _ & _).
  pose proof (close_wait_closing (threads s)) as Hcw.
  pose proof (active_busy _ _ _ Hreach) as Hactive.
  step_cases Hstep; count_of (@close_wait Task); count_of (@finishing Task); count_of (@closing Task);
    simpl in *; intros Hwait; try (by right; left; lia); try (by right; right; lia); try lia.
  all: repeat match goal with H : context [pop_front (tasks ?st)] |- _ => destruct (tasks st); simplify_eq/= end.
  all: try (destruct IH as [?|[?|?]]; [lia|..]; first [by left | by right; left; lia| by right; right; lia]).
  (* the closing thread leaves: it was the only one *)
  1, 2: match goal with H : context [count close_wait ?l] |- _ =>
          pose proof (close_wait_closing l); count_of (@closing Task); simpl in *;
          destruct (negb _ && draining _); lia end.
  (* it goes to sleep *)
  all: destruct (tasks (state (shared s))); simpl in *; [right; left|by left]; lia.
Qed.

(** Once the workers have been stopped, a worker still asleep is about to be
    notified by the closing thread. *)
Lemma retire_wakeup s :
  reachable s -> draining (state (shared s)) = false -> 0 < count asleep (threads s) ->
  0 < count close_notify (threads s).
Proof.
  revert s. reach_ind; [done|].
  intros s s' Hreach IH Hstep. pose proof (count_wake (threads s)).
  pose proof (lifecycle _ _ _ Hreach) as (_ & _ & Hempty).
  step_cases Hstep; count_of (@asleep Task); count_of (@close_notify Task); simpl in *;
    intros Hdrain Hasleep; rewrite ?Hdrain in *; try (specialize (IH eq_refl)); try congruence; try lia.
Qed.
End WakeUps.

(** ** Closed for good *)

Section Closed.
Context {Task : Type} (workers cap : nat).
Implicit Type s : Sys Task.
Notation reachable := (reachable workers cap).

Lemma refused_step s s' :
  step s s' -> accepting (state (shared s)) = false ->
  accepting (state (shared s')) = false /\ accepted (history s') = accepted (history s) /\
  evicted (history s') = evicted (history s).
Proof.
  intros Hstep Hacc. unfold accepted, evicted.
  step_cases Hstep; rewrite ?Hacc in *; simplify_eq/=; rewrite ?omap_app;
    rewrite ?omap_abandoned_none, ?omap_warn_dropped, ?omap_warn_abandoned by done; simpl;
    by rewrite ?app_nil_r.
Qed.

Lemma stopped_step s s' :
  reachable s -> step s s' -> draining (state (shared s)) = false ->
  draining (state (shared s')) = false /\ started (history s') = started (history s) /\
  abandoned (history s') = abandoned (history s).
Proof.
  intros Hreach Hstep Hdrain. unfold started, abandoned.
  pose proof (lifecycle _ _ _ Hreach) as (Hclosing & _ & Hempty). specialize (Hempty Hdrain).
  rewrite Hdrain, andb_false_r in Hclosing.
  step_cases Hstep; rewrite ?Hdrain, ?Hempty in *; simplify_eq/=; rewrite ?omap_app;
    rewrite ?omap_warn_dropped, ?omap_warn_abandoned by done; simpl;
    try by rewrite ?app_nil_r.
  all: try by repeat case_match; simplify_eq/=; rewrite ?omap_app; simpl; rewrite ?app_nil_r.
Qed.
End Closed.

(** ** The accounting of overflow drops *)

(** What a logged warning reports. *)
Definition warned_of {Task : Type} (e : event Task) : Z := match e with WarnDropped n => n | _ => 0 end.
(** A summary a submitter holds and has not logged yet. *)
Definition due_of {Task : Type} (p : pc Task) : Z :=
  match p with SNotify (Some n) | SLog (Some n) => n | _ => 0 end.

Section Accounting.
Context {Task : Type} (workers cap : nat).
Implicit Type s : Sys Task.
Notation reachable := (reachable workers cap).

(** The drops that were reported, are about to be, and are still counted. *)
Definition accounted s : Z :=
  (total warned_of (history s) + total due_of (threads s) + dropped (drop_logger (shared s)))%Z.

Lemma total_warned_abandoned (l : list Task) : total warned_of (Abandoned <$> l) = 0%Z.
Proof. apply total_zero. intros x (t & -> & _)%list_elem_of_fmap. done. Qed.

Lemma total_due_wake (l : list (pc Task)) : total due_of (wake <$> l) = total due_of l.
Proof. apply total_map. by intros []. Qed.

Lemma record_drop_le (now reset : Z) (l : RateLimitedDropLogger) :
  (0 <= dropped l)%Z -> (0 <= dropped (record_drop now reset l).2 <= dropped l + 1)%Z.
Proof.
  intros H0. unfold record_drop.
  pose proof (Z.mod_pos_bound (dropped l + 1) u64_modulus ltac:(done)).
  pose proof (Z.mod_le (dropped l + 1) u64_modulus ltac:(lia) ltac:(done)).
  case_match; simpl; lia.
Qed.

Lemma record_drop_conserves (now reset : Z) (l : RateLimitedDropLogger) :
  (0 <= dropped l)%Z -> (dropped l + 1 < u64_modulus)%Z ->
  (default 0 (record_drop now reset l).1 + dropped (record_drop now reset l).2 = dropped l + 1)%Z.
Proof. intros H0 Hb. apply record_drop_count. lia. Qed.

(** No drop goes uncounted, as long as there are fewer than 2^64 of them. *)
Lemma drops_accounted s :
  0 < cap -> reachable s ->
  (0 <= dropped (drop_logger (shared s)) <= Z.of_nat (length (evicted (history s))))%Z /\
  ((Z.of_nat (length (evicted (history s))) < u64_modulus)%Z ->
   accounted s = Z.of_nat (length (evicted (history s)))).
Proof.
  intros Hpos. revert s. reach_ind.
  { intros now. unfold accounted. simpl. rewrite total_zero; [done|].
    by intros x [-> _]%elem_of_replicate. }
  intros s s' Hreach IH Hstep. pose proof (capacity_const _ _ _ Hreach) as Hcap.
  unfold accounted, evicted in *.
  step_cases Hstep; rewrite ?omap_app, ?total_app, ?length_app in *; simpl in *;
    rewrite ?omap_abandoned_none, ?omap_warn_dropped, ?omap_warn_abandoned, ?total_warned_abandoned by done;
    total_of (@due_of Task); rewrite ?total_due_wake in *; simpl in *; rewrite ?Nat.add_0_r; try lia.
  (* a drop: the queue is not empty, since its capacity is not *)
  - destruct (tasks (state (shared s))) as [|t queue]; simplify_eq/=; [rewrite Nat.leb_le in *; lia|].
    destruct IH as [IH0 IH].
    pose proof (record_drop_le (clock s) (clock s) (drop_logger (shared s)) ltac:(lia)) as Hle.
    pose proof (record_drop_conserves (clock s) (clock s) (drop_logger (shared s)) ltac:(lia)) as Hsum.
    destruct (record_drop _ _ _) as [[n|] logger]; simplify_eq/=; (split; [lia|]; intros Hb; lia).
  (* a summary or the losses of a close are logged *)
  - destruct due; simpl in *; lia.
  - unfold warn_abandoned. case_match; simpl; lia.
Qed.
End Accounting.
