(* ===== verification/DispatcherSpec.v ===== *)
(** * What the dispatcher promises (src/rust/src/internal/dispatcher.rs)

    The abstract machine behind the dispatcher: a bounded first-in first-out
    queue that displaces its oldest task when it is full, and a life cycle of
    three phases. It knows nothing of threads, locks, wake-ups or time. Every
    step of the concurrent dispatcher is a step of this machine or leaves it
    where it is. *)

From stdpp Require Import prelude list relations.
From S2P Require Import Prelude DropLogger Dispatcher DispatcherInv.

Section Spec.
Context {Task : Type} (workers cap : nat).
Implicit Types (s : Sys Task) (q : list Task) (es : list (event Task)).

(** ** The abstract queue *)

Inductive phase : Type := Open | Closing | Closed.

Record Queue : Type := mkQueue { pending : list Task; life : phase }.

(** Warnings, and the panic of a task, are not the queue's business. *)
Definition unrelated (e : event Task) : bool :=
  match e with Panicked _ | WarnDropped _ | WarnForceDropped _ => true | _ => false end.

Inductive queue_step : Queue -> list (event Task) -> Queue -> Prop :=
| queue_accept q (t : Task) : length q < cap ->
    queue_step (mkQueue q Open) [Accepted t] (mkQueue (q ++ [t]) Open)
| queue_displace q (oldest t : Task) : length (oldest :: q) = cap ->
    queue_step (mkQueue (oldest :: q) Open) [Evicted oldest; Accepted t] (mkQueue (q ++ [t]) Open)
| queue_reject q (ph : phase) (t : Task) : ph <> Open ->
    queue_step (mkQueue q ph) [Rejected t] (mkQueue q ph)
| queue_start q (ph : phase) (t : Task) : ph <> Closed ->
    queue_step (mkQueue (t :: q) ph) [Started t] (mkQueue q ph)
| queue_close q :
    queue_step (mkQueue q Open) [] (mkQueue q Closing)
| queue_abandon q :
    queue_step (mkQueue q Closing) (Abandoned <$> q) (mkQueue [] Closed)
| queue_unrelated (c : Queue) (e : event Task) : unrelated e = true ->
    queue_step c [e] c.

(** The traces of the abstract queue. *)
Inductive queue_run : list (event Task) -> Queue -> Prop :=
| queue_run_nil : queue_run [] (mkQueue [] Open)
| queue_run_step es es' (c c' : Queue) :
    queue_run es c -> queue_step c es' c' -> queue_run (es ++ es') c'.

(** ** The abstraction *)

Definition phase_of (st : State Task) : phase :=
  if accepting st then Open else if draining st then Closing else Closed.

Definition abs s : Queue := mkQueue (tasks (state (shared s))) (phase_of (state (shared s))).

Lemma quiet_dropped (due : option Z) (c : Queue) :
  queue_step c (warn_dropped due) c \/ (@warn_dropped Task due = [] /\ c = c).
Proof. destruct due; [left; by constructor|by right]. Qed.

Lemma quiet_abandoned (n : nat) (c : Queue) :
  queue_step c (warn_abandoned n) c \/ (@warn_abandoned Task n = [] /\ c = c).
Proof. unfold warn_abandoned. case_match; [left; by constructor|by right]. Qed.

(** A forward simulation: each step of the dispatcher is matched by at most one
    step of the abstract queue, with the same events. *)
Lemma simulation s s' :
  0 < cap -> reachable workers cap s -> step s s' ->
  exists es, history s' = history s ++ es /\
    (queue_step (abs s) es (abs s') \/ (es = [] /\ abs s' = abs s)).
Proof.
  intros Hpos Hreach Hstep.
  pose proof (capacity_const _ _ _ Hreach) as Hcap.
  pose proof (queue_bounded _ _ _ Hreach) as Hlen.
  pose proof (lifecycle _ _ _ Hreach) as (Hclosing & Hopen & Hempty).
  step_cases Hstep; unfold abs, phase_of; simpl;
    try (exists []; rewrite app_nil_r; by eauto); eexists; (split; [done|]).
  all: try solve [by right | by left; constructor | apply quiet_dropped | apply quiet_abandoned].
  all: try match type of Hi with _ = Some (CDrain _) =>
         assert (0 < count closing (threads s)) by (apply count_pos; by eauto) end.
  all: destruct (tasks (state (shared s))) as [|first rest] eqn:Htasks,
         (accepting (state (shared s))), (draining (state (shared s))); simplify_eq/=.
  all: rewrite ?Nat.leb_le, ?Nat.leb_gt in *.
  all: first [lia | by specialize (Hopen eq_refl) | by specialize (Hempty eq_refl)
             | left; constructor; simpl; (done || lia)
             | left; apply (queue_abandon []) | left; apply (queue_abandon (_ :: _))].
Qed.

Lemma traces_included s : 0 < cap -> reachable workers cap s -> queue_run (history s) (abs s).
Proof.
  intros Hpos. revert s. reach_ind; [intros; apply queue_run_nil|].
  intros s s' Hreach IH Hstep.
  destruct (simulation s s' Hpos Hreach Hstep) as (es & -> & [Hq|[-> ->]]).
  - by eapply queue_run_step.
  - by rewrite app_nil_r.
Qed.
End Spec.

Arguments Queue : clear implicits.

(** ** Properties *)

(** C2: The dispatcher refines its specification: whatever the interleaving of
    submitters, workers and closing threads, what happens to the tasks is a trace
    of the sequential bounded queue that accepts while it is open, displaces its
    oldest task only when it is full, starts tasks first in first out, refuses
    everything once it is closing and abandons all that is left exactly once;
    and the queue and life-cycle flags are the state that trace leads to. *)
Theorem dispatcher_refines_queue {Task : Type} (workers cap : nat) (s : Sys Task) :
  0 < cap -> reachable workers cap s ->
  queue_run cap (history s) (abs s).
Proof. apply traces_included. Qed.

(** ** Witness: three submissions to a queue of two, and one task started *)

Definition sample_schedule : list (action nat) :=
  [ASubmit 7; ARun 1; ASubmit 8; ARun 2; ASubmit 9; ARun 3; ARun 0].

Definition sample_sys : Sys nat := default (new 1 2 0) (play sample_schedule (new 1 2 0)).

Lemma sample_reachable : reachable 1 2 sample_sys.
Proof. by apply (play_reachable 1 2 0 sample_schedule). Qed.

Lemma dispatcher_refines_queue_witness :
  queue_run 2 [Accepted 7; Accepted 8; Evicted 7; Accepted 9; Started 8] (mkQueue [9] Open).
Proof. apply (dispatcher_refines_queue 1 2 sample_sys); [lia|exact sample_reachable]. Defined.

