(* ===== verification/DispatcherProps.v ===== *)
(** * Properties of the dispatcher (src/rust/src/internal/dispatcher.rs)

    Safety (no task is lost, duplicated or reordered; the bounds of the queue and
    of the workers; nothing happens after the end), wake-ups and termination of
    the calls, the accounting of the warnings, and the behaviour in two corners:
    a task that panics, and a submission that races with [close]. *)

From stdpp Require Import prelude list relations.
From S2P Require Import Prelude DropLogger Dispatcher DispatcherInv DispatcherSpec.

(** ** Lemmas: what the history says about the tasks *)

Section Fates.
Context {Task : Type} (workers cap : nat).
Implicit Types (s : Sys Task) (h : list (event Task)).
Notation reachable := (reachable workers cap).

Lemma removed_split h : removed h ≡ₚ started h ++ evicted h ++ abandoned h.
Proof.
  unfold removed, started, evicted, abandoned.
  induction h as [|e h IH]; [done|]. destruct e; cbn; rewrite ?IH; try done; solve_Permutation.
Qed.

Lemma started_removed h : sublist (started h) (removed h).
Proof. apply omap_sublist. by intros [] t ?; simplify_eq/=. Qed.

Lemma fates s :
  reachable s ->
  accepted (history s) ≡ₚ started (history s) ++ evicted (history s) ++
                          abandoned (history s) ++ tasks (state (shared s)) /\
  sublist (started (history s)) (accepted (history s)).
Proof.
  intros Hreach. rewrite (queue_fifo _ _ _ Hreach). split.
  - rewrite removed_split. by rewrite <-!app_assoc.
  - etrans; [apply started_removed|]. apply sublist_inserts_r. done.
Qed.

(** Nothing is abandoned before the closing thread stops the workers. *)
Lemma abandoned_late s :
  reachable s -> draining (state (shared s)) = true -> abandoned (history s) = [].
Proof.
  revert s. reach_ind; [done|]. intros s s' Hreach IH Hstep. unfold abandoned in *.
  pose proof (lifecycle _ _ _ Hreach) as (Hclosing & _ & _).
  step_cases Hstep; rewrite ?omap_app, ?omap_warn_dropped, ?omap_warn_abandoned by done; simpl;
    rewrite ?app_nil_r; try done; intros Hdrain; rewrite ?IH by done.
  all: try by repeat match goal with o : option Task |- _ => destruct o end.
Qed.

(** Nobody waits once the closing thread has notified the stopped workers. *)
Lemma retired s (i : nat) :
  reachable s -> draining (state (shared s)) = false -> count close_notify (threads s) = 0 ->
  threads s !! i <> Some WWait.
Proof.
  intros Hreach Hdrain Hnone Hi.
  assert (0 < count asleep (threads s)) by (apply count_pos; eauto).
  pose proof (retire_wakeup _ _ _ Hreach Hdrain ltac:(done)). lia.
Qed.
End Fates.

(** ** Lemmas: the steps of one thread *)

Section Calls.
Context {Task : Type}.
Implicit Types (s : Sys Task) (p : pc Task).

(** A step of thread [i] itself: its notification included, whichever thread it
    wakes, and the end of its own [wait_timeout]. *)
Inductive own_step (i : nat) s : Sys Task -> Prop :=
| own_run (s' : Sys Task) : run_thread i s = Some s' -> own_step i s s'
| own_notify_one (j : nat) (due : option Z) (p : pc Task) :
    threads s !! i = Some (SNotify due) -> threads s !! j = Some p -> waiting p = true ->
    own_step i s (move i (SLog due) (shared s) []
                   (mkSys (shared s) (<[j := wake p]> (threads s)) (clock s) (history s)))
| own_notify_none (due : option Z) :
    threads s !! i = Some (SNotify due) -> count waiting (threads s) = 0 ->
    own_step i s (move i (SLog due) (shared s) [] s)
| own_timeout (deadline : Z) :
    threads s !! i = Some (CWait deadline) -> (deadline <= clock s)%Z ->
    own_step i s (move i (CDrain deadline) (shared s) [] s).

Lemma own_step_step (i : nat) s s' : own_step i s s' -> step s s'.
Proof. intros []; [by eapply step_run|by eapply step_notify_one|by eapply step_notify_none|by eapply step_timeout]. Qed.

(** The calls that no longer depend on any other thread: a [submit] from its
    start, and a [close] once its deadline has passed. *)
Definition returning (now : Z) p : bool :=
  match p with
  | SLock _ | SNotify _ | SLog _ | SDone _ | CNotify _ | CWorkers _ | CLog _ | CDone => true
  | CDrain deadline | CWait deadline => (deadline <? now)%Z
  | _ => false
  end.

(** How many steps of its own such a call still needs at most. *)
Definition rank p : nat :=
  match p with
  | SLock _ => 3 | SNotify _ => 2 | SLog _ => 1
  | CWait _ => 5 | CDrain _ => 4 | CNotify _ => 3 | CWorkers _ => 2 | CLog _ => 1
  | _ => 0
  end.

Lemma lookup_insert_cases (l : list (pc Task)) (i j : nat) (x y p : pc Task) :
  l !! i = Some p -> l !! j = Some x ->
  (i = j /\ p = x /\ <[j := y]> l !! i = Some y) \/ (i <> j /\ <[j := y]> l !! i = Some p).
Proof.
  intros Hi Hj. destruct (decide (i = j)) as [->|Hne].
  - left. simplify_eq. split_and!; [done..|]. apply list_lookup_insert_eq. by eapply lookup_lt_Some.
  - right. split; [done|]. by rewrite list_lookup_insert_ne.
Qed.

Lemma wake_rank (now : Z) p : rank (wake p) <= rank p /\ (returning now p = true -> returning now (wake p) = true).
Proof. destruct p; simpl; split; (done || lia). Qed.

(** What a thread makes of a move: its own, or another's. *)
Lemma lookup_move (l : list (pc Task)) (k i : nat) (x y p : pc Task) (now : Z) :
  l !! k = Some p -> l !! i = Some x -> returning now p = true ->
  (returning now x = true -> returning now y = true /\ rank y <= rank x) ->
  exists p', <[i := y]> l !! k = Some p' /\ returning now p' = true /\ rank p' <= rank p.
Proof.
  intros Hk Hi Hp Hy. destruct (lookup_insert_cases l k i x y p Hk Hi) as [(-> & -> & ->)|(_ & ->)].
  - exists y. split; [done|]. by apply Hy.
  - by exists p.
Qed.

Lemma notify_one_rank (due : option Z) (q : pc Task) (now : Z) (l : list (pc Task)) (k i j : nat) p :
  l !! k = Some p -> returning now p = true ->
  l !! i = Some (SNotify due) -> l !! j = Some q -> waiting q = true ->
  (<[j := wake q]> l) !! i = Some (SNotify due) ->
  exists p', <[i := SLog due]> (<[j := wake q]> l) !! k = Some p' /\ returning now p' = true /\ rank p' <= rank p.
Proof.
  intros Hk Hp Hi Hj Hq Hi'.
  destruct (lookup_move l k j q (wake q) p now Hk Hj Hp) as (p1 & Hp1 & Hr1 & Hle1).
  { pose proof (wake_rank now q). tauto. }
  destruct (lookup_move _ k i (SNotify due) (SLog due) p1 now Hp1 Hi' Hr1) as (p2 & ? & ? & ?).
  { intros; split; simpl; (done || lia). }
  exists p2. split_and!; [done|done|lia].
Qed.

Lemma notify_all_rank (l : list (pc Task)) (k i : nat) (x y p : pc Task) (now : Z) :
  l !! k = Some p -> returning now p = true ->
  (wake <$> l) !! i = Some x ->
  (returning now x = true -> returning now y = true /\ rank y <= rank x) ->
  exists p', <[i := y]> (wake <$> l) !! k = Some p' /\ returning now p' = true /\ rank p' <= rank p.
Proof.
  intros Hk Hp Hi Hy. pose proof (wake_rank now p) as [Hrank Hret].
  destruct (lookup_move (wake <$> l) k i x y (wake p) now) as (p' & ? & ? & ?); [|done|tauto|done|].
  - by apply lookup_wake.
  - exists p'. split_and!; [done|done|lia].
Qed.

Lemma rank_step s s' (k : nat) (me : pc Task) :
  step s s' -> threads s !! k = Some me -> returning (clock s) me = true ->
  exists p', threads s' !! k = Some p' /\ returning (clock s') p' = true /\ rank p' <= rank me.
Proof.
  intros Hstep Hk Hp.
  step_cases Hstep.
  all: try (exists me; split_and!; [by apply lookup_app_l_Some|done|done]).
  all: try (eapply lookup_move; [exact Hk|eassumption|done|simpl; intros; split; (done || lia)]).
  - (* time passes *)
    exists me. split_and!; [done| |done]. destruct me; simpl in *; (done || lia).
  - (* a worker notifies everyone *)
    by eapply notify_all_rank; [exact Hk|done|exact Hi'|].
  - (* a closing thread goes to sleep: not past its deadline *)
    eapply lookup_move; [exact Hk|eassumption|done|].
    unfold checked_duration_since in *. case_match; [|done]. simpl. lia.
  - (* a closing thread notifies everyone *)
    eapply notify_all_rank; [exact Hk|done|exact Hi'|]. simpl. intros _. split; [done|lia].
  - by apply (notify_one_rank due WWait).
  - by apply (notify_one_rank due (CWait deadline)).
Qed.

Lemma own_enabled s (i : nat) (me : pc Task) :
  threads s !! i = Some me -> returning (clock s) me = true ->
  rank me = 0 \/ exists s', own_step i s s'.
Proof.
  intros Hi Hme. destruct me; simplify_eq/=; try (by left); right;
    try (eexists; apply own_run; unfold run_thread; rewrite Hi; simpl; done).
  - destruct (submit_section (clock s) task (shared s)) as [[[sh ev] due]|] eqn:Hsub;
      eexists; apply own_run; unfold run_thread; rewrite Hi; simpl; by rewrite Hsub.
  - destruct (count waiting (threads s)) eqn:Hw; [eexists; by eapply own_notify_none|].
    assert (0 < count waiting (threads s)) as (j & q & Hj & Hq)%count_pos by lia.
    eexists. by eapply own_notify_one.
  - destruct (drain_section (clock s) deadline (shared s)) eqn:Hd;
      eexists; apply own_run; unfold run_thread; rewrite Hi; simpl; by rewrite Hd.
  - eexists. eapply own_timeout; [done|]. lia.
Qed.

Lemma own_strict s s' (i : nat) (me : pc Task) :
  own_step i s s' -> threads s !! i = Some me -> returning (clock s) me = true ->
  exists p', threads s' !! i = Some p' /\ rank p' < rank me.
Proof.
  intros Hown Hi Hme.
  assert (Hset : forall l y, length l = length (threads s) -> <[i := y]> l !! i = Some (y : pc Task)).
  { intros l y Hl. apply list_lookup_insert_eq. rewrite Hl. by eapply lookup_lt_Some. }
  destruct Hown as [s' Hrun|j due q Hi' Hj Hq|due Hi' Hnone|deadline Hi' Hlate]; simplify_eq/=.
  - unfold run_thread in Hrun. rewrite Hi in Hrun. destruct me; simplify_eq/=;
      unfold drain_section, checked_duration_since in *; repeat case_match; simplify_eq/=; try lia;
      eexists; (split; [apply Hset; by rewrite ?length_fmap|simpl; lia]).
  - eexists; split; [apply Hset; by rewrite length_insert|simpl; lia].
  - eexists; split; [by apply Hset|simpl; lia].
  - eexists; split; [by apply Hset|simpl; lia].
Qed.
End Calls.

(** ** Lemmas: panicking tasks *)

Section Panics.
Context {Task : Type} (workers cap : nat).
Implicit Type s : Sys Task.
Notation reachable := (reachable workers cap).

Lemma panicked_step s s' (i : nat) :
  step s s' -> threads s !! i = Some WPanic -> threads s' !! i = Some WPanic.
Proof.
  intros Hstep Hp. pose proof (lookup_wake _ _ _ Hp) as Hp'. simpl in Hp'.
  step_cases Hstep; try done; try (by apply lookup_app_l_Some);
    repeat (rewrite list_lookup_insert_ne; [|congruence]); done.
Qed.

Lemma panicked_busy (l : list (pc Task)) : count panicked l <= count busy l.
Proof. induction l as [|p l IH]; [done|]. simpl. destruct p; simpl; lia. Qed.

(** The workers that can still take a task. *)
Definition live (p : pc Task) : bool :=
  match p with WLock | WWait | WRun _ | WFinish | WNotify => true | _ => false end.

Lemma live_wake (l : list (pc Task)) : count live (wake <$> l) = count live l.
Proof. apply count_map. by intros []. Qed.

Lemma dead_step s s' :
  step s s' -> count live (threads s) = 0 ->
  count live (threads s') = 0 /\ started (history s') = started (history s).
Proof.
  intros Hstep Hdead. pose proof (live_wake (threads s)). unfold started.
  step_cases Hstep; count_of live; simpl in *; rewrite ?omap_app; simpl;
    rewrite ?omap_abandoned_none, ?omap_warn_dropped, ?omap_warn_abandoned, ?app_nil_r by done;
    try (split; [lia|done]); try lia.
  - (* a dead worker cannot take a task *)
    assert (0 < count live (threads s)) by (apply count_pos; by eauto). lia.
  - split; [lia|]. match goal with o : option Task |- _ => destruct o end; simpl; by rewrite app_nil_r.
Qed.
End Panics.

(** ** Properties: safety *)

(** C4: No task is lost, duplicated or overtaken: at every moment the accepted
    tasks are exactly those that were started, those that were evicted, those that
    a close abandoned and those still queued, each counted once, and the tasks were
    started in the order in which they were accepted. *)
Theorem tasks_conserved {Task : Type} (workers cap : nat) (s : Sys Task) :
  reachable workers cap s ->
  accepted (history s) ≡ₚ started (history s) ++ evicted (history s) ++
                          abandoned (history s) ++ tasks (state (shared s)) /\
  sublist (started (history s)) (accepted (history s)).
Proof. apply fates. Qed.

(** C30: The queue never holds more than its capacity, no more tasks run at a time
    than there are workers, and the counter [active] never underflows: a worker
    about to decrement it has itself counted. *)
Theorem dispatcher_bounds {Task : Type} (workers cap : nat) (s : Sys Task) :
  0 < cap -> reachable workers cap s ->
  length (tasks (state (shared s))) <= cap /\
  (0 <= active (state (shared s)) <= Z.of_nat workers)%Z /\
  (forall i, threads s !! i = Some WFinish -> (1 <= active (state (shared s)))%Z).
Proof.
  intros Hpos Hreach.
  pose proof (queue_bounded _ _ _ Hreach). pose proof (active_busy _ _ _ Hreach) as ->.
  rewrite <-(workers_const _ _ _ Hreach). split_and!; [lia|lia| |].
  - induction (threads s) as [|p l IH]; simpl; [done|]. destruct p; simpl; lia.
  - intros i Hi. assert (0 < count busy (threads s)) by (apply count_pos; eauto). lia.
Qed.

(** Closing is final: once the dispatcher has stopped accepting, no task is
    ever accepted or evicted again, and once the workers have been told to stop, no
    task is started or abandoned again and the queue stays empty. *)
Lemma closing_is_final {Task : Type} (workers cap : nat) (s s' : Sys Task) :
  reachable workers cap s -> rtc step s s' -> accepting (state (shared s)) = false ->
  accepting (state (shared s')) = false /\
  accepted (history s') = accepted (history s) /\ evicted (history s') = evicted (history s) /\
  (draining (state (shared s)) = false ->
   draining (state (shared s')) = false /\ tasks (state (shared s')) = [] /\
   started (history s') = started (history s) /\ abandoned (history s') = abandoned (history s)).
Proof.
  intros Hreach Hrtc Hacc. revert Hreach Hacc.
  induction Hrtc as [s|s s1 s2 Hstep _ IH]; intros Hreach Hacc.
  - split_and!; [done..|]. intros Hdrain. split_and!; [done| |done..].
    by apply (lifecycle _ _ _ Hreach).
  - destruct (refused_step _ _ Hstep Hacc) as (Hacc1 & <- & <-).
    assert (Hreach1 : reachable workers cap s1) by (eapply reachable_step; [done|by apply rtc_once]).
    destruct (IH Hreach1 Hacc1) as (? & ? & ? & Hd). split_and!; [done..|].
    intros Hdrain. destruct (stopped_step _ _ _ _ Hreach Hstep Hdrain) as (Hdrain1 & <- & <-).
    by apply Hd.
Qed.

(** C23: A close that ends before its deadline loses nothing: when the closing
    thread leaves its drain with time to spare, no task was abandoned, none is
    queued or running, and every accepted task was started or had been evicted. *)
Theorem early_close_loses_nothing {Task : Type} (workers cap : nat) (s s' : Sys Task) (i : nat)
    (deadline : Z) (n : nat) :
  reachable workers cap s -> threads s !! i = Some (CDrain deadline) -> (clock s <= deadline)%Z ->
  run_thread i s = Some s' -> threads s' !! i = Some (CNotify n) ->
  n = 0 /\ active (state (shared s')) = 0%Z /\
  accepted (history s') ≡ₚ started (history s') ++ evicted (history s').
Proof.
  intros Hreach Hi Hclock Hrun Hi'.
  assert (Hs' : reachable workers cap s') by (eapply reachable_step; [done|]; eapply rtc_once, step_run, Hrun).
  destruct (fates _ _ _ Hs') as [Hfates _]. pose proof (active_busy _ _ _ Hreach) as Hactive.
  pose proof (abandoned_late _ _ _ Hreach) as Hnone.
  pose proof (lifecycle _ _ _ Hreach) as (Hclosing & _ & _).
  assert (0 < count closing (threads s)) by (apply count_pos; by eauto).
  destruct (draining (state (shared s))); [|rewrite andb_false_r in Hclosing; lia].
  assert (Hset : forall p : pc Task, <[i := p]> (threads s) !! i = Some p)
    by (intros; apply list_lookup_insert_eq; by eapply lookup_lt_Some).
  unfold run_thread, drain_section, checked_duration_since, with_state in Hrun. rewrite Hi in Hrun.
  destruct (tasks (state (shared s))) eqn:Htasks; simpl in Hrun;
    repeat case_match; simplify_eq/=; rewrite Hset in Hi'; simplify_eq/=; try lia.
  rewrite ?app_nil_r in *. rewrite ?Htasks, Hnone, ?app_nil_r in Hfates by done.
  split_and!; [done|lia|done].
Qed.

(** C31: The overflow warnings account for every eviction: the drops that were
    warned of, those a submitter is about to warn of and those still counted add
    up to the number of evicted tasks (as long as that number fits the [u64]). *)
Theorem evictions_accounted {Task : Type} (workers cap : nat) (s : Sys Task) :
  0 < cap -> reachable workers cap s ->
  (Z.of_nat (length (evicted (history s))) < u64_modulus)%Z ->
  accounted s = Z.of_nat (length (evicted (history s))).
Proof. intros Hpos Hreach. by apply (drops_accounted workers cap). Qed.

(** ** Properties: wake-ups and termination *)

(** C15: No wake-up is lost while the dispatcher is open: as long as some worker
    sleeps, each queued task has a wake-up of its own on the way, a submitter that
    is about to notify or a worker that is about to take the lock; so a task is
    never left queued beside a sleeping worker with nothing to start it. *)
Theorem open_wakeups {Task : Type} (workers cap : nat) (s : Sys Task) (i : nat) :
  reachable workers cap s -> accepting (state (shared s)) = true -> threads s !! i = Some WWait ->
  length (tasks (state (shared s))) <= count notifying (threads s) + count locking (threads s).
Proof.
  intros Hreach Hacc Hi. apply (worker_wakeup workers cap); [done|done|].
  apply count_pos. eauto.
Qed.

(** A closing thread never sleeps past the end of the work: while it waits,
    some task is still queued or running, or a worker that has just finished is
    about to notify it. *)
Lemma close_wakeups {Task : Type} (workers cap : nat) (s : Sys Task) (i : nat) (deadline : Z) :
  reachable workers cap s -> threads s !! i = Some (CWait deadline) ->
  tasks (state (shared s)) <> [] \/ (0 < active (state (shared s)))%Z \/
  exists j, threads s !! j = Some WNotify.
Proof.
  intros Hreach Hi.
  destruct (close_wakeup _ _ _ Hreach) as [?|[?|(j & p & Hj & Hp)%count_pos]];
    [apply count_pos; by eauto|by left|by right; left|right; right].
  exists j. by destruct p.
Qed.

(** Closing releases the idle workers: once the closing thread has stopped the
    workers and notified them, no worker sleeps on the queue any more, and each
    worker that comes back for work leaves at once. *)
Lemma close_releases_workers {Task : Type} (workers cap : nat) (s : Sys Task) (i : nat) :
  reachable workers cap s -> draining (state (shared s)) = false ->
  count close_notify (threads s) = 0 ->
  threads s !! i <> Some WWait /\
  (threads s !! i = Some WLock -> run_thread i s = Some (move i WExit (shared s) [] s)).
Proof.
  intros Hreach Hdrain Hnone. split; [by eapply retired|]. intros Hi.
  pose proof (lifecycle _ _ _ Hreach) as (_ & _ & Hempty). specialize (Hempty Hdrain).
  unfold run_thread. rewrite Hi. simpl. unfold work_section. by rewrite Hempty, Hdrain.
Qed.

(** C16: The calls return: a [submit], from its start, and a [close], once its
    deadline has passed, can always take a step of their own until they have
    returned, every such step brings the return nearer (at most three for a
    [submit], five for a [close]), and no step of another thread, no wake-up and no
    passing of time ever takes it further away. *)
Theorem calls_return {Task : Type} (s : Sys Task) (i : nat) (p : pc Task) :
  threads s !! i = Some p -> returning (clock s) p = true ->
  (rank p = 0 \/ exists s', own_step i s s') /\
  (forall s', own_step i s s' ->
     step s s' /\ exists p', threads s' !! i = Some p' /\ rank p' < rank p) /\
  (forall s', step s s' ->
     exists p', threads s' !! i = Some p' /\ returning (clock s') p' = true /\ rank p' <= rank p).
Proof.
  intros Hi Hp. split_and!.
  - by apply own_enabled.
  - intros s' Hown. split; [by eapply own_step_step|by eapply own_strict].
  - intros s' Hstep. by eapply rank_step.
Qed.

(** ** Properties: panicking tasks *)

(** C33: A task that panics holds up the shutdown: its worker never decrements
    [active], so from then on it stays positive for ever, and every close runs to
    the end of its timeout, even when nothing is queued and nothing runs. *)
Theorem panic_delays_close {Task : Type} (workers cap : nat) (s s' s'' : Sys Task) (i j : nat)
    (deadline : Z) (n : nat) :
  reachable workers cap s -> threads s !! i = Some WPanic -> rtc step s s' ->
  threads s' !! j = Some (CDrain deadline) -> run_thread j s' = Some s'' ->
  threads s'' !! j = Some (CNotify n) ->
  (1 <= active (state (shared s')))%Z /\ (deadline < clock s')%Z.
Proof.
  intros Hreach Hi Hrtc Hj Hrun Hj'.
  assert (Hi' : threads s' !! i = Some WPanic).
  { clear -Hi Hrtc. induction Hrtc; [done|]. eauto using panicked_step. }
  assert (Hactive : (1 <= active (state (shared s')))%Z).
  { rewrite (active_busy _ _ s' (reachable_step _ _ _ _ Hreach Hrtc)).
    assert (0 < count busy (threads s')) by (apply count_pos; eauto). lia. }
  split; [done|].
  unfold run_thread, drain_section, checked_duration_since in Hrun. rewrite Hj in Hrun. simpl in Hrun.
  rewrite (proj2 (Z.ltb_lt _ _)), orb_true_r in Hrun by lia.
  destruct (Z.leb_spec (clock s') deadline); [|done]. simplify_eq/=.
  rewrite list_lookup_insert_eq in Hj' by (by eapply lookup_lt_Some). done.
Qed.

(** Panicking tasks wedge the delivery: each of them ends a worker that is
    never replaced, and once every worker is gone no task is started any more,
    although a dispatcher that is open still accepts whatever is submitted. *)
Lemma panics_stop_delivery {Task : Type} (s s' : Sys Task) :
  count live (threads s) = 0 -> rtc step s s' ->
  started (history s') = started (history s) /\
  (forall i task, accepting (state (shared s')) = true -> threads s' !! i = Some (SLock task) ->
     exists s'', run_thread i s' = Some s'' /\
       accepted (history s'') = accepted (history s') ++ [task]).
Proof.
  intros Hdead Hrtc. split.
  - induction Hrtc as [|s s1 s2 Hstep _ IH]; [done|].
    destruct (dead_step _ _ Hstep Hdead) as [Hdead1 <-]. by apply IH.
  - intros i task Hacc Hi. unfold run_thread, submit_section. rewrite Hi. simpl. rewrite Hacc. simpl.
    match goal with |- context [if ?b then ?x else ?y] =>
      destruct (if b then x else y) as [[[ev queue] due] logger] end.
    eexists. split; [done|]. unfold accepted. simpl. rewrite omap_app. f_equal. by destruct ev.
Qed.

(** ** Properties: a submission that races with [close] *)

(** Both workers sleep; a task is queued, and before its submitter notifies, a
    close begins and goes to sleep too; the notification wakes the closing thread. *)
Definition race {Task : Type} (t : Task) : list (action Task) :=
  [ARun 0; ARun 1; ASubmit t; ARun 2; AClose CLOSE_DRAIN_TIMEOUT; ARun 3; ARun 3; ARun 3;
   ANotify 2 3; ARun 2; ARun 3].

(** Nothing but the end of the timeout happens then. *)
Definition race_end {Task : Type} : list (action Task) :=
  [ATick (CLOSE_DRAIN_TIMEOUT + 1); ATimeout 3; ARun 3; ARun 3; ARun 3; ARun 3].

(** C32: A wake-up can be lost at close: the workers and the closing thread share a
    condition variable, and the one thread a submission wakes may be the closing
    one, which goes back to sleep. The accepted task is then left queued beside
    two idle workers, no thread can take a step by itself, no notification is on
    its way, and at the end of the timeout the task is abandoned without having
    been started. *)
Theorem close_loses_wakeup {Task : Type} (t : Task) :
  exists s s' : Sys Task,
    reachable WORKER_COUNT QUEUE_CAPACITY s /\
    accepted (history s) = [t] /\ tasks (state (shared s)) = [t] /\
    count asleep (threads s) = WORKER_COUNT /\ count notifying (threads s) = 0 /\
    threads s !! 2 = Some (SDone true) /\
    (forall i, run_thread i s = None) /\
    rtc step s s' /\ threads s' !! 3 = Some CDone /\
    started (history s') = [] /\ abandoned (history s') = [t].
Proof.
  set (s := mkSys (mkShared QUEUE_CAPACITY (mkState [t] false true 0) (logger_new DROP_LOG_INTERVAL 0))
              [WWait; WWait; SDone true; CWait CLOSE_DRAIN_TIMEOUT] 0 [Accepted t]).
  set (s' := mkSys (mkShared QUEUE_CAPACITY (mkState [] false false 0) (logger_new DROP_LOG_INTERVAL 0))
              [WLock; WLock; SDone true; CDone] (CLOSE_DRAIN_TIMEOUT + 1)
              [Accepted t; Abandoned t; WarnForceDropped 1]).
  exists s, s'. split_and!; try done.
  - apply (play_reachable _ _ 0 (race t)). by vm_compute.
  - by intros [|[|[|[|i]]]].
  - apply (play_steps race_end). by vm_compute.
Qed.

(** ** Witnesses *)

(** One worker, a queue of two; two tasks are accepted, and the first is running. *)
Definition busy_schedule : list (action nat) :=
  [ARun 0; ASubmit 7; ARun 1; ASubmit 8; ARun 2; ANotify 1 0; ARun 0].
Definition busy_sys : Sys nat := default (new 1 2 0) (play busy_schedule (new 1 2 0)).

(** Then the task finishes. *)
Definition finish_sys : Sys nat := default (new 1 2 0) (play (busy_schedule ++ [ARun 0]) (new 1 2 0)).

(** A close while a task runs, which then ends and notifies. *)
Definition drain_schedule : list (action nat) :=
  [ASubmit 7; ARun 1; ARun 0; AClose 100; ARun 2; ARun 2; ARun 2; ATick 5; ARun 0; ARun 0].
Definition draining_sys : Sys nat := default (new 1 2 0) (play drain_schedule (new 1 2 0)).
Definition drained_sys : Sys nat := default (new 1 2 0) (play (drain_schedule ++ [ARun 0]) (new 1 2 0)).
Definition ended_sys : Sys nat := default (new 1 2 0) (play (drain_schedule ++ [ARun 0; ARun 2]) (new 1 2 0)).
Definition closed_sys : Sys nat :=
  default (new 1 2 0) (play (drain_schedule ++ [ARun 0; ARun 2; ARun 2; ARun 2; ARun 2]) (new 1 2 0)).

(** A task that panics, and a close after it. *)
Definition panic_sys : Sys nat := default (new 1 2 0) (play [ASubmit 7; ARun 1; ARun 0; APanic 0] (new 1 2 0)).
Definition panic_close_sys : Sys nat :=
  default panic_sys (play [AClose 100; ARun 2; ARun 2; ARun 2; ATick 101; ATimeout 2] panic_sys).

Lemma busy_reachable : reachable 1 2 busy_sys.
Proof. by apply (play_reachable 1 2 0 busy_schedule). Qed.

Lemma drained_reachable : reachable 1 2 drained_sys.
Proof. by apply (play_reachable 1 2 0 (drain_schedule ++ [ARun 0])). Qed.

Lemma tasks_conserved_witness : [7; 8] ≡ₚ [7] ++ [] ++ [] ++ [8] /\ sublist [7] [7; 8].
Proof. apply (tasks_conserved 1 2 busy_sys), busy_reachable. Defined.

Lemma dispatcher_bounds_witness :
  length (tasks (state (shared finish_sys))) = 1 /\ (1 <= active (state (shared finish_sys)))%Z.
Proof.
  split; [reflexivity|].
  assert (Hr : reachable 1 2 finish_sys) by (by apply (play_reachable 1 2 0 (busy_schedule ++ [ARun 0]))).
  destruct (dispatcher_bounds 1 2 finish_sys ltac:(lia) Hr) as (_ & _ & Hcount).
  apply (Hcount 0). exact (eq_refl : threads finish_sys !! 0 = Some WFinish).
Defined.

Lemma closing_is_final_witness : started (history closed_sys) = [7] /\ accepted (history closed_sys) = [7].
Proof.
  assert (Hrtc : rtc step ended_sys closed_sys) by (by apply (play_steps [ARun 2; ARun 2; ARun 2])).
  assert (Hr : reachable 1 2 ended_sys) by (apply (play_reachable 1 2 0 (drain_schedule ++ [ARun 0; ARun 2])); reflexivity).
  destruct (closing_is_final 1 2 ended_sys closed_sys Hr Hrtc eq_refl) as (_ & Hacc & _ & Hd).
  destruct (Hd eq_refl) as (_ & _ & Hst & _).
  rewrite Hst, Hacc. split; vm_compute; reflexivity.
Defined.

Lemma early_close_loses_nothing_witness : active (state (shared ended_sys)) = 0%Z /\ [7] ≡ₚ [7] ++ [].
Proof.
  apply (early_close_loses_nothing 1 2 drained_sys ended_sys 2 100 0);
    [exact drained_reachable|reflexivity|vm_compute; discriminate|reflexivity|reflexivity].
Defined.

Lemma evictions_accounted_witness : accounted sample_sys = 1%Z.
Proof.
  apply (evictions_accounted 1 2 sample_sys); [lia|exact sample_reachable|vm_compute; reflexivity].
Defined.

(** A worker sleeps, and a task has just been queued. *)
Definition asleep_sys : Sys nat := default (new 1 2 0) (play [ARun 0; ASubmit 7; ARun 1] (new 1 2 0)).

Lemma open_wakeups_witness : threads asleep_sys !! 0 = Some WWait /\ 1 <= count notifying (threads asleep_sys) + 0.
Proof.
  split; [reflexivity|]. apply (open_wakeups 1 2 asleep_sys 0); [|reflexivity|reflexivity].
  by apply (play_reachable 1 2 0 [ARun 0; ASubmit 7; ARun 1]).
Defined.

Lemma close_wakeups_witness : exists j, threads draining_sys !! j = Some WNotify.
Proof.
  destruct (close_wakeups 1 2 draining_sys 2 100) as [H|[H|H]].
  - by apply (play_reachable 1 2 0 drain_schedule).
  - reflexivity.
  - exfalso. by apply H.
  - exfalso. by vm_compute in H.
  - exact H.
Defined.

Lemma close_releases_workers_witness :
  threads closed_sys !! 0 = Some WLock /\ is_Some (run_thread 0 closed_sys).
Proof.
  split; [reflexivity|].
  assert (Hr : reachable 1 2 closed_sys).
  { by apply (play_reachable 1 2 0 (drain_schedule ++ [ARun 0; ARun 2; ARun 2; ARun 2; ARun 2])). }
  destruct (close_releases_workers 1 2 closed_sys 0 Hr eq_refl eq_refl) as [_ Hrun].
  rewrite (Hrun eq_refl). eauto.
Defined.

Lemma calls_return_witness : exists s', own_step 2 panic_close_sys s'.
Proof.
  destruct (calls_return panic_close_sys 2 (CDrain 100)) as [[H|H] _]; [reflexivity..| |exact H].
  exfalso. by vm_compute in H.
Defined.

Lemma panic_delays_close_witness : (1 <= active (state (shared panic_close_sys)))%Z /\ (100 < clock panic_close_sys)%Z.
Proof.
  apply (panic_delays_close 1 2 panic_sys panic_close_sys (default panic_sys (run_thread 2 panic_close_sys)) 0 2 100 0).
  - by apply (play_reachable 1 2 0 [ASubmit 7; ARun 1; ARun 0; APanic 0]).
  - reflexivity.
  - by apply (play_steps [AClose 100; ARun 2; ARun 2; ARun 2; ATick 101; ATimeout 2]).
  - reflexivity.
  - reflexivity.
  - reflexivity.
Defined.

Lemma panics_stop_delivery_witness :
  started (history (default panic_sys (play [ASubmit 8; ARun 2] panic_sys))) = [7].
Proof.
  apply (panics_stop_delivery panic_sys); [reflexivity|]. by apply (play_steps [ASubmit 8; ARun 2]).
Defined.
