(* ===== verification/DispatcherLive.v ===== *)
(** * Liveness of the dispatcher (src/rust/src/internal/dispatcher.rs)

    Infinite executions of [Dispatcher.step] under a fair scheduler: a thread that can
    run is not passed over for ever. As long as the dispatcher stays open and no task
    panics, every accepted task is eventually taken by a worker or evicted by a later
    one, whatever submitters do and whichever threads the notifications wake. *)

From stdpp Require Import prelude list relations.
From S2P Require Import Prelude Fairness DropLogger Dispatcher DispatcherInv DispatcherProps.

(** ** Threads that can run *)

Section Runnable.
Context {Task : Type}.
Implicit Types (s : Sys Task) (p : pc Task).

(** Neither asleep nor at its end. *)
Definition runnable p : bool :=
  match p with WWait | CWait _ | WExit | WPanic | SDone _ | CDone => false | _ => true end.

Definition can_run (i : nat) s : Prop := exists p, threads s !! i = Some p /\ runnable p = true.

(** It has a step of its own, be it only that its [wait_timeout] has expired. *)
Definition enabled (i : nat) s : Prop := exists s', own_step i s s'.

(** Such a thread has a step of its own. *)
Lemma runnable_steps (i : nat) s : can_run i s -> enabled i s.
Proof.
  intros (p & Hi & Hp). destruct (run_thread i s) as [s'|] eqn:Hrun; [exists s'; by apply own_run|].
  assert (exists due, p = SNotify due) as [due ->].
  { unfold run_thread in Hrun. rewrite Hi in Hrun. simpl in Hrun. destruct p; try done; repeat case_match; eauto; done. }
  destruct (decide (count waiting (threads s) = 0)) as [Hz|Hz].
  - eexists. by eapply own_notify_none.
  - assert (0 < count waiting (threads s)) as (j & q & Hj & Hq)%count_pos by lia.
    eexists. by eapply own_notify_one.
Qed.

(** Asleep without a timeout, or at its end. *)
Definition at_rest p : bool := match p with WWait | WExit | WPanic | SDone _ | CDone => true | _ => false end.

Lemma at_rest_disabled (i : nat) s :
  (forall p, threads s !! i = Some p -> at_rest p = true) -> ~ enabled i s.
Proof.
  intros Hrest [s' Hown].
  destruct Hown as [s' Hrun|j due p Hi|due Hi|deadline Hi];
    [|by apply Hrest in Hi..].
  unfold run_thread in Hrun. destruct (threads s !! i) as [p|] eqn:Hi; [|done]. specialize (Hrest p eq_refl).
  by destruct p.
Qed.

Lemma runnable_wake p : runnable p = true -> wake p = p.
Proof. by destruct p. Qed.

Lemma run_thread_others (i k : nat) s s' p :
  run_thread k s = Some s' -> i <> k -> threads s !! i = Some p -> runnable p = true -> threads s' !! i = Some p.
Proof.
  intros Hrun Hne Hi Hp. pose proof (lookup_wake _ _ _ Hi) as Hw. rewrite (runnable_wake _ Hp) in Hw.
  unfold run_thread in Hrun. destruct (threads s !! k) as [q|]; [|done]. simpl in Hrun.
  destruct q; repeat case_match; simplify_eq/=; by rewrite list_lookup_insert_ne.
Qed.

(** It takes that step, or stays where it is, or its task panics. *)
Lemma runnable_stays (i : nat) s s' p :
  step s s' -> threads s !! i = Some p -> runnable p = true ->
  own_step i s s' \/ threads s' !! i = Some p \/ threads s' !! i = Some WPanic.
Proof.
  intros Hstep Hi Hp.
  assert (Hother : forall k x q, threads s !! k = Some x -> (i = k -> own_step i s s') ->
            own_step i s s' \/ <[k := q]> (threads s) !! i = Some p).
  { intros k x q Hk Hown. destruct (decide (i = k)) as [->|Hne]; [left; by apply Hown|right].
    by rewrite list_lookup_insert_ne. }
  assert (Hsleep : forall j q, i = j -> threads s !! j = Some q -> waiting q = true -> False).
  { intros j q <- Hj Hq. assert (q = p) as -> by congruence. by destruct p. }
  destruct Hstep as [t|tm Htm|dl Hdl|k s' Hrun|k t Hk|k j due q Hk Hj Hq|k due Hk Hz|j q Hj Hq|j dl Hj Hle].
  - right. left. by apply lookup_app_l_Some.
  - right. left. by apply lookup_app_l_Some.
  - by right; left.
  - destruct (decide (i = k)) as [->|Hne]; [left; by apply own_run|right; left]. by eapply run_thread_others.
  - right. simpl. destruct (decide (i = k)) as [->|Hne]; [right|left; by rewrite list_lookup_insert_ne].
    apply list_lookup_insert_eq. by eapply lookup_lt_Some.
  - destruct (decide (i = k)) as [->|Hne]; [left; by eapply own_notify_one|right; left]. simpl.
    assert (Hij : i <> j) by (intros ->; by apply (Hsleep j q)). by rewrite !list_lookup_insert_ne.
  - destruct (Hother k _ (SLog due) Hk) as [?|?]; [intros ->; by apply own_notify_none|by left|by right; left].
  - right. left. simpl. assert (Hij : i <> j) by (intros ->; by apply (Hsleep j q)).
    by rewrite list_lookup_insert_ne.
  - right. left. simpl. assert (Hij : i <> j) by (intros ->; by apply (Hsleep j (CWait dl))).
    by rewrite list_lookup_insert_ne.
Qed.
End Runnable.

(** ** Workers while the dispatcher is open *)

Section Open.
Context {Task : Type} (workers cap : nat).
Implicit Types (s : Sys Task) (p : pc Task).
Notation reachable := (reachable workers cap).

Definition left p : bool := match p with WExit => true | _ => false end.

(** A worker only leaves once it has been told to stop. *)
Lemma nobody_left s : reachable s -> draining (state (shared s)) = true -> count left (threads s) = 0.
Proof.
  revert s. reach_ind; [intros; simpl; by rewrite count_replicate|].
  intros s s' _ IH Hstep. assert (Hw : count left (wake <$> threads s) = count left (threads s))
    by (apply count_map; by intros []).
  step_cases Hstep; count_of left; simpl in *; intros Hdrain; try (specialize (IH Hdrain));
    rewrite ?Hdrain in *; try discriminate; try (by destruct (negb _)); lia.
Qed.

Lemma open_draining s : reachable s -> accepting (state (shared s)) = true -> draining (state (shared s)) = true.
Proof. intros Hr. by apply (lifecycle _ _ _ Hr). Qed.

(** While the dispatcher accepts only workers sleep. *)
Lemma open_sleepers s (j : nat) p :
  reachable s -> accepting (state (shared s)) = true -> threads s !! j = Some p -> waiting p = true -> p = WWait.
Proof.
  intros Hr Hacc Hj Hp. destruct p; try done.
  pose proof (lifecycle _ _ _ Hr) as (Hclosing & _). rewrite Hacc in Hclosing. simpl in Hclosing.
  assert (0 < count closing (threads s)) by (apply count_pos; eauto). lia.
Qed.

(** A worker that is not asleep can run, unless its task has panicked. *)
Lemma awake_worker s (i : nat) p :
  reachable s -> accepting (state (shared s)) = true -> threads s !! i = Some p -> is_worker p = true ->
  p <> WWait -> p <> WPanic -> runnable p = true.
Proof.
  intros Hr Hacc Hi Hw Hsleep Hpanic. destruct p; try done.
  pose proof (nobody_left _ Hr (open_draining _ Hr Hacc)) as Hz.
  assert (0 < count left (threads s)) by (apply count_pos; eauto). lia.
Qed.

Lemma history_mono (s s' : Sys Task) : rtc step s s' -> exists es, history s' = history s ++ es.
Proof.
  induction 1 as [s|s s1 s2 Hstep _ [es IH]]; [exists []; by rewrite app_nil_r|].
  destruct (history_grows _ _ Hstep) as [es1 Hs1]. exists (es1 ++ es). by rewrite IH, Hs1, app_assoc.
Qed.
End Open.

(** ** Fair executions *)

Section Live.
Context {Task : Type} (workers cap : nat) (exec : nat -> Sys Task).
Implicit Types (p : pc Task).

(** An execution in which a thread that can make a step is not passed over for ever,
    nor a timeout that has expired, and in which no task panics. *)
Record fair_execution : Prop := {
  exec_starts : reachable workers cap (exec 0);
  exec_steps : forall n, step (exec n) (exec (S n));
  exec_fair : forall i, fair_to exec (own_step i);
  exec_calm : forall i n, threads (exec n) !! i <> Some WPanic;
}.
Hypothesis Hfair : fair_execution.

Lemma exec_rtc (n m : nat) : n <= m -> rtc step (exec n) (exec m).
Proof.
  induction 1 as [|m _ IH]; [done|]. eapply rtc_r; [exact IH|]. by apply exec_steps.
Qed.

Lemma exec_reachable (n : nat) : reachable workers cap (exec n).
Proof. eapply reachable_step; [by apply exec_starts|]. apply exec_rtc. lia. Qed.

(** A thread that can run makes a step of its own, from where it is. *)
Lemma eventually_acts (i n : nat) p :
  threads (exec n) !! i = Some p -> runnable p = true ->
  exists m, n <= m /\ threads (exec m) !! i = Some p /\ own_step i (exec m) (exec (S m)).
Proof.
  intros Hi Hp. destruct (exec_fair Hfair i n) as (m & Hle & Hm).
  remember (m - n) as k eqn:Hk. revert n Hi Hle Hk. induction k as [|k IH]; intros n Hi Hle Hk.
  - assert (m = n) as -> by lia. exists n. split; [done|]. split; [done|].
    destruct Hm as [?|Hno]; [done|]. destruct Hno. apply runnable_steps. by exists p.
  - destruct (runnable_stays i _ _ p (exec_steps Hfair n) Hi Hp) as [Hown|[Hi'|Hpanic]].
    + by exists n.
    + destruct (IH (S n) Hi' ltac:(lia) ltac:(lia)) as (m' & ? & ? & ?). exists m'. split; [lia|done].
    + by apply (exec_calm Hfair) in Hpanic.
Qed.

(** The next place of a worker that makes a step of its own. *)
Lemma worker_acts (i m : nat) p :
  threads (exec m) !! i = Some p -> is_worker p = true -> own_step i (exec m) (exec (S m)) ->
  match p with
  | WLock => forall t l, tasks (state (shared (exec m))) = t :: l ->
      length (removed (history (exec (S m)))) = S (length (removed (history (exec m))))
  | WNotify => threads (exec (S m)) !! i = Some WLock
  | WFinish => threads (exec (S m)) !! i = Some WNotify
  | WRun _ => threads (exec (S m)) !! i = Some WFinish
  | _ => False
  end.
Proof.
  intros Hi Hw Hown.
  assert (Hrun : run_thread i (exec m) = Some (exec (S m)))
    by (destruct Hown; [done|..]; exfalso; by simplify_eq).
  clear Hown. unfold run_thread in Hrun. rewrite Hi in Hrun. simpl in Hrun.
  assert (Hset : forall (q : pc Task) l, length l = length (threads (exec m)) -> <[i := q]> l !! i = Some q).
  { intros q l Hl. apply list_lookup_insert_eq. rewrite Hl. by eapply lookup_lt_Some. }
  destruct p; try done.
  - intros t l Ht. unfold work_section in Hrun. rewrite Ht in Hrun. injection Hrun as Hs. rewrite <-Hs. simpl.
    unfold removed. rewrite omap_app, length_app. simpl. lia.
  - injection Hrun as Hs. rewrite <-Hs. by apply Hset.
  - injection Hrun as Hs. rewrite <-Hs. by apply Hset.
  - injection Hrun as Hs. rewrite <-Hs. apply Hset. simpl. apply length_fmap.
Qed.

(** The dispatcher stops accepting at some point from [n] on. *)
Definition shut (n : nat) : Prop := exists m, n <= m /\ accepting (state (shared (exec m))) = false.

(** More than [r] tasks have left the queue at some point from [n] on. *)
Definition gone (n r : nat) : Prop := exists m, n <= m /\ r < length (removed (history (exec m))).

Lemma gone_later (n m r : nat) : n <= m -> gone m r -> gone n r.
Proof. intros Hle (k & Hk & Hr). exists k. split; [lia|done]. Qed.

(** [r] tasks and more were accepted by [n], so that the queue is not empty before
    more than [r] have left it. *)
Definition pending (n r : nat) : Prop := r < length (accepted (history (exec n))).

Lemma accepted_mono (n m : nat) : n <= m -> length (accepted (history (exec n))) <= length (accepted (history (exec m))).
Proof.
  intros Hle. destruct (history_mono _ _ (exec_rtc n m Hle)) as [es ->].
  unfold accepted. rewrite omap_app, length_app. lia.
Qed.

Lemma removed_mono (n m : nat) : n <= m -> length (removed (history (exec n))) <= length (removed (history (exec m))).
Proof.
  intros Hle. destruct (history_mono _ _ (exec_rtc n m Hle)) as [es ->].
  unfold removed. rewrite omap_app, length_app. lia.
Qed.

Lemma pending_queue (n m r : nat) :
  pending n r -> n <= m -> gone m r \/ exists t l, tasks (state (shared (exec m))) = t :: l.
Proof.
  intros Hp Hle. pose proof (accepted_mono _ _ Hle) as Hacc. unfold pending in Hp.
  rewrite (queue_fifo _ _ _ (exec_reachable m)), length_app in Hacc.
  destruct (tasks (state (shared (exec m)))) as [|t l]; [left|right; eauto].
  exists m. simpl in Hacc. split; lia.
Qed.

Lemma pending_later (n m r : nat) : n <= m -> pending n r -> pending m r.
Proof. intros Hle Hp. pose proof (accepted_mono _ _ Hle). unfold pending in *. lia. Qed.

Lemma locking_takes (i n r : nat) :
  pending n r -> r <= length (removed (history (exec n))) -> threads (exec n) !! i = Some WLock -> gone n r.
Proof.
  intros Hp Hr Hi. destruct (eventually_acts i n _ Hi eq_refl) as (m & Hle & Hi' & Hown).
  destruct (pending_queue n m r Hp Hle) as [Hg|(t & l & Ht)]; [by eapply gone_later|].
  pose proof (worker_acts i m _ Hi' eq_refl Hown t l Ht) as Hone. pose proof (removed_mono n m Hle).
  exists (S m). split; [lia|]. rewrite Hone. lia.
Qed.

(** A worker that can run takes a task, when its own is done. *)
Lemma worker_takes (i n r : nat) p :
  pending n r -> r <= length (removed (history (exec n))) ->
  threads (exec n) !! i = Some p -> is_worker p = true -> runnable p = true -> gone n r.
Proof.
  intros Hp Hr Hi Hw Hrun.
  assert (Hnext : forall n0 q q', n <= n0 -> threads (exec n0) !! i = Some q -> is_worker q = true -> runnable q = true ->
            (forall m, threads (exec m) !! i = Some q -> own_step i (exec m) (exec (S m)) -> threads (exec (S m)) !! i = Some q') ->
            exists n1, n <= n1 /\ threads (exec n1) !! i = Some q').
  { intros n0 q q' Hle Hq Hwq Hrq Hone. destruct (eventually_acts i n0 q Hq Hrq) as (m & Hle' & Hq' & Hown).
    exists (S m). split; [lia|]. by apply Hone. }
  assert (Hlock : forall n0, n <= n0 -> threads (exec n0) !! i = Some WLock -> gone n r).
  { intros n0 Hle Hq. eapply gone_later; [exact Hle|]. eapply locking_takes; [by eapply pending_later| |done].
    pose proof (removed_mono n n0 Hle). lia. }
  assert (Hnotify : forall n0, n <= n0 -> threads (exec n0) !! i = Some WNotify -> gone n r).
  { intros n0 Hle Hq. destruct (Hnext n0 WNotify WLock Hle Hq eq_refl eq_refl) as (n1 & Hle1 & Hq1); [|by eapply Hlock].
    intros m Hm Hown. by apply (worker_acts i m WNotify Hm eq_refl Hown). }
  assert (Hfinish : forall n0, n <= n0 -> threads (exec n0) !! i = Some WFinish -> gone n r).
  { intros n0 Hle Hq. destruct (Hnext n0 WFinish WNotify Hle Hq eq_refl eq_refl) as (n1 & Hle1 & Hq1); [|by eapply Hnotify].
    intros m Hm Hown. by apply (worker_acts i m WFinish Hm eq_refl Hown). }
  destruct p; try done; [by eapply Hlock| |by eapply Hfinish|by eapply Hnotify].
  destruct (Hnext n (WRun task) WFinish (le_n n) Hi eq_refl eq_refl) as (n1 & Hle1 & Hq1); [|by eapply Hfinish].
  intros m Hm Hown. by apply (worker_acts i m (WRun task) Hm eq_refl Hown).
Qed.

Hypothesis Hworkers : 0 < workers.

(** Some worker is there, and when all are asleep a notification is on its way. *)
Lemma someone_takes (n r : nat) : pending n r -> r <= length (removed (history (exec n))) -> gone n r \/ shut n.
Proof.
  assert (Hawake : forall n, accepting (state (shared (exec n))) = true -> pending n r ->
            r <= length (removed (history (exec n))) -> gone n r \/ exists i, threads (exec n) !! i = Some WWait).
  { intros n0 Hopen Hp Hr. pose proof (workers_const _ _ _ (exec_reachable n0)) as Hcount.
    assert (0 < count is_worker (threads (exec n0))) as (i & p & Hi & Hw)%count_pos by lia.
    destruct (decide (waiting p = true)) as [Hs|Hs].
    - right. exists i. by rewrite <-(open_sleepers _ _ _ _ _ (exec_reachable n0) Hopen Hi Hs).
    - left. eapply worker_takes; [done|done|exact Hi|done|]. eapply awake_worker; try done.
      + apply exec_reachable.
      + by intros ->.
      + intros ->. by apply (exec_calm Hfair) in Hi. }
  intros Hp Hr. destruct (accepting (state (shared (exec n)))) eqn:Hopen; [|right; by exists n].
  destruct (Hawake n Hopen Hp Hr) as [?|[i Hi]]; [by left|].
  destruct (pending_queue n n r Hp (le_n n)) as [?|(t & l & Ht)]; [by left|].
  assert (0 < count asleep (threads (exec n))) by (apply count_pos; by exists i, WWait).
  pose proof (worker_wakeup _ _ _ (exec_reachable n) Hopen ltac:(done)) as Hwake. rewrite Ht in Hwake. simpl in Hwake.
  destruct (decide (0 < count locking (threads (exec n)))) as [(k & q & Hk & Hq)%count_pos|Hno].
  { left. eapply (worker_takes k); [done|done|exact Hk|by destruct q|by destruct q]. }
  assert (0 < count notifying (threads (exec n))) as (k & q & Hk & Hq)%count_pos by lia.
  destruct q as [| | | | | | | |due| | | | | | | | | |]; try done.
  destruct (eventually_acts k n _ Hk eq_refl) as (m & Hle & Hk' & Hown).
  assert (Hp' : pending m r) by (by eapply pending_later).
  assert (Hr' : r <= length (removed (history (exec m)))) by (pose proof (removed_mono n m Hle); lia).
  destruct (accepting (state (shared (exec m)))) eqn:Hopen'; [left|right; by exists m].
  assert (Hwoken : gone m r \/ exists j, threads (exec (S m)) !! j = Some WLock).
  { destruct (Hawake m Hopen' Hp' Hr') as [?|[i' Hi']]; [by left|].
    remember (exec (S m)) as s' eqn:Hs'. destruct Hown as [s' Hrun|j due' p Hkn Hj Hpw|due' Hkn Hz|dl Hkn _].
    - unfold run_thread in Hrun. by rewrite Hk' in Hrun.
    - right. rewrite (open_sleepers _ _ _ _ _ (exec_reachable m) Hopen' Hj Hpw) in *. exists j. simpl.
      rewrite list_lookup_insert_ne by (intros ->; simplify_eq). apply list_lookup_insert_eq. by eapply lookup_lt_Some.
    - assert (0 < count waiting (threads (exec m))) by (apply count_pos; by exists i', WWait). lia.
    - by simplify_eq. }
  destruct Hwoken as [Hg|[j Hj]]; [by eapply gone_later|].
  eapply gone_later; [|eapply (worker_takes j (S m))]; [lia|by eapply pending_later; [|exact Hp']; lia| |exact Hj|done|done].
  pose proof (removed_mono m (S m) ltac:(lia)). lia.
Qed.

(** Sooner or later every accepted task leaves the queue, unless the dispatcher stops
    accepting. *)
Lemma all_leave (n r : nat) : pending n r -> gone n r \/ shut n.
Proof.
  intros Hp. remember (S r - length (removed (history (exec n)))) as k eqn:Hk. revert n Hp Hk.
  induction (lt_wf k) as [k _ IH]. intros n Hp ->.
  destruct (decide (r < length (removed (history (exec n))))) as [Hlt|Hge]; [left; by exists n|].
  destruct (someone_takes n (length (removed (history (exec n))))) as [(m & Hle & Hm)|?];
    [unfold pending in *; lia|lia| |by right].
  destruct (IH (S r - length (removed (history (exec m)))) ltac:(lia) m ltac:(by eapply pending_later) eq_refl)
    as [Hg|(k & Hlek & Hk)]; [left; by eapply gone_later|right]. exists k. split; [lia|done].
Qed.
End Live.

(** ** Properties *)

(** No accepted task is forgotten. In every fair execution in which the dispatcher
    stays open, has a worker and no task panics, each task that has been accepted is,
    sooner or later, taken by a worker or evicted by a later submission, in the order
    of acceptance, whatever the submitters do and whichever threads the notifications
    wake. *)
Lemma accepted_leave {Task : Type} (workers cap : nat) (exec : nat -> Sys Task) (n k : nat) (t : Task) :
  fair_execution workers cap exec -> 0 < workers ->
  (forall m, accepting (state (shared (exec m))) = true) ->
  accepted (history (exec n)) !! k = Some t ->
  exists m, n <= m /\ removed (history (exec m)) !! k = Some t /\
    (t ∈ started (history (exec m)) \/ t ∈ evicted (history (exec m))).
Proof.
  intros Hfair Hworkers Hopen Ht.
  destruct (all_leave workers cap exec Hfair Hworkers n k) as [(m & Hle & Hk)|(m & _ & Hshut)];
    [by eapply lookup_lt_Some| |by rewrite Hopen in Hshut].
  assert (Hreach : reachable workers cap (exec m)) by (by apply exec_reachable).
  assert (Htk : removed (history (exec m)) !! k = Some t).
  { destruct (history_mono _ _ (exec_rtc _ _ _ Hfair n m Hle)) as [es Hes].
    assert (Ha : accepted (history (exec m)) !! k = Some t)
      by (rewrite Hes; unfold accepted; rewrite omap_app; by apply lookup_app_l_Some).
    by rewrite (queue_fifo _ _ _ Hreach), lookup_app_l in Ha. }
  exists m. split; [done|]. split; [done|].
  apply list_elem_of_lookup_2 in Htk. unfold removed in Htk. apply list_elem_of_omap in Htk as (e & He & Hte).
  pose proof (abandoned_late _ _ _ Hreach (open_draining _ _ _ Hreach (Hopen m))) as Hnone.
  destruct e as [| |t'|t'| |t'| |]; simplify_eq/=.
  - right. apply list_elem_of_omap. by exists (Evicted t).
  - left. apply list_elem_of_omap. by exists (Started t).
  - assert (Hin : t ∈ abandoned (history (exec m))) by (apply list_elem_of_omap; by exists (Abandoned t)).
    rewrite Hnone in Hin. by apply elem_of_nil in Hin.
Qed.

(** ** Witness: one task, submitted while the worker sleeps *)

Definition one_task : list (action nat) :=
  [ARun 0; ASubmit 7; ARun 1; ANotify 1 0; ARun 1; ARun 0; ARun 0; ARun 0; ARun 0; ARun 0].

(** The states it goes through; the last one lasts for ever. *)
Definition one_task_at (n : nat) : Sys nat :=
  default (new 1 2 0) (play (take n one_task) (new 1 2 0)).

Lemma one_task_act (n : nat) : n < 10 -> act (nth n one_task (ATick 0)) (one_task_at n) = Some (one_task_at (S n)).
Proof. intros Hn. do 10 (destruct n as [|n]; [vm_compute; reflexivity|]). lia. Qed.

Lemma one_task_last (n : nat) : 10 <= n -> one_task_at n = one_task_at 10.
Proof. intros Hn. unfold one_task_at. rewrite (take_ge one_task n) by done. by rewrite (take_ge one_task 10). Qed.

Lemma one_task_threads (i n : nat) :
  threads (one_task_at n) !! i <> Some WPanic /\ ~ enabled i (one_task_at 10).
Proof.
  split.
  - destruct (decide (n < 10)) as [Hn|Hn]; [|rewrite one_task_last by lia]; intros Hi;
      [do 10 (destruct n as [|n]; [by destruct i as [|[|i]]|]); lia|by destruct i as [|[|i]]].
  - apply at_rest_disabled. intros p Hi. destruct i as [|[|i]]; vm_compute in Hi; by simplify_eq.
Qed.

Lemma one_task_fair : fair_execution 1 2 one_task_at.
Proof.
  split.
  - exists 0%Z. apply rtc_refl.
  - intros n. destruct (decide (n < 10)) as [Hn|Hn]; [eapply act_step; by apply one_task_act|].
    rewrite (one_task_last n), (one_task_last (S n)) by lia.
    pose proof (step_tick (one_task_at 10) 0 ltac:(lia)) as Htick. by rewrite Z.add_0_r in Htick.
  - intros i n. exists (Nat.max n 10). split; [lia|]. right. rewrite one_task_last by lia. by apply (one_task_threads i 0).
  - intros i n. by apply one_task_threads.
Qed.

Lemma one_task_open (m : nat) : accepting (state (shared (one_task_at m))) = true.
Proof.
  destruct (decide (m < 10)) as [Hn|Hn]; [do 10 (destruct m as [|m]; [reflexivity|]); lia|by rewrite one_task_last by lia].
Qed.

Lemma accepted_leave_witness :
  exists m, 3 <= m /\ removed (history (one_task_at m)) !! 0 = Some 7.
Proof.
  destruct (accepted_leave 1 2 one_task_at 3 0 7 one_task_fair ltac:(lia) one_task_open) as (m & Hle & Hm & _);
    [vm_compute; reflexivity|]. exists m. split; [exact Hle|exact Hm].
Defined.
