(* ===== verification/DispatcherShutdown.v ===== *)
(** * Shutdown of the dispatcher under a fair scheduler (src/rust/src/internal/dispatcher.rs)

    What becomes of the calls and of the workers in the infinite executions of
    [DispatcherLive] in which time does not stand still: every [submit] and every
    [close] returns, and after a [close] every worker leaves its loop for good. *)

From stdpp Require Import prelude list relations.
From S2P Require Import Prelude Fairness DropLogger Dispatcher DispatcherInv DispatcherProps DispatcherLive.

(** ** What a thread remains *)

Section Kinds.
Context {Task : Type} (workers cap : nat).
Implicit Types (s : Sys Task) (p : pc Task).
Notation reachable := (reachable workers cap).

Definition in_submit p : bool := match p with SLock _ | SNotify _ | SLog _ | SDone _ => true | _ => false end.

Definition in_close p : bool :=
  match p with CLock _ | CDeadline _ | CDrain _ | CWait _ | CNotify _ | CWorkers _ | CLog _ | CDone => true | _ => false end.

(** In a close that has computed its deadline, or is past the drain. *)
Definition drains (deadline : Z) p : bool :=
  match p with
  | CDrain d | CWait d => (d =? deadline)%Z
  | CNotify _ | CWorkers _ | CLog _ | CDone => true
  | _ => false
  end.

(** A set of places no step of a thread leads out of. *)
Definition stable (f : pc Task -> bool) : Prop :=
  forall s s' (i : nat) p, step s s' -> threads s !! i = Some p -> f p = true ->
    exists p', threads s' !! i = Some p' /\ f p' = true.

(** It is enough that waking up and the thread's own moves stay inside. *)
Lemma lookup_inside (f : pc Task -> bool) (l : list (pc Task)) (k i : nat) (x y p : pc Task) :
  l !! k = Some p -> f p = true -> l !! i = Some x -> (f x = true -> f y = true) ->
  exists p', <[i := y]> l !! k = Some p' /\ f p' = true.
Proof.
  intros Hk Hp Hi Hy. destruct (lookup_insert_cases l k i x y p Hk Hi) as [(-> & -> & ->)|(_ & ->)]; eauto.
Qed.

Lemma wake_inside (f : pc Task -> bool) (l : list (pc Task)) (k : nat) p :
  (forall q, f (wake q) = f q) -> l !! k = Some p -> f p = true ->
  exists p', (wake <$> l) !! k = Some p' /\ f p' = true.
Proof. intros Hw Hk Hp. exists (wake p). split; [by apply lookup_wake|by rewrite Hw]. Qed.

Ltac stays_inside f Hk Hp :=
  match goal with
  | |- exists p', (_ ++ _) !! _ = Some p' /\ _ => eexists; split; [by apply lookup_app_l_Some|exact Hp]
  | |- exists p', <[_ := _]> (wake <$> _) !! _ = Some p' /\ _ =>
      let Hw := fresh in
      destruct (wake_inside f _ _ _ ltac:(by intros []) Hk Hp) as (? & Hw & ?);
      eapply (lookup_inside f); [exact Hw|done|eassumption|done]
  | |- exists p', <[_ := _]> (<[_ := _]> _) !! _ = Some p' /\ _ =>
      let Hw := fresh in
      edestruct (lookup_inside f) as (? & Hw & ?); [exact Hk|exact Hp| | |eapply (lookup_inside f); [exact Hw|done|eassumption|done]];
      [eassumption|done]
  | |- exists p', <[_ := _]> _ !! _ = Some p' /\ _ => eapply (lookup_inside f); [exact Hk|exact Hp|eassumption|done]
  | |- _ => eauto
  end.

Lemma submit_stable : stable in_submit.
Proof. intros s s' k p Hstep Hk Hp. step_cases Hstep; stays_inside in_submit Hk Hp. Qed.

Lemma close_stable : stable in_close.
Proof. intros s s' k p Hstep Hk Hp. step_cases Hstep; stays_inside in_close Hk Hp. Qed.

Lemma drains_stable (deadline : Z) : stable (drains deadline).
Proof. intros s s' k p Hstep Hk Hp. step_cases Hstep; stays_inside (drains deadline) Hk Hp. Qed.

Lemma exited_stable : stable left.
Proof. intros s s' k p Hstep Hk Hp. step_cases Hstep; stays_inside (@left Task) Hk Hp. Qed.

Lemma worker_stable : stable is_worker.
Proof. intros s s' k p Hstep Hk Hp. step_cases Hstep; stays_inside (@is_worker Task) Hk Hp. Qed.

(** A call that has returned. *)
Definition returned p : bool := match p with SDone _ | CDone => true | _ => false end.

Lemma returned_stable : stable returned.
Proof. intros s s' k p Hstep Hk Hp. step_cases Hstep; stays_inside returned Hk Hp. Qed.

(** No worker is ever added. *)
Lemma worker_back s s' (i : nat) p :
  step s s' -> threads s' !! i = Some p -> is_worker p = true ->
  exists q, threads s !! i = Some q /\ is_worker q = true.
Proof.
  intros Hstep Hat Hp.
  assert (Hw : forall (l : list (pc Task)) j (x y : pc Task), l !! j = Some x -> (is_worker y = true -> is_worker x = true) ->
            <[j := y]> l !! i = Some p -> exists q, l !! i = Some q /\ is_worker q = true).
  { intros l j x y Hj Hxy [(-> & -> & _)|(_ & Hl)]%list_lookup_insert_Some; eauto. }
  assert (Hwake : forall j (x y : pc Task), threads s !! j = Some x -> (is_worker y = true -> is_worker x = true) ->
            <[j := y]> (wake <$> threads s) !! i = Some p -> exists q, threads s !! i = Some q /\ is_worker q = true).
  { intros j x y Hj Hxy [(-> & -> & _)|(_ & (z & -> & Hz)%list_lookup_fmap_Some)]%list_lookup_insert_Some; [eauto|].
    exists z. by destruct z. }
  step_cases Hstep; simpl in Hat;
    try (apply lookup_app_Some in Hat as [Hat|[_ Hat]]; [eauto|by apply list_lookup_singleton_Some in Hat as [_ <-]]);
    try (by eauto); try (by eapply Hw; [exact Hi| |exact Hat]); try (by eapply Hwake; [exact Hi| |exact Hat]).
  all: try (by eapply Hw; [exact Hj| |exact Hat]).
  all: apply list_lookup_insert_Some in Hat as [(_ & <- & _)|(_ & Hat)]; [done|]; by eapply Hw; [exact Hj| |exact Hat].
Qed.

(** The closing thread does not stop closing before it has stopped the workers. *)
Lemma closing_step s s' (k : nat) p :
  reachable s -> step s s' -> threads s !! k = Some p -> closing p = true ->
  (exists p', threads s' !! k = Some p' /\ closing p' = true) \/ draining (state (shared s')) = false.
Proof.
  intros Hreach Hstep Hk Hp.
  destruct (draining (state (shared s))) eqn:Hdrain; [|right; by eapply stopped_step].
  step_cases Hstep; first [by left; stays_inside (@closing Task) Hk Hp|by right].
Qed.
Lemma clock_step s s' : step s s' -> (clock s <= clock s')%Z.
Proof. intros Hstep. step_cases Hstep; lia. Qed.
End Kinds.

(** ** Calls *)

Section Shutdown.
Context {Task : Type} (workers cap : nat) (exec : nat -> Sys Task).
Implicit Types (p : pc Task).
Hypothesis Hfair : fair_execution workers cap exec.
(** Time does not stand still. *)
Hypothesis Htime : forall t, exists n, (t <= clock (exec n))%Z.

Lemma stable_later (f : pc Task -> bool) (i n m : nat) p :
  stable f -> n <= m -> threads (exec n) !! i = Some p -> f p = true ->
  exists p', threads (exec m) !! i = Some p' /\ f p' = true.
Proof.
  intros Hf Hle Hi Hp. induction Hle as [|m _ (q & Hq & Hfq)]; [eauto|].
  eapply Hf; [by apply (exec_steps _ _ _ Hfair)|exact Hq|exact Hfq].
Qed.

Lemma clock_later (n m : nat) : n <= m -> (clock (exec n) <= clock (exec m))%Z.
Proof.
  induction 1 as [|m _ IH]; [done|]. pose proof (clock_step _ _ (exec_steps _ _ _ Hfair m)). lia.
Qed.

(** A call that depends on no other thread any more comes to its end: fairness gives
    it its steps, each of them brings it nearer, and nothing takes it away. *)
Definition rank_of (i : nat) (s : Sys Task) : nat := default 0 (rank <$> threads s !! i).
Definition on_its_own (i : nat) (s : Sys Task) : Prop :=
  exists p, threads s !! i = Some p /\ returning (clock s) p = true.

Lemma returning_ends (i n : nat) p :
  threads (exec n) !! i = Some p -> returning (clock (exec n)) p = true ->
  exists m, n <= m /\ on_its_own i (exec m) /\ rank_of i (exec m) = 0.
Proof.
  intros Hi Hp.
  assert (Hrank : forall s q, threads s !! i = Some q -> rank_of i s = rank q) by (intros s q Hq; unfold rank_of; by rewrite Hq).
  apply (progress exec (own_step i) (exec_fair _ _ _ Hfair i) (on_its_own i)
           (fun s => on_its_own i s /\ rank_of i s = 0) (rank_of i)); [| | |by exists p].
  - intros k (q & Hq & Hret). right.
    destruct (rank_step _ _ _ _ (exec_steps _ _ _ Hfair k) Hq Hret) as (q' & Hq' & Hret' & Hle).
    rewrite (Hrank _ _ Hq), (Hrank _ _ Hq'). split; [by exists q'|done].
  - intros k (q & Hq & Hret). destruct (own_enabled _ _ _ Hq Hret) as [Hz|He]; [left|by right].
    split; [by exists q|]. by rewrite (Hrank _ _ Hq).
  - intros k (q & Hq & Hret) Hown. right. destruct (own_strict _ _ _ _ Hown Hq Hret) as (q' & Hq' & Hlt).
    by rewrite (Hrank _ _ Hq), (Hrank _ _ Hq').
Qed.

Lemma submit_returns (i n : nat) p :
  threads (exec n) !! i = Some p -> in_submit p = true ->
  exists m accepted, n <= m /\ threads (exec m) !! i = Some (SDone accepted).
Proof.
  intros Hi Hp. destruct (returning_ends i n p Hi) as (m & Hle & (q & Hq & _) & Hz); [by destruct p|].
  unfold rank_of in Hz. rewrite Hq in Hz.
  destruct (stable_later in_submit i n m p submit_stable Hle Hi Hp) as (q' & Hq' & Hin).
  assert (q' = q) as -> by congruence. destruct q; try done. by exists m, accepted.
Qed.

(** The place a thread moves to with its next step. *)
Lemma next_place (i n : nat) p :
  threads (exec n) !! i = Some p -> runnable p = true -> (forall due, p <> SNotify due) ->
  exists m, n <= m /\ threads (exec m) !! i = Some p /\ run_thread i (exec m) = Some (exec (S m)).
Proof.
  intros Hi Hp Hno. destruct (eventually_acts _ _ _ Hfair i n p Hi Hp) as (m & Hle & Hi' & Hown).
  exists m. split_and!; [done..|].
  destruct Hown as [|j due q Hs|due Hs|dl Hs]; [done|..]; exfalso; [by apply (Hno due); congruence..|by simplify_eq].
Qed.

Lemma lookup_moved (i : nat) (l l' : list (pc Task)) (p q : pc Task) :
  l !! i = Some p -> length l' = length l -> <[i := q]> l' !! i = Some q.
Proof. intros Hi Hl. apply list_lookup_insert_eq. rewrite Hl. by eapply lookup_lt_Some. Qed.

(** A close computes its deadline, unless it finds the dispatcher closed. *)
Lemma close_drains (i n : nat) p :
  threads (exec n) !! i = Some p -> in_close p = true ->
  exists m deadline p', n <= m /\ threads (exec m) !! i = Some p' /\ drains deadline p' = true.
Proof.
  assert (Hdeadline : forall n timeout, threads (exec n) !! i = Some (CDeadline timeout) ->
            exists m deadline p', n <= m /\ threads (exec m) !! i = Some p' /\ drains deadline p' = true).
  { intros n0 timeout Hi. destruct (next_place i n0 _ Hi eq_refl) as (m & Hle & Hi' & Hrun); [done|].
    unfold run_thread in Hrun. rewrite Hi' in Hrun. simpl in Hrun. injection Hrun as Hs.
    exists (S m), (clock (exec m) + timeout)%Z, (CDrain (clock (exec m) + timeout)).
    split_and!; [lia| |simpl; lia]. rewrite <-Hs. simpl. by eapply lookup_moved. }
  intros Hi Hp. destruct p; try done; [|by eapply Hdeadline|..];
    [|by exists n, deadline, (CDrain deadline); simpl; rewrite Z.eqb_refl
     |by exists n, deadline, (CWait deadline); simpl; rewrite Z.eqb_refl|by eexists n, 0%Z, _..].
  - destruct (next_place i n _ Hi eq_refl) as (m & Hle & Hi' & Hrun); [done|].
    unfold run_thread in Hrun. rewrite Hi' in Hrun. simpl in Hrun.
    destruct (close_section (shared (exec m))) as [sh|]; injection Hrun as Hs.
    + destruct (Hdeadline (S m) timeout) as (k & d & p' & ? & ? & ?).
      { rewrite <-Hs. simpl. by eapply lookup_moved. }
      exists k, d, p'. split_and!; [lia|done..].
    + exists (S m), 0%Z, CDone. split_and!; [lia| |done]. rewrite <-Hs. simpl. by eapply lookup_moved.
Qed.

(** Once its deadline has passed, only its own steps are left. *)
Lemma close_returns (i n : nat) p :
  threads (exec n) !! i = Some p -> in_close p = true -> exists m, n <= m /\ threads (exec m) !! i = Some CDone.
Proof.
  intros Hi Hp. destruct (close_drains i n p Hi Hp) as (m & d & q & Hle & Hq & Hd).
  destruct (Htime (d + 1)) as [k Hk]. set (late := Nat.max m k).
  destruct (stable_later (drains d) i m late q (drains_stable d) ltac:(lia) Hq Hd) as (q' & Hq' & Hd').
  assert (Hlate : (d < clock (exec late))%Z) by (pose proof (clock_later k late ltac:(lia)); lia).
  destruct (returning_ends i late q' Hq') as (m' & Hle' & (r & Hr & _) & Hz).
  { destruct q'; simpl in *; try done; lia. }
  unfold rank_of in Hz. rewrite Hr in Hz.
  destruct (stable_later (drains d) i late m' q' (drains_stable d) Hle' Hq' Hd') as (r' & Hr' & Hdr).
  assert (r' = r) as -> by congruence. exists m'. split; [lia|]. by destruct r.
Qed.

(** ** Workers *)

(** Once the dispatcher has stopped accepting, the close under way stops the workers. *)
Lemma stops_draining (n : nat) :
  accepting (state (shared (exec n))) = false -> exists m, n <= m /\ draining (state (shared (exec m))) = false.
Proof.
  intros Hacc. pose proof (exec_reachable _ _ _ Hfair) as Hreach.
  destruct (lifecycle _ _ _ (Hreach n)) as (Hcount & _ & _). rewrite Hacc in Hcount.
  destruct (draining (state (shared (exec n)))) eqn:Hdrain; [|by exists n]. simpl in Hcount.
  assert (0 < count closing (threads (exec n))) as (j & p & Hj & Hp)%count_pos by lia.
  destruct (close_returns j n p Hj) as (m & Hle & Hm); [by destruct p|].
  assert (Hlater : (exists q, threads (exec m) !! j = Some q /\ closing q = true) \/ draining (state (shared (exec m))) = false).
  { clear Hm. induction Hle as [|m _ [(q & Hq & Hcq)|Hstop]]; [left; eauto| |].
    - by eapply closing_step; [|by apply (exec_steps _ _ _ Hfair)|..].
    - right. by eapply stopped_step; [|by apply (exec_steps _ _ _ Hfair)|]. }
  destruct Hlater as [(q & Hq & Hcq)|Hstop]; [simplify_eq|by exists m].
Qed.

Lemma stopped_later (n m : nat) :
  n <= m -> draining (state (shared (exec n))) = false ->
  draining (state (shared (exec m))) = false /\ tasks (state (shared (exec m))) = [].
Proof.
  intros Hle Hstop. pose proof (exec_reachable _ _ _ Hfair) as Hreach.
  assert (Hm : draining (state (shared (exec m))) = false).
  { induction Hle as [|m _ IH]; [done|]. by eapply stopped_step; [|by apply (exec_steps _ _ _ Hfair)|]. }
  split; [done|]. by apply (lifecycle _ _ _ (Hreach m)).
Qed.

(** A worker that comes back for work then leaves. *)
Lemma lock_leaves (i n : nat) :
  draining (state (shared (exec n))) = false -> threads (exec n) !! i = Some WLock ->
  exists m, n <= m /\ threads (exec m) !! i = Some WExit.
Proof.
  intros Hstop Hi. destruct (next_place i n _ Hi eq_refl) as (m & Hle & Hi' & Hrun); [done|].
  destruct (stopped_later n m Hle Hstop) as [Hm Hempty].
  unfold run_thread in Hrun. rewrite Hi' in Hrun. simpl in Hrun. unfold work_section in Hrun.
  rewrite Hempty, Hm in Hrun. injection Hrun as Hs. exists (S m). split; [lia|]. rewrite <-Hs. by eapply lookup_moved.
Qed.

(** One that is not asleep comes back for work. *)
Lemma awake_leaves (i n : nat) p :
  draining (state (shared (exec n))) = false -> threads (exec n) !! i = Some p ->
  is_worker p = true -> p <> WWait -> exists m, n <= m /\ threads (exec m) !! i = Some WExit.
Proof.
  intros Hstop Hi Hw Hawake.
  assert (Hnext : forall n q q', draining (state (shared (exec n))) = false ->
            threads (exec n) !! i = Some q -> is_worker q = true -> runnable q = true ->
            (forall m, threads (exec m) !! i = Some q -> own_step i (exec m) (exec (S m)) -> threads (exec (S m)) !! i = Some q') ->
            (forall n, draining (state (shared (exec n))) = false -> threads (exec n) !! i = Some q' ->
               exists m, n <= m /\ threads (exec m) !! i = Some WExit) ->
            exists m, n <= m /\ threads (exec m) !! i = Some WExit).
  { intros n0 q q' Hstop0 Hq Hwq Hrq Hone Hrest.
    destruct (eventually_acts _ _ _ Hfair i n0 q Hq Hrq) as (m & Hle & Hq' & Hown).
    destruct (stopped_later n0 (S m) ltac:(lia) Hstop0) as [Hm _].
    destruct (Hrest (S m) Hm (Hone m Hq' Hown)) as (k & ? & ?). exists k. split; [lia|done]. }
  assert (Hnotify : forall n, draining (state (shared (exec n))) = false -> threads (exec n) !! i = Some WNotify ->
            exists m, n <= m /\ threads (exec m) !! i = Some WExit).
  { intros n0 Hn0 Hi0. eapply (Hnext n0 WNotify WLock); [done..| |apply lock_leaves].
    intros m Hm Hown. by apply (worker_acts _ i m WNotify Hm eq_refl Hown). }
  assert (Hfinish : forall n, draining (state (shared (exec n))) = false -> threads (exec n) !! i = Some WFinish ->
            exists m, n <= m /\ threads (exec m) !! i = Some WExit).
  { intros n0 Hn0 Hi0. eapply (Hnext n0 WFinish WNotify); [done..| |apply Hnotify].
    intros m Hm Hown. by apply (worker_acts _ i m WFinish Hm eq_refl Hown). }
  destruct p; try done; [by apply lock_leaves| |by apply Hfinish|by apply Hnotify|by exists n|].
  - eapply (Hnext n (WRun task) WFinish); [done..| |apply Hfinish].
    intros m Hm Hown. by apply (worker_acts _ i m (WRun task) Hm eq_refl Hown).
  - by apply (exec_calm _ _ _ Hfair) in Hi.
Qed.

(** One that is asleep is woken by the closing thread. *)
Lemma asleep_woken (i n : nat) :
  draining (state (shared (exec n))) = false -> threads (exec n) !! i = Some WWait ->
  exists m p, n <= m /\ threads (exec m) !! i = Some p /\ is_worker p = true /\ p <> WWait.
Proof.
  intros Hstop Hi. pose proof (exec_reachable _ _ _ Hfair) as Hreach.
  assert (0 < count asleep (threads (exec n))) by (apply count_pos; eauto).
  pose proof (retire_wakeup _ _ _ (Hreach n) Hstop ltac:(done)) as (k & q & Hk & Hq)%count_pos.
  destruct q; try done. destruct (next_place k n _ Hk eq_refl) as (m & Hle & Hk' & Hrun); [done|].
  destruct (stable_later is_worker i n m WWait worker_stable Hle Hi eq_refl) as (p & Hp & Hw).
  unfold run_thread in Hrun. rewrite Hk' in Hrun. simpl in Hrun. injection Hrun as Hs.
  exists (S m), (wake p). split; [lia|]. split; [|by destruct p].
  rewrite <-Hs. simpl. rewrite list_lookup_insert_ne by (intros ->; by simplify_eq). by apply lookup_wake.
Qed.

Lemma worker_leaves (i n : nat) p :
  accepting (state (shared (exec n))) = false -> threads (exec n) !! i = Some p -> is_worker p = true ->
  exists m, n <= m /\ forall k, m <= k -> threads (exec k) !! i = Some WExit.
Proof.
  intros Hacc Hi Hw. destruct (stops_draining n Hacc) as (m & Hle & Hstop).
  destruct (stable_later is_worker i n m p worker_stable Hle Hi Hw) as (q & Hq & Hwq).
  assert (Hexit : exists k, m <= k /\ threads (exec k) !! i = Some WExit).
  { destruct (decide (asleep q = true)) as [Hs|Hs].
    - assert (q = WWait) as -> by (by destruct q).
      destruct (asleep_woken i m Hstop Hq) as (k & r & Hlek & Hr & Hwr & Hne).
      destruct (stopped_later m k Hlek Hstop) as [Hk _].
      destruct (awake_leaves i k r Hk Hr Hwr Hne) as (k' & ? & ?). exists k'. split; [lia|done].
    - apply (awake_leaves i m q Hstop Hq Hwq). by intros ->. }
  destruct Hexit as (k & Hlek & Hk). exists k. split; [lia|]. intros k' Hle'.
  destruct (stable_later left i k k' WExit exited_stable Hle' Hk eq_refl) as (r & Hr & Hl). by destruct r.
Qed.
Lemma always_worker (n m i : nat) p :
  n <= m -> threads (exec m) !! i = Some p -> is_worker p = true ->
  exists q, threads (exec n) !! i = Some q /\ is_worker q = true.
Proof.
  intros Hle. revert p. induction Hle as [|m _ IH]; intros p Hi Hp; [eauto|].
  destruct (worker_back _ _ _ _ (exec_steps _ _ _ Hfair m) Hi Hp) as (q & Hq & Hwq). by eapply IH.
Qed.

(** From some point on every worker has. *)
Lemma workers_leave (n : nat) :
  accepting (state (shared (exec n))) = false ->
  exists m, n <= m /\ forall k i p, m <= k -> threads (exec k) !! i = Some p -> is_worker p = true -> p = WExit.
Proof.
  intros Hacc.
  assert (Hsome : forall b, exists m, n <= m /\ forall k i p, i < b -> m <= k ->
            threads (exec k) !! i = Some p -> is_worker p = true -> p = WExit).
  { induction b as [|b (m & Hle & IH)]; [exists n; split; [done|lia]|].
    assert (Hb : exists m, n <= m /\ forall k p, m <= k -> threads (exec k) !! b = Some p -> is_worker p = true -> p = WExit).
    { destruct (threads (exec n) !! b) as [q|] eqn:Hq; [destruct (is_worker q) eqn:Hw|].
      - destruct (worker_leaves b n q Hacc Hq Hw) as (m' & Hle' & Hm'). exists m'. split; [done|].
        intros k p Hk Hp _. rewrite (Hm' k Hk) in Hp. congruence.
      - exists n. split; [done|]. intros k p Hk Hp Hwp. destruct (always_worker n k b p Hk Hp Hwp) as (q' & Hq' & ?). congruence.
      - exists n. split; [done|]. intros k p Hk Hp Hwp. destruct (always_worker n k b p Hk Hp Hwp) as (q' & Hq' & ?). congruence. }
    destruct Hb as (m' & Hle' & Hm'). exists (Nat.max m m'). split; [lia|]. intros k i p Hi Hk Hp Hw.
    destruct (decide (i = b)) as [->|]; [apply (Hm' k p ltac:(lia) Hp Hw)|apply (IH k i p ltac:(lia) ltac:(lia) Hp Hw)]. }
  destruct (Hsome (length (threads (exec n)))) as (m & Hle & Hm). exists m. split; [done|].
  intros k i p Hk Hp Hw. apply (Hm k i p); [|done..].
  destruct (always_worker n k i p ltac:(lia) Hp Hw) as (q & Hq & _). by eapply lookup_lt_Some.
Qed.

(** With a worker, and open or not, every accepted task leaves the queue. *)
Lemma leaves_queue (n r : nat) :
  0 < workers -> r < length (accepted (history (exec n))) ->
  exists m, n <= m /\ r < length (removed (history (exec m))).
Proof.
  intros Hworkers Hr. destruct (all_leave workers cap exec Hfair Hworkers n r Hr) as [Hg|(m & Hle & Hshut)]; [done|].
  destruct (stops_draining m Hshut) as (k & Hlek & Hstop).
  destruct (stopped_later k k (le_n k) Hstop) as [_ Hempty].
  pose proof (accepted_mono workers cap exec Hfair n k ltac:(lia)) as Hacc.
  exists k. split; [lia|].
  rewrite (queue_fifo _ _ _ (exec_reachable _ _ _ Hfair k)), Hempty, app_nil_r in Hacc. lia.
Qed.
End Shutdown.

(** ** Property *)

(** C17: Every call comes back and the workers end. In every fair execution in which
    time goes on and no task panics, each [submit] and each [close] that is under way
    returns, and once the dispatcher has stopped accepting each worker, asleep, running
    a task or about to look for one, sooner or later leaves its loop, for good. *)
Theorem shutdown_completes {Task : Type} (workers cap : nat) (exec : nat -> Sys Task) (n i : nat) (p : pc Task) :
  fair_execution workers cap exec -> (forall t, exists m, (t <= clock (exec m))%Z) ->
  threads (exec n) !! i = Some p ->
  (in_submit p = true -> exists m accepted, n <= m /\ threads (exec m) !! i = Some (SDone accepted)) /\
  (in_close p = true -> exists m, n <= m /\ threads (exec m) !! i = Some CDone) /\
  (is_worker p = true -> accepting (state (shared (exec n))) = false ->
     exists m, n <= m /\ forall k, m <= k -> threads (exec k) !! i = Some WExit).
Proof.
  intros Hfair Htime Hi. split_and!; intros Hp.
  - by eapply submit_returns.
  - by eapply close_returns.
  - intros Hacc. by eapply worker_leaves.
Qed.

(** ** Witness: a close while the worker sleeps *)

Definition closing_schedule : list (action nat) :=
  [ARun 0; AClose 100; ARun 1; ARun 1; ARun 1; ARun 1; ARun 0; ARun 1; ARun 1].

Definition closing_at (n : nat) : Sys nat :=
  default (new 1 2 0) (play (take n closing_schedule) (new 1 2 0)).

(** The schedule, and then nothing but time. *)
Definition closing_exec (n : nat) : Sys nat :=
  let s := closing_at n in
  mkSys (shared s) (threads s) (clock s + Z.of_nat (n - 9)) (history s).

Lemma closing_act (n : nat) : n < 9 -> act (nth n closing_schedule (ATick 0)) (closing_exec n) = Some (closing_exec (S n)).
Proof. intros Hn. do 9 (destruct n as [|n]; [vm_compute; reflexivity|]). lia. Qed.

Lemma closing_last (n : nat) : 9 <= n -> closing_at n = closing_at 9.
Proof. intros Hn. unfold closing_at. by rewrite (take_ge closing_schedule n), (take_ge closing_schedule 9). Qed.

Lemma closing_rests (i n : nat) :
  9 <= n -> forall p, threads (closing_exec n) !! i = Some p -> at_rest p = true /\ p <> WPanic.
Proof.
  intros Hn p Hi. unfold closing_exec in Hi. rewrite (closing_last n Hn) in Hi.
  destruct i as [|[|i]]; vm_compute in Hi; by simplify_eq.
Qed.

Lemma closing_fair : fair_execution 1 2 closing_exec.
Proof.
  split.
  - exists 0%Z. apply rtc_refl.
  - intros n. destruct (decide (n < 9)) as [Hn|Hn]; [eapply act_step; by apply closing_act|].
    pose proof (step_tick (closing_exec n) 1 ltac:(lia)) as Htick. unfold closing_exec in *.
    rewrite (closing_last (S n)), <-(closing_last n) by lia. simpl in Htick.
    replace (clock (closing_at n) + Z.of_nat (S n - 9))%Z with (clock (closing_at n) + Z.of_nat (n - 9) + 1)%Z by lia.
    exact Htick.
  - intros i n. exists (Nat.max n 9). split; [lia|]. right. apply at_rest_disabled. intros p Hp.
    by apply (closing_rests i (Nat.max n 9) ltac:(lia)).
  - intros i n Hi. destruct (decide (n < 9)) as [Hn|Hn]; [|by eapply (closing_rests i n); [lia|exact Hi|]].
    do 9 (destruct n as [|n]; [by destruct i as [|[|i]]|]). lia.
Qed.

Lemma closing_time (t : Z) : exists m, (t <= clock (closing_exec m))%Z.
Proof.
  exists (9 + Z.to_nat t). unfold closing_exec. rewrite closing_last by lia.
  change (clock (closing_at 9)) with 0%Z. simpl clock. lia.
Qed.

Lemma shutdown_completes_witness :
  (exists m, 4 <= m /\ threads (closing_exec m) !! 1 = Some CDone) /\
  (exists m, 4 <= m /\ forall k, m <= k -> threads (closing_exec k) !! 0 = Some WExit).
Proof.
  split.
  - destruct (shutdown_completes 1 2 closing_exec 4 1 (CDrain 100) closing_fair closing_time) as (_ & Hclose & _);
      [vm_compute; reflexivity|]. apply Hclose. reflexivity.
  - destruct (shutdown_completes 1 2 closing_exec 4 0 WWait closing_fair closing_time) as (_ & _ & Hworker);
      [vm_compute; reflexivity|]. apply Hworker; vm_compute; reflexivity.
Defined.
