(* ===== verification/Client.v ===== *)
(** * The client (src/rust/src/client.rs)

    The builder, the checks each call makes on the calling thread, and the
    delivery itself. A call reads the flag [closed] once; what it does to the
    network and to the clock is threaded through a world [W]. An asynchronous
    call hands a task to the dispatcher: the closure the source boxes is
    represented by the data it captures, [DeliveryTask], and run by [run_task]. The
    interleaving of calls, workers and [close] is [ClientSystem]. *)

From stdpp Require Import prelude list strings.
From S2P Require Import Prelude Error Severity Response Request Json JsonRef Wire Interrupt Retry Transport Stub.

(** The state a delivery needs. The interrupt is shared mutable state: it is the
    [Waiter] of the world here, and a flag of the system in [ClientSystem]. *)
Record Inner : Type := mkInner {
  service_key : option str;
  transport : Transport;
  retry_delays : list Z;
}.

(** What the boxed closure of a queued task captures. *)
Record DeliveryTask : Type := mkTask {
  request : IncidentRequest;
  default_service_key : option str;
}.

#[export] Instance DeliveryTask_eq_dec : EqDecision DeliveryTask.
Proof. solve_decision. Defined.

(** ** The builder *)

Module IncidentClientBuilder.

(** [endpoint] and [retry_delays] are set by the crate's own tests only. *)
Record t : Type := new {
  api_key : option str;
  service_key : option str;
  endpoint : option str;
  retry_delays : option (list Z);
}.

(** [IncidentClient::builder], the derived [Default]. *)
Definition builder : t := new None None None None.

Definition set_api_key (v : str) (b : t) : t :=
  new (Some v) (service_key b) (endpoint b) (retry_delays b).

Definition set_service_key (v : str) (b : t) : t :=
  new (api_key b) (Some v) (endpoint b) (retry_delays b).

Definition set_endpoint (v : str) (b : t) : t :=
  new (api_key b) (service_key b) (Some v) (retry_delays b).

Definition set_retry_delays (v : list Z) (b : t) : t :=
  new (api_key b) (service_key b) (endpoint b) (Some v).
End IncidentClientBuilder.

Section Build.
Context `{ErrorTypes}.

(** [Option::filter] *)
Definition filter_key (keep : str -> bool) (v : option str) : option str :=
  match v with
  | Some key => if keep key then Some key else None
  | None => None
  end.

(** [IncidentClientBuilder::build], up to the threads, the interrupt and the flag
    it creates, which are the initial state of [ClientSystem]. [env] is the
    environment variable [Transport::new] reads. *)
Definition build (env : option str) (self : IncidentClientBuilder.t) : Result Inner IncidentError :=
  let? api_key :=
    match IncidentClientBuilder.api_key self with
    | Some api_key =>
        if negb (is_blank api_key) then Ok api_key
        else Err (invalid (lit "apiKey must not be blank"))
    | None => Err (invalid (lit "apiKey must be set"))
    end in
  let transport :=
    match IncidentClientBuilder.endpoint self with
    | Some endpoint => with_endpoint api_key endpoint
    | None => Transport_new env api_key
    end in
  Ok {|
    service_key :=
      filter_key (fun key => negb (is_blank key)) (IncidentClientBuilder.service_key self);
    transport := transport;
    retry_delays := default DEFAULT_RETRY_DELAYS (IncidentClientBuilder.retry_delays self);
  |}.

(** ** The checks of a call *)

Definition ensure_open (closed : bool) : Result unit IncidentError :=
  if closed then Err ClientClosed else Ok tt.

Definition missing_key_text : str :=
  lit "no serviceKey is configured on the client or the request; supply one or use post_with_service_routing".

Definition is_none {A : Type} (v : option A) : bool := match v with None => true | _ => false end.

Definition require_service_key (self : Inner) (request : IncidentRequest) : Result unit IncidentError :=
  if is_none (service_key self) && is_none (Request.service_key request)
  then Err (invalid missing_key_text) else Ok tt.

Definition require_service_routable (request : IncidentRequest) : Result unit IncidentError :=
  if negb (is_none (Request.service_key request))
  then Err (invalid (lit "request must not carry a serviceKey when service routing is used"))
  else Ok tt.

(** ** Asynchronous calls, up to the submission *)

(** [post_async]: an error for the caller, or the task it submits. *)
Definition post_async (closed : bool) (self : Inner) (request : IncidentRequest) :
    Result DeliveryTask IncidentError :=
  let? _ := ensure_open closed in
  let? _ := require_service_key self request in
  Ok (mkTask request (service_key self)).

Definition post_async_with_service_routing (closed : bool) (request : IncidentRequest) :
    Result DeliveryTask IncidentError :=
  let? _ := ensure_open closed in
  let? _ := require_service_routable request in
  Ok (mkTask request None).

(** What [submit] makes of the dispatcher's answer. *)
Definition submit_result (accepted : bool) : Result unit IncidentError :=
  if accepted then Ok tt else Err ClientClosed.
End Build.

(** ** Delivery *)

Section Deliver.
Context {W : Type} `{SerdeJson} `{!Ureq W} `{!Waiter W}.

(** [request.service_key().or(default_service_key)] *)
Definition resolve_key (request : IncidentRequest) (default_key : option str) : option str :=
  match Request.service_key request with
  | Some key => Some key
  | None => default_key
  end.

(** [Inner::deliver] *)
Definition deliver (self : Inner) (request : IncidentRequest) (default_key : option str) (w : W) :
    Result IncidentResponse IncidentError * W :=
  let service_key := resolve_key request default_key in
  let payload := serialize_request request service_key in
  execute_with_retry (retry_delays self) (send (transport self) payload) w.

Definition post (closed : bool) (self : Inner) (request : IncidentRequest) (w : W) :
    Result IncidentResponse IncidentError * W :=
  match ensure_open closed with
  | Err e => (Err e, w)
  | Ok _ =>
      match require_service_key self request with
      | Err e => (Err e, w)
      | Ok _ => deliver self request (service_key self) w
      end
  end.

Definition post_with_service_routing (closed : bool) (self : Inner) (request : IncidentRequest) (w : W) :
    Result IncidentResponse IncidentError * W :=
  match ensure_open closed with
  | Err e => (Err e, w)
  | Ok _ =>
      match require_service_routable request with
      | Err e => (Err e, w)
      | Ok _ => deliver self request None w
      end
  end.

(** The body of the closure: a failure is logged at debug level, and lost. *)
Definition run_task (self : Inner) (task : DeliveryTask) (w : W) : option str * W :=
  match deliver self (request task) (default_service_key task) w with
  | (Err failure, w) =>
      (Some (lit "oppex: asynchronous incident delivery failed: " ++ fmt_error failure), w)
  | (Ok _, w) => (None, w)
  end.
End Deliver.

(** ** Specification *)

(** The two flavours of each call. *)
Section Spec.
Context {W : Type} `{SerdeJson} `{!Ureq W} `{!Waiter W}.

Definition post_mode (routed closed : bool) (self : Inner) (r : IncidentRequest) (w : W) :
    Result IncidentResponse IncidentError * W :=
  if routed then post_with_service_routing closed self r w else post closed self r w.

Definition post_async_mode (routed closed : bool) (self : Inner) (r : IncidentRequest) :
    Result DeliveryTask IncidentError :=
  if routed then post_async_with_service_routing closed r else post_async closed self r.

(** Misuse of a call: no key for a keyed one, a key for a routed one. *)
Definition misused (routed : bool) (self : Inner) (r : IncidentRequest) : bool :=
  if routed then negb (is_none (Request.service_key r))
  else is_none (service_key self) && is_none (Request.service_key r).

Definition misuse_text (routed : bool) : str :=
  if routed then lit "request must not carry a serviceKey when service routing is used"
  else missing_key_text.

(** What a call posts for request [r]. *)
Definition post_request (self : Inner) (r : IncidentRequest) (key : option str) : HttpRequest :=
  request_for (transport self) (serialize_request r (resolve_key r key)).

Lemma post_mode_cases (routed closed : bool) (self : Inner) (r : IncidentRequest) (w : W) :
  post_mode routed closed self r w =
  if closed then (Err ClientClosed, w)
  else if misused routed self r then (Err (invalid (misuse_text routed)), w)
  else deliver self r (if routed then None else service_key self) w.
Proof.
  destruct routed, closed; simpl; try done.
  - unfold post_with_service_routing, require_service_routable. simpl. by destruct (negb _).
  - unfold post, require_service_key. simpl. by destruct (_ && _).
Qed.

Lemma post_async_mode_cases (routed closed : bool) (self : Inner) (r : IncidentRequest) :
  post_async_mode routed closed self r =
  if closed then Err ClientClosed
  else if misused routed self r then Err (invalid (misuse_text routed))
  else Ok (mkTask r (if routed then None else service_key self)).
Proof.
  destruct routed, closed; simpl; try done.
  - unfold post_async_with_service_routing, require_service_routable. simpl. by destruct (negb _).
  - unfold post_async, require_service_key. simpl. by destruct (_ && _).
Qed.

(** The synchronous calls make the checks of the asynchronous ones, and deliver on
    the calling thread what those submit. *)
Lemma post_mode_task (routed closed : bool) (self : Inner) (r : IncidentRequest) (w : W) :
  post_mode routed closed self r w =
  match post_async_mode routed closed self r with
  | Err e => (Err e, w)
  | Ok task => deliver self (request task) (default_service_key task) w
  end.
Proof.
  rewrite post_mode_cases, post_async_mode_cases. destruct closed; [done|].
  by destruct (misused routed self r).
Qed.

(** Every error of a delivery is an error of the attempt, or the interruption. *)
Lemma deliver_attempted (self : Inner) (r : IncidentRequest) (key : option str) (w w' : W) (e : IncidentError) :
  deliver self r key w = (Err e, w') -> attempted e = true.
Proof.
  assert (Hsend : forall f w1 w2, send (transport self) (serialize_request r (resolve_key r key)) w1 = (Err f, w2) ->
            attempted f = true).
  { intros f w1 w2 [[_ (msg & cause & [= ->])]|(st & text & _ & Hr)]%send_cases; [done|].
    destruct (range_contains 200 300 st); simplify_eq; [|done].
    symmetry in Hr. by apply parse_response_err_cases in Hr as (_ & [(c & _ & ->)|(v & _ & _ & ->)]). }
  intros (k & wk & _ & _ & Hf)%execute_runs.
  remember (Err e) as res eqn:Hres.
  destruct Hf as [v w1 Hop|f w1 Hop Hr|f w1 Hop Hr ?|f w1 w2 Hop Hr ? Hw]; simplify_eq; try done.
  all: apply Hsend in Hop; destruct f; try done; simpl; by case_match.
Qed.

(** ** The types of the results *)

(** Of a response, the code is an [i32]; of an error, the status is one too, and it
    agrees with the cause: [ureq] failed before a whole response was read and the
    attempt may be retried, or serde_json failed on the body of a 2xx response and it
    may not. *)
Definition result_typed (r : Result IncidentResponse IncidentError) : Prop :=
  match r with
  | Ok response => response_wf response
  | Err (Delivery _ status retryable source) =>
      (i32_min <= status <= i32_max)%Z /\
      match source with
      | Some (BoxUreq _) => status = NO_STATUS_CODE /\ retryable = true
      | Some (BoxJson _) => (200 <= status < 300)%Z /\ retryable = false
      | None => True
      end
  | Err _ => True
  end.

Lemma send_typed `{!UreqLaws W} (t : Transport) (body : str) (w w' : W) (r : Result IncidentResponse IncidentError) :
  send t body w = (r, w') -> result_typed r.
Proof.
  unfold send. assert (Hno : (i32_min <= NO_STATUS_CODE <= i32_max)%Z) by (unfold NO_STATUS_CODE, i32_min, i32_max; lia).
  destruct (http_send _ _ w) as [[[st b]|c] w1] eqn:Hs; [|by intros [= <- _]].
  apply status_u16 in Hs. assert (Hst : (i32_min <= st <= i32_max)%Z) by (unfold i32_min, i32_max; lia).
  destruct (read_to_string _ b w1) as [[text|c] w2]; [|by intros [= <- _]].
  destruct (range_contains 200 300 st) eqn:H2xx; intros [= <- _].
  - apply range_contains_spec in H2xx. destruct (parse_response st text) as [resp|e] eqn:Hp.
    + by eapply parse_response_code_range.
    + apply parse_response_err_cases in Hp as (_ & [(c & _ & ->)|(v & _ & _ & ->)]); simpl; split_and!; (done || lia).
  - unfold status_failure, delivery. simpl. done.
Qed.

Lemma with_attempt_count_typed (e : IncidentError) (n : nat) :
  result_typed (Err e) -> result_typed (Err (with_attempt_count e n)).
Proof. destruct e as [m| |m c rt src]; try done. unfold with_attempt_count. by destruct (_ && _). Qed.

Lemma deliver_typed `{!UreqLaws W} (self : Inner) (r : IncidentRequest) (key : option str) (w w' : W)
    (res : Result IncidentResponse IncidentError) :
  deliver self r key w = (res, w') -> result_typed res.
Proof.
  intros (k & wk & _ & _ & Hf)%execute_runs.
  destruct Hf as [v w1 Hop|f w1 Hop Hr|f w1 Hop Hr ?|f w1 w2 Hop Hr ? Hw];
    try (apply send_typed in Hop; try apply with_attempt_count_typed; exact Hop).
  simpl. unfold NO_STATUS_CODE, i32_min, i32_max. lia.
Qed.
End Spec.

(** ** The requests a delivery makes

    [recording] is the world that also remembers each request it was sent. *)

Section Recording.
Context {W : Type} `{SerdeJson} `{!Ureq W} `{!Waiter W}.

#[export] Instance recording_ureq : Ureq (W * list HttpRequest) := {|
  Body := Body (W := W);
  http_send cfg req w := let '(r, w1) := http_send cfg req w.1 in (r, (w1, w.2 ++ [req]));
  read_to_string n b w := let '(r, w1) := read_to_string n b w.1 in (r, (w1, w.2));
|}.

#[export] Instance recording_waiter : Waiter (W * list HttpRequest) := {|
  now w := now w.1;
  signal_at w := signal_at w.1;
  wait d w := let '(b, w1) := wait d w.1 in (b, (w1, w.2));
|}.

Lemma send_recorded (t : Transport) (body : str) (w w' : W * list HttpRequest)
    (r : Result IncidentResponse IncidentError) :
  send t body w = (r, w') -> send t body w.1 = (r, w'.1) /\ w'.2 = w.2 ++ [request_for t body].
Proof.
  unfold send. simpl. destruct (http_send (agent t) (request_for t body) w.1) as [[[st b]|c] w1]; simpl;
    [|by intros [= <- <-]].
  destruct (read_to_string MAX_RESPONSE_BYTES b w1) as [[text|c] w2]; simpl; [|by intros [= <- <-]].
  by destruct (range_contains 200 300 st); intros [= <- <-].
Qed.

Lemma wait_recorded (d : Z) (w w' : W * list HttpRequest) (b : bool) :
  wait d w = (b, w') -> wait d w.1 = (b, w'.1) /\ w'.2 = w.2.
Proof. simpl. destruct (wait d w.1) as [b0 w1]. by intros [= <- <-]. Qed.

Lemma backoff_recorded (delays : list Z) (t : Transport) (body : str) (w wk : W * list HttpRequest) (k : nat) :
  backoff delays (send t body) w k wk ->
  backoff delays (send t body) w.1 k wk.1 /\ wk.2 = w.2 ++ replicate k (request_for t body).
Proof.
  induction 1 as [|k w1 w2 w3 failure Hb IH Hop Hr Hk Hw].
  - split; [constructor|by rewrite app_nil_r].
  - destruct IH as [IHb IHn]. apply send_recorded in Hop as [Hop Hn]. apply wait_recorded in Hw as [Hw Hn'].
    split; [by eapply backoff_next|].
    by rewrite Hn', Hn, IHn, <-app_assoc, replicate_S_end.
Qed.

Lemma finishes_recorded (delays : list Z) (t : Transport) (body : str) (w w' : W * list HttpRequest) (k : nat)
    (r : Result IncidentResponse IncidentError) :
  finishes delays (send t body) k w r w' ->
  finishes delays (send t body) k w.1 r w'.1 /\ w'.2 = w.2 ++ [request_for t body].
Proof.
  destruct 1 as [v w1 Hop|f w1 Hop Hr|f w1 Hop Hr ?|f w1 w2 Hop Hr ? Hw];
    apply send_recorded in Hop as [Hop Hn]; try (apply wait_recorded in Hw as [Hw Hn']; rewrite Hn');
    (split; [by econstructor|done]).
Qed.

Lemma deliver_recorded (self : Inner) (r : IncidentRequest) (key : option str) (w : W) (l : list HttpRequest)
    (res : Result IncidentResponse IncidentError) (w' : W * list HttpRequest) :
  deliver self r key (w, l) = (res, w') ->
  deliver self r key w = (res, w'.1) /\
  exists n, 1 <= n <= 1 + length (retry_delays self) /\ w'.2 = l ++ replicate n (post_request self r key).
Proof.
  intros (k & wk & Hk & Hb & Hf)%execute_runs.
  apply backoff_recorded in Hb as [Hb Hn]. apply finishes_recorded in Hf as [Hf Hm].
  split; [apply execute_runs; by exists k, wk.1|].
  exists (S k). split; [lia|]. rewrite Hm, Hn. simpl. rewrite <-app_assoc. f_equal.
  symmetry. apply replicate_S_end.
Qed.
End Recording.

(** A posted payload decodes to an object with the service key that is due: the
    request's own, else the client's; none at all with service routing. *)
Definition carries_key `{SerdeJson} (routed : bool) (self : Inner) (r : IncidentRequest) (req : HttpRequest) : Prop :=
  exists (v : Value) (m : Map),
    from_str (payload req) = Ok v /\ as_object v = Some m /\
    if routed then get m (lit "serviceKey") = None
    else exists key, field_is m "serviceKey" (Some (SString key)) /\
           (Request.service_key r = Some key \/
            (Request.service_key r = None /\ service_key self = Some key)).

Lemma post_request_carries `{SerdeJson} {laws : SerdeJsonLaws} (routed : bool) (self : Inner) (r : IncidentRequest) :
  request_wf r -> (src_timestamp r <= i64_max)%Z -> misused routed self r = false ->
  carries_key routed self r (post_request self r (if routed then None else service_key self)).
Proof.
  intros Hwf Hts Hm.
  destruct (payload_reads r (resolve_key r (if routed then None else service_key self)) Hwf Hts)
    as (v & m & Hv & Hm' & Hkey & _).
  exists v, m. split; [done|]. split; [done|]. unfold resolve_key, misused in *.
  destruct routed, (Request.service_key r) as [k|] eqn:Hk; simpl in *; try done.
  - exists k. eauto.
  - destruct (service_key self) as [k|]; [|done]. exists k. eauto.
Qed.

Lemma deliver_sends `{SerdeJson} `{!Ureq W} `{!Waiter W} (self : Inner) (r : IncidentRequest) (key : option str) (w : W) :
  exists n, (deliver self r key (w, [])).2.2 = replicate (S n) (post_request self r key).
Proof.
  destruct (deliver self r key (w, [])) as [res w'] eqn:Hd.
  apply deliver_recorded in Hd as (_ & n & Hn & Hsent). destruct n as [|n]; [lia|]. by exists n.
Qed.

Lemma run_task_sends `{SerdeJson} `{!Ureq W} `{!Waiter W} (self : Inner) (t : DeliveryTask) (w : W) :
  exists n, (run_task self t (w, [])).2.2 = replicate (S n) (post_request self (request t) (default_service_key t)).
Proof.
  destruct (deliver_sends self (request t) (default_service_key t) w) as [n Hn]. exists n. rewrite <-Hn.
  unfold run_task. by destruct (deliver _ _ _ _) as [[resp|e] w'].
Qed.

(** ** Properties *)

Section Properties.
Context {W : Type} `{SerdeJson} `{!Ureq W} `{!Waiter W}.

(** C28: What a call can fail with, and when. A failed call, with or without service
    routing, reports a closed client exactly when the client is closed, and else a
    misuse exactly when the service key is missing (or present on a routed call);
    in these cases the network and the clock are untouched. Every other failure is
    a [Delivery] error of a delivery that was attempted. *)
Theorem post_errors (routed closed : bool) (self : Inner) (r : IncidentRequest) (w w' : W) (e : IncidentError) :
  post_mode routed closed self r w = (Err e, w') ->
  match e with
  | ClientClosed => closed = true /\ w' = w
  | InvalidRequest text =>
      closed = false /\ misused routed self r = true /\ text = misuse_text routed /\ w' = w
  | Delivery _ _ _ _ =>
      closed = false /\ misused routed self r = false /\
      deliver self r (if routed then None else service_key self) w = (Err e, w')
  end.
Proof.
  rewrite post_mode_cases. destruct closed; [by intros [= <- <-]|].
  destruct (misused routed self r) eqn:Hm; [by intros [= <- <-]|].
  intros Hd. pose proof (deliver_attempted _ _ _ _ _ _ Hd). by destruct e.
Qed.

(** C26: The requests of a call. A call that is not refused sends the same request
    in every attempt, at least once and at most once more than the schedule has
    delays: a POST of the payload of the request, to the endpoint of the client,
    with its API key; a call that is refused sends nothing at all. Remembering the
    requests changes nothing else. *)
Theorem post_sends (routed closed : bool) (self : Inner) (r : IncidentRequest) (w : W)
    (sent : list HttpRequest) (res : Result IncidentResponse IncidentError) (w' : W * list HttpRequest) :
  post_mode routed closed self r (w, sent) = (res, w') ->
  post_mode routed closed self r w = (res, w'.1) /\
  exists n, w'.2 = sent ++ replicate n (post_request self r (if routed then None else service_key self)) /\
    if closed || misused routed self r then n = 0 else 1 <= n <= 1 + length (retry_delays self).
Proof.
  rewrite !post_mode_cases. destruct closed; simpl.
  - intros [= <- <-]. split; [done|]. exists 0. by rewrite app_nil_r.
  - destruct (misused routed self r).
    + intros [= <- <-]. split; [done|]. exists 0. by rewrite app_nil_r.
    + intros (Hd & n & Hn & Hsent)%deliver_recorded. eauto.
Qed.

(** C39: The results of a call are well typed. Whatever the API answers, the code of a
    response is an [i32], even where the body's own code is not, and the status of an
    error is one; an error whose cause is [ureq]'s has no status and may be retried,
    and one whose cause is serde_json's has a 2xx status and may not. *)
Theorem post_results_typed `{!UreqLaws W} (routed closed : bool) (self : Inner) (r : IncidentRequest) (w w' : W)
    (res : Result IncidentResponse IncidentError) :
  post_mode routed closed self r w = (res, w') -> result_typed res.
Proof.
  rewrite post_mode_cases. destruct closed; [by intros [= <- _]|].
  destruct (misused routed self r); [by intros [= <- _]|]. apply deliver_typed.
Qed.

(** The asynchronous calls accept exactly what the synchronous ones accept and
    refuse the rest with the same error, and the task they submit does to the
    network what the synchronous call would do, logging its failure instead of
    returning it. *)
Lemma async_agrees_with_sync (routed closed : bool) (self : Inner) (r : IncidentRequest) (w : W) :
  match post_async_mode routed closed self r with
  | Err e => post_mode routed closed self r w = (Err e, w)
  | Ok task =>
      (run_task self task w).2 = (post_mode routed closed self r w).2 /\
      (run_task self task w).1 =
        match (post_mode routed closed self r w).1 with
        | Ok _ => None
        | Err failure => Some (lit "oppex: asynchronous incident delivery failed: " ++ fmt_error failure)
        end
  end.
Proof.
  rewrite post_mode_cases, post_async_mode_cases. destruct closed; [done|].
  destruct (misused routed self r); [done|].
  unfold run_task. cbn [request default_service_key].
  by destruct (deliver self r (if routed then None else service_key self) w) as [[resp|e] w1].
Qed.

(** C27: The service key on the wire. Every request that a call sends, whatever the
    client, the request and the network, carries the service key that is due: its
    payload decodes to an object whose serviceKey is the request's own key, else the
    client's, and is never missing; with service routing it is an object without a
    serviceKey, even when the client has one. The same holds of every request the task
    of an asynchronous call sends. And a call on an open client, with a key to send (or
    none, with service routing), does send a request, or submit a task that does. *)
Theorem posted_service_key {laws : SerdeJsonLaws} (routed closed : bool) (self : Inner) (r : IncidentRequest) (w : W) :
  request_wf r -> (src_timestamp r <= i64_max)%Z ->
  (forall req, req ∈ (post_mode routed closed self r (w, [])).2.2 -> carries_key routed self r req) /\
  (forall t req, post_async_mode routed closed self r = Ok t ->
     req ∈ (run_task self t (w, [])).2.2 -> carries_key routed self r req) /\
  (closed = false ->
   (if routed then Request.service_key r = None
    else is_Some (Request.service_key r) \/ is_Some (service_key self)) ->
   (post_mode routed closed self r (w, [])).2.2 <> [] /\
   exists t, post_async_mode routed closed self r = Ok t /\ (run_task self t (w, [])).2.2 <> []).
Proof.
  intros Hwf Hts. rewrite post_mode_cases, post_async_mode_cases.
  pose proof (deliver_sends self r (if routed then None else service_key self) w) as [n Hn].
  pose proof (run_task_sends self (mkTask r (if routed then None else service_key self)) w) as [k Hk].
  cbn [request default_service_key] in Hk.
  pose proof (post_request_carries routed self r Hwf Hts) as Hcarries.
  destruct closed; [split_and!; [by intros req ?%elem_of_nil|done|done]|].
  destruct (misused routed self r) eqn:Hm; split_and!.
  - by intros req ?%elem_of_nil.
  - done.
  - intros _ Hkey. exfalso. unfold misused, is_none in Hm.
    destruct routed, (Request.service_key r), (service_key self); try done; by destruct Hkey as [[? ?]|[? ?]].
  - rewrite Hn. intros req [-> _]%elem_of_replicate. by apply Hcarries.
  - intros t req [= <-]. rewrite Hk. intros [-> _]%elem_of_replicate. by apply Hcarries.
  - intros _ _. split; [by rewrite Hn|]. eexists. split; [done|]. by rewrite Hk.
Qed.
End Properties.

(** What the client's builder makes. It fails exactly when the API key is
    missing or consists of white space only, with an error that says which; else
    the client posts with that key to the configured endpoint (by default the one
    of the environment, or the documented one) on the fixed schedule, and its
    default service key is the one that was set, unless that is blank. *)
Lemma client_build `{ErrorTypes} (env : option str) (b : IncidentClientBuilder.t) :
  match build env b with
  | Err e =>
      (IncidentClientBuilder.api_key b = None /\ e = InvalidRequest (lit "apiKey must be set")) \/
      (exists key, IncidentClientBuilder.api_key b = Some key /\
         Forall (fun c => is_whitespace c = true) key /\
         e = InvalidRequest (lit "apiKey must not be blank"))
  | Ok inner =>
      exists key, IncidentClientBuilder.api_key b = Some key /\
        Exists (fun c => is_whitespace c = false) key /\
        api_key (transport inner) = key /\
        endpoint (transport inner) =
          default (endpoint_of env) (IncidentClientBuilder.endpoint b) /\
        retry_delays inner = default DEFAULT_RETRY_DELAYS (IncidentClientBuilder.retry_delays b) /\
        (forall k, service_key inner = Some k <->
           IncidentClientBuilder.service_key b = Some k /\ Exists (fun c => is_whitespace c = false) k)
  end.
Proof.
  unfold build. destruct (IncidentClientBuilder.api_key b) as [key|]; [|by left].
  destruct (is_blank key) eqn:Hb; simpl.
  - right. exists key. split; [done|]. split; [by apply is_blank_spec|done].
  - exists key. split; [done|]. split; [by apply is_blank_false|].
    split; [by destruct (IncidentClientBuilder.endpoint b)|].
    split; [by destruct (IncidentClientBuilder.endpoint b)|]. split; [done|].
    intros k. rewrite <-is_blank_false. unfold filter_key.
    destruct (IncidentClientBuilder.service_key b) as [k'|]; [|by split; [|intros [? _]]].
    destruct (is_blank k') eqn:Hk; simpl; split; intros Heq; simplify_eq; try done.
    + destruct Heq as [Heq Hk']. simplify_eq. congruence.
    + by destruct Heq as [[= ->] _].
Qed.

(** ** Witnesses: a client of the loopback network *)

Definition sample_inner : Inner := mkInner (Some (lit "client-key")) test_transport DEFAULT_RETRY_DELAYS.
Definition keyless_inner : Inner := mkInner None test_transport DEFAULT_RETRY_DELAYS.

(** Unavailable once, then created. *)
Definition flaky : Net := network None [Reply 503 None; Reply 201 (Some [])].

Lemma post_errors_witness :
  exists e, post_mode false false keyless_inner (sample_request None) flaky = (Err e, flaky) /\
    misused false keyless_inner (sample_request None) = true.
Proof.
  destruct (post_mode false false keyless_inner (sample_request None) flaky) as [[v|e] w'] eqn:Hp;
    [exfalso; vm_compute in Hp; discriminate|].
  pose proof (post_errors _ _ _ _ _ _ _ Hp) as He. exists e.
  assert (Hk : misused false keyless_inner (sample_request None) = true) by reflexivity.
  destruct e as [text| |m c rt src].
  - destruct He as (_ & _ & _ & ->). by split.
  - by destruct He as [? _].
  - destruct He as (_ & Hf & _). congruence.
Defined.

Lemma post_sends_witness :
  exists n res w', post_mode true false sample_inner (sample_request None) (flaky, []) = (res, w') /\
    is_ok res = true /\
    w'.2 = replicate n (post_request sample_inner (sample_request None) None) /\ 1 <= n <= 6.
Proof.
  destruct (post_mode true false sample_inner (sample_request None) (flaky, [])) as [res w'] eqn:Hp.
  destruct (post_sends true false sample_inner (sample_request None) flaky [] res w' Hp) as (_ & n & Hw & Hn).
  exists n, res, w'. split; [done|]. split; [|split; [exact Hw|exact Hn]].
  vm_compute in Hp. injection Hp as <- _. reflexivity.
Defined.

(** A code that is no [i32] is replaced by the HTTP status. *)
Definition overflowing : Net :=
  network None [Reply 200 (Some (object_text [(lit "code", SInt (2 ^ 40))]))].

Lemma post_results_typed_witness :
  exists resp, (post_mode false false sample_inner (sample_request None) overflowing).1 = Ok resp /\ response_wf resp.
Proof.
  destruct (post_mode false false sample_inner (sample_request None) overflowing) as [[resp|e] w'] eqn:Hp.
  - exists resp. split; [reflexivity|]. exact (post_results_typed _ _ _ _ _ _ _ Hp).
  - vm_compute in Hp. discriminate.
Defined.

Lemma posted_service_key_witness :
  exists req m, req ∈ (post_mode true false sample_inner (sample_request None) (flaky, [])).2.2 /\
    (as_object <$> match from_str (payload req) with Ok v => Some v | Err _ => None end) = Some (Some m) /\
    get m (lit "serviceKey") = None.
Proof.
  destruct (posted_service_key true false sample_inner (sample_request None) flaky) as (Hall & _ & Hsome).
  - by apply sample_request_wf.
  - vm_compute. discriminate.
  - destruct (Hsome eq_refl eq_refl) as [Hne _].
    destruct (post_mode true false sample_inner (sample_request None) (flaky, [])).2.2 as [|req l]; [by destruct Hne|].
    destruct (Hall req ltac:(by left)) as (v & m & Hv & Hm & Hkey). exists req, m.
    split; [by left|]. split; [|exact Hkey]. rewrite Hv. by rewrite <-Hm.
Defined.
