(* ===== verification/ClientSystem.v ===== *)
(** * The client as a concurrent system (src/rust/src/client.rs)

    Any number of threads share one client: they post, synchronously or not, close
    it and drop it, while the workers of its dispatcher deliver. A call is a
    sequence of atomic steps: the accesses to the flag [closed], the signal of the
    interrupt, and the call into the dispatcher, which is a thread of the
    dispatcher's own system ([Dispatcher.Sys]) until it returns. What a delivery
    does, on the calling thread or on a worker, is left open here: a synchronous
    call ends at some point with some result, and a worker's task ends at some
    point. [DeliverySystem] fills this in. *)

From stdpp Require Import prelude list strings relations.
From S2P Require Import Prelude Error Response Request JsonRef Interrupt Retry Transport DropLogger Dispatcher DispatcherInv DispatcherProps DispatcherShutdown Client.

Section ClientSystem.
Context `{ErrorTypes}.

(** Where a call is. [AsyncDone] remembers the task the call submitted, and
    [CloseDone] whether the call was the one that closed the client. *)
Inductive call : Type :=
| Post (routed : bool) (r : IncidentRequest)
| Posting (task : DeliveryTask)
| PostDone (result : Result IncidentResponse IncidentError)
| PostAsync (routed : bool) (r : IncidentRequest)
| AsyncSubmit (task : DeliveryTask) (j : nat)
| AsyncDone (task : option DeliveryTask) (result : Result unit IncidentError)
| CloseSwap
| CloseSignal
| CloseDispatch
| CloseDrain (j : nat)
| CloseDone (first : bool).

(** [IncidentClient], and the flag of its interrupt. *)
Record Client : Type := mkClient {
  inner : Inner;
  closed : bool;
  signalled : bool;
  dispatcher : Sys DeliveryTask;
  calls : list call;
}.

(** ** The steps of a call *)

Definition set_call (i : nat) (c : call) (s : Client) : Client :=
  mkClient (inner s) (closed s) (signalled s) (dispatcher s) (<[i := c]> (calls s)).

(** The call enters the dispatcher: a new thread of it starts at [p]. *)
Definition enter (p : pc DeliveryTask) (s : Client) : Client :=
  let d := dispatcher s in
  mkClient (inner s) (closed s) (signalled s)
    (mkSys (shared d) (threads d ++ [p]) (clock d) (history d)) (calls s).

(** The handle of the thread that [enter] starts. *)
Definition next_thread (s : Client) : nat := length (threads (dispatcher s)).

Definition run_call (i : nat) (s : Client) : option Client :=
  c ← calls s !! i;
  match c with
  (* post and post_with_service_routing *)
  | Post routed r =>
      match post_async_mode routed (closed s) (inner s) r with
      | Err e => Some (set_call i (PostDone (Err e)) s)
      | Ok task => Some (set_call i (Posting task) s)
      end
  (* post_async and post_async_with_service_routing *)
  | PostAsync routed r =>
      match post_async_mode routed (closed s) (inner s) r with
      | Err e => Some (set_call i (AsyncDone None (Err e)) s)
      | Ok task => Some (set_call i (AsyncSubmit task (next_thread s)) (enter (SLock task) s))
      end
  | AsyncSubmit task j =>
      match threads (dispatcher s) !! j with
      | Some (SDone accepted) => Some (set_call i (AsyncDone (Some task) (submit_result accepted)) s)
      | _ => None
      end
  (* close *)
  | CloseSwap =>
      if closed s then Some (set_call i (CloseDone false) s)
      else Some (set_call i CloseSignal (mkClient (inner s) true (signalled s) (dispatcher s) (calls s)))
  | CloseSignal =>
      Some (set_call i CloseDispatch (mkClient (inner s) (closed s) true (dispatcher s) (calls s)))
  | CloseDispatch =>
      Some (set_call i (CloseDrain (next_thread s)) (enter (CLock CLOSE_DRAIN_TIMEOUT) s))
  | CloseDrain j =>
      match threads (dispatcher s) !! j with
      | Some CDone => Some (set_call i (CloseDone true) s)
      | _ => None
      end
  | Posting _ | PostDone _ | AsyncDone _ _ | CloseDone _ => None
  end.

(** [close], and [drop], which closes. *)
Definition close_call : call := CloseSwap.
Definition drop_call : call := close_call.

(** ** The system *)

Definition add_call (c : call) (s : Client) : Client :=
  mkClient (inner s) (closed s) (signalled s) (dispatcher s) (calls s ++ [c]).

Inductive step (s : Client) : Client -> Prop :=
| step_call (c : call) :
    (exists routed r, c = Post routed r \/ c = PostAsync routed r) \/ c = close_call \/ c = drop_call ->
    step s (add_call c s)
| step_run (i : nat) (s' : Client) : run_call i s = Some s' -> step s s'
(** A delivery on the calling thread ends; how it runs is [DeliverySystem]. *)
| step_post_done (i : nat) (task : DeliveryTask) (result : Result IncidentResponse IncidentError) :
    calls s !! i = Some (Posting task) -> step s (set_call i (PostDone result) s)
(** The dispatcher's own threads run; only the calls above add threads to it. *)
| step_dispatcher (d : Sys DeliveryTask) :
    Dispatcher.step (dispatcher s) d -> length (threads d) = length (threads (dispatcher s)) ->
    step s (mkClient (inner s) (closed s) (signalled s) d (calls s)).

(** What [IncidentClientBuilder::build] returns, at instant [now]. *)
Definition new (inner : Inner) (now : Z) : Client :=
  mkClient inner false Interrupt.new (Dispatcher.new WORKER_COUNT QUEUE_CAPACITY now) [].

Definition reachable (s : Client) : Prop := exists inner now, rtc step (new inner now) s.

(** ** Executing a schedule *)

Inductive sys_action : Type :=
| CallPostSync (routed : bool) (r : IncidentRequest)
| CallPost (routed : bool) (r : IncidentRequest)
| CallClose
| Run (i : nat)
| Dispatch (a : action DeliveryTask).

Definition sys_act (a : sys_action) (s : Client) : option Client :=
  match a with
  | CallPostSync routed r => Some (add_call (Post routed r) s)
  | CallPost routed r => Some (add_call (PostAsync routed r) s)
  | CallClose => Some (add_call close_call s)
  | Run i => run_call i s
  | Dispatch a =>
      d ← act a (dispatcher s);
      if (length (threads d) =? length (threads (dispatcher s)))%nat
      then Some (mkClient (inner s) (closed s) (signalled s) d (calls s)) else None
  end.

Fixpoint sys_play (l : list sys_action) (s : Client) : option Client :=
  match l with
  | [] => Some s
  | a :: l => s' ← sys_act a s; sys_play l s'
  end.

Lemma sys_act_step (a : sys_action) (s s' : Client) : sys_act a s = Some s' -> step s s'.
Proof.
  destruct a; simpl; intros Hact; simplify_eq.
  - apply step_call. eauto.
  - apply step_call. eauto.
  - apply step_call. by right; left.
  - by eapply step_run.
  - destruct (act a (dispatcher s)) as [d|] eqn:Ha; simpl in Hact; [|done].
    destruct (Nat.eqb_spec (length (threads d)) (length (threads (dispatcher s)))); simplify_eq.
    apply step_dispatcher; [by eapply act_step|done].
Qed.

Lemma sys_play_steps (l : list sys_action) (s s' : Client) : sys_play l s = Some s' -> rtc step s s'.
Proof.
  revert s. induction l as [|a l IH]; simpl; intros s Hplay; [by simplify_eq|].
  destruct (sys_act a s) as [s1|] eqn:Hact; [|done]. eapply rtc_l; [by eapply sys_act_step|by apply IH].
Qed.
End ClientSystem.

(** ** Lemmas on the dispatcher: its closing threads *)

Section Closers.
Context {Task : Type} (workers cap : nat).
Implicit Types (d : Sys Task) (p : pc Task).

(** Of the threads that called [close], those that have not taken the lock, those that
    have, and those that have left the drain. *)
Definition closer_lock p : bool := match p with CLock _ => true | _ => false end.
Definition closer_in p : bool := match p with CLock _ => false | p => in_close p end.
Definition closer_late p : bool :=
  match p with CNotify _ | CWorkers _ | CLog _ | CDone => true | _ => false end.

Lemma closer_split (l : list (pc Task)) :
  count in_close l = count closer_in l + count closer_lock l.
Proof. induction l as [|p l IH]; [done|]. simpl. rewrite IH. destruct p; simpl; lia. Qed.

Lemma late_le_in (l : list (pc Task)) : count closer_late l <= count closer_in l.
Proof. induction l as [|p l IH]; [done|]. simpl. destruct p; simpl; lia. Qed.

Lemma count_closer_wake (l : list (pc Task)) :
  count in_close (wake <$> l) = count in_close l /\ count closer_in (wake <$> l) = count closer_in l /\
  count closer_late (wake <$> l) = count closer_late l.
Proof. split_and!; apply count_map; by intros []. Qed.

(** Only a closing thread stops the dispatcher from accepting, and if there is
    only one, it leaves the drain with the workers stopped. *)
Lemma closers d :
  Dispatcher.reachable workers cap d ->
  (accepting (state (shared d)) = false -> 0 < count closer_in (threads d)) /\
  (0 < count closer_late (threads d) -> count in_close (threads d) <= 1 -> draining (state (shared d)) = false).
Proof.
  revert d. apply reachable_ind'.
  { intros now. split; [done|]. simpl. rewrite count_replicate. simpl. lia. }
  intros d d' Hreach [IHin IHlate] Hstep.
  pose proof (count_closer_wake (threads d)). pose proof (closer_split (threads d)).
  pose proof (late_le_in (threads d)).
  step_cases Hstep; count_of (@in_close Task); count_of closer_in; count_of closer_late; simpl in *;
    destruct (accepting (state (shared d))); simplify_eq/=; try specialize (IHin eq_refl);
    split; intros; try done; try lia; try (apply IHlate; lia).
  (* a second closing thread returns at once *)
  assert (0 < count closer_lock (threads d)) by (apply count_pos; by eauto). lia.
Qed.
End Closers.

(** ** Lemmas on the dispatcher: one submission *)

Section Submissions.
Context {Task : Type}.
Implicit Types (d : Sys Task) (p : pc Task).

(** Thread [j] is submitting [task], or has: what its state says is true. *)
Definition submission d (j : nat) (task : Task) : Prop :=
  match threads d !! j with
  | Some (SLock t) => t = task
  | Some (SNotify _) | Some (SLog _) | Some (SDone true) => Accepted task ∈ history d
  | Some (SDone false) => Rejected task ∈ history d
  | _ => False
  end.

Lemma submission_stutter d d' (j : nat) (task : Task) :
  threads d' !! j = threads d !! j -> (exists es, history d' = history d ++ es) ->
  submission d j task -> submission d' j task.
Proof.
  intros Hj [es Hes]. unfold submission. rewrite Hj, Hes.
  destruct (threads d !! j) as [[]|]; try done; try case_match; rewrite ?elem_of_app; tauto.
Qed.

(** A step moves thread [j], or leaves it where it is, or wakes it up. *)
Lemma submission_step d d' (k : nat) (task : Task) :
  Dispatcher.step d d' -> submission d k task -> submission d' k task.
Proof.
  intros Hstep Hsub. pose proof (history_grows _ _ Hstep) as Hes.
  assert (Hsame : threads d' !! k = threads d !! k -> submission d' k task)
    by (intros; by eapply submission_stutter).
  destruct (threads d !! k) as [p|] eqn:Hme; [|unfold submission in Hsub; by rewrite Hme in Hsub].
  assert (Hset : forall l (y : pc Task), length l = length (threads d) -> <[k := y]> l !! k = Some y).
  { intros l y Hl. apply list_lookup_insert_eq. rewrite Hl. by eapply lookup_lt_Some. }
  assert (Hw : wake p = p) by (unfold submission in Hsub; rewrite Hme in Hsub; by destruct p).
  assert (Hme' : (wake <$> threads d) !! k = Some p) by (rewrite <-Hw; by apply lookup_wake).
  step_cases Hstep; simpl in Hsame; try (apply Hsame; by apply lookup_app_l_Some); try by apply Hsame.
  all: match goal with |- submission (move ?i _ _ _ _) ?k _ =>
         destruct (decide (i = k)) as [Heq|Hne];
         [subst i|try by apply Hsame; simpl; repeat (rewrite list_lookup_insert_ne by congruence)] end.
  all: unfold submission in *; rewrite Hme in Hsub; simplify_eq; simpl.
  all: try done.
  all: try (rewrite Hset by (rewrite ?length_insert; done); rewrite ?elem_of_app, ?list_elem_of_singleton in *;
            subst; tauto).
  (* a notification by another thread *)
  all: assert (Hne2 : j <> k) by (intros ->; rewrite Hme in Hj; simplify_eq; done).
  all: rewrite !list_lookup_insert_ne, Hme by done; by rewrite app_nil_r.
Qed.
End Submissions.

(** No other step than a submission or a close adds a thread. *)
Lemma closer_count {Task : Type} (d d' : Sys Task) :
  Dispatcher.step d d' -> length (threads d') = length (threads d) ->
  count in_close (threads d') = count in_close (threads d).
Proof.
  intros Hstep Hlen. pose proof (count_closer_wake (threads d)).
  step_cases Hstep; rewrite ?length_app in *; simpl in *; try lia;
    count_of (@in_close Task); simpl in *; lia.
Qed.

(** ** The invariant of the client *)

Section Invariant.
Context `{ErrorTypes}.
Implicit Types (s : Client) (c : call).

(** The call that closes the client, from its swap on; once it is about to call
    the dispatcher; and once it has. *)
Definition winner c : bool :=
  match c with CloseSignal | CloseDispatch | CloseDrain _ | CloseDone true => true | _ => false end.
Definition entered c : bool := match c with CloseDrain _ | CloseDone true => true | _ => false end.

(** What the state of a call says is true of the system. *)
Definition call_ok s c : Prop :=
  match c with
  | AsyncSubmit task j => submission (dispatcher s) j task
  | AsyncDone (Some task) (Ok _) => Accepted task ∈ history (dispatcher s)
  | AsyncDone (Some task) (Err e) => e = ClientClosed /\ Rejected task ∈ history (dispatcher s)
  | AsyncDone None (Ok _) => False
  | AsyncDone None (Err e) => (e = ClientClosed /\ closed s = true) \/ exists text, e = InvalidRequest text
  | CloseDispatch => signalled s = true
  | CloseDrain j => signalled s = true /\ exists p, threads (dispatcher s) !! j = Some p /\ in_close p = true
  | CloseDone true => signalled s = true /\ draining (state (shared (dispatcher s))) = false
  | CloseDone false => closed s = true
  | Post _ _ | Posting _ | PostDone _ | PostAsync _ _ | CloseSwap | CloseSignal => True
  end.

(** What only ever changes one way. *)
Definition later s s' : Prop :=
  (closed s = true -> closed s' = true) /\ (signalled s = true -> signalled s' = true) /\
  (forall j task, submission (dispatcher s) j task -> submission (dispatcher s') j task) /\
  (exists es, history (dispatcher s') = history (dispatcher s) ++ es) /\
  (forall j p, threads (dispatcher s) !! j = Some p -> in_close p = true ->
     exists p', threads (dispatcher s') !! j = Some p' /\ in_close p' = true) /\
  (draining (state (shared (dispatcher s))) = false -> draining (state (shared (dispatcher s'))) = false).

Lemma call_ok_later s s' c : later s s' -> call_ok s c -> call_ok s' c.
Proof.
  intros (Hcl & Hsig & Hsub & [es Hes] & Hcloser & Hdrain) Hok.
  destruct c as [| | | |task j|[task|] [?|e]| | | |j|[]]; simpl in *; auto; rewrite ?Hes, ?elem_of_app.
  - by left.
  - destruct Hok. auto.
  - destruct Hok as [[? ?]|?]; auto.
  - destruct Hok as (? & p & Hp & Hpc). eauto.
  - destruct Hok. auto.
Qed.

Lemma later_enter s (p : pc DeliveryTask) : later s (enter p s).
Proof.
  assert (Hl : forall j q, threads (dispatcher s) !! j = Some q ->
            (threads (dispatcher s) ++ [p]) !! j = Some q) by (intros; by apply lookup_app_l_Some).
  split_and!; simpl; try done.
  - intros j task. unfold submission. simpl.
    destruct (threads (dispatcher s) !! j) as [q|] eqn:Hj; [|done]. by rewrite (Hl _ _ Hj).
  - exists []. by rewrite app_nil_r.
  - intros j q Hj Hq. exists q. auto.
Qed.

Lemma later_flags s (b1 b2 : bool) :
  (closed s = true -> b1 = true) -> (signalled s = true -> b2 = true) ->
  later s (mkClient (inner s) b1 b2 (dispatcher s) (calls s)).
Proof. intros H1 H2. split_and!; simpl; try done; [by exists []; rewrite app_nil_r|eauto]. Qed.

Lemma later_dispatcher s (d : Sys DeliveryTask) (w n : nat) :
  Dispatcher.reachable w n (dispatcher s) -> Dispatcher.step (dispatcher s) d ->
  later s (mkClient (inner s) (closed s) (signalled s) d (calls s)).
Proof.
  intros Hreach Hstep. split_and!; simpl; try done.
  - intros j task. by apply submission_step.
  - by apply history_grows.
  - intros j p. by apply close_stable.
  - intros Hd. by apply (stopped_step w n _ _ Hreach Hstep Hd).
Qed.

Record inv s : Prop := {
  inv_reach : Dispatcher.reachable WORKER_COUNT QUEUE_CAPACITY (dispatcher s);
  inv_winner : count winner (calls s) = if closed s then 1 else 0;
  inv_closer : count in_close (threads (dispatcher s)) = count entered (calls s);
  inv_calls : forall i c, calls s !! i = Some c -> call_ok s c;
}.

Lemma entered_winner (l : list call) : count entered l <= count winner l.
Proof. induction l as [|c l IH]; [done|]. simpl. destruct c as [| | | | | | | | | |[]]; simpl; lia. Qed.

Lemma inv_new (t : Inner) (now : Z) : inv (new t now).
Proof.
  split; simpl; try done.
  by exists now.
Qed.

(** The dispatcher runs, or is entered, or a flag is raised. *)
Lemma calls_later s s' :
  (forall i c, calls s !! i = Some c -> call_ok s c) -> later s s' -> calls s' = calls s ->
  forall i c, calls s' !! i = Some c -> call_ok s' c.
Proof. intros Hall Hl -> i c Hi. eapply call_ok_later; eauto. Qed.

(** A call moves. *)
Lemma calls_set s (i : nat) (c : call) :
  (forall k c, calls s !! k = Some c -> call_ok s c) -> call_ok s c ->
  forall k c', calls (set_call i c s) !! k = Some c' -> call_ok (set_call i c s) c'.
Proof.
  intros Hall Hc k c' Hk. change (call_ok s c'). simpl in Hk.
  apply list_lookup_insert_Some in Hk as [(-> & -> & _)|(_ & Hk)]; [done|eauto].
Qed.

Lemma enter_reach s (p : pc DeliveryTask) :
  Dispatcher.reachable WORKER_COUNT QUEUE_CAPACITY (dispatcher s) ->
  (exists task, p = SLock task) \/ p = CLock CLOSE_DRAIN_TIMEOUT ->
  Dispatcher.reachable WORKER_COUNT QUEUE_CAPACITY (dispatcher (enter p s)).
Proof.
  intros Hreach Hp. eapply reachable_step; [exact Hreach|]. apply rtc_once.
  destruct Hp as [[task ->]| ->]; [by apply step_submit|by apply step_close].
Qed.

Lemma lookup_next s (p : pc DeliveryTask) :
  threads (dispatcher (enter p s)) !! next_thread s = Some p.
Proof. unfold next_thread. simpl. by apply list_lookup_middle. Qed.

(** The one thread of the dispatcher that called its [close] has returned. *)
Lemma close_done s (j : nat) :
  inv s -> (exists i, calls s !! i = Some (CloseDrain j)) ->
  threads (dispatcher s) !! j = Some CDone -> draining (state (shared (dispatcher s))) = false.
Proof.
  intros Hinv [i Hi] Hj. destruct (closers _ _ _ (inv_reach _ Hinv)) as [_ Hlate].
  apply Hlate; [apply count_pos; by eauto|].
  rewrite (inv_closer _ Hinv). pose proof (entered_winner (calls s)).
  rewrite (inv_winner _ Hinv) in *. by destruct (closed s); lia.
Qed.

(** One step of call [i], from [c] to [c']: [s1] is the system after what the step
    does to the shared state. *)
Lemma inv_set s s1 (i : nat) (c c' : call) :
  inv s -> calls s !! i = Some c -> later s s1 -> calls s1 = calls s ->
  Dispatcher.reachable WORKER_COUNT QUEUE_CAPACITY (dispatcher s1) -> call_ok s1 c' ->
  (if closed s then 1 else 0) + (if winner c' then 1 else 0) =
    (if closed s1 then 1 else 0) + (if winner c then 1 else 0) ->
  count in_close (threads (dispatcher s1)) + (if entered c then 1 else 0) =
    count in_close (threads (dispatcher s)) + (if entered c' then 1 else 0) ->
  inv (set_call i c' s1).
Proof.
  intros [Hreach Hwin Hclo Hcalls] Hi Hl Heq Hreach1 Hok Hw He.
  pose proof (count_insert winner (calls s) i c c' Hi). pose proof (count_insert entered (calls s) i c c' Hi).
  split; simpl; [done|rewrite Heq; lia|rewrite Heq; lia|].
  apply calls_set; [|done]. by apply (calls_later s).
Qed.

Lemma later_refl s : later s s.
Proof. split_and!; auto; [by exists []; rewrite app_nil_r|eauto]. Qed.

Lemma enter_closers s (p : pc DeliveryTask) :
  count in_close (threads (dispatcher (enter p s))) =
  count in_close (threads (dispatcher s)) + (if in_close p then 1 else 0).
Proof. simpl. rewrite count_app. simpl. lia. Qed.

#[local] Hint Resolve later_refl later_enter later_flags enter_reach : rust_inv.

Lemma inv_run_async s s' (i : nat) (c : call) :
  inv s -> calls s !! i = Some c ->
  (exists routed r, c = PostAsync routed r) \/ (exists task j, c = AsyncSubmit task j) ->
  run_call i s = Some s' -> inv s'.
Proof.
  intros Hinv Hi Hc Hrun. pose proof Hinv as [Hreach Hwin Hclo Hcalls].
  unfold run_call in Hrun. rewrite Hi in Hrun. simpl in Hrun.
  destruct Hc as [(routed & r & ->)|(task & j & ->)].
  - rewrite post_async_mode_cases in Hrun. destruct (closed s) eqn:Hcl.
    + simplify_eq. eapply inv_set; eauto with rust_inv. left. by split.
    + destruct (misused routed (inner s) r); simplify_eq.
      * eapply inv_set; eauto with rust_inv. right. by eexists.
      * eapply inv_set; eauto with rust_inv.
        -- unfold call_ok, submission. by rewrite lookup_next.
        -- rewrite enter_closers. simpl. lia.
  - pose proof (Hcalls _ _ Hi) as Hok. simpl in Hok. unfold submission in Hok.
    destruct (threads (dispatcher s) !! j) as [[]|] eqn:Hj; simplify_eq/=.
    eapply inv_set; eauto with rust_inv. unfold submit_result. by destruct accepted.
Qed.

Lemma inv_run_post s s' (i : nat) (routed : bool) (r : IncidentRequest) :
  inv s -> calls s !! i = Some (Post routed r) -> run_call i s = Some s' -> inv s'.
Proof.
  intros Hinv Hi Hrun. pose proof (inv_reach _ Hinv).
  unfold run_call in Hrun. rewrite Hi in Hrun. simpl in Hrun.
  destruct (post_async_mode routed (closed s) (inner s) r); simplify_eq;
    by eapply inv_set; eauto with rust_inv.
Qed.

Lemma inv_run_close s s' (i : nat) (c : call) :
  inv s -> calls s !! i = Some c -> winner c = true \/ c = CloseSwap ->
  run_call i s = Some s' -> inv s'.
Proof.
  intros Hinv Hi Hc Hrun. pose proof Hinv as [Hreach Hwin Hclo Hcalls].
  pose proof (Hcalls _ _ Hi) as Hok.
  unfold run_call in Hrun. rewrite Hi in Hrun. simpl in Hrun.
  destruct Hc as [Hc| ->]; [destruct c as [| | | | | | | | |j|[]]|]; simplify_eq/=.
  - eapply inv_set; eauto with rust_inv. done.
  - eapply inv_set; eauto with rust_inv.
    + simpl. split; [done|]. eexists. split; [apply lookup_next|done].
    + rewrite enter_closers. simpl. lia.
  - destruct (threads (dispatcher s) !! j) as [[]|] eqn:Hj; simplify_eq/=.
    eapply inv_set; eauto with rust_inv. simpl. split; [by destruct Hok|].
    apply (close_done s j); eauto.
  - destruct (closed s) eqn:Hcl; simplify_eq.
    + eapply inv_set; eauto with rust_inv.
    + eapply inv_set; eauto with rust_inv. simpl. by rewrite Hcl.
Qed.

Lemma client_inv_step s s' : inv s -> step s s' -> inv s'.
Proof.
  intros Hinv Hstep. pose proof Hinv as [Hreach Hwin Hclo Hcalls].
  destruct Hstep as [c Hc|i s' Hrun|i task result Hi|d Hd Hlen].
  - assert (Hnew : winner c = false /\ entered c = false /\ call_ok s c)
      by (by destruct Hc as [(? & ? & [->| ->])|[->| ->]]).
    destruct Hnew as (Hw & He & Hok).
    split; simpl; rewrite ?count_app; simpl; rewrite ?Hw, ?He; [done|lia|lia|].
    intros i c' Hi. apply lookup_app_Some in Hi as [Hi|[_ Hi]]; [by apply (Hcalls i)|].
    by apply list_lookup_singleton_Some in Hi as [_ <-].
  - destruct (calls s !! i) as [c|] eqn:Hi; [|unfold run_call in Hrun; by rewrite Hi in Hrun].
    destruct c; try (by eapply inv_run_post); try (by eapply inv_run_close; eauto);
      try (eapply inv_run_async; [done|done| |done]; eauto);
      unfold run_call in Hrun; by rewrite Hi in Hrun.
  - by eapply inv_set; eauto with rust_inv.
  - split; simpl; [|done| |].
    + eapply reachable_step; [exact Hreach|]. by apply rtc_once.
    + by rewrite (closer_count _ _ Hd Hlen).
    + apply (calls_later s (mkClient (inner s) (closed s) (signalled s) d (calls s))); [done| |done]. by eapply later_dispatcher.
Qed.

Lemma client_reachable_inv s : reachable s -> inv s.
Proof.
  intros (t & now & Hrtc). revert s Hrtc.
  apply rtc_ind_r; [apply inv_new|]. intros s s' _ Hstep Hinv. by eapply client_inv_step.
Qed.

Lemma step_later s s' : inv s -> step s s' -> later s s'.
Proof.
  intros Hinv Hstep. destruct Hstep as [c Hc|i s' Hrun|i task result Hi|d Hd Hlen].
  - exact (later_refl s).
  - unfold run_call in Hrun. destruct (calls s !! i) as [c|]; [|done]. simpl in Hrun.
    destruct c; simplify_eq/=; repeat case_match; simplify_eq;
      first [exact (later_refl s) | exact (later_enter s _) | by apply (later_flags s)].
  - exact (later_refl s).
  - eapply later_dispatcher; [apply (inv_reach _ Hinv)|done].
Qed.

(** A flag that is raised stays raised, whatever happens. *)
Lemma closed_for_good s s' : reachable s -> rtc step s s' -> closed s = true -> closed s' = true.
Proof.
  intros Hreach%client_reachable_inv Hrtc. induction Hrtc as [|s s1 s2 Hstep _ IH]; [done|].
  intros Hcl. apply IH; [by eapply client_inv_step|]. by apply (step_later _ _ Hreach Hstep).
Qed.

Lemma dispatcher_runs s s' : reachable s -> rtc step s s' -> rtc Dispatcher.step (dispatcher s) (dispatcher s').
Proof.
  intros Hreach%client_reachable_inv Hrtc. induction Hrtc as [|s s1 s2 Hstep _ IH]; [done|].
  etrans; [|apply IH; by eapply client_inv_step]. clear IH.
  destruct Hstep as [c Hc|i s' Hrun|i task result Hi|d Hd Hlen]; [done| |done|by apply rtc_once].
  unfold run_call in Hrun. destruct (calls s !! i) as [c|]; [|done]. simpl in Hrun.
  destruct c; simplify_eq/=; repeat case_match; simplify_eq; try done; apply rtc_once.
  - by apply step_submit.
  - by apply step_close.
Qed.
(** Only the call that has closed the client stops the dispatcher, and it has
    signalled the interrupt first. *)
Lemma shut_closed s : inv s -> accepting (state (shared (dispatcher s))) = false -> closed s = true /\ signalled s = true.
Proof.
  intros Hinv Hacc.
  destruct (closers _ _ _ (inv_reach _ Hinv)) as [Hin _]. specialize (Hin Hacc).
  pose proof (closer_split (threads (dispatcher s))) as Hsplit.
  rewrite (inv_closer _ Hinv) in Hsplit. pose proof (entered_winner (calls s)).
  rewrite (inv_winner _ Hinv) in *. split; [destruct (closed s); [done|lia]|].
  assert (0 < count entered (calls s)) as (i & c & Hi & Hc)%count_pos by lia.
  pose proof (inv_calls _ Hinv _ _ Hi) as Hok. destruct c as [| | | | | | | | |j|[]]; try done; by destruct Hok.
Qed.
End Invariant.

(** ** Properties *)

Section Properties.
Context `{ErrorTypes}.

(** C1: An asynchronous call tells the truth: when it returns [Ok], its task was
    accepted and has been started, evicted or abandoned by a close, or is still
    queued, so it is nowhere silently lost; when it returns an error, either it
    submitted nothing and the error is the closed client's or a misuse, or the
    dispatcher refused the task, and the error is the closed client's. *)
Theorem async_result (s : Client) (i : nat) (task : option DeliveryTask) (result : Result unit IncidentError) :
  reachable s -> calls s !! i = Some (AsyncDone task result) ->
  let h := history (dispatcher s) in
  match task, result with
  | Some task, Ok _ =>
      task ∈ started h \/ task ∈ evicted h \/ task ∈ abandoned h \/
      task ∈ tasks (state (shared (dispatcher s)))
  | Some task, Err e => e = ClientClosed /\ Rejected task ∈ h
  | None, Ok _ => False
  | None, Err e => (e = ClientClosed /\ closed s = true) \/ exists text, e = InvalidRequest text
  end.
Proof.
  intros Hreach%client_reachable_inv Hi. pose proof (inv_calls _ Hreach _ _ Hi) as Hok. simpl.
  destruct task as [task|], result as [[]|e]; try done.
  destruct (fates _ _ _ (inv_reach _ Hreach)) as [Hfates _].
  assert (Hin : task ∈ accepted (history (dispatcher s))).
  { unfold accepted. apply list_elem_of_omap. by exists (Accepted task). }
  rewrite Hfates, !elem_of_app in Hin. exact Hin.
Qed.

(** C19: The order of a shutdown: whenever the dispatcher has stopped accepting, the
    client is already closed to new calls and its interrupt already signalled. The
    drain therefore only meets deliveries whose backoffs are cut short (see
    [Retry.signalled_single_attempt] for what the signal does to a call). *)
Theorem shutdown_order (s : Client) :
  reachable s -> accepting (state (shared (dispatcher s))) = false ->
  closed s = true /\ signalled s = true.
Proof.
  intros Hinv%client_reachable_inv. by apply shut_closed.
Qed.

(** Closing is idempotent: of all the calls that close or drop the client at
    most one ever signals the interrupt and enters the dispatcher, and every other
    one returns at once, without waiting for the drain. *)
Lemma close_once (s : Client) (i : nat) :
  reachable s ->
  count winner (calls s) <= 1 /\
  (calls s !! i = Some CloseSwap -> 0 < count winner (calls s) ->
   run_call i s = Some (set_call i (CloseDone false) s)).
Proof.
  intros Hinv%client_reachable_inv. rewrite (inv_winner _ Hinv). split; [by destruct (closed s); lia|].
  intros Hi Hw. unfold run_call. rewrite Hi. simpl. destruct (closed s); [done|lia].
Qed.

(** A client that is closed stays closed: from the moment a call to [close] has
    swapped the flag, every call that begins, synchronous or asynchronous, reports
    the closed client and changes nothing, in every later state. *)
Lemma closed_client_refuses (s s' : Client) (i : nat) (routed : bool) (r : IncidentRequest) :
  reachable s -> closed s = true -> rtc step s s' ->
  (calls s' !! i = Some (PostAsync routed r) ->
     run_call i s' = Some (set_call i (AsyncDone None (Err ClientClosed)) s')) /\
  (calls s' !! i = Some (Post routed r) ->
     run_call i s' = Some (set_call i (PostDone (Err ClientClosed)) s')).
Proof.
  intros Hreach Hcl Hrtc. pose proof (closed_for_good _ _ Hreach Hrtc Hcl) as Hcl'.
  split; intros Hi; unfold run_call; rewrite Hi; simpl; by rewrite post_async_mode_cases, Hcl'.
Qed.

(** C18: When [close] has returned it is over: once the call that closed the client
    has returned, nothing is queued, and in every later state no task has been
    accepted or started beyond those that had been by then. *)
Theorem close_completes (s s' : Client) (i : nat) :
  reachable s -> calls s !! i = Some (CloseDone true) -> rtc step s s' ->
  tasks (state (shared (dispatcher s'))) = [] /\
  accepted (history (dispatcher s')) = accepted (history (dispatcher s)) /\
  started (history (dispatcher s')) = started (history (dispatcher s)).
Proof.
  intros Hreach Hi Hrtc. pose proof (dispatcher_runs _ _ Hreach Hrtc) as Hd.
  apply client_reachable_inv in Hreach. destruct (inv_calls _ Hreach _ _ Hi) as [_ Hdrain].
  pose proof (inv_reach _ Hreach) as Hr. clear -Hd Hdrain Hr.
  induction Hd as [d|d d1 d2 Hstep _ IH].
  - split; [by apply (lifecycle _ _ _ Hr)|done].
  - assert (Hacc : accepting (state (shared d)) = false).
    { pose proof (lifecycle _ _ _ Hr) as (_ & Ho & _). destruct (accepting _); [|done]. by rewrite Ho in Hdrain. }
    destruct (refused_step _ _ Hstep Hacc) as (_ & <- & _).
    destruct (stopped_step _ _ _ _ Hr Hstep Hdrain) as (Hdrain1 & <- & _).
    apply IH; [done|]. eapply reachable_step; [exact Hr|]. by apply rtc_once.
Qed.
End Properties.

(** ** Witnesses: one incident is posted, and the client is closed *)

Definition posting : list sys_action :=
  [CallPost false (sample_request None); Run 0; Dispatch (ARun 2); Dispatch (ANotifyNone 2);
   Dispatch (ARun 2); Run 0].
Definition closing_down : list sys_action :=
  posting ++ [CallClose; Run 1; Run 1; Run 1; Dispatch (ARun 3)].
Definition closed_down : list sys_action :=
  closing_down ++ [Dispatch (ARun 0); Dispatch (ARun 0); Dispatch (ARun 0); Dispatch (ARun 0);
    Dispatch (ARun 3); Dispatch (ARun 3); Dispatch (ARun 3); Dispatch (ARun 3); Dispatch (ARun 3); Run 1].
Definition late_calls : list sys_action := [CallPost false (sample_request None); CallClose].

Definition after (l : list sys_action) (s : Client) : Client := default s (sys_play l s).
Definition client0 : Client := new sample_inner 0.
Definition sample_task : DeliveryTask := mkTask (sample_request None) (Some (lit "client-key")).

Lemma after_steps (l : list sys_action) (s : Client) : is_Some (sys_play l s) -> rtc step s (after l s).
Proof. intros [s' Hs]. unfold after. rewrite Hs. simpl. by eapply sys_play_steps. Qed.

Lemma after_reachable (l : list sys_action) : is_Some (sys_play l client0) -> reachable (after l client0).
Proof. intros Hs. exists sample_inner, 0%Z. by apply after_steps. Qed.

Lemma posting_reachable : reachable (after posting client0).
Proof. apply after_reachable. vm_compute. by eexists. Qed.
Lemma closing_reachable : reachable (after closing_down client0).
Proof. apply after_reachable. vm_compute. by eexists. Qed.
Lemma closed_reachable : reachable (after closed_down client0).
Proof. apply after_reachable. vm_compute. by eexists. Qed.

Lemma late_steps : rtc step (after closed_down client0) (after late_calls (after closed_down client0)).
Proof. apply after_steps. vm_compute. by eexists. Qed.

Lemma async_result_witness :
  calls (after posting client0) !! 0 = Some (AsyncDone (Some sample_task) (Ok tt)) /\
  let d := dispatcher (after posting client0) in
  sample_task ∈ started (history d) \/ sample_task ∈ evicted (history d) \/
  sample_task ∈ abandoned (history d) \/ sample_task ∈ tasks (state (shared d)).
Proof.
  assert (Hi : calls (after posting client0) !! 0 = Some (AsyncDone (Some sample_task) (Ok tt)))
    by (vm_compute; reflexivity).
  split; [exact Hi|]. exact (async_result _ _ _ _ posting_reachable Hi).
Defined.

Lemma shutdown_order_witness : signalled (after closing_down client0) = true.
Proof.
  apply (shutdown_order (after closing_down client0)); [exact closing_reachable|vm_compute; reflexivity].
Defined.

Lemma close_once_witness :
  is_Some (run_call 3 (after late_calls (after closed_down client0))).
Proof.
  assert (Hr : reachable (after late_calls (after closed_down client0))).
  { destruct closed_reachable as (t & now & Hrtc). exists t, now. etrans; [exact Hrtc|exact late_steps]. }
  destruct (close_once _ 3 Hr) as [_ Hrun].
  rewrite Hrun; [by eexists|vm_compute; reflexivity|]. apply Nat.ltb_lt. vm_compute. reflexivity.
Defined.

Lemma closed_client_refuses_witness :
  is_Some (run_call 2 (after late_calls (after closed_down client0))).
Proof.
  destruct (closed_client_refuses (after closed_down client0) _ 2 false (sample_request None)
              closed_reachable ltac:(vm_compute; reflexivity) late_steps) as [Hrun _].
  rewrite Hrun; [by eexists|vm_compute; reflexivity].
Defined.

Lemma close_completes_witness :
  tasks (state (shared (dispatcher (after late_calls (after closed_down client0))))) = [].
Proof.
  apply (close_completes (after closed_down client0) _ 1);
    [exact closed_reachable|vm_compute; reflexivity|exact late_steps].
Defined.
