(* ===== verification/DeliverySystem.v ===== *)
(** * The whole SDK as a concurrent system

    The client of [ClientSystem], the threads of the interrupt ([Interrupt.Sys]), the
    network and every delivery under way, on a calling thread (client.rs, [post]) or
    on a worker (client.rs, [submit]), interleave. A delivery is [Inner::deliver]
    opened up: the retry loop of retry.rs around the exchange of transport.rs, whose
    request, response head and response body are steps of their own, and whose
    backoff is a thread inside [Interrupt::wait]. *)

From stdpp Require Import prelude list strings relations.
From S2P Require Import Prelude Error Response Request Json Wire Retry Transport DropLogger Dispatcher Client ClientSystem.
From S2P Require Import Interrupt InterruptWorld.

Section DeliverySystem.
Context {W : Type} `{SerdeJson} `{!Ureq W}.

(** ** The pieces of an attempt *)

(** [Transport::send] when no status line arrives. *)
Definition no_response (cause : ureq_error) : Result IncidentResponse IncidentError :=
  Err (delivery_caused_by (lit "incident delivery failed before a response was received")
         NO_STATUS_CODE true (BoxUreq cause)).

(** The rest of [Transport::send], from the body of the response. *)
Definition received (status : Z) (body : Result str ureq_error) : Result IncidentResponse IncidentError :=
  match body with
  | Err cause =>
      Err (delivery_caused_by (lit "reading the Oppex response body")
             NO_STATUS_CODE true (BoxUreq cause))
  | Ok text =>
      if range_contains 200 300 status then parse_response status text
      else Err (status_failure status text)
  end.

(** The two pieces put together again are [Transport.send]. *)
Lemma send_pieces (t : Transport) (body : str) (w : W) :
  send t body w =
  match http_send (agent t) (request_for t body) w with
  | (Err cause, w1) => (no_response cause, w1)
  | (Ok (status, response), w1) =>
      let '(r, w2) := read_to_string MAX_RESPONSE_BYTES response w1 in (received status r, w2)
  end.
Proof.
  unfold send. destruct (http_send _ _ w) as [[[st b]|c] w1]; [|done].
  destruct (read_to_string _ b w1) as [[text|c] w2]; [|done]. simpl. by destruct (range_contains 200 300 st).
Qed.

(** What the loop of [execute_with_retry] does with the result of attempt [k]. *)
Inductive verdict : Type :=
| Finish (result : Result IncidentResponse IncidentError)
| Backoff (delay : Z).

Definition settle (delays : list Z) (k : nat) (r : Result IncidentResponse IncidentError) : verdict :=
  match r with
  | Ok value => Finish (Ok value)
  | Err failure =>
      if negb (is_retryable failure) || (length delays <=? k)%nat
      then Finish (Err (with_attempt_count failure (k + 1)))
      else Backoff (nth k delays 0%Z)
  end.

(** ** Deliveries *)

(** Who runs a delivery: a worker of the dispatcher, or a synchronous call. *)
Inductive owner : Type :=
| Worker (i : nat)
| Caller (i : nat).

(** Where a delivery is: about to send attempt [k]; waiting for the status line, and
    for the body, of the attempt that began at [start], after the signal or not; in
    the backoff that follows attempt [k], which is thread [j] of the interrupt; ended,
    its result returned to the owner or not yet. *)
Inductive dpc : Type :=
| DSend (k : nat)
| DHead (k : nat) (start : Z) (late : bool)
| DBody (k : nat) (start : Z) (late : bool) (status : Z) (response : Body)
| DWait (k : nat) (j : nat)
| DDone (result : Result IncidentResponse IncidentError) (collected : bool).

(** A finished attempt: when it ran, whether it began after the interrupt had been
    signalled, and what came of it. A ghost, like [answers] below. *)
Record attempt : Type := mkAttempt {
  began : Z;
  ended : Z;
  after_signal : bool;
  outcome : Result IncidentResponse IncidentError;
}.

Record job : Type := mkJob {
  by_whom : owner;
  task : DeliveryTask;
  at_pc : dpc;
  attempts : list attempt;
  answers : list bool;
}.

(** ** The system *)

(** [requests] is a ghost: the requests sent, each with its delivery; [debug_log]
    holds what the tasks logged. *)
Record System : Type := mkSystem {
  client : Client;
  interrupt : Interrupt.Sys;
  net : W;
  deliveries : list job;
  requests : list (nat * HttpRequest);
  debug_log : list str;
}.

Definition inner_of (s : System) : Inner := inner (client s).
Definition now_of (s : System) : Z := Interrupt.clock (interrupt s).

Definition request_of (self : Inner) (t : DeliveryTask) : HttpRequest :=
  post_request self (request t) (default_service_key t).

Definition with_client (c : Client) (s : System) : System :=
  mkSystem c (interrupt s) (net s) (deliveries s) (requests s) (debug_log s).

Definition with_interrupt (i : Interrupt.Sys) (s : System) : System :=
  mkSystem (client s) i (net s) (deliveries s) (requests s) (debug_log s).

Definition set_delivery (n : nat) (d : job) (s : System) : System :=
  mkSystem (client s) (interrupt s) (net s) (<[n := d]> (deliveries s)) (requests s) (debug_log s).

(** [deliver] is called for [t]. *)
Definition begin_delivery (o : owner) (t : DeliveryTask) (s : System) : System :=
  mkSystem (client s) (interrupt s) (net s) (deliveries s ++ [mkJob o t (DSend 0) [] []])
    (requests s) (debug_log s).

Definition at_point (p : dpc) (d : job) : job :=
  mkJob (by_whom d) (task d) p (attempts d) (answers d).

(** Attempt [k] of delivery [n] ends with [r]: the loop returns, or waits on the
    interrupt. *)
Definition conclude (n : nat) (d : job) (k : nat) (start : Z) (late : bool)
    (r : Result IncidentResponse IncidentError) (s : System) : System :=
  let done p := mkJob (by_whom d) (task d) p
                  (attempts d ++ [mkAttempt start (now_of s) late r]) (answers d) in
  match settle (retry_delays (inner_of s)) k r with
  | Finish result => set_delivery n (done (DDone result false)) s
  | Backoff delay =>
      let i := interrupt s in
      set_delivery n (done (DWait k (length (threads i))))
        (with_interrupt (set_threads (threads i ++ [WaitCall delay]) i) s)
  end.

(** One step of delivery [n]. *)
Definition run_delivery (n : nat) (s : System) : option System :=
  d ← deliveries s !! n;
  let t := transport (inner_of s) in
  match at_pc d with
  | DSend k =>
      let req := request_of (inner_of s) (task d) in
      Some (set_delivery n (at_point (DHead k (now_of s) (signalled (interrupt s))) d)
              (mkSystem (client s) (interrupt s) (net s) (deliveries s) (requests s ++ [(n, req)]) (debug_log s)))
  | DHead k start late =>
      let '(head, w) := http_send (agent t) (request_of (inner_of s) (task d)) (net s) in
      let s := mkSystem (client s) (interrupt s) w (deliveries s) (requests s) (debug_log s) in
      match head with
      | Err cause => Some (conclude n d k start late (no_response cause) s)
      | Ok (status, response) => Some (set_delivery n (at_point (DBody k start late status response) d) s)
      end
  | DBody k start late status response =>
      let '(body, w) := read_to_string MAX_RESPONSE_BYTES response (net s) in
      let s := mkSystem (client s) (interrupt s) w (deliveries s) (requests s) (debug_log s) in
      Some (conclude n d k start late (received status body) s)
  | DWait k j =>
      let answered p answer := mkJob (by_whom d) (task d) p (attempts d) (answers d ++ [answer]) in
      match threads (interrupt s) !! j with
      | Some (WaitDone true _ _ _) => Some (set_delivery n (answered (DDone (Err interrupted) false) true) s)
      | Some (WaitDone false _ _ _) => Some (set_delivery n (answered (DSend (k + 1)) false) s)
      | _ => None
      end
  | DDone _ _ => None
  end.

(** One step of call [i]: that of [ClientSystem.run_call], with the delivery that a
    synchronous call begins, and the signal of the interrupt. *)
Definition run_caller (i : nat) (s : System) : option System :=
  c ← calls (client s) !! i;
  client' ← run_call i (client s);
  let s' := with_client client' s in
  match c with
  | Post _ _ =>
      match calls client' !! i with
      | Some (Posting t) => Some (begin_delivery (Caller i) t s')
      | _ => Some s'
      end
  | CloseSignal => Some (with_interrupt (signal_now (interrupt s)) s')
  | _ => Some s'
  end.

(** The result of delivery [n] is returned to its owner. *)
Definition collect (n : nat) (d : job) (result : Result IncidentResponse IncidentError) (s : System) : System :=
  set_delivery n (at_point (DDone result true) d) s.

(** The closure of a task logs a failure. *)
Definition log_failure (result : Result IncidentResponse IncidentError) (s : System) : System :=
  match result with
  | Ok _ => s
  | Err failure =>
      mkSystem (client s) (interrupt s) (net s) (deliveries s) (requests s)
        (debug_log s ++ [lit "oppex: asynchronous incident delivery failed: " ++ fmt_error failure])
  end.

Definition with_dispatcher (d : Dispatcher.Sys DeliveryTask) (s : System) : System :=
  let c := client s in
  with_client (mkClient (inner c) (closed c) (ClientSystem.signalled c) d (calls c)) s.

Definition dispatcher_of (s : System) : Dispatcher.Sys DeliveryTask := dispatcher (client s).

(** The same workers run the same tasks. *)
Definition same_tasks (d d' : Dispatcher.Sys DeliveryTask) : Prop :=
  forall i t, Dispatcher.threads d !! i = Some (WRun t) <-> Dispatcher.threads d' !! i = Some (WRun t).

Inductive step (s : System) : System -> Prop :=
| sys_call (c : call) :
    (exists routed r, c = Post routed r \/ c = PostAsync routed r) \/ c = close_call \/ c = drop_call ->
    step s (with_client (add_call c (client s)) s)
| sys_caller (i : nat) (s' : System) : run_caller i s = Some s' -> step s s'
| sys_post_done (i n : nat) (t : DeliveryTask) (d : job) (result : Result IncidentResponse IncidentError) :
    calls (client s) !! i = Some (Posting t) ->
    deliveries s !! n = Some d -> by_whom d = Caller i -> at_pc d = DDone result false ->
    step s (collect n d result (with_client (set_call i (PostDone result) (client s)) s))
(** A worker takes a task, and begins to deliver it. *)
| sys_take (i : nat) (t : DeliveryTask) (d' : Dispatcher.Sys DeliveryTask) :
    Dispatcher.threads (dispatcher_of s) !! i = Some WLock ->
    run_thread i (dispatcher_of s) = Some d' -> Dispatcher.threads d' !! i = Some (WRun t) ->
    step s (begin_delivery (Worker i) t (with_dispatcher d' s))
(** The task of a worker ends when its delivery has. *)
| sys_task_done (i n : nat) (t : DeliveryTask) (d : job) (result : Result IncidentResponse IncidentError)
    (d' : Dispatcher.Sys DeliveryTask) :
    Dispatcher.threads (dispatcher_of s) !! i = Some (WRun t) ->
    deliveries s !! n = Some d -> by_whom d = Worker i -> at_pc d = DDone result false ->
    run_thread i (dispatcher_of s) = Some d' ->
    step s (log_failure result (collect n d result (with_dispatcher d' s)))
(** Every other step of the dispatcher, but those that enter it, and time. *)
| sys_dispatcher (d' : Dispatcher.Sys DeliveryTask) :
    Dispatcher.step (dispatcher_of s) d' ->
    length (Dispatcher.threads d') = length (Dispatcher.threads (dispatcher_of s)) ->
    Dispatcher.clock d' = Dispatcher.clock (dispatcher_of s) -> same_tasks (dispatcher_of s) d' ->
    step s (with_dispatcher d' s)
(** Every step of the interrupt, but those that enter it, and time. *)
| sys_interrupt (i' : Interrupt.Sys) :
    Interrupt.step (interrupt s) i' -> length (threads i') = length (threads (interrupt s)) ->
    clock i' = clock (interrupt s) -> signalled i' = signalled (interrupt s) ->
    step s (with_interrupt i' s)
| sys_delivery (n : nat) (s' : System) : run_delivery n s = Some s' -> step s s'
(** Time passes for everyone. *)
| sys_tick (t : Z) : (0 <= t)%Z ->
    step s (with_interrupt (Interrupt.mkSys (signalled (interrupt s)) (signal_time (interrupt s))
                              (clock (interrupt s) + t) (threads (interrupt s)))
             (with_dispatcher (Dispatcher.mkSys (Dispatcher.shared (dispatcher_of s))
                                 (Dispatcher.threads (dispatcher_of s))
                                 (Dispatcher.clock (dispatcher_of s) + t)
                                 (Dispatcher.history (dispatcher_of s))) s)).

(** A client just built, at instant [now], on the network [w]. *)
Definition new (self : Inner) (now : Z) (w : W) : System :=
  mkSystem (ClientSystem.new self now) (Interrupt.init now) w [] [] [].

Definition reachable (s : System) : Prop := exists self now w, rtc step (new self now w) s.

(** ** Executing a schedule *)

Inductive event : Type :=
| EPost (routed : bool) (r : IncidentRequest)
| EPostAsync (routed : bool) (r : IncidentRequest)
| EClose
| ECall (i : nat)
| EPostDone (i n : nat)
| ETake (i : nat)
| ETaskDone (i n : nat)
| EDispatch (i : nat)
| ENotifyNone (i : nat)
| EWait (j : nat)
| EDelivery (n : nat)
| ETick (t : Z).

(** What delivery [n] came to, if its result is [o]'s to collect. *)
Definition collectable (n : nat) (o : owner) (s : System) : option (job * Result IncidentResponse IncidentError) :=
  d ← deliveries s !! n;
  match by_whom d, o, at_pc d with
  | Worker i, Worker j, DDone result false | Caller i, Caller j, DDone result false =>
      if (i =? j)%nat then Some (d, result) else None
  | _, _, _ => None
  end.

(** The next step of thread [j] of the interrupt; a wait wakes up at its end. *)
Definition run_wait (j : nat) (i : Interrupt.Sys) : option Interrupt.Sys :=
  match threads i !! j with
  | Some (WaitCall d) => Some (wait_begin j d i)
  | Some (Woken d start) => Some (wait_again j d start i)
  | Some (Waiting d start) =>
      if (start + d <=? clock i)%Z then Some (set_thread j (Woken d start) i) else None
  | _ => None
  end.

Definition running_tasks (d : Dispatcher.Sys DeliveryTask) : list (option DeliveryTask) :=
  (fun p => match p with WRun t => Some t | _ => None end) <$> Dispatcher.threads d.

Definition do_event (e : event) (s : System) : option System :=
  let quiet (d' : Dispatcher.Sys DeliveryTask) :=
    if bool_decide (running_tasks d' = running_tasks (dispatcher_of s)) && (Dispatcher.clock d' =? Dispatcher.clock (dispatcher_of s))%Z
    then Some (with_dispatcher d' s) else None in
  match e with
  | EPost routed r => Some (with_client (add_call (Post routed r) (client s)) s)
  | EPostAsync routed r => Some (with_client (add_call (PostAsync routed r) (client s)) s)
  | EClose => Some (with_client (add_call close_call (client s)) s)
  | ECall i => run_caller i s
  | EPostDone i n =>
      match calls (client s) !! i, collectable n (Caller i) s with
      | Some (Posting _), Some (d, result) =>
          Some (collect n d result (with_client (set_call i (PostDone result) (client s)) s))
      | _, _ => None
      end
  | ETake i =>
      match Dispatcher.threads (dispatcher_of s) !! i, run_thread i (dispatcher_of s) with
      | Some WLock, Some d' =>
          match Dispatcher.threads d' !! i with
          | Some (WRun t) => Some (begin_delivery (Worker i) t (with_dispatcher d' s))
          | _ => None
          end
      | _, _ => None
      end
  | ETaskDone i n =>
      match Dispatcher.threads (dispatcher_of s) !! i, run_thread i (dispatcher_of s), collectable n (Worker i) s with
      | Some (WRun _), Some d', Some (d, result) => Some (log_failure result (collect n d result (with_dispatcher d' s)))
      | _, _, _ => None
      end
  | EDispatch i => d' ← run_thread i (dispatcher_of s); quiet d'
  | ENotifyNone i => d' ← act (ANotifyNone i) (dispatcher_of s); quiet d'
  | EWait j => i' ← run_wait j (interrupt s); Some (with_interrupt i' s)
  | EDelivery n => run_delivery n s
  | ETick t =>
      if (0 <=? t)%Z
      then Some (with_interrupt (Interrupt.mkSys (signalled (interrupt s)) (signal_time (interrupt s))
                                   (clock (interrupt s) + t) (threads (interrupt s)))
                   (with_dispatcher (Dispatcher.mkSys (Dispatcher.shared (dispatcher_of s))
                                       (Dispatcher.threads (dispatcher_of s))
                                       (Dispatcher.clock (dispatcher_of s) + t)
                                       (Dispatcher.history (dispatcher_of s))) s))
      else None
  end.

Fixpoint play_events (l : list event) (s : System) : option System :=
  match l with
  | [] => Some s
  | e :: l => s' ← do_event e s; play_events l s'
  end.

Lemma play_events_app (l1 l2 : list event) (s : System) :
  play_events (l1 ++ l2) s = s' ← play_events l1 s; play_events l2 s'.
Proof.
  revert s. induction l1 as [|e l1 IH]; intros s; [done|].
  cbn [app play_events]. destruct (do_event e s) as [s1|]; [|done]. cbn [mbind option_bind]. apply IH.
Qed.

Lemma collectable_spec (n : nat) (o : owner) (s : System) (d : job) (result : Result IncidentResponse IncidentError) :
  collectable n o s = Some (d, result) -> deliveries s !! n = Some d /\ by_whom d = o /\ at_pc d = DDone result false.
Proof.
  unfold collectable. destruct (deliveries s !! n) as [e|]; [|done]. simpl.
  destruct (by_whom e) as [i|i] eqn:Hb, o as [j|j], (at_pc e) as [| | | |r []] eqn:Hpc; try done;
    destruct (Nat.eqb_spec i j); intros; by simplify_eq.
Qed.

Lemma run_wait_step (j : nat) (i i' : Interrupt.Sys) : run_wait j i = Some i' ->
  Interrupt.step i i' /\ length (threads i') = length (threads i) /\ clock i' = clock i /\ signalled i' = signalled i.
Proof.
  unfold run_wait. destruct (threads i !! j) as [p|] eqn:Hj; [|done].
  destruct p as [| |d|d st|d st|]; try done; [|destruct (Z.leb_spec (st + d) (clock i)); [|done]|];
    intros [= <-]; (split; [|simpl; by rewrite length_insert]).
  - by apply step_wait.
  - by apply step_timeout.
  - by apply step_again.
Qed.

Lemma same_running (d d' : Dispatcher.Sys DeliveryTask) :
  running_tasks d' = running_tasks d ->
  length (Dispatcher.threads d') = length (Dispatcher.threads d) /\ same_tasks d d'.
Proof.
  unfold running_tasks. intros Heq.
  split; [by apply (f_equal length) in Heq; rewrite !length_fmap in Heq|].
  intros i t. apply (f_equal (lookup i)) in Heq. rewrite !list_lookup_fmap in Heq.
  destruct (Dispatcher.threads d' !! i) as [[]|], (Dispatcher.threads d !! i) as [[]|]; simplify_eq/=; by split; intros; simplify_eq.
Qed.

Lemma do_event_step (e : event) (s s' : System) : do_event e s = Some s' -> step s s'.
Proof.
  assert (Hquiet : forall d', Dispatcher.step (dispatcher_of s) d' ->
    (if bool_decide (running_tasks d' = running_tasks (dispatcher_of s)) && (Dispatcher.clock d' =? Dispatcher.clock (dispatcher_of s))%Z
     then Some (with_dispatcher d' s) else None) = Some s' -> step s s').
  { intros d' Hd. case_bool_decide as Hrun; [|done]. destruct (Z.eqb_spec (Dispatcher.clock d') (Dispatcher.clock (dispatcher_of s)));
      [|done]. intros [= <-]. destruct (same_running _ _ Hrun). by apply sys_dispatcher. }
  destruct e as [routed r|routed r| |i|i n|i|i n|i|i|j|n|t]; cbn [do_event].
  - intros [= <-]. apply sys_call. eauto.
  - intros [= <-]. apply sys_call. eauto.
  - intros [= <-]. apply sys_call. by right; left.
  - apply sys_caller.
  - destruct (calls (client s) !! i) as [[]|] eqn:Hi; try done.
    destruct (collectable n (Caller i) s) as [[d result]|] eqn:Hc; [|done]. intros [= <-].
    apply collectable_spec in Hc as (Hn & Hb & Hpc). by eapply sys_post_done.
  - destruct (Dispatcher.threads (dispatcher_of s) !! i) as [[]|] eqn:Hi; try done.
    destruct (run_thread i (dispatcher_of s)) as [d'|] eqn:Hrun; [|done].
    destruct (Dispatcher.threads d' !! i) as [[]|] eqn:Ht; try done. intros [= <-]. by apply sys_take.
  - destruct (Dispatcher.threads (dispatcher_of s) !! i) as [[]|] eqn:Hi; try done.
    destruct (run_thread i (dispatcher_of s)) as [d'|] eqn:Hrun; [|done].
    destruct (collectable n (Worker i) s) as [[d result]|] eqn:Hc; [|done]. intros [= <-].
    apply collectable_spec in Hc as (Hn & Hb & Hpc). by eapply sys_task_done.
  - destruct (run_thread i (dispatcher_of s)) as [d'|] eqn:Hrun; [|done]. apply Hquiet. by eapply Dispatcher.step_run.
  - destruct (act (ANotifyNone i) (dispatcher_of s)) as [d'|] eqn:Hact; [|done]. apply Hquiet. by eapply act_step.
  - destruct (run_wait j (interrupt s)) as [i'|] eqn:Hrun; [|done]. intros [= <-].
    destruct (run_wait_step _ _ _ Hrun) as (? & ? & ? & ?). by apply sys_interrupt.
  - apply sys_delivery.
  - destruct (Z.leb_spec 0 t); [|done]. intros [= <-]. by apply sys_tick.
Qed.

Lemma play_events_steps (l : list event) (s s' : System) : play_events l s = Some s' -> rtc step s s'.
Proof.
  revert s. induction l as [|e l IH]; cbn [play_events]; intros s Hplay; [by simplify_eq|].
  destruct (do_event e s) as [s1|] eqn:He; [|done]. eapply rtc_l; [by eapply do_event_step|by apply IH].
Qed.
End DeliverySystem.
