(* ===== verification/DeliveryInv.v ===== *)
(** * Invariants of the whole system

    What holds of every delivery of [DeliverySystem], whatever interleaves with it:
    the part of the sequential retry loop it has run so far, what its attempts and
    backoffs have to do with the clock and the signal, and whose task it is. *)

From stdpp Require Import prelude list relations.
From S2P Require Import Prelude Error Response Request Json Retry Transport DropLogger Dispatcher DispatcherInv Client ClientSystem.
From S2P Require Import Interrupt InterruptWorld DeliverySystem.

(** ** A delivery as a run of the sequential loop *)

Section Replay.
Context {W : Type} `{SerdeJson} `{!Ureq W}.
Implicit Type d : job (W := W).

(** A world that is a script: what the attempts come to, and what the waits answer. *)
Record Script : Type := mkScript {
  results : list (Result IncidentResponse IncidentError);
  waits : list bool;
}.

#[export] Instance script_waiter : Waiter Script := {|
  now _ := 0%Z;
  signal_at _ := None;
  wait _ w := (default true (head (waits w)), mkScript (results w) (tail (waits w)));
|}.

(** The operation that plays the script. *)
Definition recorded (w : Script) : Result IncidentResponse IncidentError * Script :=
  (default (Err interrupted) (head (results w)), mkScript (tail (results w)) (waits w)).

(** The script of a delivery. *)
Definition outcomes d : list (Result IncidentResponse IncidentError) := outcome <$> attempts d.

(** From the script of [d] the loop gets, in [k] backoffs, to where the script that
    is left begins with [os]. *)
Definition replays (delays : list Z) (k : nat) d (os : list (Result IncidentResponse IncidentError)) : Prop :=
  forall os' bs', backoff delays recorded
    (mkScript (outcomes d ++ os') (answers d ++ bs')) k (mkScript (os ++ os') bs').

Definition replay_ok (delays : list Z) d : Prop :=
  match at_pc d with
  | DSend k | DHead k _ _ | DBody k _ _ _ _ =>
      k <= length delays /\ length (attempts d) = k /\ replays delays k d []
  | DWait k _ =>
      k < length delays /\ length (attempts d) = S k /\
      exists failure, is_retryable failure = true /\ replays delays k d [Err failure]
  | DDone result _ =>
      1 <= length (attempts d) <= S (length delays) /\
      runs_to delays recorded (mkScript (outcomes d) (answers d)) result (mkScript [] [])
  end.

Definition settled (delays : list Z) (k : nat) (j : nat) (r : Result IncidentResponse IncidentError) : dpc (W := W) :=
  match settle delays k r with
  | Finish result => DDone result false
  | Backoff _ => DWait k j
  end.

(** One more outcome on the script. *)
Lemma replays_snoc (delays : list Z) (k : nat) d d' (r : Result IncidentResponse IncidentError) :
  replays delays k d [] -> outcomes d' = outcomes d ++ [r] -> answers d' = answers d ->
  replays delays k d' [r].
Proof.
  intros Hr Ho Ha os' bs'. rewrite Ho, Ha, <-app_assoc. apply (Hr ([r] ++ os') bs').
Qed.

(** An attempt that ends keeps the delivery on the loop. *)
Lemma settle_replay (delays : list Z) (k j : nat) d d' (r : Result IncidentResponse IncidentError) (a : attempt) :
  k <= length delays -> length (attempts d) = k -> replays delays k d [] ->
  attempts d' = attempts d ++ [a] -> outcome a = r -> answers d' = answers d ->
  at_pc d' = settled delays k j r -> replay_ok delays d'.
Proof.
  intros Hk Hlen Hrep Hatt Ha Hans Hpc.
  assert (Ho : outcomes d' = outcomes d ++ [r]) by (unfold outcomes; by rewrite Hatt, fmap_app; simpl; rewrite Ha).
  pose proof (replays_snoc _ _ _ _ _ Hrep Ho Hans) as Hrep'.
  assert (Hlen' : length (attempts d') = S k) by (rewrite Hatt, length_app; simpl; lia).
  assert (Hend : backoff delays recorded (mkScript (outcomes d') (answers d')) k (mkScript [r] [])).
  { pose proof (Hrep' [] []) as Hb. by rewrite !app_nil_r in Hb. }
  unfold replay_ok. rewrite Hpc. unfold settled, settle.
  destruct r as [value|failure].
  - split; [lia|]. exists k, (mkScript [Ok value] []). split_and!; [done|done|]. by constructor.
  - destruct (is_retryable failure) eqn:Hret; simpl.
    + destruct (Nat.leb_spec (length delays) k).
      * split; [lia|]. exists k, (mkScript [Err failure] []). split_and!; [done|done|].
        apply finishes_exhausted; [done|done|lia].
      * split; [lia|]. split; [done|]. by exists failure.
    + split; [lia|]. exists k, (mkScript [Err failure] []). split_and!; [done|done|].
      by apply finishes_permanent.
Qed.

(** An answer of the interrupt keeps it there too. *)
Lemma answer_replay (delays : list Z) (k j : nat) d d' (answer : bool) :
  at_pc d = DWait k j -> replay_ok delays d ->
  attempts d' = attempts d -> answers d' = answers d ++ [answer] ->
  at_pc d' = (if answer then DDone (Err interrupted) false else DSend (k + 1)) -> replay_ok delays d'.
Proof.
  unfold replay_ok at 1. intros -> (Hk & Hlen & failure & Hret & Hrep) Hatt Hans Hpc.
  assert (Ho : outcomes d' = outcomes d) by (unfold outcomes; by rewrite Hatt).
  unfold replay_ok. rewrite Hpc. destruct answer.
  - rewrite Hatt, Hlen. split; [lia|]. exists k, (mkScript [Err failure] [true]). split_and!; [lia| |].
    + pose proof (Hrep [] [true]) as Hb. rewrite !app_nil_r in Hb. by rewrite Ho, Hans.
    + by eapply finishes_interrupted.
  - rewrite Hatt, Hlen. split_and!; [lia|lia|]. intros os' bs'. rewrite Ho, Hans, <-app_assoc, Nat.add_1_r.
    eapply backoff_next; [apply (Hrep os' ([false] ++ bs'))|done|done|done|done].
Qed.
End Replay.

(** ** What a step does to the deliveries *)

Section Moves.
Context {W : Type} `{SerdeJson} `{!Ureq W}.
Implicit Types (s : System (W := W)) (d : job (W := W)) (I : Interrupt.Sys).

Definition just_begun (o : owner) (t : DeliveryTask) : job (W := W) := mkJob o t (DSend 0) [] [].

(** The attempt [d] is in the middle of. *)
Definition attempting d (k : nat) (start : Z) (late : bool) : Prop :=
  match at_pc d with
  | DHead k' start' late' | DBody k' start' late' _ _ => k' = k /\ start' = start /\ late' = late
  | _ => False
  end.

(** A step of one delivery, and what it does to the interrupt. *)
Inductive move (delays : list Z) I d : Interrupt.Sys -> job (W := W) -> Prop :=
| move_send (k : nat) : at_pc d = DSend k ->
    move delays I d I (at_point (DHead k (clock I) (signalled I)) d)
| move_head (k : nat) (start : Z) (late : bool) (status : Z) (response : Body) :
    at_pc d = DHead k start late ->
    move delays I d I (at_point (DBody k start late status response) d)
| move_finish (k : nat) (start : Z) (late : bool) (r result : Result IncidentResponse IncidentError) :
    attempting d k start late -> settle delays k r = Finish result ->
    move delays I d I (mkJob (by_whom d) (task d) (DDone result false)
                         (attempts d ++ [mkAttempt start (clock I) late r]) (answers d))
| move_backoff (k : nat) (start : Z) (late : bool) (r : Result IncidentResponse IncidentError) (delay : Z) :
    attempting d k start late -> settle delays k r = Backoff delay ->
    move delays I d (set_threads (threads I ++ [WaitCall delay]) I)
      (mkJob (by_whom d) (task d) (DWait k (length (threads I)))
         (attempts d ++ [mkAttempt start (clock I) late r]) (answers d))
| move_answer (k j : nat) (answer : bool) (delay start finish : Z) :
    at_pc d = DWait k j -> threads I !! j = Some (WaitDone answer delay start finish) ->
    move delays I d I (mkJob (by_whom d) (task d) (if answer then DDone (Err interrupted) false else DSend (k + 1))
                         (attempts d) (answers d ++ [answer]))
| move_collect (result : Result IncidentResponse IncidentError) : at_pc d = DDone result false ->
    move delays I d I (at_point (DDone result true) d).

(** The requests a step of delivery [n] sends. *)
Definition sending s (n : nat) d : list (nat * HttpRequest) :=
  match at_pc d with DSend _ => [(n, request_of (inner_of s) (task d))] | _ => [] end.

(** A step of the system leaves the deliveries alone, begins one, or is a step of one. *)
Inductive moves s s' : Prop :=
| moves_none : rtc Interrupt.step (interrupt s) (interrupt s') -> deliveries s' = deliveries s ->
    requests s' = requests s -> moves s s'
| moves_begin (o : owner) (t : DeliveryTask) : interrupt s' = interrupt s ->
    deliveries s' = deliveries s ++ [just_begun o t] -> requests s' = requests s -> moves s s'
| moves_one (n : nat) d d' : deliveries s !! n = Some d ->
    move (retry_delays (inner_of s)) (interrupt s) d (interrupt s') d' ->
    deliveries s' = <[n := d']> (deliveries s) -> requests s' = requests s ++ sending s n d -> moves s s'.

(** A step of delivery [n]. *)
Definition moved s s' (n : nat) : Prop :=
  exists d d', deliveries s !! n = Some d /\
    move (retry_delays (inner_of s)) (interrupt s) d (interrupt s') d' /\
    deliveries s' = <[n := d']> (deliveries s) /\ requests s' = requests s ++ sending s n d.

Lemma conclude_moved s s1 (n k : nat) d (start : Z) (late : bool) (r : Result IncidentResponse IncidentError) :
  deliveries s !! n = Some d -> attempting d k start late ->
  client s1 = client s -> interrupt s1 = interrupt s -> deliveries s1 = deliveries s -> requests s1 = requests s ->
  moved s (conclude n d k start late r s1) n.
Proof.
  intros Hn Hat Hc Hi Hd Hr. unfold conclude, inner_of, now_of. rewrite Hc, Hi.
  assert (Hs : sending s n d = []) by (unfold sending, attempting in *; by destruct (at_pc d)).
  exists d. destruct (settle _ k r) as [result|delay] eqn:Hset.
  all: eexists; split; [done|]; split; [|split; [simpl; by rewrite Hd|simpl; by rewrite Hr, Hs, app_nil_r]].
  all: simpl; try rewrite Hi; by econstructor.
Qed.

Lemma run_delivery_moved s s' (n : nat) : run_delivery n s = Some s' -> moved s s' n.
Proof.
  unfold run_delivery. destruct (deliveries s !! n) as [d|] eqn:Hn; [|done]. simpl.
  assert (Hone : forall s1 d', move (retry_delays (inner_of s)) (interrupt s) d (interrupt s1) d' ->
            deliveries s1 = <[n := d']> (deliveries s) -> requests s1 = requests s ++ sending s n d -> moved s s1 n)
    by (intros s1 d' ? ? ?; by exists d, d').
  destruct (at_pc d) as [k|k start late|k start late st b|k j|r c] eqn:Hpc; [| | | |done].
  - intros [= <-]. eapply Hone; [by apply move_send|done|unfold sending; by rewrite Hpc].
  - assert (Hat : attempting d k start late) by (unfold attempting; by rewrite Hpc).
    destruct (http_send _ _ _) as [[[st b]|c] w]; intros [= <-]; [|by apply conclude_moved].
    eapply Hone; [by apply move_head|done|unfold sending; by rewrite Hpc, app_nil_r].
  - assert (Hat : attempting d k start late) by (unfold attempting; by rewrite Hpc).
    destruct (read_to_string _ _ _) as [r w]. intros [= <-]. by apply conclude_moved.
  - destruct (threads (interrupt s) !! j) as [[| | | | |answer dl st fin]|] eqn:Hj; try done.
    pose proof (move_answer (retry_delays (inner_of s)) _ d k j answer dl st fin Hpc Hj) as Hmove.
    destruct answer; intros [= <-]; (eapply Hone; [exact Hmove|done|unfold sending; by rewrite Hpc, app_nil_r]).
Qed.

Lemma moved_moves s s' (n : nat) : moved s s' n -> moves s s'.
Proof. intros (d & d' & Hn & Hm & Hd & Hr). by eapply moves_one. Qed.

Lemma run_delivery_moves s s' (n : nat) : run_delivery n s = Some s' -> moves s s'.
Proof. intros Hrun. by eapply moved_moves, run_delivery_moved. Qed.

Lemma signal_now_rtc I : rtc Interrupt.step I (signal_now I).
Proof.
  eapply rtc_l; [apply (Interrupt.step_call I SignalCall); by left|]. apply rtc_once.
  apply Interrupt.step_signal. simpl. by apply list_lookup_middle.
Qed.

Lemma run_caller_moves s s' (i : nat) : run_caller i s = Some s' -> moves s s'.
Proof.
  unfold run_caller. destruct (calls (client s) !! i) as [c|]; [|done]. simpl.
  destruct (run_call i (client s)) as [c1|]; [|done]. simpl.
  assert (Hquiet : moves s (with_client c1 s)) by (by apply moves_none).
  destruct c; try (by intros [= <-]).
  - destruct (calls c1 !! i) as [[]|]; intros [= <-]; try done. by eapply moves_begin.
  - intros [= <-]. apply moves_none; [apply signal_now_rtc|done|done].
Qed.

Lemma collect_moves s s1 (n : nat) d (result : Result IncidentResponse IncidentError) :
  deliveries s !! n = Some d -> at_pc d = DDone result false ->
  interrupt s1 = interrupt s -> deliveries s1 = deliveries s -> requests s1 = requests s ->
  moves s (collect n d result s1).
Proof.
  intros Hn Hpc Hi Hd Hr. eapply (moves_one _ _ n d); simpl; [done| |by rewrite Hd|].
  - rewrite Hi. by apply move_collect.
  - unfold sending. by rewrite Hpc, Hr, app_nil_r.
Qed.

Lemma step_moves s s' : step s s' -> moves s s'.
Proof.
  destruct 1 as [c Hc|i s' Hrun|i n t d result Hi Hn Ho Hpc|i t d' Hi Hrun Ht|i n t d result d' Hi Hn Ho Hpc Hrun
    |d' Hd Hlen Hclk Hsame|i' Hi Hlen Hclk Hsig|n s' Hrun|t Ht].
  - by apply moves_none.
  - by eapply run_caller_moves.
  - by apply collect_moves.
  - by eapply moves_begin.
  - assert (Hm : moves s (collect n d result (with_dispatcher d' s))) by (by apply collect_moves).
    destruct result as [v|e]; [done|]. destruct Hm; [by eapply moves_none|by eapply moves_begin|by eapply moves_one].
  - by apply moves_none.
  - apply moves_none; [by apply rtc_once|done|done].
  - by eapply run_delivery_moves.
  - apply moves_none; [|done|done]. by apply rtc_once, Interrupt.step_tick.
Qed.
End Moves.

(** ** Induction over the steps of the deliveries *)

Section JobInvariant.
Context {W : Type} `{SerdeJson} `{!Ureq W}.
Implicit Types (s : System (W := W)) (d : job (W := W)) (I : Interrupt.Sys).

Lemma run_call_inner (c c' : Client) (i : nat) : run_call i c = Some c' -> inner c' = inner c.
Proof.
  unfold run_call. destruct (calls c !! i) as [p|]; [|done]. simpl.
  destruct p; intros; repeat case_match; by simplify_eq.
Qed.

Lemma run_caller_client s s' (i : nat) : run_caller i s = Some s' -> run_call i (client s) = Some (client s').
Proof.
  unfold run_caller. destruct (calls (client s) !! i) as [c|]; [|done]. simpl.
  destruct (run_call i (client s)) as [c1|]; [|done]. simpl.
  destruct c; intros; repeat case_match; by simplify_eq.
Qed.

Lemma conclude_client s (n k : nat) d (start : Z) (late : bool) (r : Result IncidentResponse IncidentError) :
  client (conclude n d k start late r s) = client s.
Proof. unfold conclude. by destruct (settle _ k r). Qed.

Lemma run_delivery_client s s' (n : nat) : run_delivery n s = Some s' -> client s' = client s.
Proof.
  unfold run_delivery. destruct (deliveries s !! n) as [d|]; [|done]. simpl.
  destruct (at_pc d); intros; repeat case_match; simplify_eq; by rewrite ?conclude_client.
Qed.

Lemma log_failure_client s (r : Result IncidentResponse IncidentError) : client (log_failure r s) = client s.
Proof. by destruct r. Qed.

Lemma step_inner s s' : step s s' -> inner_of s' = inner_of s.
Proof.
  destruct 1; unfold inner_of; rewrite ?log_failure_client; try done.
  - by eapply run_call_inner, run_caller_client.
  - by erewrite run_delivery_client.
Qed.

Lemma system_ind (P : System -> Prop) :
  (forall self now w, P (new self now w)) ->
  (forall s s', reachable s -> P s -> step s s' -> P s') ->
  forall s, reachable s -> P s.
Proof.
  intros Hinit Hpres s (self & now & w & Hrtc). revert s Hrtc.
  apply rtc_ind_r; [apply Hinit|]. intros s1 s2 Hrtc Hstep IH.
  apply (Hpres s1); [by exists self, now, w|done|done].
Qed.

Lemma system_reachable_rtc s s' : reachable s -> rtc step s s' -> reachable s'.
Proof. intros (self & now & w & Hrtc) Hs. exists self, now, w. by etrans. Qed.

Lemma move_interrupt (delays : list Z) I I' d d' : move delays I d I' d' -> rtc Interrupt.step I I'.
Proof. destruct 1; try done. apply rtc_once, Interrupt.step_call. eauto. Qed.

Lemma interrupt_reachable_rtc I I' : Interrupt.reachable I -> rtc Interrupt.step I I' -> Interrupt.reachable I'.
Proof. intros [t Ht] Hs. exists t. by etrans. Qed.

Lemma step_interrupt s s' : step s s' -> rtc Interrupt.step (interrupt s) (interrupt s').
Proof.
  intros [Hi _ _|o t -> _ _|n d d' _ Hm _ _]%step_moves; [done|done|by eapply move_interrupt].
Qed.

Lemma interrupt_reachable s : reachable s -> Interrupt.reachable (interrupt s).
Proof.
  revert s. apply (system_ind (fun s => Interrupt.reachable (interrupt s))); [intros self now w; exists now; apply rtc_refl|].
  intros s s' _ IH Hstep. eapply interrupt_reachable_rtc; [done|by apply step_interrupt].
Qed.

(** What every delivery satisfies when it begins, and keeps whatever the interrupt
    does and whatever the delivery does, it satisfies always. *)
Lemma job_invariant (P : list Z -> Interrupt.Sys -> job -> Prop) :
  (forall delays I o t, Interrupt.reachable I -> P delays I (just_begun o t)) ->
  (forall delays I I' d, Interrupt.reachable I -> Interrupt.step I I' -> P delays I d -> P delays I' d) ->
  (forall delays I I' d d', Interrupt.reachable I -> move delays I d I' d' -> P delays I d -> P delays I' d') ->
  forall s, reachable s ->
    forall n d, deliveries s !! n = Some d -> P (retry_delays (inner_of s)) (interrupt s) d.
Proof.
  intros Hbegin Hint Hmove.
  apply (system_ind (fun s => forall n d, deliveries s !! n = Some d -> P _ (interrupt s) d)); [done|].
  intros s s' Hreach IH Hstep n d Hn. pose proof (interrupt_reachable _ Hreach) as HI.
  rewrite (step_inner _ _ Hstep).
  assert (Hrtc : forall I I' e, Interrupt.reachable I -> rtc Interrupt.step I I' ->
            P (retry_delays (inner_of s)) I e -> P (retry_delays (inner_of s)) I' e).
  { intros I I' e HI1 Hs. revert HI1. induction Hs as [|I1 I2 I3 HI12 _ IHs]; [done|].
    intros HI1 HP. apply IHs; [|by eapply Hint]. by eapply interrupt_reachable_step. }
  apply step_moves in Hstep as [Hi Hd _|o t Hi Hd _|m e e' Hm He Hd _]; rewrite Hd in Hn.
  - eapply Hrtc; [done|done|]. by eapply IH.
  - rewrite Hi. apply lookup_app_Some in Hn as [Hn|[_ Hn]]; [by eapply IH|].
    apply list_lookup_singleton_Some in Hn as [_ <-]. by apply Hbegin.
  - apply list_lookup_insert_Some in Hn as [(-> & <- & _)|(_ & Hn)].
    + eapply Hmove; [done|done|by eapply IH].
    + eapply Hrtc; [done|by eapply move_interrupt|by eapply IH].
Qed.
End JobInvariant.

(** ** Every delivery is a run of the loop, so far *)

Section Loop.
Context {W : Type} `{SerdeJson} `{!Ureq W}.
Implicit Types (s : System (W := W)) (d : job (W := W)) (I : Interrupt.Sys).

Lemma replay_attempting (delays : list Z) d (k : nat) (start : Z) (late : bool) :
  attempting d k start late -> replay_ok delays d ->
  k <= length delays /\ length (attempts d) = k /\ replays delays k d [].
Proof.
  unfold attempting, replay_ok. destruct (at_pc d); try done; by intros (-> & _).
Qed.

Lemma replay_begun (delays : list Z) (o : owner) (t : DeliveryTask) : replay_ok delays (just_begun (W := W) o t).
Proof. split; [simpl; lia|]. split; [done|]. intros os bs. constructor. Qed.

Lemma replay_move (delays : list Z) I I' d d' : move delays I d I' d' -> replay_ok delays d -> replay_ok delays d'.
Proof.
  destruct 1 as [k Hpc|k start late st b Hpc|k start late r result Hat Hset|k start late r delay Hat Hset
    |k j answer dl st fin Hpc Hj|result Hpc]; intros Hok.
  - unfold replay_ok in *. by rewrite Hpc in Hok.
  - unfold replay_ok in *. by rewrite Hpc in Hok.
  - destruct (replay_attempting _ _ _ _ _ Hat Hok) as (Hk & Hlen & Hrep).
    eapply (settle_replay _ k 0 _ _ r); [done|done|done|done|done|done|]. unfold settled. by rewrite Hset.
  - destruct (replay_attempting _ _ _ _ _ Hat Hok) as (Hk & Hlen & Hrep).
    eapply (settle_replay _ k _ _ _ r); [done|done|done|done|done|done|]. unfold settled. by rewrite Hset.
  - by eapply answer_replay.
  - unfold replay_ok in *. by rewrite Hpc in Hok.
Qed.

Lemma replay_invariant s :
  reachable s -> forall n d, deliveries s !! n = Some d -> replay_ok (retry_delays (inner_of s)) d.
Proof.
  apply (job_invariant (fun delays _ d => replay_ok delays d)).
  - intros. apply replay_begun.
  - done.
  - intros delays I I' d d' _. apply replay_move.
Qed.
End Loop.

(** ** The clock, the signal and the backoffs of a delivery *)

Section Timed.
Context {W : Type} `{SerdeJson} `{!Ureq W}.
Implicit Types (s : System (W := W)) (d : job (W := W)) (I : Interrupt.Sys).

(** A thread of the interrupt that was to wait for [delay], called no earlier than
    [lo], and after the signal when [late]. *)
Definition waits_for (delay lo : Z) (late : bool) (p : Interrupt.pc) : Prop :=
  match p with
  | WaitCall d => d = delay
  | Waiting d start | Woken d start => d = delay /\ (lo <= start)%Z
  | WaitDone result d start _ => d = delay /\ (lo <= start)%Z /\ (late = true -> result = true)
  | SignalCall | SignalDone => False
  end.

Lemma check_waits (delay lo now start : Z) (late flag : bool) :
  (lo <= start)%Z -> (late = true -> flag = true) -> waits_for delay lo late (check now delay start flag).
Proof.
  intros Hlo Hlate. destruct (check_cases now delay start flag) as [-> | ->]; by simpl.
Qed.

Lemma waits_step I I' (j : nat) (p : Interrupt.pc) (delay lo : Z) (late : bool) :
  Interrupt.step I I' -> (lo <= clock I)%Z -> (late = true -> signalled I = true) ->
  threads I !! j = Some p -> waits_for delay lo late p ->
  exists p', threads I' !! j = Some p' /\ waits_for delay lo late p'.
Proof.
  intros Hstep Hlo Hlate Hj Hp.
  assert (Hset : forall i q (l : list Interrupt.pc), l !! j = Some p -> (i = j -> waits_for delay lo late q) ->
            exists p', <[i := q]> l !! j = Some p' /\ waits_for delay lo late p').
  { intros i q l Hl Hq. destruct (decide (i = j)) as [->|Hne].
    - exists q. split; [|by apply Hq]. apply list_lookup_insert_eq. by eapply lookup_lt_Some.
    - exists p. by rewrite list_lookup_insert_ne. }
  destruct Hstep as [I q Hq|I t Ht|I i Hi|I i dl Hi|I i dl st Hi|I i dl st Hi Hle|I i dl st Hi]; simpl.
  - exists p. split; [by apply lookup_app_l_Some|done].
  - by exists p.
  - assert (Hne : i <> j) by (intros ->; rewrite Hi in Hj; by simplify_eq).
    exists (wake p). rewrite list_lookup_insert_ne, list_lookup_fmap, Hj by done.
    split; [done|]. by destruct p.
  - apply Hset; [done|]. intros ->. simplify_eq/=. by apply check_waits.
  - apply Hset; [done|]. intros ->. simplify_eq/=. destruct Hp as [-> Hp]. by apply check_waits.
  - apply Hset; [done|]. intros ->. by simplify_eq/=.
  - apply Hset; [done|]. intros ->. by simplify_eq/=.
Qed.

(** At instant [t] the next attempt may begin: there was none, or the last one began
    before the signal and its delay has passed. *)
Definition ready (delays : list Z) d (t : Z) : Prop :=
  forall a, last (attempts d) = Some a ->
    after_signal a = false /\ (ended a + nth (length (attempts d) - 1) delays 0 <= t)%Z.

Definition pc_timed (delays : list Z) I d : Prop :=
  match at_pc d with
  | DSend _ => ready delays d (clock I)
  | DHead _ start late | DBody _ start late _ _ =>
      ready delays d start /\ (start <= clock I)%Z /\ (late = true -> signalled I = true)
  | DWait _ j => exists a p, last (attempts d) = Some a /\ threads I !! j = Some p /\
      waits_for (nth (length (attempts d) - 1) delays 0%Z) (ended a) (after_signal a) p
  | DDone _ _ => True
  end.

Record timed_ok (delays : list Z) I d : Prop := {
  timed_spaced : forall k a a', attempts d !! k = Some a -> attempts d !! S k = Some a' ->
    (ended a + nth k delays 0 <= began a')%Z;
  timed_each : forall k a, attempts d !! k = Some a ->
    (began a <= ended a <= clock I)%Z /\ (after_signal a = true -> signalled I = true);
  timed_last : forall k a, attempts d !! k = Some a -> after_signal a = true -> S k = length (attempts d);
  timed_answers : true ∈ answers d -> signalled I = true;
  timed_pc : pc_timed delays I d;
}.

Lemma clock_grows I I' : Interrupt.step I I' -> (clock I <= clock I')%Z.
Proof. destruct 1; simpl; lia. Qed.

Lemma signal_stays I I' : Interrupt.step I I' -> signalled I = true -> signalled I' = true.
Proof. by destruct 1. Qed.

Lemma timed_begun (delays : list Z) I (o : owner) (t : DeliveryTask) : timed_ok delays I (just_begun o t).
Proof. split; simpl; try done. by intros Hin%elem_of_nil. Qed.

Lemma timed_interrupt (delays : list Z) I I' d :
  Interrupt.step I I' -> timed_ok delays I d -> timed_ok delays I' d.
Proof.
  intros Hstep [Hsp Heach Hlast Hans Hpc]. pose proof (clock_grows _ _ Hstep) as Hclk.
  pose proof (signal_stays _ _ Hstep) as Hsig. split; auto.
  - intros k a Hk. destruct (Heach _ _ Hk) as [? ?]. split; [lia|auto].
  - unfold pc_timed in *. destruct (at_pc d) as [k|k start late|k start late st b|k j|r c]; [| | | |done].
    + intros a Ha. destruct (Hpc a Ha). split; [done|lia].
    + destruct Hpc as (? & ? & ?). split_and!; [done|lia|auto].
    + destruct Hpc as (? & ? & ?). split_and!; [done|lia|auto].
    + destruct Hpc as (a & p & Ha & Hj & Hp). rewrite last_lookup in Ha. destruct (Heach _ _ Ha) as [[? Hend] ?].
      destruct (waits_step _ _ _ _ _ _ _ Hstep Hend ltac:(done) Hj Hp) as (p' & Hj' & Hp').
      exists a, p'. by rewrite last_lookup.
Qed.

(** The attempt under way. *)
Lemma attempting_timed (delays : list Z) I d (k : nat) (start : Z) (late : bool) :
  attempting d k start late -> pc_timed delays I d ->
  ready delays d start /\ (start <= clock I)%Z /\ (late = true -> signalled I = true).
Proof. unfold attempting, pc_timed. destruct (at_pc d); try done; by intros (_ & -> & ->). Qed.

(** One more attempt. *)
Lemma timed_attempt (delays : list Z) I d d' (start : Z) (late : bool) (r : Result IncidentResponse IncidentError) :
  timed_ok delays I d -> ready delays d start -> (start <= clock I)%Z -> (late = true -> signalled I = true) ->
  attempts d' = attempts d ++ [mkAttempt start (clock I) late r] -> answers d' = answers d ->
  pc_timed delays I d' -> timed_ok delays I d'.
Proof.
  intros [Hsp Heach Hlast Hans _] Hready Hstart Hlate Hatt Hsame Hpc.
  split; rewrite ?Hatt, ?Hsame; [| | |done|done].
  - intros k a a' Hk Hk'. apply lookup_app_Some in Hk' as [Hk'|[Hle Hk']].
    + rewrite lookup_app_l in Hk by (apply lookup_lt_Some in Hk'; lia). eauto.
    + apply list_lookup_singleton_Some in Hk' as [Hz <-].
      assert (Hlen : length (attempts d) = S k) by lia.
      rewrite lookup_app_l in Hk by lia.
      destruct (Hready a) as [_ Ha]; [rewrite last_lookup, Hlen; done|].
      rewrite Hlen in Ha. simpl in Ha. by rewrite Nat.sub_0_r in Ha.
  - intros k a Hk. apply lookup_app_Some in Hk as [Hk|[_ Hk]]; [eauto|].
    apply list_lookup_singleton_Some in Hk as [_ <-]. simpl. split; [lia|done].
  - intros k a Hk Ha. rewrite length_app. simpl. apply lookup_app_Some in Hk as [Hk|[Hle Hk]].
    + pose proof (Hlast _ _ Hk Ha) as Hlen.
      destruct (Hready a) as [Hno _]; [by rewrite last_lookup, <-Hlen|congruence].
    + apply list_lookup_singleton_Some in Hk as [Hz _]. lia.
Qed.

Lemma timed_move (delays : list Z) I I' d d' :
  Interrupt.reachable I -> move delays I d I' d' -> replay_ok delays d -> timed_ok delays I d -> timed_ok delays I' d'.
Proof.
  intros HI Hmove Hrep Hok. pose proof (timed_pc _ _ _ Hok) as Hpc. pose proof Hok as [Hsp Heach Hlast Hans _].
  destruct Hmove as [k Hk|k start late st b Hk|k start late r result Hat Hset|k start late r delay Hat Hset
    |k j answer dl st fin Hk Hj|result Hk].
  - split; try done. unfold pc_timed in *. rewrite Hk in Hpc. simpl. done.
  - split; try done. unfold pc_timed in *. by rewrite Hk in Hpc.
  - destruct (attempting_timed _ _ _ _ _ _ Hat Hpc) as (? & ? & ?). by eapply timed_attempt.
  - destruct (attempting_timed _ _ _ _ _ _ Hat Hpc) as (? & ? & ?).
    destruct (replay_attempting _ _ _ _ _ Hat Hrep) as (_ & Hlen & _).
    set (I' := set_threads _ I).
    assert (Hok' : timed_ok delays I' d) by (eapply timed_interrupt; [|done]; apply Interrupt.step_call; eauto).
    eapply (timed_attempt delays I'); [done..|]. unfold pc_timed. simpl.
    eexists _, _. rewrite last_snoc. split; [done|]. split; [by apply list_lookup_middle|]. simpl.
    rewrite length_app, Hlen. simpl. rewrite Nat.add_sub. unfold settle in Hset. by repeat case_match; simplify_eq.
  - destruct (reachable_inv _ HI) as (Hflag & _ & Hthr). destruct (Hthr _ _ Hj) as [Hfin [_ Hcontract]].
    unfold pc_timed in Hpc. rewrite Hk in Hpc. destruct Hpc as (a & p & Ha & Hj' & Hp). simplify_eq/=.
    destruct Hp as (-> & Hst & Hres). destruct answer.
    + destruct Hcontract as (t & Ht & _).
      assert (Hs : signalled I = true) by (rewrite Hflag, Ht; by apply bool_decide_eq_true_2).
      by split.
    + destruct Hcontract as [Hlong _]. split; simpl; try done.
      * intros [?|Hin%list_elem_of_singleton]%elem_of_app; [auto|done].
      * intros a' Ha'. simpl in *. assert (a' = a) as -> by congruence. destruct (after_signal a); [by specialize (Hres eq_refl)|].
        split; [done|lia].
  - by split.
Qed.

Lemma timed_invariant s :
  reachable s -> forall n d, deliveries s !! n = Some d -> timed_ok (retry_delays (inner_of s)) (interrupt s) d.
Proof.
  intros Hreach n d Hn. revert s Hreach n d Hn.
  assert (Hall : forall s, reachable s -> forall n d, deliveries s !! n = Some d ->
            replay_ok (retry_delays (inner_of s)) d /\ timed_ok (retry_delays (inner_of s)) (interrupt s) d).
  { apply (job_invariant (fun delays I d => replay_ok delays d /\ timed_ok delays I d)).
    - intros. split; [apply replay_begun|apply timed_begun].
    - intros delays I I' d _ Hstep [? ?]. split; [done|by eapply timed_interrupt].
    - intros delays I I' d d' HI Hmove [? ?]. split; [by eapply replay_move|by eapply timed_move]. }
  intros s Hreach n d Hn. by apply (Hall s Hreach n d Hn).
Qed.
End Timed.
