(* ===== verification/DeliveryOwner.v ===== *)
(** * Who delivers what

    The deliveries of [DeliverySystem] against the calls and the workers that run
    them: the system is the client of [ClientSystem] with the deliveries filled in,
    every posting call and every busy worker has exactly one delivery under way, and
    what is sent is what the calls were asked to post. *)

From stdpp Require Import prelude list relations.
From S2P Require Import Prelude Error Response Request Json Retry Transport DropLogger Dispatcher DispatcherInv Client ClientSystem.
From S2P Require Import Interrupt InterruptWorld DeliverySystem DeliveryInv.

(** ** Lemmas on the dispatcher *)

Section Dispatch.
Context {Task : Type}.
Implicit Type d : Dispatcher.Sys Task.

(** The task a worker runs. *)
Definition task_of (p : option (Dispatcher.pc Task)) : option Task :=
  match p with Some (WRun t) => Some t | _ => None end.

Lemma run_thread_shape d d' (i : nat) : run_thread i d = Some d' ->
  length (Dispatcher.threads d') = length (Dispatcher.threads d) /\ Dispatcher.clock d' = Dispatcher.clock d /\
  forall j, j <> i -> task_of (Dispatcher.threads d' !! j) = task_of (Dispatcher.threads d !! j).
Proof.
  assert (Hw : forall (l : list (Dispatcher.pc Task)) (j : nat), task_of ((Dispatcher.wake <$> l) !! j) = task_of (l !! j)).
  { intros l j. rewrite list_lookup_fmap. by destruct (l !! j) as [[]|]. }
  unfold run_thread. destruct (Dispatcher.threads d !! i) as [p|]; [|done]. simpl.
  destruct p; intros; repeat case_match; simplify_eq; simpl; rewrite ?length_insert, ?length_fmap;
    split_and!; try done; intros j Hj; rewrite list_lookup_insert_ne by done; rewrite ?Hw; done.
Qed.

(** A worker that keeps its task, and no new one that runs: nothing was started. *)
Lemma same_started (d d' : Dispatcher.Sys DeliveryTask) :
  Dispatcher.step d d' -> same_tasks d d' -> started (Dispatcher.history d') = started (Dispatcher.history d).
Proof.
  intros Hstep Hsame. unfold started.
  step_cases Hstep; rewrite ?omap_app; simpl; rewrite ?app_nil_r; try done;
    rewrite ?omap_abandoned_none, ?omap_warn_dropped, ?omap_warn_abandoned, ?app_nil_r by done; try done.
  all: try (repeat case_match; simplify_eq; by rewrite app_nil_r).
  - exfalso. destruct (Hsame i task) as [_ Hback]. simpl in Hback.
    rewrite Hback in Hi; [done|]. apply list_lookup_insert_eq. by eapply lookup_lt_Some.
  - match goal with |- context [Evicted <$> ?o] => destruct o end; simpl; by rewrite app_nil_r.
Qed.

Lemma take_started d d' (i : nat) (t : Task) :
  Dispatcher.threads d !! i = Some WLock -> run_thread i d = Some d' ->
  Dispatcher.threads d' !! i = Some (WRun t) -> history d' = history d ++ [Started t].
Proof.
  intros Hi Hrun Ht. unfold run_thread in Hrun. rewrite Hi in Hrun. simpl in Hrun.
  assert (Hset : forall p : Dispatcher.pc Task, <[i := p]> (Dispatcher.threads d) !! i = Some p)
    by (intros; apply list_lookup_insert_eq; by eapply lookup_lt_Some).
  destruct (work_section (shared d)); simplify_eq/=; rewrite Hset in Ht; by simplify_eq.
Qed.

Lemma finish_task d d' (i : nat) (t : Task) :
  Dispatcher.threads d !! i = Some (WRun t) -> run_thread i d = Some d' ->
  history d' = history d /\ Dispatcher.threads d' !! i = Some WFinish.
Proof.
  intros Hi Hrun. unfold run_thread in Hrun. rewrite Hi in Hrun. simplify_eq/=.
  split; [by rewrite app_nil_r|]. apply list_lookup_insert_eq. by eapply lookup_lt_Some.
Qed.
End Dispatch.

(** ** The client behind the system *)

Section Refinement.
Context {W : Type} `{SerdeJson} `{!Ureq W}.
Implicit Types (s : System (W := W)) (d : job (W := W)).

(** Every step of the system is a step of the client, or invisible to it. *)
Lemma step_client s s' : step s s' -> ClientSystem.step (client s) (client s') \/ client s' = client s.
Proof.
  destruct 1 as [c Hc|i s' Hrun|i n t d result Hi Hn Ho Hpc|i t d' Hi Hrun Ht|i n t d result d' Hi Hn Ho Hpc Hrun
    |d' Hd Hlen Hclk Hsame|i' Hi Hlen Hclk Hsig|n s' Hrun|t Ht]; rewrite ?log_failure_client; simpl; auto.
  - left. by apply ClientSystem.step_call.
  - left. by eapply ClientSystem.step_run, run_caller_client.
  - left. by eapply ClientSystem.step_post_done.
  - left. apply ClientSystem.step_dispatcher; [by eapply Dispatcher.step_run|by eapply run_thread_shape].
  - left. apply ClientSystem.step_dispatcher; [by eapply Dispatcher.step_run|by eapply run_thread_shape].
  - left. by apply ClientSystem.step_dispatcher.
  - right. by eapply run_delivery_client.
  - left. apply ClientSystem.step_dispatcher; [by apply Dispatcher.step_tick|done].
Qed.

Lemma client_runs s s' : rtc step s s' -> rtc ClientSystem.step (client s) (client s').
Proof.
  induction 1 as [|s s1 s2 Hstep _ IH]; [done|].
  destruct (step_client _ _ Hstep) as [Hc|Heq]; [by eapply rtc_l|by rewrite <-Heq].
Qed.

Lemma client_reachable s : reachable s -> ClientSystem.reachable (client s).
Proof. intros (self & now & w & Hrtc). exists self, now. by apply (client_runs _ _ Hrtc). Qed.

(** The flag of the client's interrupt is the flag of the interrupt, and there is one
    clock. *)
Definition in_sync s : Prop :=
  ClientSystem.signalled (client s) = Interrupt.signalled (interrupt s) /\
  Dispatcher.clock (dispatcher_of s) = now_of s.

(** A step of a call begins a delivery, signals the interrupt, or does neither. *)
Inductive caller_step s (i : nat) : System -> Prop :=
| caller_posts (routed : bool) (r : IncidentRequest) (t : DeliveryTask) :
    calls (client s) !! i = Some (Post routed r) ->
    post_async_mode routed (closed (client s)) (inner_of s) r = Ok t ->
    caller_step s i (begin_delivery (Caller i) t (with_client (set_call i (Posting t) (client s)) s))
| caller_signals (c' : Client) :
    calls (client s) !! i = Some CloseSignal -> run_call i (client s) = Some c' ->
    caller_step s i (with_interrupt (signal_now (interrupt s)) (with_client c' s))
| caller_other (c : call) (c' : Client) :
    calls (client s) !! i = Some c -> c <> CloseSignal -> run_call i (client s) = Some c' ->
    (forall t, calls c' !! i <> Some (Posting t)) -> caller_step s i (with_client c' s).

Lemma run_caller_cases s s' (i : nat) : run_caller i s = Some s' -> caller_step s i s'.
Proof.
  unfold run_caller. destruct (calls (client s) !! i) as [c|] eqn:Hi; [|done]. simpl.
  destruct (run_call i (client s)) as [c1|] eqn:Hrun; [|done]. simpl.
  assert (Hset : forall (x : call), <[i := x]> (calls (client s)) !! i = Some x)
    by (intros; apply list_lookup_insert_eq; by eapply lookup_lt_Some).
  assert (Hother : c <> CloseSignal -> (forall t, calls c1 !! i <> Some (Posting t)) -> caller_step s i (with_client c1 s))
    by (intros; by eapply caller_other).
  pose proof Hrun as Hcall. unfold run_call in Hcall. rewrite Hi in Hcall. simpl in Hcall.
  destruct c; try discriminate Hcall; try (repeat case_match; simplify_eq/=; intros [= <-];
    (apply Hother; [done|intros t; simpl; by rewrite Hset])).
  - destruct (post_async_mode _ _ _ _) as [t|e] eqn:Hp; simplify_eq/=; rewrite Hset; intros [= <-].
    + by eapply caller_posts.
    + apply Hother; [done|intros t; simpl; by rewrite Hset].
  - intros [= <-]. by apply caller_signals.
Qed.

Lemma run_call_shared (c c' : Client) (i : nat) : run_call i c = Some c' ->
  calls c !! i <> Some CloseSignal -> ClientSystem.signalled c' = ClientSystem.signalled c.
Proof.
  unfold run_call. destruct (calls c !! i) as [p|]; [|done]. simpl.
  destruct p; intros; repeat case_match; by simplify_eq/=.
Qed.

Lemma run_call_dispatcher (c c' : Client) (i : nat) : run_call i c = Some c' ->
  Dispatcher.clock (dispatcher c') = Dispatcher.clock (dispatcher c) /\
  history (dispatcher c') = history (dispatcher c) /\
  forall j, task_of (Dispatcher.threads (dispatcher c') !! j) = task_of (Dispatcher.threads (dispatcher c) !! j).
Proof.
  assert (Happ : forall (l : list (Dispatcher.pc DeliveryTask)) p j, task_of (Some p) = None ->
            task_of ((l ++ [p]) !! j) = task_of (l !! j)).
  { intros l p j Hp. destruct (decide (j < length l)) as [Hlt|Hge]; [by rewrite lookup_app_l|].
    rewrite lookup_app_r, (lookup_ge_None_2 l j) by lia. by destruct (j - length l) as [|k]. }
  unfold run_call. destruct (calls c !! i) as [p|]; [|done]. simpl.
  destruct p; intros; repeat case_match; simplify_eq/=; split_and!; try done; intros; by rewrite Happ.
Qed.

Lemma run_caller_sync s s' (i : nat) : run_caller i s = Some s' -> in_sync s -> in_sync s'.
Proof.
  unfold in_sync, dispatcher_of, now_of. intros Hrun%run_caller_cases [Hsig Hclk].
  destruct Hrun as [routed r t Hi Hp|c' Hi Hrun|c c' Hi Hne Hrun Hno]; simpl; [done| |].
  - split; [|by destruct (run_call_dispatcher _ _ _ Hrun) as [-> _]].
    unfold run_call in Hrun. rewrite Hi in Hrun. by simplify_eq/=.
  - destruct (run_call_dispatcher _ _ _ Hrun) as [-> _]. rewrite (run_call_shared _ _ _ Hrun) by congruence. done.
Qed.

Lemma move_sync (delays : list Z) I I' d d' : move delays I d I' d' ->
  Interrupt.signalled I' = Interrupt.signalled I /\ clock I' = clock I.
Proof. by destruct 1. Qed.

Lemma step_sync s s' : step s s' -> in_sync s -> in_sync s'.
Proof.
  destruct 1 as [c Hc|i s' Hrun|i n t d result Hi Hn Ho Hpc|i t d' Hi Hrun Ht|i n t d result d' Hi Hn Ho Hpc Hrun
    |d' Hd Hlen Hclk Hsame|i' Hi Hlen Hclk Hsig|n s' Hrun|t Ht].
  - done.
  - by eapply run_caller_sync.
  - done.
  - intros [? ?]. split; [done|]. destruct (run_thread_shape _ _ _ Hrun) as (_ & Hc & _).
    unfold dispatcher_of. simpl. by rewrite Hc.
  - intros [? ?]. destruct (run_thread_shape _ _ _ Hrun) as (_ & Hc & _).
    unfold in_sync, dispatcher_of. destruct result; simpl; by rewrite Hc.
  - intros [? ?]. split; [done|]. unfold dispatcher_of. simpl. by rewrite Hclk.
  - intros [? ?]. unfold in_sync, now_of. simpl. by rewrite Hsig, Hclk.
  - unfold in_sync, dispatcher_of, now_of. rewrite (run_delivery_client _ _ _ Hrun).
    unfold run_delivery, conclude in Hrun. destruct (deliveries s !! n) as [d|]; [|done]. simpl in Hrun.
    destruct (at_pc d); repeat case_match; by simplify_eq/=.
  - intros [? Hc]. split; [done|]. unfold dispatcher_of, now_of in *. simpl. by rewrite Hc.
Qed.

Lemma sync_invariant s : reachable s -> in_sync s.
Proof. revert s. apply system_ind; [done|]. intros s s' _ IH Hstep. by eapply step_sync. Qed.
End Refinement.

(** ** Owners *)

Section Owners.
Context {W : Type} `{SerdeJson} `{!Ureq W}.
Implicit Types (s : System (W := W)) (d : job (W := W)) (o : owner).

#[export] Instance owner_eq_dec : EqDecision owner.
Proof. solve_decision. Defined.

(** The task [o] is delivering, if any. *)
Definition running s o : option DeliveryTask :=
  match o with
  | Worker i => task_of (Dispatcher.threads (dispatcher (client s)) !! i)
  | Caller i => match calls (client s) !! i with Some (Posting t) => Some t | _ => None end
  end.

(** Its result has not been returned yet. *)
Definition under_way d : bool := match at_pc d with DDone _ true => false | _ => true end.

(** What a step does to the owners. *)
Inductive owns s s' : Prop :=
| owns_same : (forall o, running s' o = running s o) -> deliveries s' = deliveries s -> owns s s'
| owns_begin o (t : DeliveryTask) :
    running s o = None -> running s' o = Some t -> (forall o', o' <> o -> running s' o' = running s o') ->
    deliveries s' = deliveries s ++ [just_begun o t] -> owns s s'
| owns_move (n : nat) d d' :
    (forall o, running s' o = running s o) -> deliveries s !! n = Some d -> deliveries s' = <[n := d']> (deliveries s) ->
    by_whom d' = by_whom d -> task d' = task d -> under_way d = true -> under_way d' = true -> owns s s'
| owns_end (n : nat) d d' :
    running s' (by_whom d) = None -> (forall o, o <> by_whom d -> running s' o = running s o) ->
    deliveries s !! n = Some d -> deliveries s' = <[n := d']> (deliveries s) ->
    by_whom d' = by_whom d -> task d' = task d -> under_way d = true -> under_way d' = false -> owns s s'.

Lemma run_caller_owns s s' (i : nat) : run_caller i s = Some s' -> owns s s'.
Proof.
  intros Hrun%run_caller_cases.
  assert (Hset : forall (x : call), <[i := x]> (calls (client s)) !! i = Some x \/ calls (client s) !! i = None).
  { intros x. destruct (calls (client s) !! i) eqn:Hi; [left|by right].
    apply list_lookup_insert_eq. by eapply lookup_lt_Some. }
  destruct Hrun as [routed r t Hi Hp|c' Hi Hrun|c c' Hi Hne Hrun Hno].
  - eapply (owns_begin _ _ (Caller i) t); simpl; [by rewrite Hi| | |done].
    + destruct (Hset (Posting t)) as [->|Hn]; [done|congruence].
    + intros [j|j] Hj; [done|]. simpl. by rewrite list_lookup_insert_ne by congruence.
  - apply owns_same; [|done]. destruct (run_call_dispatcher _ _ _ Hrun) as (_ & _ & Htask).
    intros [j|j]; [apply Htask|]. simpl. unfold run_call in Hrun. rewrite Hi in Hrun. simplify_eq/=.
    destruct (decide (i = j)) as [<-|Hj]; [|by rewrite list_lookup_insert_ne].
    destruct (Hset CloseDispatch) as [->|Hn]; [by rewrite Hi|congruence].
  - apply owns_same; [|done]. destruct (run_call_dispatcher _ _ _ Hrun) as (_ & _ & Htask).
    intros [j|j]; [apply Htask|]. simpl. destruct (decide (i = j)) as [<-|Hj].
    + rewrite Hi. unfold run_call in Hrun. rewrite Hi in Hrun. simpl in Hrun.
      assert (Hnone : match calls c' !! i with Some (Posting t) => Some t | _ => None end = None)
        by (destruct (calls c' !! i) as [[]|] eqn:Hc; try done; exfalso; by eapply Hno).
      rewrite Hnone. by destruct c.
    + assert (Hcalls : calls c' !! j = calls (client s) !! j); [|by rewrite Hcalls].
      unfold run_call in Hrun. rewrite Hi in Hrun. simpl in Hrun.
      destruct c; repeat case_match; simplify_eq/=; by rewrite list_lookup_insert_ne.
Qed.

Lemma move_owner (delays : list Z) I I' d d' : move delays I d I' d' ->
  by_whom d' = by_whom d /\ task d' = task d /\ under_way d = true.
Proof.
  unfold under_way. destruct 1 as [k Hpc|k start late st b Hpc|k start late r result Hat Hset|k start late r delay Hat Hset
    |k j answer dl st fin Hpc Hj|result Hpc]; simpl; try rewrite Hpc; split_and!; try done.
  all: unfold attempting in Hat; by destruct (at_pc d).
Qed.

Lemma run_delivery_owns s s' (n : nat) : run_delivery n s = Some s' -> owns s s'.
Proof.
  intros Hrun. assert (Hsame : forall o, running s' o = running s o).
  { intros o. unfold running, dispatcher_of. by rewrite (run_delivery_client _ _ _ Hrun). }
  destruct (run_delivery_moved _ _ _ Hrun) as (d & d' & Hn & Hmove & Hd & _).
  destruct (move_owner _ _ _ _ _ Hmove) as (Hb & Ht & Hu).
  eapply (owns_move _ _ n d); try done.
  (* the result is not returned by a step of the delivery itself *)
  unfold run_delivery, conclude in Hrun. rewrite Hn in Hrun. simpl in Hrun.
  assert (Hd' : deliveries s' !! n = Some d') by (rewrite Hd; apply list_lookup_insert_eq; by eapply lookup_lt_Some).
  assert (Hlt : n < length (deliveries s)) by (by eapply lookup_lt_Some).
  destruct (at_pc d); repeat case_match; simplify_eq/=; rewrite list_lookup_insert_eq in Hd' by done; by simplify_eq.
Qed.

Lemma step_owns s s' : step s s' -> owns s s'.
Proof.
  destruct 1 as [c Hc|i s' Hrun|i n t d result Hi Hn Ho Hpc|i t d' Hi Hrun Ht|i n t d result d' Hi Hn Ho Hpc Hrun
    |d' Hd Hlen Hclk Hsame|i' Hi Hlen Hclk Hsig|n s' Hrun|t Ht]; unfold dispatcher_of in *.
  - apply owns_same; [|done]. intros [i|i]; [done|]. simpl.
    destruct (decide (i < length (calls (client s)))) as [Hlt|Hge]; [by rewrite lookup_app_l|].
    rewrite lookup_app_r, (lookup_ge_None_2 (calls (client s))) by lia.
    destruct (i - length (calls (client s))); [|done]. simpl. by destruct Hc as [(? & ? & [->| ->])|[->| ->]].
  - by eapply run_caller_owns.
  - eapply (owns_end _ _ n d); simpl; [| |done|done|done|done|unfold under_way; by rewrite Hpc|done].
    + rewrite Ho. simpl. rewrite list_lookup_insert_eq; [done|]. by eapply lookup_lt_Some.
    + intros [j|j] Hj; [done|]. simpl. rewrite list_lookup_insert_ne; [done|]. congruence.
  - destruct (run_thread_shape _ _ _ Hrun) as (_ & _ & Hother).
    eapply (owns_begin _ _ (Worker i) t); simpl; [by rewrite Hi|by rewrite Ht| |done].
    intros [j|j] Hj; [|done]. simpl. apply Hother. congruence.
  - destruct (run_thread_shape _ _ _ Hrun) as (_ & _ & Hother). destruct (finish_task _ _ _ _ Hi Hrun) as [_ Hfin].
    assert (Hr : forall o, running (log_failure result (collect n d result (with_dispatcher d' s))) o =
              running (with_dispatcher d' s) o) by (by destruct result).
    eapply (owns_end _ _ n d (at_point (DDone result true) d)); rewrite ?Hr; simpl;
      [by rewrite Ho; simpl; rewrite Hfin| |done|by destruct result|done|done|unfold under_way; by rewrite Hpc|done].
    intros [j|j] Hj; rewrite Hr; [|done]. simpl. apply Hother. congruence.
  - apply owns_same; [|done]. intros [i|i]; [|done]. simpl.
    destruct (task_of (Dispatcher.threads d' !! i)) as [t|] eqn:Ht.
    + assert (Hi : Dispatcher.threads d' !! i = Some (WRun t))
        by (destruct (Dispatcher.threads d' !! i) as [[]|]; by simplify_eq/=).
      apply Hsame in Hi. by rewrite Hi.
    + destruct (task_of (Dispatcher.threads (dispatcher (client s)) !! i)) as [t|] eqn:Ht'; [|done].
      assert (Hi : Dispatcher.threads (dispatcher (client s)) !! i = Some (WRun t))
        by (destruct (Dispatcher.threads (dispatcher (client s)) !! i) as [[]|]; by simplify_eq/=).
      apply Hsame in Hi. by rewrite Hi in Ht.
  - by apply owns_same.
  - by eapply run_delivery_owns.
  - by apply owns_same.
Qed.

(** Every owner has exactly the deliveries it waits for. *)
Record owned s : Prop := {
  owned_running : forall n d, deliveries s !! n = Some d -> under_way d = true -> running s (by_whom d) = Some (task d);
  owned_exists : forall o t, running s o = Some t ->
    exists n d, deliveries s !! n = Some d /\ by_whom d = o /\ under_way d = true;
  owned_unique : forall n n' d d', deliveries s !! n = Some d -> deliveries s !! n' = Some d' ->
    under_way d = true -> under_way d' = true -> by_whom d = by_whom d' -> n = n';
}.

Lemma owned_new (self : Inner) (now : Z) (w : W) : owned (new self now w).
Proof.
  split; simpl; [done| |done]. intros [i|i] t; simpl; [|done].
  by destruct i as [|[|i]].
Qed.

(** A delivery that stays under way, or is no longer. *)
Lemma owned_set s s' (n : nat) d d' :
  owned s -> deliveries s !! n = Some d -> deliveries s' = <[n := d']> (deliveries s) ->
  by_whom d' = by_whom d -> task d' = task d -> under_way d = true ->
  (forall o, o <> by_whom d -> running s' o = running s o) ->
  running s' (by_whom d) = (if under_way d' then running s (by_whom d) else None) -> owned s'.
Proof.
  intros [Hrun Hex Huniq] Hn Hd Hby Htask Hu Hother Hown.
  assert (Hback : forall m e, deliveries s' !! m = Some e ->
            exists e0, deliveries s !! m = Some e0 /\ by_whom e = by_whom e0 /\ task e = task e0 /\
                       (under_way e = true -> under_way e0 = true) /\ (m = n -> e = d') /\ (m <> n -> e = e0)).
  { intros m e Hm. rewrite Hd in Hm. apply list_lookup_insert_Some in Hm as [(-> & <- & _)|(Hne & Hm)].
    - exists d. split_and!; (done || congruence).
    - exists e. split_and!; (done || congruence). }
  split.
  - intros m e Hm Hue. destruct (Hback _ _ Hm) as (e0 & Hm0 & Hb & Ht & Hu0 & Hsame & _).
    specialize (Hrun _ _ Hm0 (Hu0 Hue)). rewrite Hb, Ht.
    destruct (decide (by_whom e0 = by_whom d)) as [Heq|Hne]; [|by rewrite Hother].
    assert (Hmn : m = n) by (eapply Huniq; [exact Hm0|exact Hn|auto|done|done]).
    rewrite (Hsame Hmn) in Hue. by rewrite Heq, Hown, Hue, <-Heq.
  - intros o t Ho. destruct (decide (o = by_whom d)) as [->|Hne].
    + exists n, d'. rewrite Hd. split; [apply list_lookup_insert_eq; by eapply lookup_lt_Some|].
      split; [done|]. rewrite Hown in Ho. by destruct (under_way d').
    + rewrite Hother in Ho by done. destruct (Hex _ _ Ho) as (m & e & Hm & <- & Hue).
      exists m, e. split; [|done]. rewrite Hd, list_lookup_insert_ne; [done|]. intros <-. congruence.
  - intros m m' e e' Hm Hm' Hue Hue' Hbb.
    destruct (Hback _ _ Hm) as (e0 & Hm0 & Hb & _ & Hu0 & _).
    destruct (Hback _ _ Hm') as (e0' & Hm0' & Hb' & _ & Hu0' & _).
    eapply Huniq; [exact Hm0|exact Hm0'|auto|auto|congruence].
Qed.

Lemma owned_begin s s' o (t : DeliveryTask) :
  owned s -> running s o = None -> running s' o = Some t -> (forall o', o' <> o -> running s' o' = running s o') ->
  deliveries s' = deliveries s ++ [just_begun o t] -> owned s'.
Proof.
  intros [Hrun Hex Huniq] Hnone Hsome Hother Hd.
  assert (Hfree : forall m e, deliveries s !! m = Some e -> under_way e = true -> by_whom e <> o)
    by (intros m e Hm Hue <-; by rewrite (Hrun _ _ Hm Hue) in Hnone).
  assert (Hback : forall m e, deliveries s' !! m = Some e ->
            deliveries s !! m = Some e \/ (m = length (deliveries s) /\ e = just_begun o t)).
  { intros m e Hm. rewrite Hd in Hm. apply lookup_app_Some in Hm as [Hm|[Hle Hm]]; [by left|].
    apply list_lookup_singleton_Some in Hm as [Hz <-]. right. split; [lia|done]. }
  split.
  - intros m e [Hm|[-> ->]]%Hback Hue; [|done]. rewrite Hother by (by eapply Hfree). by apply (Hrun m).
  - intros o' t' Ho'. destruct (decide (o' = o)) as [->|Hne].
    + exists (length (deliveries s)), (just_begun o t). rewrite Hd. by rewrite list_lookup_middle.
    + rewrite Hother in Ho' by done. destruct (Hex _ _ Ho') as (m & e & Hm & He). exists m, e.
      split; [|done]. rewrite Hd. by apply lookup_app_l_Some.
  - intros m m' e e' [Hm|[-> ->]]%Hback [Hm'|[-> ->]]%Hback Hue Hue' Hbb; [by eapply Huniq| | |done].
    + by apply (Hfree _ _ Hm) in Hue.
    + by apply (Hfree _ _ Hm') in Hue'.
Qed.

Lemma owned_invariant s : reachable s -> owned s.
Proof.
  revert s. apply system_ind; [apply owned_new|]. intros s s' _ Hown [Hr Hd|o t Hn Ht Ho Hd|n d d' Hr Hn Hd Hb Ht Hu Hu'
    |n d d' Hr Ho Hn Hd Hb Ht Hu Hu']%step_owns.
  - destruct Hown as [Hrun Hex Huniq]. split; rewrite Hd; [|intros o t; rewrite Hr; by apply Hex|done].
    intros. rewrite Hr. eauto.
  - by eapply owned_begin.
  - eapply owned_set; [done|done|done|done|done|done|done|]. by rewrite Hu', Hr.
  - eapply owned_set; [done|done|done|done|done|done|done|]. by rewrite Hu'.
Qed.
End Owners.
