(* ===== verification/DeliveryCalls.v ===== *)
(** * What is posted, and what the callers are told

    The tasks that are delivered have passed the checks of a call, each accepted one
    is delivered at most once, the requests sent are those of the deliveries, and a
    call that posts returns what its delivery came to. *)

From stdpp Require Import prelude list strings relations.
From S2P Require Import Prelude Error Response Request Json Retry Transport DropLogger Dispatcher DispatcherInv DispatcherProps.
From S2P Require Import Client ClientSystem Interrupt InterruptWorld DeliverySystem DeliveryInv DeliveryOwner.

(** ** The tasks of the client have passed the checks *)

Section Checked.
Context `{ErrorTypes}.
Implicit Types (c : Client) (t : DeliveryTask).

(** Call [i], of this kind, passes its checks at [c], and its incident becomes [t]. *)
Definition passes (kind : bool -> IncidentRequest -> call) c (i : nat) t : Prop :=
  exists routed r, calls c !! i = Some (kind routed r) /\ closed c = false /\ misused routed (inner c) r = false /\
    t = mkTask r (if routed then None else Client.service_key (inner c)).

Lemma passes_call (kind : bool -> IncidentRequest -> call) c (i : nat) (routed : bool) (r : IncidentRequest) t :
  calls c !! i = Some (kind routed r) -> post_async_mode routed (closed c) (inner c) r = Ok t -> passes kind c i t.
Proof.
  intros Hi. rewrite post_async_mode_cases. destruct (closed c) eqn:Hopen; [done|].
  destruct (misused routed (inner c) r) eqn:Hm; [done|]. intros [= <-]. by exists routed, r.
Qed.

Lemma submitters_step {Task : Type} (d d' : Dispatcher.Sys Task) :
  Dispatcher.step d d' -> length (Dispatcher.threads d') = length (Dispatcher.threads d) ->
  (forall j (u : Task), Dispatcher.threads d' !! j = Some (SLock u) -> Dispatcher.threads d !! j = Some (SLock u)) /\
  (forall u : Task, u ∈ accepted (history d') ->
     u ∈ accepted (history d) \/ exists j, Dispatcher.threads d !! j = Some (SLock u)).
Proof.
  intros Hstep Hlen. unfold accepted.
  assert (Hw : forall j (u : Task), (Dispatcher.wake <$> Dispatcher.threads d) !! j = Some (SLock u) ->
            Dispatcher.threads d !! j = Some (SLock u)).
  { intros j u (p & Hp & Hj)%list_lookup_fmap_Some. by destruct p; simplify_eq/=. }
  step_cases Hstep; rewrite ?length_app in *; simpl in *; try lia;
    rewrite ?omap_app; simpl; rewrite ?app_nil_r;
    rewrite ?omap_abandoned_none, ?omap_warn_dropped, ?omap_warn_abandoned, ?app_nil_r by done.
  all: split; [intros k u Hk; rewrite ?list_lookup_insert_Some in Hk; naive_solver|].
  all: intros u; rewrite ?elem_of_app; try tauto.
  all: try (match goal with |- context [Evicted <$> ?o] => destruct o end; simpl; rewrite ?elem_of_app);
       rewrite ?list_elem_of_singleton, ?elem_of_nil; naive_solver.
Qed.

(** Where the tasks come from: [posted i t], when call [i] posts [t]; [submitted t],
    when [t] is on its way to the dispatcher, or has been accepted. *)
Record checked (posted : nat -> DeliveryTask -> Prop) (submitted : DeliveryTask -> Prop) c : Prop := {
  checked_post : forall i t, calls c !! i = Some (Posting t) -> posted i t;
  checked_submit : forall j t, Dispatcher.threads (dispatcher c) !! j = Some (SLock t) -> submitted t;
  checked_accepted : forall t, t ∈ accepted (history (dispatcher c)) -> submitted t;
}.

Context (posted : nat -> DeliveryTask -> Prop) (submitted : DeliveryTask -> Prop).

Lemma checked_new (self : Inner) (now : Z) : checked posted submitted (ClientSystem.new self now).
Proof.
  split; simpl; [done| |by intros t Hin%elem_of_nil].
  intros j t Hj. by destruct j as [|[|j]].
Qed.

(** A call moves to [p], and enters the dispatcher at most with a task that may. *)
Lemma checked_call c c' (i : nat) (p : call) (q : list (Dispatcher.pc DeliveryTask)) :
  checked posted submitted c -> calls c' = <[i := p]> (calls c) ->
  history (dispatcher c') = history (dispatcher c) ->
  Dispatcher.threads (dispatcher c') = Dispatcher.threads (dispatcher c) ++ q ->
  (forall t, p = Posting t -> posted i t) -> (forall t, SLock t ∈ q -> submitted t) -> checked posted submitted c'.
Proof.
  intros [Hpost Hsub Hacc] Hcalls Hh Hthr Hp Hq. split.
  - intros k t Hk. rewrite Hcalls in Hk. apply list_lookup_insert_Some in Hk as [(<- & Heq & _)|(_ & Hk)]; eauto.
  - intros j t Hj. rewrite Hthr in Hj. apply lookup_app_Some in Hj as [Hj|[_ Hj]]; [eauto|].
    apply list_elem_of_lookup_2 in Hj. auto.
  - intros t. rewrite Hh. apply Hacc.
Qed.

Lemma checked_run c c' (i : nat) :
  (forall t, passes Post c i t -> posted i t) -> (forall t, passes PostAsync c i t -> submitted t) ->
  checked posted submitted c -> run_call i c = Some c' -> checked posted submitted c'.
Proof.
  intros HP HQ Hc Hrun. unfold run_call in Hrun. destruct (calls c !! i) as [p|] eqn:Hi; [|done]. simpl in Hrun.
  assert (Hnil : Dispatcher.threads (dispatcher c) = Dispatcher.threads (dispatcher c) ++ []) by (by rewrite app_nil_r).
  destruct p; try done; repeat case_match; simplify_eq;
    try (eapply (checked_call _ _ i _ []); simpl; try done; by intros t ?%elem_of_nil).
  - eapply (checked_call _ _ i _ []); simpl; try done; [|by intros t ?%elem_of_nil].
    intros t [= <-]. by eapply HP, passes_call.
  - eapply checked_call; simpl; try done. intros t [= <-]%list_elem_of_singleton. by eapply HQ, passes_call.
  - eapply checked_call; simpl; try done. by intros t ?%list_elem_of_singleton.
Qed.

Lemma checked_step c c' :
  (forall i t, passes Post c i t -> posted i t) -> (forall i t, passes PostAsync c i t -> submitted t) ->
  ClientSystem.step c c' -> checked posted submitted c -> checked posted submitted c'.
Proof.
  intros HP HQ Hstep Hc. destruct Hstep as [p Hp|i c' Hrun|i t r Hi|d Hd Hlen].
  - destruct Hc as [Hpost Hsub Hacc]. split; simpl; [|done|done].
    intros i t Hi. apply lookup_app_Some in Hi as [Hi|[_ Hi]]; [eauto|].
    apply list_lookup_singleton_Some in Hi as [_ Hi].
    by destruct Hp as [(? & ? & [->| ->])|[->| ->]].
  - eapply (checked_run _ _ i); [apply HP|apply HQ|done|done].
  - eapply (checked_call _ _ i _ []); simpl; try done; [by rewrite app_nil_r|by intros ? ?%elem_of_nil].
  - destruct Hc as [Hpost Hsub Hacc]. destruct (submitters_step _ _ Hd Hlen) as [Hs Ha].
    split; simpl; [done|by intros j t ?%Hs; eauto|]. intros t [?|[j Hj]]%Ha; eauto.
Qed.
End Checked.

(** ** The tasks that are delivered *)

Section Tasks.
Context {W : Type} `{SerdeJson} `{!Ureq W}.
Implicit Types (s : System (W := W)) (d : job (W := W)).

(** The tasks the workers deliver, in the order in which they take them. *)
Definition worker_task d : option DeliveryTask :=
  match by_whom d with Worker _ => Some (task d) | Caller _ => None end.
Definition worker_tasks s : list DeliveryTask := omap worker_task (deliveries s).

Lemma omap_insert_same {A B : Type} (f : A -> option B) (l : list A) (n : nat) (x y : A) :
  l !! n = Some x -> f y = f x -> omap f (<[n := y]> l) = omap f l.
Proof.
  revert n. induction l as [|z l IH]; intros [|n] Hn Hf; simplify_eq/=; [by rewrite Hf|].
  by rewrite IH.
Qed.

(** A step that begins no delivery on a worker starts no task. *)
Lemma worker_tasks_kept s s' : owns s s' ->
  (forall i t, deliveries s' <> deliveries s ++ [just_begun (Worker i) t]) -> worker_tasks s' = worker_tasks s.
Proof.
  unfold worker_tasks. intros [Hr Hd|o t _ _ _ Hd|n d d' _ Hn Hd Hb Ht _ _|n d d' _ _ Hn Hd Hb Ht _ _] Hno.
  - by rewrite Hd.
  - destruct o as [i|i]; [by destruct (Hno i t)|]. rewrite Hd, omap_app. simpl. by rewrite app_nil_r.
  - rewrite Hd. eapply omap_insert_same; [done|]. unfold worker_task. by rewrite Hb, Ht.
  - rewrite Hd. eapply omap_insert_same; [done|]. unfold worker_task. by rewrite Hb, Ht.
Qed.

Lemma run_delivery_length s s' (n : nat) :
  run_delivery n s = Some s' -> length (deliveries s') = length (deliveries s).
Proof.
  intros (d & d' & _ & _ & -> & _)%run_delivery_moved. apply length_insert.
Qed.

Lemma step_tasks s s' : step s s' ->
  worker_tasks s = started (history (dispatcher (client s))) ->
  worker_tasks s' = started (history (dispatcher (client s'))).
Proof.
  intros Hstep Heq. pose proof (worker_tasks_kept _ _ (step_owns _ _ Hstep)) as Hkept.
  assert (Hlen : forall i t, deliveries s <> deliveries s ++ [just_begun (Worker i) t]).
  { intros i t Ha. apply (f_equal length) in Ha. rewrite length_app in Ha. simpl in Ha. lia. }
  assert (Hset : forall n d i t, <[n := d]> (deliveries s) <> deliveries s ++ [just_begun (Worker i) t]).
  { intros n d i t Ha. apply (f_equal length) in Ha. rewrite length_app, length_insert in Ha. simpl in Ha. lia. }
  destruct Hstep as [c Hc|i s' Hrun|i n t d result Hi Hn Ho Hpc|i t d' Hi Hrun Ht|i n t d result d' Hi Hn Ho Hpc Hrun
    |d' Hd Hlen' Hclk Hsame|i' Hi Hlen' Hclk Hsig|n s' Hrun|t Ht].
  - done.
  - destruct (run_call_dispatcher _ _ _ (run_caller_client _ _ _ Hrun)) as (_ & -> & _). rewrite <-Heq. apply Hkept.
    intros j t Ha. destruct (run_caller_cases _ _ _ Hrun); simpl in Ha; [|by eapply Hlen|by eapply Hlen].
    apply app_inv_head in Ha. by simplify_eq.
  - rewrite Hkept; [done|]. intros. apply Hset.
  - simpl. rewrite (take_started _ _ _ _ Hi Hrun Ht). unfold started, dispatcher_of in *. rewrite omap_app. simpl.
    unfold started in Heq. rewrite <-Heq. unfold worker_tasks. simpl. by rewrite omap_app.
  - rewrite Hkept; [|destruct result; intros; apply Hset].
    destruct (finish_task _ _ _ _ Hi Hrun) as [Hh _]. rewrite log_failure_client. simpl.
    unfold dispatcher_of in Hh. by rewrite Hh.
  - rewrite Hkept by done. simpl. by rewrite (same_started _ _ Hd Hsame).
  - by rewrite Hkept.
  - rewrite (run_delivery_client _ _ _ Hrun), <-Heq. apply Hkept. intros i t Ha.
    destruct (run_delivery_moves _ _ _ Hrun) as [_ Hd _|o t' _ Hd _|m e e' _ _ Hd _]; rewrite Hd in Ha;
      [by eapply Hlen| |by eapply Hset].
    pose proof (run_delivery_length _ _ _ Hrun) as Hl. rewrite Hd, length_app in Hl. simpl in Hl. lia.
  - by rewrite Hkept.
Qed.

Lemma tasks_invariant s : reachable s -> worker_tasks s = started (history (dispatcher (client s))).
Proof. revert s. apply system_ind; [done|]. intros s s' _ IH Hstep. by eapply step_tasks. Qed.

(** *** Where they come from, in an execution *)

Context (exec : nat -> System (W := W)) (m : nat) (self : Inner) (now : Z) (w : W).
Hypothesis Hstart : exec 0 = new self now w.
Hypothesis Hsteps : forall k, k < m -> step (exec k) (exec (S k)).

(** Call [i] has passed its checks in one of the first [m] states. *)
Definition passed (kind : bool -> IncidentRequest -> call) (i : nat) (t : DeliveryTask) : Prop :=
  exists k, k < m /\ passes kind (client (exec k)) i t.

Definition submitted (t : DeliveryTask) : Prop := exists i, passed PostAsync i t.

Lemma exec_ind (P : nat -> Prop) :
  P 0 -> (forall k, k < m -> reachable (exec k) -> reachable (exec (S k)) -> P k -> P (S k)) -> reachable (exec m) /\ P m.
Proof.
  intros Hzero HS. assert (Hreach : forall k, k <= m -> reachable (exec k)).
  { induction k as [|k IH]; intros Hk; [rewrite Hstart; exists self, now, w; apply rtc_refl|].
    eapply system_reachable_rtc; [apply IH; lia|]. apply rtc_once, Hsteps. lia. }
  split; [by apply Hreach|]. assert (Hall : forall k, k <= m -> P k); [|by apply Hall].
  induction k as [|k IH]; intros Hk; [done|]. apply HS; [lia|apply Hreach; lia..|apply IH; lia].
Qed.

(** The deliveries of the callers are those of their calls. *)
Definition posted_by_calls s : Prop :=
  forall n d i, deliveries s !! n = Some d -> by_whom d = Caller i -> passed Post i (task d).

Lemma step_posted s s' :
  step s s' -> checked (passed Post) submitted (client s') -> posted_by_calls s -> posted_by_calls s'.
Proof.
  intros Hstep Hc IH n d i Hn Hby.
  assert (Hset : forall j e e', deliveries s !! j = Some e -> deliveries s' = <[j := e']> (deliveries s) ->
            by_whom e' = by_whom e -> task e' = task e -> passed Post i (task d)).
  { intros j e e' Hj Hd Hb Ht. rewrite Hd in Hn.
    apply list_lookup_insert_Some in Hn as [(-> & <- & _)|(_ & Hn)]; [|by eapply IH].
    rewrite Ht. eapply IH; [done|by rewrite <-Hb]. }
  apply step_owns in Hstep as [_ Hd|o t _ Ht _ Hd|j e e' _ Hj Hd Hb Ht _ _|j e e' _ _ Hj Hd Hb Ht _ _];
    [rewrite Hd in Hn; by eapply IH| |by eapply Hset|by eapply Hset].
  rewrite Hd in Hn. apply lookup_app_Some in Hn as [Hn|[_ Hn]]; [by eapply IH|].
  apply list_lookup_singleton_Some in Hn as [_ <-]. simpl in Hby. subst o. simpl in *.
  apply (checked_post _ _ _ Hc i). by destruct (calls (client s') !! i) as [[]|]; simplify_eq.
Qed.

(** Every task that is delivered is that of a call that has passed its checks: a
    caller delivers its own, a worker one that was submitted. *)
Lemma task_passed (n : nat) d : deliveries (exec m) !! n = Some d ->
  match by_whom d with Caller i => passed Post i (task d) | Worker _ => submitted (task d) end.
Proof.
  intros Hn. destruct (exec_ind (fun k => checked (passed Post) submitted (client (exec k)) /\ posted_by_calls (exec k)))
    as [Hreach [Hc Hposted]].
  - rewrite Hstart. split; [apply checked_new|done].
  - intros k Hk _ _ [Hc Hp]. pose proof (Hsteps k Hk) as Hstep.
    assert (Hc' : checked (passed Post) submitted (client (exec (S k)))).
    { destruct (step_client _ _ Hstep) as [Hs|Heq]; [|by rewrite Heq].
      eapply checked_step; [| |exact Hs|done]; [by intros i t Ht; exists k|by intros i t Ht; exists i, k]. }
    split; [done|by eapply step_posted].
  - destruct (by_whom d) as [i|i] eqn:Hby; [|by eapply Hposted].
    apply (checked_accepted _ _ _ Hc).
    pose proof (client_reachable_inv _ (client_reachable _ Hreach)) as Hinv.
    destruct (fates _ _ _ (inv_reach _ Hinv)) as [Hfates _]. rewrite Hfates, !elem_of_app. left.
    rewrite <-(tasks_invariant _ Hreach). apply list_elem_of_omap. exists d.
    split; [by eapply list_elem_of_lookup_2|]. unfold worker_task. by rewrite Hby.
Qed.

(** The call behind a delivery, in the state in which it passed its checks. *)
Lemma call_behind (n : nat) d : deliveries (exec m) !! n = Some d ->
  exists k i routed, k < m /\ closed (client (exec k)) = false /\
    calls (client (exec k)) !! i =
      Some (match by_whom d with Caller _ => Post routed (request (task d)) | Worker _ => PostAsync routed (request (task d)) end) /\
    (forall j, by_whom d = Caller j -> j = i) /\
    misused routed self (request (task d)) = false /\
    task d = mkTask (request (task d)) (if routed then None else Client.service_key self).
Proof.
  intros Hn. pose proof (task_passed _ _ Hn) as Ht.
  assert (Hself : forall k, k <= m -> inner (client (exec k)) = self).
  { induction k as [|k IH]; intros Hk; [by rewrite Hstart|].
    pose proof (step_inner _ _ (Hsteps k ltac:(lia))) as Hin. unfold inner_of in Hin. rewrite Hin. apply IH. lia. }
  destruct (by_whom d) as [i|i];
    [destruct Ht as (j & k & Hk & routed & r & Hj & Hopen & Hm & ->); exists k, j, routed
    |destruct Ht as (k & Hk & routed & r & Hj & Hopen & Hm & ->); exists k, i, routed];
    rewrite Hself in * by lia; split_and!; try done; intros; by simplify_eq.
Qed.
End Tasks.

(** ** The requests that are sent *)

Section Requests.
Context {W : Type} `{SerdeJson} `{!Ureq W}.
Implicit Types (s : System (W := W)) (d : job (W := W)).

(** The requests delivery [n] has sent, in order. *)
Definition sent_by (n : nat) (l : list (nat * HttpRequest)) : list HttpRequest :=
  omap (fun r => if decide (r.1 = n) then Some r.2 else None) l.

(** An attempt is under way. *)
Definition in_attempt d : nat :=
  match at_pc d with DHead _ _ _ | DBody _ _ _ _ _ => 1 | _ => 0 end.

Definition requests_ok s : Prop :=
  forall n, sent_by n (requests s) =
    match deliveries s !! n with
    | Some d => replicate (length (attempts d) + in_attempt d) (request_of (inner_of s) (task d))
    | None => []
    end.

Lemma sent_by_app (n : nat) (l1 l2 : list (nat * HttpRequest)) :
  sent_by n (l1 ++ l2) = sent_by n l1 ++ sent_by n l2.
Proof. apply omap_app. Qed.

(** One step of a delivery and the requests it has sent. *)
Lemma move_requests (delays : list Z) I I' d d' (x : HttpRequest) : move delays I d I' d' ->
  replicate (length (attempts d') + in_attempt d') x =
  replicate (length (attempts d) + in_attempt d) x ++ (match at_pc d with DSend _ => [x] | _ => [] end).
Proof.
  assert (Hone : forall k start late, attempting d k start late ->
            in_attempt d = 1 /\ (match at_pc d with DSend _ => [x] | _ => [] end) = [])
    by (unfold attempting, in_attempt; intros; by destruct (at_pc d)).
  destruct 1 as [k Hpc|k start late st b Hpc|k start late r result Hat Hset|k start late r delay Hat Hset
    |k j answer dl st fin Hpc Hj|result Hpc]; try (destruct (Hone _ _ _ Hat) as [-> ->]);
    unfold in_attempt; simpl; rewrite ?Hpc, ?app_nil_r, ?length_app; simpl; try (f_equal; lia).
  - by rewrite Nat.add_0_r, Nat.add_1_r, replicate_S_end.
  - by destruct answer.
Qed.

Lemma requests_invariant s : reachable s -> requests_ok s.
Proof.
  revert s. apply system_ind; [by intros self now w n|].
  intros s s' _ IH Hstep n. rewrite (step_inner _ _ Hstep). specialize (IH n).
  apply step_moves in Hstep as [_ Hd Hr|o t _ Hd Hr|m d d' Hm Hmove Hd Hr]; rewrite Hd, Hr; [done| |].
  - rewrite IH. destruct (decide (n < length (deliveries s))) as [Hlt|Hge]; [by rewrite lookup_app_l|].
    rewrite lookup_app_r, (lookup_ge_None_2 (deliveries s)) by lia.
    destruct (n - length (deliveries s)) as [|k]; [done|]. by destruct k.
  - rewrite sent_by_app, IH. unfold sending. destruct (decide (m = n)) as [->|Hne].
    + rewrite list_lookup_insert_eq by (by eapply lookup_lt_Some).
      rewrite Hm. rewrite (proj1 (proj2 (move_owner _ _ _ _ _ Hmove))).
      rewrite (move_requests _ _ _ _ _ _ Hmove). f_equal.
      destruct (at_pc d); try done. cbn. by rewrite decide_True.
    + rewrite list_lookup_insert_ne by done. rewrite <-(app_nil_r (match deliveries s !! n with Some _ => _ | None => _ end)) at 2.
      f_equal. destruct (at_pc d); try done. cbn. by rewrite decide_False.
Qed.

(** ** Requests after the signal *)

(** How many requests a delivery that has reached [p] can still send, once the
    interrupt has been signalled. *)
Definition still_sends I (n : nat) (l : list job) : nat :=
  match at_pc (W := W) <$> l !! n with
  | Some (DSend _) | None => 1
  | Some (DWait _ j) => match Interrupt.threads I !! j with Some (WaitDone false _ _ _) => 1 | _ => 0 end
  | _ => 0
  end.

(** A thread that has not returned [false] when the signal is there never does. *)
Lemma not_false_step I I' (j : nat) :
  Interrupt.step I I' -> Interrupt.signalled I = true -> j < length (Interrupt.threads I) ->
  (forall dl st fin, Interrupt.threads I !! j <> Some (WaitDone false dl st fin)) ->
  forall dl st fin, Interrupt.threads I' !! j <> Some (WaitDone false dl st fin).
Proof.
  intros Hstep Hsig Hlt Hno dl0 st fin Hj.
  destruct Hstep as [I p Hp|I t Ht|I i Hi|I i dl Hi|I i dl st' Hi|I i dl st' Hi Hle|I i dl st' Hi]; simpl in *.
  - rewrite lookup_app_l in Hj by done. by eapply Hno.
  - by eapply Hno.
  - apply list_lookup_insert_Some in Hj as [(_ & Hj & _)|(_ & Hj)]; [done|].
    apply list_lookup_fmap_Some in Hj as (p & Hp & Hj). destruct p; simplify_eq/=. by eapply Hno.
  - apply list_lookup_insert_Some in Hj as [(_ & Hj & _)|(_ & Hj)]; [|by eapply Hno].
    unfold check in Hj. by rewrite Hsig in Hj.
  - apply list_lookup_insert_Some in Hj as [(_ & Hj & _)|(_ & Hj)]; [|by eapply Hno].
    unfold check in Hj. by rewrite Hsig in Hj.
  - apply list_lookup_insert_Some in Hj as [(_ & Hj & _)|(_ & Hj)]; [done|by eapply Hno].
  - apply list_lookup_insert_Some in Hj as [(_ & Hj & _)|(_ & Hj)]; [done|by eapply Hno].
Qed.

Lemma still_sends_step I I' (n : nat) (l : list job) :
  Interrupt.step I I' -> Interrupt.signalled I = true ->
  (forall d k j, l !! n = Some d -> at_pc d = DWait k j -> j < length (Interrupt.threads I)) ->
  still_sends I' n l <= still_sends I n l.
Proof.
  intros Hstep Hsig Hlt. unfold still_sends. destruct (l !! n) as [d|] eqn:Hn; simpl; [|done].
  destruct (at_pc d) as [| | |k j|] eqn:Hpc; try done. specialize (Hlt _ _ _ eq_refl Hpc).
  destruct (Interrupt.threads I' !! j) as [[| | | | |[] dl st fin]|] eqn:Hj'; try lia.
  destruct (Interrupt.threads I !! j) as [[| | | | |[] ? ? ?]|] eqn:Hj; try lia.
  all: exfalso; eapply (not_false_step _ _ j Hstep Hsig Hlt); [by rewrite Hj|exact Hj'].
Qed.

(** The thread a delivery waits in exists. *)
Lemma waiting_thread s (n k j : nat) d :
  reachable s -> deliveries s !! n = Some d -> at_pc d = DWait k j -> j < length (Interrupt.threads (interrupt s)).
Proof.
  intros Hreach Hn Hpc. pose proof (timed_pc _ _ _ (timed_invariant _ Hreach _ _ Hn)) as Ht.
  unfold pc_timed in Ht. rewrite Hpc in Ht. destruct Ht as (a & p & _ & Hj & _). by eapply lookup_lt_Some.
Qed.

(** What has been sent and what can still be sent, once the signal is there. *)
Definition budget s (n : nat) : nat := length (sent_by n (requests s)) + still_sends (interrupt s) n (deliveries s).

Lemma still_sends_rtc I I' (n : nat) (l : list job) :
  rtc Interrupt.step I I' -> Interrupt.signalled I = true ->
  (forall d k j, l !! n = Some d -> at_pc d = DWait k j -> j < length (Interrupt.threads I)) ->
  still_sends I' n l <= still_sends I n l.
Proof.
  induction 1 as [|I I1 I2 Hstep _ IH]; intros Hsig Hlt; [done|].
  etrans; [apply IH|by apply still_sends_step].
  - by apply (signal_stays _ _ Hstep).
  - intros d k j Hn Hpc. specialize (Hlt _ _ _ Hn Hpc).
    destruct Hstep; simpl; rewrite ?length_app, ?length_insert, ?length_fmap; lia.
Qed.

Lemma budget_step s s' (n : nat) :
  reachable s -> Interrupt.signalled (interrupt s) = true -> step s s' -> budget s' n <= budget s n.
Proof.
  intros Hreach Hsig Hstep. unfold budget.
  pose proof (fun d k j => waiting_thread s n k j d Hreach) as Hwait.
  assert (Hkeep : forall d k j, deliveries s !! n = Some d -> at_pc d = DWait k j -> j < length (Interrupt.threads (interrupt s)))
    by eauto.
  apply step_moves in Hstep as [HI Hd Hr|o t HI Hd Hr|m d d' Hm Hmove Hd Hr]; rewrite Hd, Hr.
  - pose proof (still_sends_rtc _ _ n _ HI Hsig Hkeep). lia.
  - rewrite HI. unfold still_sends. destruct (decide (n < length (deliveries s))) as [Hlt|Hge]; [by rewrite lookup_app_l|].
    rewrite lookup_app_r, (lookup_ge_None_2 (deliveries s)) by lia.
    destruct (n - length (deliveries s)) as [|k]; simpl; [|destruct k; simpl]; lia.
  - rewrite sent_by_app, length_app. unfold sending. destruct (decide (m = n)) as [->|Hne].
    + unfold still_sends. rewrite Hm, list_lookup_insert_eq by (by eapply lookup_lt_Some). simpl.
      destruct Hmove as [k Hpc|k start late st b Hpc|k start late r result Hat Hset|k start late r delay Hat Hset
        |k j answer dl st fin Hpc Hj|result Hpc]; simpl.
      * rewrite Hpc. cbn. rewrite decide_True by done. simpl. lia.
      * rewrite Hpc. simpl. lia.
      * unfold attempting in Hat. destruct (at_pc d); simpl; done || lia.
      * rewrite list_lookup_middle by done. unfold attempting in Hat. destruct (at_pc d); simpl; done || lia.
      * rewrite Hpc, Hj. destruct answer; simpl; lia.
      * rewrite Hpc. simpl. lia.
    + assert (Hnone : length (sent_by n (sending s m d)) = 0)
        by (unfold sending; destruct (at_pc d); try done; cbn; by rewrite decide_False).
      pose proof (still_sends_rtc _ _ n _ (move_interrupt _ _ _ _ _ Hmove) Hsig Hkeep) as Hs.
      unfold still_sends in *. rewrite list_lookup_insert_ne by done. unfold sending in Hnone. lia.
Qed.

Lemma budget_rtc s s' (n : nat) :
  reachable s -> Interrupt.signalled (interrupt s) = true -> rtc step s s' -> budget s' n <= budget s n.
Proof.
  intros Hreach Hsig Hrtc. revert Hreach Hsig. induction Hrtc as [|s s1 s2 Hstep Hrest IH]; [done|]. intros Hreach Hsig.
  etrans; [apply IH|by apply budget_step].
  - eapply system_reachable_rtc; [done|by apply rtc_once].
  - clear -Hstep Hsig. apply step_interrupt in Hstep. induction Hstep as [|I1 I2 I3 Hs _ IH]; [done|].
    apply IH. by eapply signal_stays.
Qed.
End Requests.

(** ** What the callers are told *)

Section Answers.
Context {W : Type} `{SerdeJson} `{!Ureq W}.
Implicit Types (s : System (W := W)) (d : job (W := W)) (c : call).

(** A call that posts, from the delivery on. *)
Definition posts c : bool := match c with Posting _ | PostDone _ => true | _ => false end.

Definition refusal (e : IncidentError) : Prop := e = ClientClosed \/ exists text, e = InvalidRequest text.

(** Call [i] has no delivery. *)
Definition no_delivery s (i : nat) : Prop := forall n d, deliveries s !! n = Some d -> by_whom d <> Caller i.

Record answered s : Prop := {
  answered_posts : forall n d i, deliveries s !! n = Some d -> by_whom d = Caller i ->
    exists c, calls (client s) !! i = Some c /\ posts c = true;
  answered_once : forall n n' d d' i, deliveries s !! n = Some d -> deliveries s !! n' = Some d' ->
    by_whom d = Caller i -> by_whom d' = Caller i -> n = n';
  answered_done : forall i r, calls (client s) !! i = Some (PostDone r) ->
    (exists e, r = Err e /\ refusal e /\ no_delivery s i) \/
    (exists n d, deliveries s !! n = Some d /\ by_whom d = Caller i /\ at_pc d = DDone r true);
}.

(** The deliveries are the same ones, and those whose result was returned have not
    moved. *)
Definition keeps s s' : Prop :=
  (forall n d', deliveries s' !! n = Some d' -> exists d, deliveries s !! n = Some d /\ by_whom d' = by_whom d) /\
  (forall n d r, deliveries s !! n = Some d -> at_pc d = DDone r true -> deliveries s' !! n = Some d).

Lemma keeps_set s s' (n : nat) d d' :
  deliveries s !! n = Some d -> deliveries s' = <[n := d']> (deliveries s) ->
  by_whom d' = by_whom d -> under_way d = true -> keeps s s'.
Proof.
  intros Hn Hd Hb Hu. split; rewrite Hd.
  - intros m e Hm. apply list_lookup_insert_Some in Hm as [(-> & <- & _)|(_ & Hm)]; eauto.
  - intros m e r Hm Hpc. rewrite list_lookup_insert_ne; [done|]. intros <-. simplify_eq.
    unfold under_way in Hu. by rewrite Hpc in Hu.
Qed.

Lemma keeps_same s s' : deliveries s' = deliveries s -> keeps s s'.
Proof. intros Hd. split; rewrite Hd; eauto. Qed.

(** The calls are as they were, but for [i], which neither posts nor is refused. *)
Lemma answered_keep s s' :
  answered s -> keeps s s' ->
  (forall i c, calls (client s') !! i = Some c -> posts c = true -> calls (client s) !! i = Some c) ->
  (forall i c, calls (client s) !! i = Some c -> posts c = true -> calls (client s') !! i = Some c) ->
  answered s'.
Proof.
  intros [Hpost Honce Hdone] [Hback Hforth] Hc Hc'. split.
  - intros n d i (d0 & Hn & Hb)%Hback Hby. destruct (Hpost n d0 i Hn) as (c & Hi & Hp); [congruence|]. eauto.
  - intros n n' d d' i (d0 & Hn & Hb)%Hback (d0' & Hn' & Hb')%Hback Hby Hby'. apply (Honce n n' d0 d0' i); congruence.
  - intros i r Hi. apply Hc in Hi; [|done]. destruct (Hdone _ _ Hi) as [(e & -> & He & Hno)|(n & d & Hn & Hby & Hpc)].
    + left. exists e. split_and!; [done|done|]. intros n d (d0 & Hn & ->)%Hback. by eapply Hno.
    + right. eauto 6.
Qed.

(** What a call that posts, or is about to, turns into. *)
Lemma run_call_calls (cl cl' : Client) (i : nat) : run_call i cl = Some cl' ->
  exists c c', calls cl !! i = Some c /\ posts c = false /\ calls cl' = <[i := c']> (calls cl) /\
    (forall r, c' = PostDone r -> exists e, r = Err e /\ refusal e).
Proof.
  unfold run_call. destruct (calls cl !! i) as [c|] eqn:Hi; [|done]. simpl. intros Hrun.
  destruct c; try done; repeat case_match; simplify_eq; do 2 eexists; (split; [done|]); (split; [done|]); (split; [done|]);
    try done.
  intros r' [= <-]. eexists. split; [done|].
  match goal with Hp : post_async_mode _ _ _ _ = Err _ |- _ => rewrite post_async_mode_cases in Hp end.
  repeat case_match; simplify_eq; [by left|right; by eexists].
Qed.

Lemma answered_run s s' (i : nat) : answered s -> run_caller i s = Some s' -> answered s'.
Proof.
  intros Hans Hrun. pose proof (run_caller_client _ _ _ Hrun) as Hcall.
  destruct (run_call_calls _ _ _ Hcall) as (c & c' & Hi & Hp & Hcalls & Href).
  pose proof Hans as [Hpost Honce Hdone].
  assert (Hfree : no_delivery s i).
  { intros n d Hn Hby. destruct (Hpost _ _ _ Hn Hby) as (c0 & Hi0 & Hp0). congruence. }
  assert (Hlt : i < length (calls (client s))) by (by eapply lookup_lt_Some).
  assert (Hnew : (exists t, deliveries s' = deliveries s ++ [just_begun (Caller i) t] /\ c' = Posting t) \/
                 deliveries s' = deliveries s).
  { clear Hans Hcall. revert Hcalls. apply run_caller_cases in Hrun as [routed r t Hi' Hpm|c1 Hi' Hr|c1 c2 Hi' Hne Hr Hno]; [intros Hcalls; left|by right|by right].
    exists t. split; [done|]. simpl in Hcalls. apply (f_equal (lookup i)) in Hcalls.
    rewrite !list_lookup_insert_eq in Hcalls by done. congruence. }
  assert (Hback : forall n d, deliveries s' !! n = Some d ->
            deliveries s !! n = Some d \/ (n = length (deliveries s) /\ by_whom d = Caller i /\ exists t, c' = Posting t)).
  { intros n d Hn. destruct Hnew as [(t & Hd & Hpc)|Hd]; rewrite Hd in Hn; [|by left].
    apply lookup_app_Some in Hn as [Hn|[Hle Hn]]; [by left|right].
    apply list_lookup_singleton_Some in Hn as [Hz <-]. split_and!; [lia|done|by exists t]. }
  assert (Hforth : forall n d, deliveries s !! n = Some d -> deliveries s' !! n = Some d)
    by (intros n d Hn; destruct Hnew as [(t & -> & _)| ->]; [by apply lookup_app_l_Some|done]).
  split; rewrite ?Hcalls.
  - intros n d j [Hn|(_ & Hb & t & ->)]%Hback Hby.
    + assert (Hne : i <> j) by (intros <-; by eapply Hfree). rewrite list_lookup_insert_ne by done. eauto.
    + rewrite Hb in Hby. simplify_eq. exists (Posting t). by rewrite list_lookup_insert_eq.
  - intros n n' d d' j [Hn|(-> & Hb & _)]%Hback [Hn'|(-> & Hb' & _)]%Hback Hby Hby'; [by eapply Honce| | |done].
    + exfalso. apply (Hfree _ _ Hn). congruence.
    + exfalso. apply (Hfree _ _ Hn'). congruence.
  - intros j r Hj. apply list_lookup_insert_Some in Hj as [(<- & Hc & _)|(Hne & Hj)].
    + left. destruct (Href _ Hc) as (e & -> & He). exists e. split_and!; [done|done|].
      intros n d [Hn|(_ & _ & t & Hpc)]%Hback; [by eapply Hfree|congruence].
    + destruct (Hdone _ _ Hj) as [(e & -> & He & Hno)|(n & d & Hn & Hby & Hpc)]; [left|right; eauto 6].
      exists e. split_and!; [done|done|]. intros n d [Hn|(_ & Hb & _)]%Hback; [by eapply Hno|congruence].
Qed.

Lemma answered_collect s s' (i n : nat) (t : DeliveryTask) d (r : Result IncidentResponse IncidentError) :
  answered s -> calls (client s) !! i = Some (Posting t) ->
  deliveries s !! n = Some d -> by_whom d = Caller i -> at_pc d = DDone r false ->
  calls (client s') = <[i := PostDone r]> (calls (client s)) ->
  deliveries s' = <[n := at_point (DDone r true) d]> (deliveries s) -> answered s'.
Proof.
  intros [Hpost Honce Hdone] Hi Hn Hby Hpc Hc Hd.
  destruct (keeps_set s s' n d (at_point (DDone r true) d) Hn Hd eq_refl ltac:(unfold under_way; by rewrite Hpc))
    as [Hback Hforth].
  assert (Hlt : i < length (calls (client s))) by (by eapply lookup_lt_Some).
  split; rewrite ?Hc.
  - intros m e j (e0 & Hm & Hb)%Hback Hbe. destruct (decide (i = j)) as [<-|Hne].
    + exists (PostDone r). by rewrite list_lookup_insert_eq.
    + rewrite list_lookup_insert_ne by done. eapply Hpost; [done|congruence].
  - intros m m' e e' j (e0 & Hm & Hb)%Hback (e0' & Hm' & Hb')%Hback ? ?. apply (Honce m m' e0 e0' j); congruence.
  - intros j r' Hj. apply list_lookup_insert_Some in Hj as [(<- & Hr & _)|(Hne & Hj)].
    + right. assert (r' = r) as -> by congruence. exists n, (at_point (DDone r true) d). rewrite Hd.
      split; [apply list_lookup_insert_eq; by eapply lookup_lt_Some|done].
    + destruct (Hdone _ _ Hj) as [(e & -> & He & Hno)|(m & e & Hm & Hbe & Hpe)]; [left|right; eauto 6].
      exists e. split_and!; [done|done|]. intros m e' (e0 & Hm & ->)%Hback. by eapply Hno.
Qed.

Lemma step_answered s s' : step s s' -> answered s -> answered s'.
Proof.
  intros Hstep Hans. pose proof Hans as [Hpost Honce Hdone].
  assert (Hown : forall n d d', client s' = client s -> deliveries s !! n = Some d ->
            deliveries s' = <[n := d']> (deliveries s) -> by_whom d' = by_whom d -> under_way d = true -> answered s').
  { intros n d d' Hc Hn Hd Hb Hu. eapply answered_keep; [done|by eapply keeps_set| |]; by rewrite Hc. }
  destruct Hstep as [c Hc|i s' Hrun|i n t d result Hi Hn Ho Hpc|i t d' Hi Hrun Ht|i n t d result d' Hi Hn Ho Hpc Hrun
    |d' Hd Hlen' Hclk Hsame|i' Hi Hlen' Hclk Hsig|n s' Hrun|t Ht].
  - eapply answered_keep; [done|by apply keeps_same| |]; simpl.
    + intros i p Hi Hp. apply lookup_app_Some in Hi as [Hi|[_ Hi]]; [done|].
      apply list_lookup_singleton_Some in Hi as [_ <-]. by destruct Hc as [(? & ? & [->| ->])|[->| ->]].
    + intros i p Hi Hp. by apply lookup_app_l_Some.
  - by eapply answered_run.
  - by eapply answered_collect.
  - assert (Hback : forall m e, (deliveries s ++ [just_begun (Worker i) t]) !! m = Some e -> deliveries s !! m = Some e \/ by_whom e = Worker i).
    { intros m e [Hm|[_ Hm]]%lookup_app_Some; [by left|].
      apply list_lookup_singleton_Some in Hm as [_ <-]. by right. }
    split; simpl.
    + intros m e j [Hm|Hb]%Hback Hby; [eauto|congruence].
    + intros m m' e e' j [Hm|Hb]%Hback [Hm'|Hb']%Hback ? ?; (by apply (Honce m m' e e' j)) || congruence.
    + intros j r Hj. destruct (Hdone _ _ Hj) as [(e & -> & He & Hno)|(m & e & Hm & Hbe & Hpe)].
      * left. exists e. split_and!; [done|done|]. intros m e' [Hm|Hb]%Hback; [by eapply Hno|congruence].
      * right. exists m, e. split; [by apply lookup_app_l_Some|done].
  - eapply (answered_keep s); [done| | |]; rewrite ?log_failure_client; [|done|done].
    apply (keeps_set _ _ n d (at_point (DDone result true) d)); [done|by destruct result|done|unfold under_way; by rewrite Hpc].
  - eapply answered_keep; [done|by apply keeps_same|done|done].
  - eapply answered_keep; [done|by apply keeps_same|done|done].
  - pose proof (run_delivery_client _ _ _ Hrun) as Hc.
    destruct (run_delivery_owns _ _ _ Hrun) as [_ Hd|o t _ _ _ Hd|m d d' _ Hm Hd Hb _ Hu _|m d d' _ _ Hm Hd Hb _ Hu _];
      [|exfalso|by eapply Hown|by eapply Hown].
    + eapply answered_keep; [done|by apply keeps_same|by rewrite Hc|by rewrite Hc].
    + pose proof (run_delivery_length _ _ _ Hrun) as Hl. rewrite Hd, length_app in Hl. simpl in Hl. lia.
  - eapply answered_keep; [done|by apply keeps_same|done|done].
Qed.

Lemma answered_invariant s : reachable s -> answered s.
Proof.
  revert s. apply system_ind; [by intros; split|]. intros s s' _ Hans Hstep. by eapply step_answered.
Qed.
End Answers.

(** ** What is logged *)

Section Log.
Context {W : Type} `{SerdeJson} `{!Ureq W}.
Implicit Types (s : System (W := W)) (d : job (W := W)).

Definition failure_line (e : IncidentError) : str :=
  lit "oppex: asynchronous incident delivery failed: " ++ fmt_error e.

(** The line a delivery that was returned to its worker has left in the log. *)
Definition log_line d : option str :=
  match by_whom d, at_pc d with
  | Worker _, DDone (Err e) true => Some (failure_line e)
  | _, _ => None
  end.

Lemma omap_insert_perm {A B : Type} (f : A -> option B) (l : list A) (n : nat) (x y : A) :
  l !! n = Some x -> f x = None -> omap f (<[n := y]> l) ≡ₚ omap f l ++ option_list (f y).
Proof.
  revert n. induction l as [|z l IH]; intros [|n] Hn Hf; simplify_eq/=.
  - rewrite Hf. destruct (f y); simpl; [by rewrite Permutation_cons_append|by rewrite app_nil_r].
  - destruct (f z); simpl; by rewrite (IH n).
Qed.

Lemma under_way_line d : under_way d = true -> log_line d = None.
Proof. unfold under_way, log_line. destruct (by_whom d); [|done]. by destruct (at_pc d) as [| | | |[] []]. Qed.

Lemma log_kept s s' : owns s s' -> debug_log s' = debug_log s ->
  (forall n d', deliveries s' !! n = Some d' -> under_way d' = true \/ deliveries s !! n = Some d' \/ log_line d' = None) ->
  debug_log s ≡ₚ omap log_line (deliveries s) -> debug_log s' ≡ₚ omap log_line (deliveries s').
Proof.
  intros Howns -> Hno Heq. rewrite Heq.
  assert (Hset : forall n d d', deliveries s !! n = Some d -> deliveries s' = <[n := d']> (deliveries s) ->
            under_way d = true -> omap log_line (deliveries s) ≡ₚ omap log_line (deliveries s')).
  { intros n d d' Hn Hd Hu. rewrite Hd. erewrite omap_insert_same; [done|done|].
    rewrite (under_way_line _ Hu). destruct (Hno n d') as [Hu'|[Hn'|Hl]];
      [rewrite Hd; apply list_lookup_insert_eq; by eapply lookup_lt_Some|by apply under_way_line| |done].
    simplify_eq. by apply under_way_line. }
  destruct Howns as [_ Hd|o t _ _ _ Hd|n d d' _ Hn Hd _ _ Hu _|n d d' _ _ Hn Hd _ _ Hu _];
    [by rewrite Hd| |by eapply Hset|by eapply Hset].
  rewrite Hd, omap_app. simpl. unfold log_line at 3. simpl. destruct o; by rewrite app_nil_r.
Qed.

Lemma run_delivery_quiet s s' (n : nat) : run_delivery n s = Some s' -> debug_log s' = debug_log s /\
  forall m d', deliveries s' !! m = Some d' -> under_way d' = true \/ deliveries s !! m = Some d'.
Proof.
  intros Hrun. pose proof (run_delivery_owns _ _ _ Hrun) as Howns. pose proof (run_delivery_length _ _ _ Hrun) as Hl.
  split.
  - unfold run_delivery, conclude in Hrun. destruct (deliveries s !! n) as [d|]; [|done]. simpl in Hrun.
    destruct (at_pc d); repeat case_match; by simplify_eq/=.
  - intros m e Hm. destruct (decide (m = n)) as [->|Hne].
    + unfold run_delivery, conclude in Hrun. destruct (deliveries s !! n) as [d|] eqn:Hn; [|done]. simpl in Hrun.
      assert (Hlt : n < length (deliveries s)) by (by eapply lookup_lt_Some).
      left. destruct (at_pc d); repeat case_match; simplify_eq/=; rewrite list_lookup_insert_eq in Hm by done; by simplify_eq.
    + destruct (run_delivery_moved _ _ _ Hrun) as (d & d' & _ & _ & Hd & _). right.
      by rewrite Hd, list_lookup_insert_ne in Hm.
Qed.

Lemma step_log s s' : step s s' -> debug_log s ≡ₚ omap log_line (deliveries s) ->
  debug_log s' ≡ₚ omap log_line (deliveries s').
Proof.
  intros Hstep. pose proof (log_kept _ _ (step_owns _ _ Hstep)) as Hkept.
  destruct Hstep as [c Hc|i s' Hrun|i n t d result Hi Hn Ho Hpc|i t d' Hi Hrun Ht|i n t d result d' Hi Hn Ho Hpc Hrun
    |d' Hd Hlen' Hclk Hsame|i' Hi Hlen' Hclk Hsig|n s' Hrun|t Ht]; try (apply Hkept; simpl; by auto).
  - revert Hkept. apply run_caller_cases in Hrun as [routed r t Hi Hp|c' Hi Hrun|c c' Hi Hne Hrun Hno];
      intros Hkept; apply Hkept; simpl; auto.
    intros m e [Hm|[_ Hm]]%lookup_app_Some; [auto|]. apply list_lookup_singleton_Some in Hm as [_ <-]. by left.
  - apply Hkept; [done|]. simpl. intros m e Hm.
    apply list_lookup_insert_Some in Hm as [(_ & <- & _)|(_ & Hm)]; [|auto].
    right. right. unfold log_line. simpl. by rewrite Ho.
  - apply Hkept; [done|]. simpl. intros m e [Hm|[_ Hm]]%lookup_app_Some; [auto|].
    apply list_lookup_singleton_Some in Hm as [_ <-]. by left.
  - intros Heq. assert (Hl : log_line d = None) by (apply under_way_line; unfold under_way; by rewrite Hpc).
    destruct result as [v|e]; simpl; rewrite (omap_insert_perm _ _ _ _ _ Hn Hl), <-Heq;
      unfold log_line; simpl; rewrite Ho; [by rewrite app_nil_r|done].
  - destruct (run_delivery_quiet _ _ _ Hrun) as [Hlog Hd]. apply Hkept; [done|].
    intros m e [?|?]%Hd; auto.
Qed.

Lemma log_invariant s : reachable s -> debug_log s ≡ₚ omap log_line (deliveries s).
Proof. revert s. apply system_ind; [done|]. intros s s' _ IH Hstep. by eapply step_log. Qed.
End Log.
