(* ===== verification/DeliveryProps.v ===== *)
(** * Properties of the whole system

    What the SDK promises of a delivery, whatever threads, workers, waits and calls
    interleave with it: it runs the retry loop, ends, spaces its attempts, stops when
    the client closes, sends nothing that was not asked for, and its caller is told
    what it came to. *)

From stdpp Require Import prelude list strings relations.
From S2P Require Import Prelude Error Response Request Json JsonRef Retry Transport Stub DropLogger Dispatcher DispatcherInv.
From S2P Require Import DispatcherProps Client ClientSystem Interrupt InterruptWorld DeliverySystem DeliveryInv DeliveryOwner DeliveryCalls.

(** ** A delivery can always be run to its end *)

Section Progress.
Context {W : Type} `{SerdeJson} `{!Ureq W}.
Implicit Types (s : System (W := W)) (d : job (W := W)).

(** A bound on the steps a delivery has left. *)
Definition steps_left (delays : list Z) d : nat :=
  let n := length delays in
  match at_pc d with
  | DSend k => 4 * (n - k) + 4
  | DHead k _ _ => 4 * (n - k) + 3
  | DBody k _ _ _ _ => 4 * (n - k) + 2
  | DWait k _ => 4 * (n - k) + 1
  | DDone _ _ => 0
  end.

Definition ended_with d : Prop := exists r c, at_pc d = DDone r c.

Lemma settle_backoff (delays : list Z) (k : nat) (r : Result IncidentResponse IncidentError) (delay : Z) :
  settle delays k r = Backoff delay -> k < length delays.
Proof.
  unfold settle. destruct r as [v|f]; [done|]. destruct (is_retryable f); simpl; [|done].
  destruct (Nat.leb_spec (length delays) k); [done|lia].
Qed.

Lemma move_steps_left (delays : list Z) I I' d d' :
  move delays I d I' d' -> replay_ok delays d -> ~ ended_with d -> steps_left delays d' < steps_left delays d.
Proof.
  intros Hmove Hok Hend. unfold steps_left, ended_with, attempting in *.
  destruct Hmove as [k Hpc|k start late st b Hpc|k start late r result Hat Hset|k start late r delay Hat Hset
    |k j answer dl st fin Hpc Hj|result Hpc]; simpl.
  - rewrite Hpc. lia.
  - rewrite Hpc. lia.
  - unfold attempting in Hat. destruct (at_pc d); try done; lia.
  - apply settle_backoff in Hset. unfold attempting in Hat. destruct (at_pc d); try done; destruct Hat as (-> & _); lia.
  - unfold replay_ok in Hok. rewrite Hpc in Hok |- *. destruct Hok as [Hk _]. destruct answer; lia.
  - rewrite Hpc in Hend. destruct Hend. eauto.
Qed.

(** It can make a step, unless it waits for the interrupt. *)
Lemma delivery_enabled s (n : nat) d :
  deliveries s !! n = Some d -> ~ ended_with d ->
  (exists s', run_delivery n s = Some s') \/
  exists k j, at_pc d = DWait k j /\
    forall r dl st fin, Interrupt.threads (interrupt s) !! j <> Some (WaitDone r dl st fin).
Proof.
  intros Hn Hend. unfold run_delivery. rewrite Hn. simpl.
  destruct (at_pc d) as [k|k start late|k start late st b|k j|r c] eqn:Hpc.
  - left. by eexists.
  - left. destruct (http_send _ _ _) as [[[st b]|c] w]; by eexists.
  - left. destruct (read_to_string _ _ _) as [r w]. by eexists.
  - destruct (Interrupt.threads (interrupt s) !! j) as [[| | | | |[] dl st fin]|] eqn:Hj;
      try (right; exists k, j; split; [done|]; by rewrite Hj); left; by eexists.
  - destruct Hend. by exists r, c.
Qed.

(** The deliveries of [s'] are those of [s], and thread [j] has returned. *)
Definition wait_over s (j : nat) s' : Prop :=
  rtc step s s' /\ deliveries s' = deliveries s /\ inner_of s' = inner_of s /\
  exists r dl st fin, Interrupt.threads (interrupt s') !! j = Some (WaitDone r dl st fin).

(** One step of a waiting thread. *)
Lemma thread_step s (j : nat) (q : Interrupt.pc) :
  j < length (Interrupt.threads (interrupt s)) -> Interrupt.step (interrupt s) (set_thread j q (interrupt s)) ->
  exists s1, step s s1 /\ deliveries s1 = deliveries s /\ inner_of s1 = inner_of s /\
    clock (interrupt s1) = clock (interrupt s) /\ Interrupt.threads (interrupt s1) !! j = Some q.
Proof.
  intros Hlt Hstep. exists (with_interrupt (set_thread j q (interrupt s)) s).
  split; [by apply sys_interrupt; [|simpl; rewrite length_insert|..]|].
  split_and!; try done. simpl. by apply list_lookup_insert_eq.
Qed.

Lemma wait_over_step s s1 s' (j : nat) :
  step s s1 -> deliveries s1 = deliveries s -> inner_of s1 = inner_of s -> wait_over s1 j s' -> wait_over s j s'.
Proof.
  intros Hstep Hd Hi (Hrtc & Hd' & Hi' & Hdone).
  split; [by eapply rtc_l|]. by rewrite Hd', Hi'.
Qed.

(** A wait can be brought to its end, by the clock. *)
Lemma woken_can_end s (j : nat) (dl st : Z) :
  Interrupt.threads (interrupt s) !! j = Some (Woken dl st) -> exists s', wait_over s j s'.
Proof.
  intros Hj. set (t := Z.max 0 (Z.max 0 dl + st + 1 - clock (interrupt s))).
  pose proof (sys_tick s t ltac:(lia)) as Htick. set (s1 := with_interrupt _ _) in Htick.
  assert (Hj1 : Interrupt.threads (interrupt s1) !! j = Some (Woken dl st)) by done.
  destruct (thread_step s1 j (check (clock (interrupt s1)) dl st (Interrupt.signalled (interrupt s1))))
    as (s2 & Hs2 & Hd2 & Hi2 & _ & Hj2); [by eapply lookup_lt_Some|by apply (step_again (interrupt s1) j dl st)|].
  exists s2. eapply wait_over_step; [exact Htick|done|done|].
  split; [by apply rtc_once|]. split; [done|]. split; [done|]. rewrite Hj2. unfold check, saturating_duration_since.
  destruct (Interrupt.signalled _); [by do 4 eexists|].
  rewrite (proj2 (Z.ltb_lt _ _)); [by do 4 eexists|]. subst s1 t. simpl. lia.
Qed.

Lemma waiting_can_end s (j : nat) (dl st : Z) :
  Interrupt.threads (interrupt s) !! j = Some (Waiting dl st) -> exists s', wait_over s j s'.
Proof.
  intros Hj. destruct (thread_step s j (Woken dl st)) as (s1 & Hs1 & Hd & Hi & _ & Hj1);
    [by eapply lookup_lt_Some|by apply step_spurious|].
  destruct (woken_can_end _ _ _ _ Hj1) as [s' Hs']. exists s'. by eapply wait_over_step.
Qed.

Lemma wait_can_end s (j : nat) (delay lo : Z) (late : bool) (p : Interrupt.pc) :
  Interrupt.threads (interrupt s) !! j = Some p -> waits_for delay lo late p -> exists s', wait_over s j s'.
Proof.
  intros Hj Hp. destruct p as [| |dl|dl st|dl st|r dl st fin]; try done.
  - destruct (thread_step s j (check (clock (interrupt s)) dl (clock (interrupt s)) (Interrupt.signalled (interrupt s))))
      as (s1 & Hs1 & Hd & Hi & _ & Hj1); [by eapply lookup_lt_Some|by apply step_wait|].
    assert (Hend : exists s', wait_over s1 j s').
    { destruct (check_cases (clock (interrupt s)) dl (clock (interrupt s)) (Interrupt.signalled (interrupt s)))
        as [Hc|Hc]; rewrite Hc in Hj1; [|by eapply waiting_can_end].
      exists s1. split_and!; [done|done|done|eauto]. }
    destruct Hend as [s' Hs']. exists s'. by eapply wait_over_step.
  - by eapply waiting_can_end.
  - by eapply woken_can_end.
  - exists s. split_and!; [done|done|done|eauto].
Qed.

(** From any reachable state a delivery can be run to its end. *)
Lemma can_finish s (n : nat) d :
  reachable s -> deliveries s !! n = Some d ->
  exists s' d', rtc step s s' /\ deliveries s' !! n = Some d' /\ ended_with d'.
Proof.
  remember (steps_left (retry_delays (inner_of s)) d) as m eqn:Hm. revert s d Hm.
  induction (lt_wf m) as [m _ IH]. intros s d -> Hreach Hn.
  assert (Hdec : ended_with d \/ ~ ended_with d)
    by (unfold ended_with; destruct (at_pc d); try (right; by intros (? & ? & ?)); left; eauto).
  destruct Hdec as [Hend|Hend]; [by exists s, d|].
  (* the delivery makes a step, perhaps after its wait *)
  assert (Hrun : forall s0, rtc step s s0 -> deliveries s0 = deliveries s -> inner_of s0 = inner_of s ->
            (exists s1, run_delivery n s0 = Some s1) ->
            exists s' d', rtc step s s' /\ deliveries s' !! n = Some d' /\ ended_with d').
  { intros s0 Hrtc Hd Hin [s1 Hs1].
    destruct (run_delivery_moved _ _ _ Hs1) as (d0 & d1 & Hn0 & Hmove & Hd1 & _).
    rewrite Hd, Hn in Hn0. injection Hn0 as <-. rewrite Hin in Hmove.
    assert (Hrtc1 : rtc step s s1) by (eapply rtc_r; [done|by eapply sys_delivery]).
    pose proof (replay_invariant _ Hreach _ _ Hn) as Hok.
    destruct (IH (steps_left (retry_delays (inner_of s)) d1)) with (s := s1) (d := d1) as (s' & d' & Hs' & Hn' & He).
    - by eapply move_steps_left.
    - by rewrite (step_inner s0 s1), Hin by (by eapply sys_delivery).
    - by eapply system_reachable_rtc.
    - rewrite Hd1, Hd. apply list_lookup_insert_eq. by eapply lookup_lt_Some.
    - exists s', d'. split; [by etrans|done]. }
  destruct (delivery_enabled _ _ _ Hn Hend) as [Hs1|(k & j & Hpc & _)]; [by apply (Hrun s)|].
  pose proof (timed_pc _ _ _ (timed_invariant _ Hreach _ _ Hn)) as Ht. unfold pc_timed in Ht. rewrite Hpc in Ht.
  destruct Ht as (a & p & _ & Hj & Hp). destruct (wait_can_end _ _ _ _ _ _ Hj Hp) as (s0 & Hrtc & Hd & Hin & r & dl & st & fin & Hj0).
  apply (Hrun s0 Hrtc Hd Hin). unfold run_delivery. rewrite Hd, Hn. simpl. rewrite Hpc, Hj0. destruct r; by eexists.
Qed.
End Progress.

(** ** Properties *)

Section Properties.
Context {W : Type} `{SerdeJson} `{!Ureq W}.
Implicit Types (s : System (W := W)) (d : job (W := W)).

(** The loop of the code, played on what the attempts of [d] came to and what its
    backoffs were answered. *)
Definition loop_result s d : Result IncidentResponse IncidentError * Script :=
  execute_with_retry (retry_delays (inner_of s)) recorded (mkScript (outcomes d) (answers d)).

(** C3: A delivery is a run of the retry loop. However it was interleaved with the
    other deliveries, the calls and the signal, a delivery that has ended returned
    exactly what [execute_with_retry] returns when it is run alone on the results of
    the attempts and the answers of the waits the delivery saw, in that order, and it
    saw no more of them than the loop consumes. It sent one request per attempt, the
    same each time, and made at least one attempt and at most one more than the
    schedule has delays. *)
Theorem delivery_runs_the_loop s (n : nat) d (r : Result IncidentResponse IncidentError) (collected : bool) :
  reachable s -> deliveries s !! n = Some d -> at_pc d = DDone r collected ->
  loop_result s d = (r, mkScript [] []) /\
  sent_by n (requests s) = replicate (length (attempts d)) (request_of (inner_of s) (task d)) /\
  1 <= length (attempts d) <= 1 + length (retry_delays (inner_of s)).
Proof.
  intros Hreach Hn Hpc. pose proof (replay_invariant _ Hreach _ _ Hn) as Hok.
  unfold replay_ok in Hok. rewrite Hpc in Hok. destruct Hok as [Hlen Hruns].
  split; [by apply execute_runs|]. split; [|done].
  rewrite (requests_invariant _ Hreach n), Hn. unfold in_attempt. by rewrite Hpc, Nat.add_0_r.
Qed.

(** The whole system refines the client and the interrupt: each of its runs is a
    run of the client, in which a delivery is an atomic step with an arbitrary
    result, and a run of the interrupt, and the two agree on the signal and on the
    time. What [ClientSystem] and [Interrupt] promise is therefore promised here. *)
Lemma system_refines s s' :
  reachable s -> rtc step s s' ->
  (ClientSystem.reachable (client s) /\ rtc ClientSystem.step (client s) (client s')) /\
  (Interrupt.reachable (interrupt s) /\ rtc Interrupt.step (interrupt s) (interrupt s')) /\
  ClientSystem.signalled (client s') = Interrupt.signalled (interrupt s') /\
  Dispatcher.clock (dispatcher (client s')) = clock (interrupt s').
Proof.
  intros Hreach Hrtc. pose proof (system_reachable_rtc _ _ Hreach Hrtc) as Hreach'.
  split; [split; [by apply client_reachable|by apply client_runs]|].
  split; [|apply (sync_invariant _ Hreach')].
  split; [by apply interrupt_reachable|]. clear Hreach Hreach'.
  induction Hrtc as [|s1 s2 s3 Hstep _ IH]; [done|]. etrans; [by apply step_interrupt|exact IH].
Qed.

(** C6: The signal stops the retries. From the moment [close] has signalled the
    interrupt, every delivery, begun or not, sends at most one more request, however
    long the system runs on. *)
Theorem signal_stops_retries s s' (n : nat) :
  reachable s -> ClientSystem.signalled (client s) = true -> rtc step s s' ->
  length (sent_by n (requests s')) <= length (sent_by n (requests s)) + 1.
Proof.
  intros Hreach Hsig Hrtc. rewrite (proj1 (sync_invariant _ Hreach)) in Hsig.
  pose proof (budget_rtc _ _ n Hreach Hsig Hrtc) as Hb. unfold budget in Hb.
  assert (still_sends (interrupt s) n (deliveries s) <= 1) by (unfold still_sends; repeat case_match; lia). lia.
Qed.

(** C22: The attempts of a delivery are spaced by the schedule: attempt k+1 begins no
    earlier than the k-th delay after attempt k ended, and once an attempt has begun
    after the signal no other follows. A delivery that was interrupted was
    interrupted by the signal of [close]. *)
Theorem attempts_spaced s (n k : nat) d a :
  reachable s -> deliveries s !! n = Some d -> attempts d !! k = Some a ->
  (began a <= ended a <= now_of s)%Z /\
  (after_signal a = true -> ClientSystem.signalled (client s) = true /\ attempts d !! S k = None) /\
  (forall a', attempts d !! S k = Some a' ->
     (ended a + nth k (retry_delays (inner_of s)) 0 <= began a')%Z) /\
  (true ∈ answers d -> ClientSystem.signalled (client s) = true).
Proof.
  intros Hreach Hn Hk. rewrite (proj1 (sync_invariant _ Hreach)).
  destruct (timed_invariant _ Hreach _ _ Hn) as [Hsp Heach Hlast Hans _].
  destruct (Heach _ _ Hk) as [Hwhen Hsig]. split_and!; [lia|unfold now_of; lia| |intros a' Ha'; by eapply Hsp|done].
  intros Ha. split; [auto|]. apply lookup_ge_None_2. pose proof (Hlast _ _ Hk Ha). lia.
Qed.

(** C13: Nothing is sent that was not asked for. In every execution from the start, a
    request on the network is the request of a delivery, and behind the delivery is a
    call of that execution: the call of the very thread that delivers it, or an
    asynchronous one when a worker does, which found the client open and was no misuse.
    The request is the POST of that call's incident, with the client's service key as
    the default of a keyed call and with none of a routed one; and the delivery sends
    at most one more request than the schedule has delays. *)
Theorem requests_justified (exec : nat -> System (W := W)) (m : nat) (self : Inner) (now : Z) (w : W)
    (n : nat) (req : HttpRequest) :
  exec 0 = new self now w -> (forall k, k < m -> step (exec k) (exec (S k))) -> (n, req) ∈ requests (exec m) ->
  exists d k i routed r,
    deliveries (exec m) !! n = Some d /\
    k < m /\ closed (client (exec k)) = false /\
    calls (client (exec k)) !! i = Some (match by_whom d with Caller _ => Post routed r | Worker _ => PostAsync routed r end) /\
    (forall j, by_whom d = Caller j -> j = i) /\
    misused routed self r = false /\
    req = post_request self r (if routed then None else Client.service_key self) /\
    length (sent_by n (requests (exec m))) <= 1 + length (retry_delays self).
Proof.
  intros Hstart Hsteps Hin.
  destruct (exec_ind exec m self now w Hstart Hsteps (fun k => inner_of (exec k) = self)) as [Hreach Hself].
  { by rewrite Hstart. }
  { intros k Hk _ _ <-. apply (step_inner _ _ (Hsteps k Hk)). }
  pose proof (requests_invariant _ Hreach n) as Hsent. rewrite Hself in Hsent.
  assert (Hreq : req ∈ sent_by n (requests (exec m)))
    by (apply list_elem_of_omap; exists (n, req); split; [done|]; simpl; by rewrite decide_True).
  destruct (deliveries (exec m) !! n) as [d|] eqn:Hn; [|rewrite Hsent in Hreq; by apply elem_of_nil in Hreq].
  destruct (call_behind exec m self now w Hstart Hsteps n d Hn) as (k & i & routed & Hk & Hopen & Hi & Hby & Hm & Ht).
  exists d, k, i, routed, (request (task d)). split_and!; try done.
  - rewrite Hsent in Hreq. apply elem_of_replicate in Hreq as [-> _]. unfold request_of. by rewrite Ht at 2.
  - rewrite Hsent, length_replicate. pose proof (replay_invariant _ Hreach _ _ Hn) as Hok. rewrite Hself in Hok.
    unfold replay_ok, in_attempt in *. destruct (at_pc d); lia.
Qed.

(** C21: An accepted incident is delivered at most once. The tasks the workers deliver
    are the accepted ones, each once and in the order of their acceptance, but for
    those that were evicted, abandoned or are still queued; and a worker delivers one
    task at a time. *)
Theorem delivered_once s :
  reachable s ->
  let h := history (dispatcher (client s)) in
  sublist (worker_tasks s) (accepted h) /\
  accepted h ≡ₚ worker_tasks s ++ evicted h ++ abandoned h ++ tasks (state (shared (dispatcher (client s)))) /\
  (forall n n' d d', deliveries s !! n = Some d -> deliveries s !! n' = Some d' ->
     under_way d = true -> under_way d' = true -> by_whom d = by_whom d' -> n = n').
Proof.
  intros Hreach. simpl. rewrite (tasks_invariant _ Hreach).
  pose proof (client_reachable_inv _ (client_reachable _ Hreach)) as Hinv.
  destruct (fates _ _ _ (inv_reach _ Hinv)) as [Hperm Hsub]. split; [done|]. split; [done|].
  apply (owned_unique _ (owned_invariant _ Hreach)).
Qed.

(** C8: A synchronous call returns what its delivery came to. When a call has
    returned, either it was refused, as closed or misused, and has delivered nothing,
    or it has delivered exactly once, and returned the result of the retry loop over
    the attempts and the backoffs of that delivery. *)
Theorem post_returns s (i : nat) (r : Result IncidentResponse IncidentError) :
  reachable s -> calls (client s) !! i = Some (PostDone r) ->
  (exists e, r = Err e /\ refusal e /\ no_delivery s i) \/
  (exists n d, deliveries s !! n = Some d /\ by_whom d = Caller i /\
     loop_result s d = (r, mkScript [] []) /\
     forall n' d', deliveries s !! n' = Some d' -> by_whom d' = Caller i -> n' = n).
Proof.
  intros Hreach Hi. destruct (answered_invariant _ Hreach) as [_ Honce Hdone].
  destruct (Hdone _ _ Hi) as [Hrefused|(n & d & Hn & Hby & Hpc)]; [by left|right].
  exists n, d. split; [done|]. split; [done|]. split; [by eapply delivery_runs_the_loop|].
  intros n' d' Hn' Hby'. by apply (Honce n' n d' d i).
Qed.

(** C20: No failure of an asynchronous delivery goes unreported. In every reachable
    state the debug log holds exactly one line for each delivery of a worker that has
    failed and been handed back, with the text of its error, and nothing else: no line
    for a delivery that succeeded, for one of a synchronous call, or for one under way. *)
Theorem failures_logged s :
  reachable s ->
  debug_log s ≡ₚ
  omap (fun d => match by_whom d, at_pc d with
                 | Worker _, DDone (Err e) true =>
                     Some (lit "oppex: asynchronous incident delivery failed: " ++ fmt_error e)
                 | _, _ => None
                 end) (deliveries s).
Proof. apply log_invariant. Qed.

(** A delivery never gets stuck: from every reachable state, whatever the network
    has answered so far and will answer, a delivery can be run to its end, by its own
    steps, those of the interrupt and the passing of time; and each of its own steps,
    whatever comes between them, brings it nearer to its end, so that it makes at most
    four for each attempt the schedule allows. *)
Lemma delivery_can_end s (n : nat) d :
  reachable s -> deliveries s !! n = Some d ->
  (exists s' d', rtc step s s' /\ deliveries s' !! n = Some d' /\ ended_with d') /\
  (forall s' d', run_delivery n s = Some s' -> deliveries s' !! n = Some d' ->
     steps_left (retry_delays (inner_of s)) d' < steps_left (retry_delays (inner_of s)) d <=
     4 * (1 + length (retry_delays (inner_of s)))).
Proof.
  intros Hreach Hn. split; [by eapply can_finish|]. intros s' d' Hrun Hn'. split.
  - destruct (run_delivery_moved _ _ _ Hrun) as (d0 & d1 & Hn0 & Hmove & Hd & _).
    rewrite Hn in Hn0. injection Hn0 as <-.
    rewrite Hd, list_lookup_insert_eq in Hn' by (by eapply lookup_lt_Some). injection Hn' as <-.
    eapply move_steps_left; [done|by eapply replay_invariant|]. intros (r & c & Hpc).
    unfold run_delivery in Hrun. rewrite Hn in Hrun. simpl in Hrun. by rewrite Hpc in Hrun.
  - unfold steps_left. destruct (at_pc d); lia.
Qed.
End Properties.

(** ** Witnesses: one incident posted, one queued, and the client closed in a backoff *)

(** The first answer is unreadable, the second one creates the incident, and nobody
    listens any more. *)
Definition network0 : Net := network None [Reply 503 None; Reply 201 (Some [])].
Definition system0 : System := new sample_inner 0 network0.

Definition until_backoff : list DeliverySystem.event :=
  [EPost false (sample_request None); ECall 0; EDelivery 0; EDelivery 0; EDelivery 0].
Definition until_returned : list DeliverySystem.event :=
  until_backoff ++ [EWait 0; ETick (from_millis 600); EWait 0; EWait 0; EDelivery 0; EDelivery 0; EDelivery 0;
    EDelivery 0; EPostDone 0 0].
(** The queued one meets a refused connection, and the signal in its first backoff. *)
Definition until_queued : list DeliverySystem.event :=
  until_returned ++ [EPostAsync true (sample_request None); ECall 1; EDispatch 2; ENotifyNone 2; EDispatch 2; ECall 1;
    ETake 0; EDelivery 1; EDelivery 1].
Definition until_signalled : list DeliverySystem.event := until_queued ++ [EClose; ECall 2; ECall 2].
Definition until_logged : list DeliverySystem.event :=
  until_signalled ++ [EWait 1; EDelivery 1; ETaskDone 0 1].

Definition after_events (l : list DeliverySystem.event) : System := default system0 (play_events l system0).

Definition played (l : list DeliverySystem.event) : bool :=
  match play_events l system0 with Some _ => true | None => false end.

Lemma after_events_reachable (l : list DeliverySystem.event) : played l = true -> reachable (after_events l).
Proof.
  unfold played, after_events. destruct (play_events l system0) as [s|] eqn:Hs; [|done]. intros _.
  exists sample_inner, 0%Z, network0. by eapply play_events_steps.
Qed.

Lemma after_events_steps (l1 l2 : list DeliverySystem.event) :
  played (l1 ++ l2) = true -> rtc step (after_events l1) (after_events (l1 ++ l2)).
Proof.
  unfold played, after_events. rewrite play_events_app.
  destruct (play_events l1 system0) as [s1|]; [|done]. cbn [mbind option_bind].
  destruct (play_events l2 s1) as [s2|] eqn:Hs; [|done]. intros _. by eapply play_events_steps.
Qed.

Lemma returned_reachable : reachable (after_events until_returned).
Proof. apply after_events_reachable. vm_compute. reflexivity. Qed.
Lemma signalled_reachable : reachable (after_events until_signalled).
Proof. apply after_events_reachable. vm_compute. reflexivity. Qed.
Lemma logged_reachable : reachable (after_events until_logged).
Proof. apply after_events_reachable. vm_compute. reflexivity. Qed.
Lemma logged_steps : rtc step (after_events until_signalled) (after_events until_logged).
Proof. apply after_events_steps. vm_compute. reflexivity. Qed.

(** What the posted incident came to, and the queued one. *)
Definition created : IncidentResponse := IncidentResponse_new true 201 None None.

Definition result_of (l : list DeliverySystem.event) (n : nat) : option (Result IncidentResponse IncidentError) :=
  match at_pc <$> deliveries (after_events l) !! n with Some (DDone r true) => Some r | _ => None end.

Lemma result_of_delivery (l : list DeliverySystem.event) (n : nat) (r : Result IncidentResponse IncidentError) :
  result_of l n = Some r -> exists d, deliveries (after_events l) !! n = Some d /\ at_pc d = DDone r true.
Proof.
  unfold result_of. destruct (deliveries (after_events l) !! n) as [d|]; [|done]. cbn [fmap option_fmap option_map].
  destruct (at_pc d) as [| | | |r' []] eqn:Hpc; try done. intros [= <-]. by exists d.
Qed.

Example posted_created : result_of until_returned 0 = Some (Ok created).
Proof. vm_compute. reflexivity. Qed.
Example queued_interrupted : result_of until_logged 1 = Some (Err interrupted).
Proof. vm_compute. reflexivity. Qed.

Lemma delivery_runs_the_loop_witness :
  exists d, deliveries (after_events until_logged) !! 1 = Some d /\
    loop_result (after_events until_logged) d = (Err interrupted, mkScript [] []).
Proof.
  destruct (result_of_delivery _ _ _ queued_interrupted) as (d & Hn & Hpc). exists d. split; [exact Hn|].
  apply (delivery_runs_the_loop _ _ _ _ _ logged_reachable Hn Hpc).
Defined.

Lemma signal_stops_retries_witness :
  length (sent_by 1 (requests (after_events until_logged))) <=
  length (sent_by 1 (requests (after_events until_signalled))) + 1.
Proof.
  apply (signal_stops_retries _ _ 1 signalled_reachable); [vm_compute; reflexivity|exact logged_steps].
Defined.

Lemma attempts_spaced_witness :
  exists d a a', deliveries (after_events until_returned) !! 0 = Some d /\
    attempts d !! 0 = Some a /\ attempts d !! 1 = Some a' /\ (ended a + from_millis 500 <= began a')%Z.
Proof.
  destruct (result_of_delivery _ _ _ posted_created) as (d & Hn & _).
  assert (Hlen : length (default [] (attempts <$> deliveries (after_events until_returned) !! 0)) = 2)
    by (vm_compute; reflexivity).
  rewrite Hn in Hlen. cbn [fmap option_fmap option_map default] in Hlen.
  destruct (attempts d) as [|a [|a' l]] eqn:Hatt; [discriminate|discriminate|].
  assert (Ha : attempts d !! 0 = Some a) by (rewrite Hatt; reflexivity).
  exists d, a, a'. rewrite Hatt. split; [exact Hn|]. split; [reflexivity|]. split; [reflexivity|].
  apply (proj1 (proj2 (proj2 (attempts_spaced _ 0 0 d a returned_reachable Hn Ha))) a'). rewrite Hatt. reflexivity.
Defined.

(** The same run, one state after the other. *)
Definition logged_run (k : nat) : System := after_events (take k until_logged).

Lemma logged_run_step (k : nat) : k < length until_logged -> step (logged_run k) (logged_run (S k)).
Proof.
  intros Hk. destruct (lookup_lt_is_Some_2 _ _ Hk) as [e He].
  assert (Hplayed : is_Some (play_events until_logged system0)).
  { assert (Hp : played until_logged = true) by (vm_compute; reflexivity).
    unfold played in Hp. by destruct (play_events until_logged system0). }
  destruct Hplayed as [s' Hs']. unfold logged_run, after_events. rewrite (take_S_r _ _ _ He).
  rewrite <-(take_drop_middle _ _ _ He), !play_events_app in Hs'. rewrite play_events_app.
  destruct (play_events (take k until_logged) system0) as [s1|]; [|done].
  cbn [mbind option_bind play_events default] in Hs' |- *.
  destruct (do_event e s1) as [s2|] eqn:Hd; [|done]. by eapply do_event_step.
Qed.

(** The request of the queued incident is that of a call with service routing. *)
Lemma requests_justified_witness :
  exists req k i routed r, (1, req) ∈ requests (logged_run (length until_logged)) /\ k < length until_logged /\
    calls (client (logged_run k)) !! i = Some (PostAsync routed r) /\
    req = post_request sample_inner r (if routed then None else Some (lit "client-key")).
Proof.
  assert (Hr : fst <$> requests (logged_run (length until_logged)) = [0; 0; 1]) by (vm_compute; reflexivity).
  assert (Hin : 1 ∈ fst <$> requests (logged_run (length until_logged))) by (rewrite Hr; right; right; left).
  apply list_elem_of_fmap in Hin as ([n req] & Hn & Hin). cbn [fst] in Hn. subst n.
  destruct (requests_justified logged_run (length until_logged) sample_inner 0 network0 1 req
              eq_refl logged_run_step Hin) as (d & k & i & routed & r & Hd & Hk & _ & Hi & _ & _ & Hreq & _).
  assert (Hw : by_whom <$> deliveries (logged_run (length until_logged)) !! 1 = Some (Worker 0)) by (vm_compute; reflexivity).
  rewrite Hd in Hw. cbn [fmap option_fmap option_map] in Hw. injection Hw as Hw. rewrite Hw in Hi.
  exists req, k, i, routed, r. split; [exact Hin|]. split; [exact Hk|]. split; [exact Hi|exact Hreq].
Defined.

Lemma delivered_once_witness :
  sublist (worker_tasks (after_events until_logged)) (accepted (history (dispatcher (client (after_events until_logged))))).
Proof. apply (delivered_once _ logged_reachable). Defined.

Lemma post_returns_witness :
  calls (client (after_events until_returned)) !! 0 = Some (PostDone (Ok created)) /\
  exists n d, deliveries (after_events until_returned) !! n = Some d /\
    loop_result (after_events until_returned) d = (Ok created, mkScript [] []).
Proof.
  assert (Hi : calls (client (after_events until_returned)) !! 0 = Some (PostDone (Ok created)))
    by (vm_compute; reflexivity).
  split; [exact Hi|]. destruct (post_returns _ _ _ returned_reachable Hi) as [(e & He & _)|(n & d & Hn & _ & Hl & _)].
  - discriminate He.
  - exists n, d. split; [exact Hn|exact Hl].
Defined.

Lemma failures_logged_witness :
  debug_log (after_events until_logged) = [failure_line interrupted] /\
  debug_log (after_events until_logged) ≡ₚ omap log_line (deliveries (after_events until_logged)).
Proof. split; [vm_compute; reflexivity|]. apply (failures_logged _ logged_reachable). Defined.

Lemma delivery_can_end_witness :
  exists s' d', rtc step (after_events until_signalled) s' /\ deliveries s' !! 1 = Some d' /\ ended_with d'.
Proof.
  destruct (deliveries (after_events until_signalled) !! 1) as [d|] eqn:Hn.
  - apply (delivery_can_end _ 1 d signalled_reachable Hn).
  - apply (f_equal (fun o => match o with Some _ => true | None => false end)) in Hn. vm_compute in Hn. discriminate.
Defined.
