(* ===== verification/DeliveryFair.v ===== *)
(** * The whole system under a fair scheduler

    Infinite executions of [DeliverySystem.step] in which nothing that can happen is
    put off for ever and time does not stand still: a backoff ends, a delivery ends
    and is returned to its owner, and the dispatcher inside the system runs as the
    fair executions of [DispatcherLive] do. *)

From stdpp Require Import prelude list relations.
From S2P Require Import Prelude Fairness Error Response Request Json Retry Transport DropLogger Dispatcher DispatcherInv DispatcherProps.
From S2P Require Import DispatcherLive DispatcherShutdown Client ClientSystem Interrupt InterruptWorld.
From S2P Require Import DeliverySystem DeliveryInv DeliveryOwner DeliveryCalls DeliveryProps.

(** ** Who acts *)

Section Roles.
Context {W : Type} `{SerdeJson} `{!Ureq W}.
Implicit Types (s : System (W := W)) (d : job (W := W)) (o : owner).

(** A thread in a call; a delivery, whose network answers or times out; a thread in a
    backoff; an owner whose delivery has ended; and a thread of the dispatcher. *)
Inductive role : Type :=
| RCall (i : nat)
| RDelivery (n : nat)
| RWait (j : nat)
| RReturn (o : owner)
| RThread (i : nat).

Definition acts (ρ : role) s s' : Prop :=
  step s s' /\
  match ρ with
  | RCall i => run_caller i s = Some s'
  | RDelivery n => run_delivery n s = Some s'
  | RWait j => run_wait j (interrupt s) = Some (interrupt s')
  | RReturn o => running s o <> None /\ running s' o = None
  | RThread i => own_step i (dispatcher_of s) (dispatcher_of s')
  end.

(** A run of the system in which everybody is scheduled and time goes on. *)
Record fair_run (exec : nat -> System (W := W)) : Prop := {
  run_starts : reachable (exec 0);
  run_steps : forall n, step (exec n) (exec (S n));
  run_fair : forall ρ, fair_to exec (acts ρ);
  run_clock : forall t, exists n, (t <= now_of (exec n))%Z;
}.

(** ** What a step leaves alone *)

(** A delivery stays where it is, or makes a step. *)
Lemma step_delivery s s' (n : nat) d :
  step s s' -> deliveries s !! n = Some d ->
  exists d', deliveries s' !! n = Some d' /\
    (d' = d \/ move (retry_delays (inner_of s)) (interrupt s) d (interrupt s') d').
Proof.
  intros [_ Hd _|o t _ Hd _|m e e' Hm Hmove Hd _]%step_moves Hn; rewrite Hd.
  - eauto.
  - exists d. split; [by apply lookup_app_l_Some|by left].
  - destruct (decide (m = n)) as [->|Hne].
    + simplify_eq. exists e'. rewrite list_lookup_insert_eq by (by eapply lookup_lt_Some). auto.
    + exists d. rewrite list_lookup_insert_ne by done. auto.
Qed.

(** It stays its owner's until it is returned. *)
Lemma step_owner s s' (n : nat) d o :
  reachable s -> step s s' -> deliveries s !! n = Some d -> by_whom d = o -> under_way d = true ->
  running s' o = None \/
  exists d', deliveries s' !! n = Some d' /\ by_whom d' = o /\ task d' = task d /\ under_way d' = true.
Proof.
  intros Hreach Hstep Hn <- Hu.
  pose proof (owned_running _ (owned_invariant _ Hreach) _ _ Hn Hu) as Hrun.
  destruct (step_owns _ _ Hstep) as [Hr Hd|o t Hnone _ _ Hd|m e e' Hr Hm Hd Hb Ht _ Hu'|m e e' Hrel _ Hm Hd Hb Ht Hue _].
  - right. exists d. by rewrite Hd.
  - right. exists d. rewrite Hd. split; [by apply lookup_app_l_Some|done].
  - right. destruct (decide (m = n)) as [->|Hne]; simplify_eq.
    + exists e'. rewrite Hd, list_lookup_insert_eq by (by eapply lookup_lt_Some). done.
    + exists d. by rewrite Hd, list_lookup_insert_ne.
  - destruct (decide (m = n)) as [->|Hne]; [simplify_eq; by left|right].
    exists d. by rewrite Hd, list_lookup_insert_ne.
Qed.

(** The dispatcher inside the system makes a step, or none. *)
Lemma step_dispatch s s' : step s s' ->
  Dispatcher.step (dispatcher_of s) (dispatcher_of s') \/ dispatcher_of s' = dispatcher_of s.
Proof.
  unfold dispatcher_of. intros [Hstep|Heq]%step_client; [|right; by rewrite Heq].
  destruct Hstep as [c Hc|i c' Hrun|i t r Hi|d Hd Hlen]; simpl; [by right| |by right|by left].
  unfold run_call in Hrun. destruct (calls (client s) !! i) as [c|]; [|done]. simpl in Hrun.
  destruct c; repeat case_match; simplify_eq; simpl; try (by right); left; [apply step_submit|by apply step_close].
Qed.

(** A worker panics only in its task. *)
Lemma panic_from (x x' : Dispatcher.Sys DeliveryTask) (i : nat) :
  Dispatcher.step x x' -> Dispatcher.threads x' !! i = Some WPanic ->
  Dispatcher.threads x !! i = Some WPanic \/ exists t, Dispatcher.threads x !! i = Some (WRun t).
Proof.
  intros Hstep Hk.
  assert (Hw : forall k q, <[k := q]> (Dispatcher.wake <$> Dispatcher.threads x) !! i = Some WPanic ->
            q <> WPanic -> Dispatcher.threads x !! i = Some WPanic).
  { intros k q Hq Hne. apply list_lookup_insert_Some in Hq as [(_ & ? & _)|(_ & Hq)]; [done|].
    apply list_lookup_fmap_Some in Hq as (p & Hp & Hi). by destruct p. }
  step_cases Hstep; simpl in Hk; try (by left); try (left; by eapply Hw);
    try (apply lookup_app_Some in Hk as [Hk|[_ Hk]]; [by left|by apply list_lookup_singleton_Some in Hk as [_ ?]]);
    rewrite ?list_lookup_insert_Some in Hk; naive_solver.
Qed.

Lemma run_thread_calm (x x' : Dispatcher.Sys DeliveryTask) (k i : nat) :
  run_thread k x = Some x' -> Dispatcher.threads x' !! i = Some WPanic -> Dispatcher.threads x !! i = Some WPanic.
Proof.
  intros Hrun Hi. destruct (panic_from x x' i) as [?|[t Ht]]; [by eapply Dispatcher.step_run|done|done|].
  destruct (decide (i = k)) as [->|Hne]; [by destruct (finish_task _ _ _ _ Ht Hrun) as [_ Hf]; simplify_eq|].
  destruct (run_thread_shape _ _ _ Hrun) as (_ & _ & Hother). specialize (Hother _ Hne). by rewrite Ht, Hi in Hother.
Qed.

(** No task of the system panics: a worker's task is a delivery. *)
Lemma never_panics s (i : nat) : reachable s -> Dispatcher.threads (dispatcher_of s) !! i <> Some WPanic.
Proof.
  intros Hreach. revert s Hreach i.
  apply (system_ind (fun s => forall i, Dispatcher.threads (dispatcher_of s) !! i <> Some WPanic)).
  { intros self now w i Hi. by destruct i as [|[|i]]. }
  intros s s' _ IH Hstep i Hi. apply (IH i). clear IH. unfold dispatcher_of in *.
  assert (Hpanic : dispatcher (client s') = dispatcher (client s) \/
    (exists t, Dispatcher.threads (dispatcher (client s)) !! i = Some (WRun t)) \/
    Dispatcher.threads (dispatcher (client s)) !! i = Some WPanic).
  { destruct (step_dispatch _ _ Hstep) as [Hd|Hd]; [right|by left]. destruct (panic_from _ _ _ Hd Hi); auto. }
  destruct Hpanic as [<-|[[u Hu]|?]]; [done| |done].
  destruct Hstep as [c Hc|k s' Hcall|k n t d result Hk Hn Ho Hpc|k t d' Hk Hr Ht|k n t d result d' Hk Hn Ho Hpc Hr
    |d' Hd Hlen Hclk Hsame|i' Hk Hlen Hclk Hsig|n s' Hr|t Ht]; rewrite ?log_failure_client in Hi; simpl in Hi; try done;
    try (by eapply run_thread_calm).
  - destruct (run_call_dispatcher _ _ _ (run_caller_client _ _ _ Hcall)) as (_ & _ & Htask).
    specialize (Htask i). by rewrite Hi, Hu in Htask.
  - apply Hsame in Hu. unfold dispatcher_of in Hu. by rewrite Hu in Hi.
  - by rewrite (run_delivery_client _ _ _ Hr) in Hi.
Qed.
End Roles.

(** ** The threads of the dispatcher *)

Section Threads.
Context {W : Type} `{SerdeJson} `{!Ureq W}.
Implicit Types (s : System (W := W)) (x : Dispatcher.Sys DeliveryTask).

Lemma own_step_shape (i : nat) x x' : own_step i x x' ->
  length (Dispatcher.threads x') = length (Dispatcher.threads x) /\ Dispatcher.clock x' = Dispatcher.clock x /\
  forall j, j <> i -> task_of (Dispatcher.threads x' !! j) = task_of (Dispatcher.threads x !! j).
Proof.
  destruct 1 as [x' Hrun|j due p Hi Hj Hp|due Hi Hz|dl Hi Hle]; [by apply run_thread_shape|..]; simpl;
    rewrite ?length_insert; (split; [done|]); (split; [done|]); intros k Hk; rewrite list_lookup_insert_ne by done; try done.
  destruct (decide (j = k)) as [->|Hne]; [|by rewrite list_lookup_insert_ne].
  rewrite list_lookup_insert_eq, Hj by (by eapply lookup_lt_Some). by destruct p.
Qed.

Lemma task_of_running (p : option (Dispatcher.pc DeliveryTask)) (t : DeliveryTask) :
  task_of p = Some t <-> p = Some (WRun t).
Proof. split; [|by intros ->]. destruct p as [[]|]; by intros; simplify_eq/=. Qed.

(** A thread that is not in a task makes its steps in the system too. *)
Lemma thread_enabled s (i : nat) :
  enabled i (dispatcher_of s) -> task_of (Dispatcher.threads (dispatcher_of s) !! i) = None ->
  exists s', acts (RThread i) s s'.
Proof.
  intros [x Hown] Hidle. destruct (own_step_shape _ _ _ Hown) as (Hlen & Hclk & Hother).
  destruct (task_of (Dispatcher.threads x !! i)) as [t|] eqn:Ht.
  - apply task_of_running in Ht. destruct Hown as [x Hrun|j due p Hi Hj Hp|due Hi Hz|dl Hi Hle].
    + exists (begin_delivery (Worker i) t (with_dispatcher x s)). split; [|by apply own_run].
      apply sys_take; [|done|done]. unfold run_thread in Hrun.
      destruct (Dispatcher.threads (dispatcher_of s) !! i) as [p|] eqn:Hi; [|done]. simpl in Hrun.
      destruct p; try done; repeat case_match; simplify_eq/=;
        rewrite list_lookup_insert_eq in Ht by (rewrite ?length_fmap; by eapply lookup_lt_Some); done.
    + simpl in Ht. rewrite list_lookup_insert_eq in Ht by (rewrite length_insert; by eapply lookup_lt_Some). done.
    + simpl in Ht. rewrite list_lookup_insert_eq in Ht by (by eapply lookup_lt_Some). done.
    + simpl in Ht. rewrite list_lookup_insert_eq in Ht by (by eapply lookup_lt_Some). done.
  - exists (with_dispatcher x s). split; [|done]. apply sys_dispatcher; [by eapply own_step_step|done..|].
    intros j t. rewrite <-!task_of_running. destruct (decide (j = i)) as [->|Hne]; [by rewrite Ht, Hidle|by rewrite Hother].
Qed.
End Threads.

(** ** Backoffs *)

(** A thread in [wait] since [start], or out of it. *)
Definition waiting_since (delay start : Z) (p : Interrupt.pc) : Prop :=
  match p with
  | Waiting d st | Woken d st => d = delay /\ st = start
  | WaitDone _ _ _ _ => True
  | _ => False
  end.

Definition wait_rank (p : Interrupt.pc) : nat := match p with Waiting _ _ => 2 | Woken _ _ => 1 | _ => 0 end.

(** Nothing but its own turns moves it, and after its time no turn begins again. *)
Lemma waiting_step (I I' : Interrupt.Sys) (j : nat) (p : Interrupt.pc) (delay start : Z) :
  Interrupt.step I I' -> Interrupt.threads I !! j = Some p -> waiting_since delay start p ->
  exists p', Interrupt.threads I' !! j = Some p' /\ waiting_since delay start p' /\
    ((start + Z.max 0 delay < clock I)%Z -> wait_rank p' <= wait_rank p).
Proof.
  intros Hstep Hj Hp.
  assert (Hset : forall i q q', Interrupt.threads I !! i = Some q ->
            (waiting_since delay start q -> waiting_since delay start q' /\
               ((start + Z.max 0 delay < clock I)%Z -> wait_rank q' <= wait_rank q)) ->
            exists p', <[i := q']> (Interrupt.threads I) !! j = Some p' /\ waiting_since delay start p' /\
              ((start + Z.max 0 delay < clock I)%Z -> wait_rank p' <= wait_rank p)).
  { intros i q q' Hi Hq. destruct (decide (i = j)) as [->|Hne].
    - simplify_eq. exists q'. rewrite list_lookup_insert_eq by (by eapply lookup_lt_Some). by destruct (Hq Hp).
    - exists p. by rewrite list_lookup_insert_ne. }
  destruct Hstep as [I q Hq|I t Ht|I i Hi|I i dl Hi|I i dl st Hi|I i dl st Hi Hle|I i dl st Hi]; simpl.
  - exists p. split; [by apply lookup_app_l_Some|done].
  - by exists p.
  - assert (Hne : i <> j) by (intros ->; simplify_eq; done).
    exists (Interrupt.wake p). rewrite list_lookup_insert_ne, list_lookup_fmap, Hj by done.
    split; [done|]. destruct p; simpl in *; (split; [done|lia]).
  - by eapply Hset.
  - eapply Hset; [done|]. simpl. intros [-> ->]. unfold check, saturating_duration_since.
    destruct (Interrupt.signalled I); simpl; [split; [done|lia]|].
    destruct (Z.ltb_spec delay (Z.max 0 (clock I - start))); simpl; (split; [done|lia]).
  - eapply Hset; [done|]. simpl. intros [-> ->]. split; [done|lia].
  - eapply Hset; [done|]. simpl. intros [-> ->]. split; [done|lia].
Qed.

Lemma waiting_steps (I I' : Interrupt.Sys) (j : nat) (p : Interrupt.pc) (delay start : Z) :
  rtc Interrupt.step I I' -> Interrupt.threads I !! j = Some p -> waiting_since delay start p ->
  exists p', Interrupt.threads I' !! j = Some p' /\ waiting_since delay start p' /\
    ((start + Z.max 0 delay < clock I)%Z -> (start + Z.max 0 delay < clock I')%Z /\ wait_rank p' <= wait_rank p).
Proof.
  intros Hrtc. revert p. induction Hrtc as [I|I I1 I2 Hstep _ IH]; intros p Hj Hp; [eauto 6|].
  destruct (waiting_step _ _ _ _ _ _ Hstep Hj Hp) as (p1 & Hj1 & Hp1 & Hr1).
  destruct (IH _ Hj1 Hp1) as (p2 & Hj2 & Hp2 & Hr2). exists p2. split_and!; [done|done|].
  intros Hlate. pose proof (clock_grows _ _ Hstep). specialize (Hr1 Hlate). destruct Hr2; [lia|]. split; [done|lia].
Qed.

(** A thread that is to wait is, until it begins to. *)
Lemma wait_call_steps (I I' : Interrupt.Sys) (j : nat) (delay : Z) :
  rtc Interrupt.step I I' -> Interrupt.threads I !! j = Some (WaitCall delay) ->
  Interrupt.threads I' !! j = Some (WaitCall delay) \/
  exists p start, Interrupt.threads I' !! j = Some p /\ waiting_since delay start p.
Proof.
  induction 1 as [I|I I1 I2 Hstep Hrtc IH]; [by left|]. intros Hj.
  assert (Hone : Interrupt.threads I1 !! j = Some (WaitCall delay) \/
            exists p start, Interrupt.threads I1 !! j = Some p /\ waiting_since delay start p).
  { clear IH Hrtc. destruct Hstep as [I q Hq|I t Ht|I i Hi|I i dl Hi|I i dl st Hi|I i dl st Hi Hle|I i dl st Hi]; simpl;
      try (left; by apply lookup_app_l_Some); try (by left);
      (destruct (decide (i = j)) as [->|Hne];
        [rewrite Hj in Hi; try done|left; by rewrite list_lookup_insert_ne, ?list_lookup_fmap, ?Hj]).
    injection Hi as <-. right. exists (check (clock I) delay (clock I) (Interrupt.signalled I)), (clock I).
    rewrite list_lookup_insert_eq by (by eapply lookup_lt_Some). split; [done|].
    by destruct (check_cases (clock I) delay (clock I) (Interrupt.signalled I)) as [-> | ->]. }
  destruct Hone as [Hj1|(p & st & Hj1 & Hp)]; [by apply IH|right].
  destruct (waiting_steps _ _ _ _ _ _ Hrtc Hj1 Hp) as (p' & Hp' & Hw & _). eauto.
Qed.

Lemma run_wait_acts {W : Type} `{SerdeJson} `{!Ureq W} (s : System (W := W)) (j : nat) (i' : Interrupt.Sys) :
  run_wait j (interrupt s) = Some i' -> exists s', acts (RWait j) s s'.
Proof.
  intros Hrun. exists (with_interrupt i' s). split; [|done].
  destruct (run_wait_step _ _ _ Hrun) as (? & ? & ? & ?). by apply sys_interrupt.
Qed.

(** Its own turn brings a thread in [wait] nearer to its end, once its time is over. *)
Lemma run_wait_rank (I I' : Interrupt.Sys) (j : nat) (p : Interrupt.pc) (delay start : Z) :
  run_wait j I = Some I' -> Interrupt.threads I !! j = Some p -> waiting_since delay start p ->
  (start + Z.max 0 delay < clock I)%Z ->
  exists p', Interrupt.threads I' !! j = Some p' /\ wait_rank p' < wait_rank p.
Proof.
  intros Hrun Hj Hp Hlate. unfold run_wait in Hrun. rewrite Hj in Hrun.
  assert (Hset : forall q, <[j := q]> (Interrupt.threads I) !! j = Some q)
    by (intros; apply list_lookup_insert_eq; by eapply lookup_lt_Some).
  destruct p as [| |dl|dl st|dl st|]; try done; destruct Hp as [-> ->].
  - case_match; simplify_eq. exists (Woken delay start). split; [apply Hset|simpl; lia].
  - simplify_eq. eexists. split; [apply Hset|]. simpl. unfold check, saturating_duration_since.
    destruct (Interrupt.signalled I); simpl; [lia|]. rewrite (proj2 (Z.ltb_lt _ _)) by lia. simpl. lia.
Qed.

(** ** Fair runs *)

Section Fair.
Context {W : Type} `{SerdeJson} `{!Ureq W} (exec : nat -> System (W := W)).
Implicit Types (d : job (W := W)) (o : owner).
Hypothesis Hrun : fair_run exec.

Lemma run_rtc (n m : nat) : n <= m -> rtc step (exec n) (exec m).
Proof. induction 1 as [|m _ IH]; [done|]. eapply rtc_r; [exact IH|]. by apply (run_steps _ Hrun). Qed.

Lemma run_reachable (n : nat) : reachable (exec n).
Proof. eapply system_reachable_rtc; [apply (run_starts _ Hrun)|]. apply run_rtc. lia. Qed.

Lemma run_interrupt (n m : nat) : n <= m -> rtc Interrupt.step (interrupt (exec n)) (interrupt (exec m)).
Proof. induction 1 as [|m _ IH]; [done|]. etrans; [exact IH|]. by apply step_interrupt, (run_steps _ Hrun). Qed.

Lemma run_inner (n m : nat) : n <= m -> retry_delays (inner_of (exec m)) = retry_delays (inner_of (exec n)).
Proof. induction 1 as [|m _ IH]; [done|]. by rewrite (step_inner _ _ (run_steps _ Hrun m)). Qed.

(** *** A backoff ends *)

Definition wait_returned (j : nat) (s : System (W := W)) : Prop :=
  exists r dl st fin, Interrupt.threads (interrupt s) !! j = Some (WaitDone r dl st fin).

Lemma waiting_ends (n j : nat) (p : Interrupt.pc) (delay start : Z) :
  Interrupt.threads (interrupt (exec n)) !! j = Some p -> waiting_since delay start p ->
  exists m, n <= m /\ wait_returned j (exec m).
Proof.
  intros Hj Hp. destruct (run_clock _ Hrun (start + Z.max 0 delay + 1)%Z) as [k Hk].
  set (late := fun s : System (W := W) => (start + Z.max 0 delay < clock (interrupt s))%Z).
  assert (Hlate : late (exec (Nat.max n k))).
  { assert (Hmono : forall I I', rtc Interrupt.step I I' -> (clock I <= clock I')%Z).
    { induction 1 as [|I I1 I2 Hstep _ IH]; [lia|]. pose proof (clock_grows _ _ Hstep). lia. }
    pose proof (Hmono _ _ (run_interrupt k (Nat.max n k) ltac:(lia))). unfold late, now_of in *. lia. }
  destruct (waiting_steps _ _ _ _ _ _ (run_interrupt n (Nat.max n k) ltac:(lia)) Hj Hp) as (p1 & Hj1 & Hp1 & _).
  assert (Hend : exists m, Nat.max n k <= m /\ wait_returned j (exec m)).
  { apply (progress exec (acts (RWait j)) (run_fair _ Hrun _)
             (fun s => late s /\ exists q, Interrupt.threads (interrupt s) !! j = Some q /\ waiting_since delay start q)
             (wait_returned j)
             (fun s => default 0 (wait_rank <$> Interrupt.threads (interrupt s) !! j))); [| | |by eauto].
    - intros m (Hl & q & Hq & Hw). right.
      destruct (waiting_steps _ _ _ _ _ _ (run_interrupt m (S m) ltac:(lia)) Hq Hw) as (q' & Hq' & Hw' & Hr).
      destruct (Hr Hl) as [Hl' Hrank]. rewrite Hq, Hq'. split; [|done]. split; [done|eauto].
    - intros m (Hl & q & Hq & Hw).
      destruct q as [| |dl|dl st|dl st|r dl st fin]; try done; [right|right|left; by do 4 eexists];
        (eapply run_wait_acts; unfold run_wait; rewrite Hq; try done).
      destruct Hw as [-> ->]. unfold late in Hl. by rewrite (proj2 (Z.leb_le _ _)) by lia.
    - intros m (Hl & q & Hq & Hw) [_ Hact]. right.
      destruct (run_wait_rank _ _ _ _ _ _ Hact Hq Hw Hl) as (q' & Hq' & Hrank). by rewrite Hq, Hq'. }
  destruct Hend as (m & Hle & Hm). exists m. split; [lia|done].
Qed.

Lemma wait_ends (n j : nat) (p : Interrupt.pc) (delay lo : Z) (late : bool) :
  Interrupt.threads (interrupt (exec n)) !! j = Some p -> waits_for delay lo late p ->
  exists m, n <= m /\ wait_returned j (exec m).
Proof.
  intros Hj Hp. destruct p as [| |dl|dl st|dl st|r dl st fin]; try done;
    try (by eapply (waiting_ends n j _ dl st)).
  clear Hp. destruct (progress exec (acts (RWait j)) (run_fair _ Hrun _)
    (fun s => Interrupt.threads (interrupt s) !! j = Some (WaitCall dl))
    (fun s => exists q start, Interrupt.threads (interrupt s) !! j = Some q /\ waiting_since dl start q)
    (fun _ => 0)) with (n := n) as (m & Hle & q & start & Hq & Hw); [| | |done|].
  - intros m Hm. destruct (wait_call_steps _ _ _ _ (run_interrupt m (S m) ltac:(lia)) Hm); auto.
  - intros m Hm. right. eapply run_wait_acts. unfold run_wait. by rewrite Hm.
  - intros m Hm [_ Hact]. left. unfold run_wait in Hact. rewrite Hm in Hact. injection Hact as <-.
    eexists _, (clock (interrupt (exec m))). split; [apply list_lookup_insert_eq; by eapply lookup_lt_Some|].
    by destruct (check_cases (clock (interrupt (exec m))) dl (clock (interrupt (exec m))) (Interrupt.signalled (interrupt (exec m)))) as [-> | ->].
  - destruct (waiting_ends m j q dl start Hq Hw) as (k & Hk & Hd). exists k. split; [lia|done].
Qed.

(** *** A delivery ends, and is returned *)

Definition ended_at (n : nat) (s : System (W := W)) : Prop := exists d, deliveries s !! n = Some d /\ ended_with d.

(** What it comes from and whose it is does not change. *)
Lemma delivery_later (n m k : nat) d :
  n <= m -> deliveries (exec n) !! k = Some d ->
  exists d', deliveries (exec m) !! k = Some d' /\ by_whom d' = by_whom d /\ task d' = task d /\
    (ended_with d -> ended_with d') /\ (under_way d = false -> under_way d' = false).
Proof.
  intros Hle Hd. induction Hle as [|m _ (e & He & Hb & Ht & Hend & Hu)]; [by exists d|].
  destruct (step_delivery _ _ _ _ (run_steps _ Hrun m) He) as (e' & He' & [->|Hmove]); [by exists e|].
  destruct (move_owner _ _ _ _ _ Hmove) as (Hb' & Ht' & Hu'). exists e'. split_and!; [done|congruence|congruence| |].
  - intros [r [c Hpc]]%Hend. unfold ended_with. destruct Hmove; simpl in *; eauto; exfalso;
      unfold attempting in *; repeat case_match; congruence.
  - intros Hno%Hu. congruence.
Qed.

(** A backoff that has ended stays ended. *)
Lemma returned_steps (s s' : System (W := W)) (j : nat) :
  rtc Interrupt.step (interrupt s) (interrupt s') -> wait_returned j s -> wait_returned j s'.
Proof.
  unfold wait_returned. generalize (interrupt s) (interrupt s'). clear s s'.
  induction 1 as [|I I1 I2 Hstep _ IH]; [done|]. intros (r & dl & st & fin & Hj). apply IH. clear IH.
  exists r, dl, st, fin.
  destruct Hstep as [I q Hq|I t Ht|I i Hi|I i dl' Hi|I i dl' st' Hi|I i dl' st' Hi Hle|I i dl' st' Hi]; simpl;
    try (by apply lookup_app_l_Some); try done;
    (destruct (decide (i = j)) as [->|Hne]; [congruence|by rewrite list_lookup_insert_ne, ?list_lookup_fmap, ?Hj]).
Qed.

(** From some point on it does not wait any more. *)
Lemma delivery_ready (n k : nat) d :
  deliveries (exec n) !! k = Some d ->
  exists m, n <= m /\ forall a j, at_pc d = DWait a j -> wait_returned j (exec m).
Proof.
  intros Hd. destruct (at_pc d) as [| | |a j|] eqn:Hpc; try (exists n; split; [done|]; by intros).
  pose proof (timed_pc _ _ _ (timed_invariant _ (run_reachable n) _ _ Hd)) as Ht. unfold pc_timed in Ht. rewrite Hpc in Ht.
  destruct Ht as (e & p & _ & Hj & Hp). destruct (wait_ends _ _ _ _ _ _ Hj Hp) as (m & Hle & Hm).
  exists m. split; [done|]. by intros ? ? [= <- <-].
Qed.

(** Whatever happens it stays where it is, or comes nearer to its end. *)
Definition nearer (delays : list Z) (k : nat) d (s : System (W := W)) : Prop :=
  exists d', deliveries s !! k = Some d' /\ steps_left delays d' < steps_left delays d.

Lemma delivery_nearer (n k : nat) d :
  deliveries (exec n) !! k = Some d -> ~ ended_with d ->
  nearer (retry_delays (inner_of (exec n))) k d (exec (S n)) \/ deliveries (exec (S n)) !! k = Some d.
Proof.
  intros Hd Hend. destruct (step_delivery _ _ _ _ (run_steps _ Hrun n) Hd) as (d' & Hd' & [->|Hmove]); [by right|left].
  exists d'. split; [done|]. eapply move_steps_left; [exact Hmove| |done].
  eapply replay_invariant; [apply run_reachable|exact Hd].
Qed.

(** Once it can make its next step it makes it. *)
Lemma ready_moves (n k : nat) d :
  deliveries (exec n) !! k = Some d -> ~ ended_with d ->
  (forall a j, at_pc d = DWait a j -> wait_returned j (exec n)) ->
  exists m, n <= m /\ nearer (retry_delays (inner_of (exec n))) k d (exec m).
Proof.
  intros Hd Hend Hready. set (delays := retry_delays (inner_of (exec n))).
  apply (progress exec (acts (RDelivery k)) (run_fair _ Hrun _)
    (fun s => deliveries s !! k = Some d /\ retry_delays (inner_of s) = delays /\ reachable s /\
              forall a j, at_pc d = DWait a j -> wait_returned j s) (nearer delays k d) (fun _ => 0));
    [| | |by eauto using run_reachable].
  - intros m (Hm & Hin & Hreach & Hwait). rewrite <-Hin.
    destruct (delivery_nearer m k d Hm Hend) as [Hn|Hm']; [by left|right].
    split; [|done]. split_and!; [done|apply run_inner; lia|apply run_reachable|].
    intros a j Ha. eapply returned_steps; [|by eapply Hwait]. apply run_interrupt. lia.
  - intros m (Hm & Hin & Hreach & Hwait). right.
    destruct (delivery_enabled _ _ _ Hm Hend) as [[s' Hs']|(a & j & Ha & Hno)].
    + exists s'. split; [by eapply sys_delivery|done].
    + destruct (Hwait a j Ha) as (r & dl & st & fin & Hj). by destruct (Hno r dl st fin).
  - intros m (Hm & Hin & Hreach & Hwait) [_ Hact]. left.
    destruct (run_delivery_moved _ _ _ Hact) as (d0 & d1 & Hd0 & Hmove & Hset & _).
    rewrite Hm in Hd0. injection Hd0 as <-. exists d1.
    split; [rewrite Hset; apply list_lookup_insert_eq; by eapply lookup_lt_Some|].
    rewrite <-Hin. eapply move_steps_left; [exact Hmove| |done]. by eapply replay_invariant.
Qed.

Lemma delivery_moves (n k : nat) d :
  deliveries (exec n) !! k = Some d -> ~ ended_with d ->
  exists m, n <= m /\ nearer (retry_delays (inner_of (exec n))) k d (exec m).
Proof.
  intros Hd Hend. destruct (delivery_ready n k d Hd) as (m & Hle & Hwait).
  assert (Hm : (exists m', n <= m' /\ nearer (retry_delays (inner_of (exec n))) k d (exec m')) \/
               deliveries (exec m) !! k = Some d).
  { clear Hwait. induction Hle as [|m Hle [?|Hm]]; [by right|by left|].
    destruct (delivery_nearer m k d Hm Hend) as [Hn|?]; [left|by right].
    rewrite (run_inner n m Hle) in Hn. exists (S m). split; [lia|done]. }
  destruct Hm as [?|Hm]; [done|]. destruct (ready_moves m k d Hm Hend Hwait) as (m' & Hle' & Hn).
  rewrite (run_inner n m Hle) in Hn. exists m'. split; [lia|done].
Qed.

Lemma ended_dec d : ended_with d \/ ~ ended_with d.
Proof. unfold ended_with. destruct (at_pc d); try (right; by intros (? & ? & ?)); left; eauto. Qed.

Lemma delivery_ends (n k : nat) d : deliveries (exec n) !! k = Some d -> exists m, n <= m /\ ended_at k (exec m).
Proof.
  remember (steps_left (retry_delays (inner_of (exec n))) d) as r eqn:Hr. revert n d Hr.
  induction (lt_wf r) as [r _ IH]. intros n d -> Hd.
  destruct (ended_dec d) as [Hend|Hend]; [exists n; split; [done|by exists d]|].
  destruct (delivery_moves n k d Hd Hend) as (m & Hle & d' & Hd' & Hlt).
  destruct (IH _ Hlt m d') as (m' & Hle' & Hm'); [by rewrite (run_inner n m)|done|].
  exists m'. split; [lia|done].
Qed.

(** The delivery of an owner stays its own until the owner has it back. *)
Lemma owner_until (n m k : nat) d o :
  n <= m -> deliveries (exec n) !! k = Some d -> by_whom d = o -> under_way d = true ->
  (exists m', n <= m' /\ running (exec m') o = None) \/
  exists d', deliveries (exec m) !! k = Some d' /\ by_whom d' = o /\ under_way d' = true.
Proof.
  intros Hle Hd Hb Hu. induction Hle as [|m Hle [?|(e & He & Hbe & Hue)]]; [right; eauto|by left|].
  destruct (step_owner _ _ _ _ _ (run_reachable m) (run_steps _ Hrun m) He Hbe Hue) as [Hn|(e' & ? & ? & _ & ?)].
  - left. exists (S m). split; [lia|done].
  - right. by exists e'.
Qed.

(** A result that is there can be returned. *)
Lemma return_enabled (s : System (W := W)) (k : nat) d o (r : Result IncidentResponse IncidentError) :
  reachable s -> deliveries s !! k = Some d -> by_whom d = o -> at_pc d = DDone r false ->
  exists s', acts (RReturn o) s s'.
Proof.
  intros Hreach Hd Hb Hpc.
  pose proof (owned_running _ (owned_invariant _ Hreach) _ _ Hd ltac:(unfold under_way; by rewrite Hpc)) as Hown.
  rewrite Hb in Hown. destruct o as [i|i]; simpl in Hown.
  - destruct (Dispatcher.threads (dispatcher (client s)) !! i) as [p|] eqn:Hi; [|done]. destruct p; try done.
    destruct (run_thread i (dispatcher_of s)) as [d'|] eqn:Ht;
      [|unfold run_thread, dispatcher_of in Ht; by rewrite Hi in Ht].
    eexists. split; [by eapply sys_task_done|]. destruct (finish_task _ _ _ _ Hi Ht) as [_ Hf].
    simpl. rewrite Hi. split; [done|]. rewrite log_failure_client. simpl. by rewrite Hf.
  - destruct (calls (client s) !! i) as [c|] eqn:Hi; [|done]. destruct c; try done.
    eexists. split; [by eapply sys_post_done|]. simpl. rewrite Hi. split; [done|].
    by rewrite list_lookup_insert_eq by (by eapply lookup_lt_Some).
Qed.

(** Sooner or later every owner has its delivery back. *)
Lemma owner_released (n : nat) o : exists m, n <= m /\ running (exec m) o = None.
Proof.
  destruct (running (exec n) o) as [t|] eqn:Hown; [|by exists n].
  destruct (owned_exists _ (owned_invariant _ (run_reachable n)) _ _ Hown) as (k & d & Hd & Hb & Hu).
  destruct (delivery_ends n k d Hd) as (m & Hle & e & He & Hend).
  destruct (owner_until n m k d o Hle Hd Hb Hu) as [?|(e' & He' & Hbe & Hue)]; [done|].
  assert (e' = e) as -> by congruence. destruct Hend as (r & [] & Hpc); [unfold under_way in Hue; by rewrite Hpc in Hue|].
  destruct (progress exec (acts (RReturn o)) (run_fair _ Hrun _)
    (fun s => reachable s /\ exists d, deliveries s !! k = Some d /\ by_whom d = o /\ at_pc d = DDone r false)
    (fun s => running s o = None) (fun _ => 0)) with (n := m) as (m' & Hle' & Hm'); [| | |by eauto using run_reachable|].
  - intros j (Hreach & x & Hx & Hbx & Hpx).
    destruct (step_owner _ _ _ _ _ Hreach (run_steps _ Hrun j) Hx Hbx ltac:(unfold under_way; by rewrite Hpx))
      as [?|(x' & Hx' & Hbx' & _ & Hux')]; [by left|right]. split; [|done]. split; [apply run_reachable|].
    exists x'. split_and!; [done|done|].
    destruct (step_delivery _ _ _ _ (run_steps _ Hrun j) Hx) as (x2 & Hx2 & [->|Hmove]); simplify_eq; [done|].
    destruct Hmove; unfold attempting in *; repeat case_match; try congruence; try done.
  - intros j (Hreach & x & Hx & Hbx & Hpx). right. by eapply return_enabled.
  - intros j _ [_ [_ Hnone]]. by left.
  - exists m'. split; [lia|done].
Qed.

(** *** The dispatcher of a fair run runs fairly *)

(** A worker leaves its task, by a step of its own. *)
Lemma task_left (n i : nat) (t : DeliveryTask) :
  Dispatcher.threads (dispatcher_of (exec n)) !! i = Some (WRun t) ->
  exists m, n <= m /\ own_step i (dispatcher_of (exec m)) (dispatcher_of (exec (S m))).
Proof.
  intros Hi. destruct (owner_released n (Worker i)) as (m & Hle & Hm).
  assert (Hgo : (exists m, n <= m /\ own_step i (dispatcher_of (exec m)) (dispatcher_of (exec (S m)))) \/
                Dispatcher.threads (dispatcher_of (exec m)) !! i = Some (WRun t)).
  { clear Hm. induction Hle as [|m Hle [?|Hm]]; [by right|by left|].
    destruct (step_dispatch _ _ (run_steps _ Hrun m)) as [Hd|Hd]; [|right; by rewrite Hd].
    destruct (runnable_stays i _ _ _ Hd Hm eq_refl) as [Hown|[?|Hp]]; [left; by exists m|by right|].
    by apply never_panics in Hp; [|apply run_reachable]. }
  destruct Hgo as [?|Ht]; [done|]. unfold dispatcher_of in Ht. simpl in Hm. by rewrite Ht in Hm.
Qed.

Lemma dispatcher_run : fair_execution WORKER_COUNT QUEUE_CAPACITY (fun n => dispatcher_of (exec n)).
Proof.
  split.
  - apply (inv_reach _ (client_reachable_inv _ (client_reachable _ (run_starts _ Hrun)))).
  - intros n. destruct (step_dispatch _ _ (run_steps _ Hrun n)) as [Hd|Hd]; [done|rewrite Hd].
    pose proof (Dispatcher.step_tick (dispatcher_of (exec n)) 0 ltac:(lia)) as Htick.
    rewrite Z.add_0_r in Htick. by destruct (dispatcher_of (exec n)).
  - intros i n. destruct (run_fair _ Hrun (RThread i) n) as (m & Hle & [[_ Hown]|Hno]); [exists m; auto|].
    destruct (task_of (Dispatcher.threads (dispatcher_of (exec m)) !! i)) as [t|] eqn:Ht.
    + apply task_of_running in Ht. destruct (task_left m i t Ht) as (m' & Hle' & Hown).
      exists m'. split; [lia|by left].
    + exists m. split; [done|]. right. intros He. by destruct Hno; apply thread_enabled.
  - intros i n. apply never_panics, run_reachable.
Qed.

Lemma dispatcher_clock (t : Z) : exists m, (t <= Dispatcher.clock (dispatcher_of (exec m)))%Z.
Proof.
  destruct (run_clock _ Hrun t) as [m Hm]. exists m. by rewrite (proj2 (sync_invariant _ (run_reachable m))).
Qed.
End Fair.
