(* ===== verification/DeliveryLive.v ===== *)
(** * Liveness of the whole system

    In the fair runs of [DeliveryFair] every call returns, every accepted incident is
    delivered, evicted or abandoned, and a client that is closed comes to rest. *)

From stdpp Require Import prelude list relations.
From S2P Require Import Prelude Fairness Error Response Request Json JsonRef Retry Transport Stub DropLogger Dispatcher DispatcherInv DispatcherProps.
From S2P Require Import DispatcherLive DispatcherShutdown Client ClientSystem Interrupt InterruptWorld.
From S2P Require Import DeliverySystem DeliveryInv DeliveryOwner DeliveryCalls DeliveryProps DeliveryFair.

(** ** How far a call is *)

Section Calls.
Context `{ErrorTypes}.
Implicit Types (c : Client) (p : call).

Definition call_rank p : nat :=
  match p with
  | Post _ _ | PostAsync _ _ => 2
  | Posting _ | AsyncSubmit _ _ => 1
  | CloseSwap => 4
  | CloseSignal => 3
  | CloseDispatch => 2
  | CloseDrain _ => 1
  | PostDone _ | AsyncDone _ _ | CloseDone _ => 0
  end.

(** What kind of call it is, and remains. *)
Inductive kind : Type := KPost | KPostAsync | KClose.

Definition kind_of p : kind :=
  match p with
  | Post _ _ | Posting _ | PostDone _ => KPost
  | PostAsync _ _ | AsyncSubmit _ _ | AsyncDone _ _ => KPostAsync
  | CloseSwap | CloseSignal | CloseDispatch | CloseDrain _ | CloseDone _ => KClose
  end.

(** The call that closes the client remains the one. *)
Definition same_kind p p' : Prop := kind_of p' = kind_of p /\ (winner p = true -> winner p' = true).

Lemma same_kind_trans p p' p'' : same_kind p p' -> same_kind p' p'' -> same_kind p p''.
Proof. intros [? ?] [? ?]. split; [congruence|auto]. Qed.

(** Its own steps bring it nearer to its end. *)
Lemma run_call_rank c c' (i : nat) p : run_call i c = Some c' -> calls c !! i = Some p ->
  exists p', calls c' = <[i := p']> (calls c) /\ call_rank p' < call_rank p /\ same_kind p p'.
Proof.
  intros Hrun Hi. unfold run_call in Hrun. rewrite Hi in Hrun. simpl in Hrun.
  destruct p; repeat case_match; simplify_eq; eexists; (split; [reflexivity|]); simpl; (split; [lia|done]).
Qed.

(** Nothing takes it further away. *)
Lemma call_step c c' (i : nat) p : ClientSystem.step c c' -> calls c !! i = Some p ->
  exists p', calls c' !! i = Some p' /\ (p' = p \/ call_rank p' < call_rank p) /\ same_kind p p'.
Proof.
  intros Hstep Hi.
  assert (Hset : forall k q q', calls c !! k = Some q -> call_rank q' < call_rank q -> same_kind q q' ->
            exists p', <[k := q']> (calls c) !! i = Some p' /\ (p' = p \/ call_rank p' < call_rank p) /\ same_kind p p').
  { intros k q q' Hk Hr Hkind. destruct (decide (k = i)) as [->|Hne].
    - simplify_eq. exists q'. rewrite list_lookup_insert_eq by (by eapply lookup_lt_Some). auto.
    - exists p. rewrite list_lookup_insert_ne by done. by split; [|split; [left|]]. }
  destruct Hstep as [q Hq|k c' Hrun|k t r Hk|d Hd Hlen]; simpl.
  - exists p. split; [by apply lookup_app_l_Some|by split; [left|]].
  - destruct (calls c !! k) as [q|] eqn:Hk; [|unfold run_call in Hrun; by rewrite Hk in Hrun].
    destruct (run_call_rank _ _ _ _ Hrun Hk) as (q' & -> & Hr & Hkind). by eapply Hset.
  - eapply Hset; [done|simpl; lia|done].
  - exists p. by split; [|split; [left|]].
Qed.

(** What the dispatcher must have done before it can go on. *)
Definition call_ready (d : Dispatcher.Sys DeliveryTask) p : Prop :=
  match p with
  | AsyncSubmit _ j => exists accepted, Dispatcher.threads d !! j = Some (SDone accepted)
  | CloseDrain j => Dispatcher.threads d !! j = Some CDone
  | Posting _ => False
  | _ => True
  end.

Lemma ready_run c (i : nat) p : calls c !! i = Some p -> 0 < call_rank p -> call_ready (dispatcher c) p ->
  is_Some (run_call i c).
Proof.
  intros Hi Hr Hready. unfold run_call. rewrite Hi. simpl.
  destruct p; simpl in *; try done; try lia; repeat case_match; eauto; naive_solver.
Qed.
End Calls.

(** ** Every call returns *)

Section Live.
Context {W : Type} `{SerdeJson} `{!Ureq W} (exec : nat -> System (W := W)).
Implicit Types (d : job (W := W)) (o : owner) (p : call).
Hypothesis Hrun : fair_run exec.

Notation disp n := (dispatcher_of (exec n)).
Notation call_at n i := (calls (client (exec n)) !! i).

Lemma run_call_step (n i : nat) p : call_at n i = Some p ->
  exists p', call_at (S n) i = Some p' /\ (p' = p \/ call_rank p' < call_rank p) /\ same_kind p p'.
Proof.
  intros Hi. destruct (step_client _ _ (run_steps _ Hrun n)) as [Hstep|Heq]; [by eapply call_step|].
  rewrite Heq. exists p. by split; [|split; [left|]].
Qed.

Lemma call_until (n m i : nat) p : n <= m -> call_at n i = Some p ->
  exists p', call_at m i = Some p' /\ (p' = p \/ call_rank p' < call_rank p) /\ same_kind p p'.
Proof.
  intros Hle Hi. induction Hle as [|m _ (q & Hq & Hr & Hk)]; [exists p; by split; [|split; [left|]]|].
  destruct (run_call_step m i q Hq) as (q' & Hq' & Hr' & Hk'). exists q'. split; [done|].
  split; [|by eapply same_kind_trans]. destruct Hr as [->|Hr]; [done|]. right. destruct Hr' as [->|]; lia.
Qed.

Lemma client_inv (n : nat) : ClientSystem.inv (client (exec n)).
Proof. apply client_reachable_inv, client_reachable. by apply run_reachable. Qed.

Lemma ready_stays (n m : nat) p : n <= m -> call_ready (disp n) p -> call_ready (disp m) p.
Proof.
  intros Hle Hready. pose proof (dispatcher_run exec Hrun) as Hfair.
  assert (Hkeep : forall j q, Dispatcher.threads (disp n) !! j = Some q -> returned q = true ->
            exists q', Dispatcher.threads (disp m) !! j = Some q' /\ returned q' = true)
    by (intros j q; by apply (stable_later _ _ _ Hfair returned j n m q returned_stable Hle)).
  destruct p; simpl in *; try done.
  - destruct Hready as [a Ha]. destruct (Hkeep j _ Ha eq_refl) as (q & Hq & Hret).
    destruct (stable_later _ _ _ Hfair in_submit j n m _ submit_stable Hle Ha eq_refl) as (q' & Hq' & Hin).
    assert (q' = q) as -> by congruence. destruct q; try done. by exists accepted.
  - destruct (Hkeep j _ Hready eq_refl) as (q & Hq & Hret).
    destruct (stable_later _ _ _ Hfair in_close j n m _ close_stable Hle Hready eq_refl) as (q' & Hq' & Hin).
    assert (q' = q) as -> by congruence. by destruct q.
Qed.

(** A call that is not delivering can go on, sooner or later. *)
Lemma becomes_ready (n i : nat) p : call_at n i = Some p -> (forall t, p <> Posting t) ->
  exists m, n <= m /\ call_ready (disp m) p.
Proof.
  intros Hi Hno. pose proof (inv_calls _ (client_inv n) _ _ Hi) as Hok.
  pose proof (dispatcher_run exec Hrun) as Hfair. pose proof (dispatcher_clock exec Hrun) as Hclock.
  destruct p; try (exists n; split; [done|]; simpl; done || by eapply Hno); simpl in Hok.
  - unfold submission in Hok. destruct (Dispatcher.threads (dispatcher (client (exec n))) !! j) as [q|] eqn:Hj; [|done].
    destruct (submit_returns _ _ _ Hfair j n q Hj) as (m & a & Hle & Hm); [by destruct q|]. exists m. split; [done|by exists a].
  - destruct Hok as (_ & q & Hj & Hq). destruct (close_returns _ _ _ Hfair Hclock j n q Hj Hq) as (m & Hle & Hm). by exists m.
Qed.

Definition closer_to_end (i : nat) p (s : System (W := W)) : Prop :=
  exists p', calls (client s) !! i = Some p' /\ call_rank p' < call_rank p /\ same_kind p p'.

Lemma ready_advances (n i : nat) p : call_at n i = Some p -> 0 < call_rank p -> call_ready (disp n) p ->
  exists m, n <= m /\ closer_to_end i p (exec m).
Proof.
  intros Hi Hr Hready.
  apply (progress exec (acts (RCall i)) (run_fair _ Hrun _)
    (fun s => calls (client s) !! i = Some p /\ call_ready (dispatcher_of s) p) (closer_to_end i p) (fun _ => 0)); [| | |done].
  - intros m [Hm Hrm]. destruct (run_call_step m i p Hm) as (p' & Hp' & [->|Hlt] & Hk); [right|left; by exists p'].
    split; [|done]. split; [done|]. by apply (ready_stays m (S m)); [lia|].
  - intros m [Hm Hrm]. right. destruct (ready_run _ _ _ Hm Hr Hrm) as [c' Hc'].
    assert (Hsome : is_Some (run_caller i (exec m))).
    { unfold run_caller. rewrite Hm. simpl. rewrite Hc'. simpl. repeat case_match; by eexists. }
    destruct Hsome as [s' Hs']. exists s'. split; [by eapply sys_caller|done].
  - intros m [Hm _] [_ Hact]. left. apply run_caller_client in Hact.
    destruct (run_call_rank _ _ _ _ Hact Hm) as (p' & Hcalls & Hlt & Hk). exists p'.
    split; [|done]. rewrite Hcalls. apply list_lookup_insert_eq. by eapply lookup_lt_Some.
Qed.

Lemma call_advances (n i : nat) p : call_at n i = Some p -> 0 < call_rank p ->
  exists m, n <= m /\ closer_to_end i p (exec m).
Proof.
  intros Hi Hr.
  assert (Hfrom : forall m, n <= m -> (call_at m i = Some p -> exists m', m <= m' /\ closer_to_end i p (exec m')) ->
            exists m, n <= m /\ closer_to_end i p (exec m)).
  { intros m Hle Hgo. destruct (call_until n m i p Hle Hi) as (p' & Hp' & [->|Hlt] & Hk); [|by exists m; split; [|exists p']].
    destruct (Hgo Hp') as (m' & ? & ?). exists m'. split; [lia|done]. }
  assert (Hcase : (exists t, p = Posting t) \/ forall t, p <> Posting t) by (destruct p; eauto).
  destruct Hcase as [[t ->]|Hno].
  - destruct (owner_released exec Hrun n (Caller i)) as (m & Hle & Hm). apply (Hfrom m Hle).
    intros Hp. simpl in Hm. by rewrite Hp in Hm.
  - destruct (becomes_ready n i p Hi Hno) as (m & Hle & Hm). apply (Hfrom m Hle). intros Hp. by apply ready_advances.
Qed.

Lemma call_returns (n i : nat) p : call_at n i = Some p ->
  exists m p', n <= m /\ call_at m i = Some p' /\ call_rank p' = 0 /\ same_kind p p'.
Proof.
  remember (call_rank p) as r eqn:Hr. revert n p Hr. induction (lt_wf r) as [r _ IH]. intros n p -> Hi.
  destruct (decide (call_rank p = 0)) as [Hz|Hnz]; [exists n, p; by split_and!|].
  destruct (call_advances n i p Hi ltac:(lia)) as (m & Hle & p' & Hp' & Hlt & Hk).
  destruct (IH _ Hlt m p' eq_refl Hp') as (m' & q & Hle' & Hq & Hz & Hk'). exists m', q. split_and!; [lia|done|done|by eapply same_kind_trans].
Qed.

(** ** Every delivery is returned *)

Lemma delivery_returned (n k : nat) d : deliveries (exec n) !! k = Some d ->
  exists m d', n <= m /\ deliveries (exec m) !! k = Some d' /\ by_whom d' = by_whom d /\ task d' = task d /\ under_way d' = false.
Proof.
  intros Hd. destruct (owner_released exec Hrun n (by_whom d)) as (m & Hle & Hm).
  destruct (delivery_later exec Hrun n m k d Hle Hd) as (d' & Hd' & Hb & Ht & _).
  exists m, d'. split_and!; [done..|]. destruct (under_way d') eqn:Hu; [|done].
  pose proof (owned_running _ (owned_invariant _ (run_reachable exec Hrun m)) _ _ Hd' Hu) as Hr. congruence.
Qed.

(** All those that have begun are, at some point. *)
Lemma deliveries_returned (n : nat) : exists m, n <= m /\
  forall k d, deliveries (exec n) !! k = Some d ->
    exists d', deliveries (exec m) !! k = Some d' /\ by_whom d' = by_whom d /\ task d' = task d /\ under_way d' = false.
Proof.
  assert (Hsome : forall b, exists m, n <= m /\ forall k d, k < b -> deliveries (exec n) !! k = Some d ->
            exists d', deliveries (exec m) !! k = Some d' /\ by_whom d' = by_whom d /\ task d' = task d /\ under_way d' = false).
  { induction b as [|b (m & Hle & IH)]; [exists n; split; [done|lia]|].
    destruct (deliveries (exec n) !! b) as [e|] eqn:Hb;
      [|exists m; split; [done|]; intros k d Hk Hd; destruct (decide (k = b)) as [->|]; [congruence|apply IH; [lia|done]]].
    destruct (delivery_returned n b e Hb) as (m' & e' & Hle' & He' & Hby & Ht & Hu).
    exists (Nat.max m m'). split; [lia|]. intros k d Hk Hd.
    assert (Hat : exists j d', j <= Nat.max m m' /\ deliveries (exec j) !! k = Some d' /\ by_whom d' = by_whom d /\ task d' = task d /\ under_way d' = false).
    { destruct (decide (k = b)) as [->|]; [simplify_eq; exists m', e'; split; [lia|done]|].
      destruct (IH k d ltac:(lia) Hd) as (d' & ?). exists m, d'. split; [lia|done]. }
    destruct Hat as (j & d' & Hj & Hd' & Hby' & Ht' & Hu').
    destruct (delivery_later exec Hrun j _ k d' Hj Hd') as (d2 & Hd2 & Hb2 & Ht2 & _ & Hu2).
    exists d2. split_and!; [done|congruence|congruence|by apply Hu2]. }
  destruct (Hsome (length (deliveries (exec n)))) as (m & Hle & Hm). exists m. split; [done|].
  intros k d Hd. eapply Hm; [by eapply lookup_lt_Some|done].
Qed.

(** ** A closed client comes to rest *)

Lemma closed_later (n m : nat) : n <= m -> closed (client (exec n)) = true -> closed (client (exec m)) = true.
Proof.
  intros Hle. apply closed_for_good; [by apply client_reachable, run_reachable|]. by apply client_runs, run_rtc.
Qed.

(** The call that closed the client stops the dispatcher. *)
Lemma close_stops (n : nat) : closed (client (exec n)) = true ->
  exists m, n <= m /\ accepting (Dispatcher.state (Dispatcher.shared (disp m))) = false.
Proof.
  intros Hcl. pose proof (inv_winner _ (client_inv n)) as Hone. rewrite Hcl in Hone.
  assert (0 < count winner (calls (client (exec n)))) as (i & p & Hi & Hp)%count_pos by lia.
  destruct (call_returns n i p Hi) as (m & q & Hle & Hq & Hz & _ & Hw). specialize (Hw Hp).
  exists m. split; [done|]. destruct q as [| | | | | | | | | |[]]; try done.
  destruct (inv_calls _ (client_inv m) _ _ Hq) as [_ Hdrain]. unfold dispatcher_of.
  destruct (lifecycle _ _ _ (inv_reach _ (client_inv m))) as (_ & Ho & _).
  destruct (accepting _); [|done]. by rewrite Ho in Hdrain.
Qed.

(** A step that begins no delivery. *)
Lemma no_new_delivery (s s' : System (W := W)) :
  step s s' -> closed (client s) = true ->
  (forall i, Dispatcher.threads (dispatcher_of s) !! i <> Some WLock) -> length (deliveries s') = length (deliveries s).
Proof.
  intros Hstep Hcl Hno.
  destruct Hstep as [c Hc|i s' Hcall|i n t d result Hi Hn Ho Hpc|i t d' Hi Hr Ht|i n t d result d' Hi Hn Ho Hpc Hr
    |d' Hd Hlen Hclk Hsame|i' Hi Hlen Hclk Hsig|n s' Hr|t Ht]; simpl; rewrite ?length_insert; try done.
  - apply run_caller_cases in Hcall as [routed r t Hi Hp|c' Hi Hr|c c' Hi Hne Hr Hnp]; [|done|done].
    rewrite post_async_mode_cases, Hcl in Hp. done.
  - by apply Hno in Hi.
  - destruct result; simpl; by rewrite length_insert.
  - by eapply run_delivery_length.
Qed.

(** Nothing is left to be delivered, and nothing comes. *)
Definition at_peace (s : System (W := W)) : Prop :=
  closed (client s) = true /\
  (forall i x, Dispatcher.threads (dispatcher_of s) !! i = Some x -> is_worker x = true -> x = WExit) /\
  (forall k d, deliveries s !! k = Some d -> under_way d = false).

Lemma peace_step (s s' : System (W := W)) :
  step s s' -> at_peace s -> deliveries s' = deliveries s /\ requests s' = requests s.
Proof.
  intros Hstep (Hcl & Hw & Hd).
  assert (Hlen : length (deliveries s') = length (deliveries s)).
  { apply no_new_delivery; [done..|]. intros i Hi. by specialize (Hw i _ Hi eq_refl). }
  destruct (step_moves _ _ Hstep) as [_ Hdel Hreq|o t _ Hdel _|k d d' Hk Hmove _ _]; [done| |].
  - rewrite Hdel, length_app in Hlen. simpl in Hlen. lia.
  - destruct (move_owner _ _ _ _ _ Hmove) as (_ & _ & Hu). by rewrite (Hd k d Hk) in Hu.
Qed.

Lemma comes_to_rest (n : nat) : closed (client (exec n)) = true ->
  exists m, n <= m /\ forall k, m <= k -> at_peace (exec k) /\
    deliveries (exec k) = deliveries (exec m) /\ requests (exec k) = requests (exec m).
Proof.
  intros Hcl. pose proof (dispatcher_run exec Hrun) as Hfair. pose proof (dispatcher_clock exec Hrun) as Hclock.
  destruct (close_stops n Hcl) as (m1 & Hle1 & Hacc).
  destruct (workers_leave _ _ _ Hfair Hclock m1 Hacc) as (m2 & Hle2 & Hgone). cbn beta in Hgone.
  assert (Hlen : forall k, m2 <= k -> length (deliveries (exec k)) = length (deliveries (exec m2))).
  { induction 1 as [|k Hk IH]; [done|]. rewrite <-IH. apply no_new_delivery; [apply (run_steps _ Hrun)|eapply closed_later; [|exact Hcl]; lia|].
    intros i Hi. by specialize (Hgone k i _ Hk Hi eq_refl). }
  destruct (deliveries_returned m2) as (m & Hle & Hback).
  assert (Hpeace : forall k, m <= k -> at_peace (exec k)).
  { intros k Hk. split_and!; [eapply closed_later; [|exact Hcl]; lia|intros i x; apply Hgone; lia|].
    intros j d Hj. destruct (deliveries (exec m2) !! j) as [e|] eqn:He.
    - destruct (Hback j e He) as (e' & He' & _ & _ & Hu).
      destruct (delivery_later exec Hrun m k j e' Hk He') as (e2 & He2 & _ & _ & _ & Hu2).
      assert (e2 = d) as -> by congruence. by apply Hu2.
    - apply lookup_ge_None in He. apply lookup_lt_Some in Hj. rewrite (Hlen k) in Hj by lia. lia. }
  exists m. split; [lia|]. intros k Hk. split; [by apply Hpeace|].
  induction Hk as [|k Hk [IHd IHr]]; [done|].
  destruct (peace_step _ _ (run_steps _ Hrun k) (Hpeace k Hk)) as [-> ->]. done.
Qed.
End Live.

(** ** Properties *)

Section Properties.
Context {W : Type} `{SerdeJson} `{!Ureq W}.
Implicit Types (d : job (W := W)) (p : call).

(** C9: Every call returns. In every fair run of the whole system, in which time goes
    on and the network answers or times out, each call that has begun comes back, for
    good, and as the call it was: a synchronous post with the result of a delivery or
    a refusal, whatever the network does and however many backoffs it waits through,
    an asynchronous one with the answer of the dispatcher, and a close whether it has
    to wait for the drain or finds the client closed. *)
Theorem calls_complete (exec : nat -> System (W := W)) (n i : nat) p :
  fair_run exec -> calls (client (exec n)) !! i = Some p ->
  exists m p', n <= m /\ (forall k, m <= k -> calls (client (exec k)) !! i = Some p') /\
    match kind_of p with
    | KPost => exists r, p' = PostDone r
    | KPostAsync => exists t r, p' = AsyncDone t r
    | KClose => exists first, p' = CloseDone first
    end.
Proof.
  intros Hrun Hi. destruct (call_returns exec Hrun n i p Hi) as (m & q & Hle & Hq & Hz & <- & _).
  exists m, q. split_and!; [done| |destruct q; simpl in *; (done || eauto)].
  intros k Hk. destruct (call_until exec Hrun m k i q Hk Hq) as (q' & Hq' & [->|Hlt] & _); [done|lia].
Qed.

(** C10: No accepted incident is left behind. In every fair run each incident that the
    dispatcher has accepted leaves the queue, in the order of acceptance: evicted by
    later ones, abandoned by a close, which only a closed client does, or taken by a
    worker; and every delivery that
    had begun by then, that of the incident included, comes to its end and is
    returned to the worker or the call it belongs to. *)
Theorem incidents_complete (exec : nat -> System (W := W)) (n r : nat) (t : DeliveryTask) :
  fair_run exec -> accepted (history (dispatcher (client (exec n)))) !! r = Some t ->
  exists m m', n <= m <= m' /\
    let h := history (dispatcher (client (exec m))) in
    removed h !! r = Some t /\
    (t ∈ evicted h \/ (t ∈ abandoned h /\ closed (client (exec m)) = true) \/ t ∈ worker_tasks (exec m)) /\
    forall k d, deliveries (exec m) !! k = Some d ->
      exists d' result, deliveries (exec m') !! k = Some d' /\ by_whom d' = by_whom d /\ task d' = task d /\
        at_pc d' = DDone result true.
Proof.
  intros Hrun Ht. pose proof (dispatcher_run exec Hrun) as Hfair. pose proof (dispatcher_clock exec Hrun) as Hclock.
  destruct (leaves_queue _ _ _ Hfair Hclock n r ltac:(unfold WORKER_COUNT; lia)) as (m & Hle & Hm);
    [by eapply lookup_lt_Some|].
  destruct (deliveries_returned exec Hrun m) as (m' & Hle' & Hback). exists m, m'. split; [done|]. simpl.
  pose proof (exec_reachable _ _ _ Hfair m) as Hreach.
  assert (Hr : removed (history (dispatcher (client (exec m)))) !! r = Some t).
  { destruct (history_mono _ _ (exec_rtc _ _ _ Hfair n m Hle)) as [es Hes].
    assert (Ha : accepted (history (dispatcher_of (exec m))) !! r = Some t)
      by (rewrite Hes; unfold accepted; rewrite omap_app; by apply lookup_app_l_Some).
    rewrite (queue_fifo _ _ _ Hreach) in Ha. unfold dispatcher_of in *. by rewrite lookup_app_l in Ha. }
  split_and!; [done| |].
  - rewrite (tasks_invariant _ (run_reachable exec Hrun m)).
    apply list_elem_of_lookup_2 in Hr. unfold removed in Hr. apply list_elem_of_omap in Hr as (e & He & Hte).
    assert (Hevent : forall f : Dispatcher.event DeliveryTask -> option DeliveryTask, f e = Some t ->
              t ∈ omap f (history (dispatcher (client (exec m)))))
      by (intros f Hf; apply list_elem_of_omap; by exists e).
    destruct e as [| |u|u| |u| |]; simplify_eq/=; [left; by apply Hevent|right; right; by apply Hevent|right; left].
    assert (Habandoned : t ∈ abandoned (history (dispatcher (client (exec m))))) by (by apply Hevent).
    split; [done|]. apply (shut_closed _ (client_inv exec Hrun m)).
    destruct (accepting _) eqn:Hacc; [|done]. exfalso.
    pose proof (abandoned_late _ _ _ Hreach (open_draining _ _ _ Hreach Hacc)) as Hnone.
    unfold dispatcher_of in Hnone. rewrite Hnone in Habandoned. by apply elem_of_nil in Habandoned.
  - intros k d Hd. destruct (Hback k d Hd) as (d' & Hd' & Hb & Htask & Hu).
    unfold under_way in Hu. destruct (at_pc d') as [| | | |res []] eqn:Hpc; try done. by exists d', res.
Qed.

(** C11: A closed client comes to rest. In every fair run, once a call has closed the
    client there is a moment from which on every worker has left its loop, every
    delivery ever begun has ended and been returned, and no request is sent any
    more, whatever is still called. *)
Theorem close_quiesces (exec : nat -> System (W := W)) (n : nat) :
  fair_run exec -> closed (client (exec n)) = true ->
  exists m, n <= m /\ forall k, m <= k ->
    requests (exec k) = requests (exec m) /\ deliveries (exec k) = deliveries (exec m) /\
    (forall j d, deliveries (exec k) !! j = Some d -> exists result, at_pc d = DDone result true) /\
    (forall i x, Dispatcher.threads (dispatcher (client (exec k))) !! i = Some x -> is_worker x = true -> x = WExit).
Proof.
  intros Hrun Hcl. destruct (comes_to_rest exec Hrun n Hcl) as (m & Hle & Hm). exists m. split; [done|].
  intros k Hk. destruct (Hm k Hk) as ((_ & Hw & Hd) & Hdel & Hreq). split_and!; [done|done| |done].
  intros j d Hj. specialize (Hd j d Hj). unfold under_way in Hd.
  destruct (at_pc d) as [| | | |res []] eqn:Hpc; try done. by exists res.
Qed.
End Properties.

(** ** Fair runs from schedules *)

Section Schedule.
Context {W : Type} `{SerdeJson} `{!Ureq W}.
Implicit Types (s : System (W := W)).

(** Time [t] passes. *)
Definition tick (t : Z) s : System :=
  with_interrupt (Interrupt.mkSys (Interrupt.signalled (interrupt s)) (signal_time (interrupt s))
                    (clock (interrupt s) + t) (Interrupt.threads (interrupt s)))
    (with_dispatcher (Dispatcher.mkSys (Dispatcher.shared (dispatcher_of s)) (Dispatcher.threads (dispatcher_of s))
                        (Dispatcher.clock (dispatcher_of s) + t) (history (dispatcher_of s))) s).

Lemma tick_0 s : tick 0 s = s.
Proof.
  destruct s as [[inn cl sig [sh th ck h] ca] [isig ist ick ith] n ds rs lg].
  unfold tick, with_interrupt, with_dispatcher, with_client, dispatcher_of. simpl. by rewrite !Z.add_0_r.
Qed.

Lemma tick_tick (t u : Z) s : tick u (tick t s) = tick (t + u) s.
Proof. unfold tick, with_interrupt, with_dispatcher, with_client, dispatcher_of. simpl. by rewrite !Z.add_assoc. Qed.

(** Every call has returned, every delivery too, every wait is over, and the threads
    of the dispatcher rest. *)
Definition idle s : bool :=
  forallb (fun p => call_rank p =? 0)%nat (calls (client s)) &&
  forallb (fun d => negb (under_way d)) (deliveries s) &&
  forallb (fun p => match p with WaitCall _ | Waiting _ _ | Woken _ _ => false | _ => true end) (Interrupt.threads (interrupt s)) &&
  forallb at_rest (Dispatcher.threads (dispatcher_of s)).

Lemma forallb_lookup {A : Type} (f : A -> bool) (l : list A) (i : nat) (x : A) :
  forallb f l = true -> l !! i = Some x -> f x = true.
Proof.
  revert i. induction l as [|y l IH]; intros [|i] Hl Hi; simplify_eq/=; apply andb_prop in Hl as [? ?]; eauto.
Qed.

Lemma idle_tick (t : Z) s : idle (tick t s) = idle s.
Proof. done. Qed.

Lemma idle_disabled (ρ : role) s : idle s = true -> ~ exists s', acts ρ s s'.
Proof.
  intros [[[Hc Hd]%andb_prop Hi]%andb_prop Ht]%andb_prop [s' [Hstep Hact]].
  assert (Hrest : forall i p, Dispatcher.threads (dispatcher_of s) !! i = Some p -> at_rest p = true)
    by (intros i p; by apply forallb_lookup).
  destruct ρ as [i|n|j|o|i].
  - apply run_caller_client in Hact. destruct (calls (client s) !! i) as [p|] eqn:Hp;
      [|unfold run_call in Hact; by rewrite Hp in Hact].
    destruct (run_call_rank _ _ _ _ Hact Hp) as (p' & _ & Hlt & _).
    apply (forallb_lookup _ _ _ _ Hc), Nat.eqb_eq in Hp. lia.
  - destruct (run_delivery_moved _ _ _ Hact) as (d & d' & Hn & Hmove & _).
    destruct (move_owner _ _ _ _ _ Hmove) as (_ & _ & Hu). apply (forallb_lookup _ _ _ _ Hd) in Hn. by rewrite Hu in Hn.
  - unfold run_wait in Hact. destruct (Interrupt.threads (interrupt s) !! j) as [p|] eqn:Hj; [|done].
    apply (forallb_lookup _ _ _ _ Hi) in Hj. by destruct p.
  - destruct Hact as [Hown _]. destruct o as [i|i]; simpl in Hown.
    + destruct (Dispatcher.threads (dispatcher (client s)) !! i) as [p|] eqn:Hp; [|done].
      apply Hrest in Hp. by destruct p.
    + destruct (calls (client s) !! i) as [p|] eqn:Hp; [|done].
      apply (forallb_lookup _ _ _ _ Hc) in Hp. by destruct p.
  - apply (at_rest_disabled i (dispatcher_of s)); [by apply Hrest|by eexists].
Qed.

Context (l : list DeliverySystem.event) (s0 : System (W := W)).

(** The schedule, and then nothing but time. *)
Definition scheduled (n : nat) : System :=
  tick (Z.of_nat (n - length l)) (default s0 (play_events (take n l) s0)).

Hypothesis Hinit : reachable s0.
Hypothesis Hplayed : is_Some (play_events l s0).
Hypothesis Hidle : idle (scheduled (length l)) = true.

Lemma scheduled_next (n : nat) (e : DeliverySystem.event) :
  l !! n = Some e -> step (scheduled n) (scheduled (S n)).
Proof.
  intros He. pose proof (lookup_lt_Some _ _ _ He) as Hlt. unfold scheduled.
  replace (n - length l) with 0 by lia. replace (S n - length l) with 0 by lia. rewrite !tick_0.
  destruct Hplayed as [s' Hs'].
  assert (Hsome : exists s1, play_events (take (S n) l) s0 = Some s1).
  { rewrite <-(take_drop (S n) l), play_events_app in Hs'.
    destruct (play_events (take (S n) l) s0) as [s1|]; [by exists s1|done]. }
  destruct Hsome as [s2 Hs2]. rewrite Hs2. rewrite (take_S_r _ _ _ He), play_events_app in Hs2.
  destruct (play_events (take n l) s0) as [s1|]; [|done]. simpl in Hs2 |- *.
  destruct (do_event e s1) as [s3|] eqn:Hd; [|done]. simpl in Hs2. injection Hs2 as <-. by eapply do_event_step.
Qed.

Lemma scheduled_later (n : nat) : length l <= n -> scheduled n = tick (Z.of_nat (n - length l)) (scheduled (length l)).
Proof.
  intros Hle. unfold scheduled. by rewrite tick_tick, (take_ge l n), (take_ge l (length l)), Nat.sub_diag, Z.add_0_l by lia.
Qed.

Lemma scheduled_step (n : nat) : step (scheduled n) (scheduled (S n)).
Proof.
  destruct (l !! n) as [e|] eqn:He; [by eapply scheduled_next|]. apply lookup_ge_None in He.
  rewrite (scheduled_later n), (scheduled_later (S n)) by lia.
  replace (Z.of_nat (S n - length l)) with (Z.of_nat (n - length l) + 1)%Z by lia.
  rewrite <-tick_tick. by apply sys_tick.
Qed.

Lemma scheduled_fair : fair_run scheduled.
Proof.
  split.
  - unfold scheduled. simpl. by rewrite tick_0.
  - apply scheduled_step.
  - intros ρ n. exists (Nat.max n (length l)). split; [lia|]. right. apply idle_disabled.
    by rewrite scheduled_later, idle_tick by lia.
  - intros t. exists (length l + Z.to_nat (t - now_of (scheduled (length l)))).
    rewrite scheduled_later by lia. unfold now_of, tick. cbn [interrupt with_interrupt clock]. lia.
Qed.
End Schedule.

(** ** Witnesses: the schedule of [DeliveryProps], and the rest of its close *)

Definition until_rest : list DeliverySystem.event :=
  until_logged ++ [ECall 2; EDispatch 3; EDispatch 3; EDispatch 0; EDispatch 0; EDispatch 3; EDispatch 3;
    EDispatch 0; EDispatch 1; EDispatch 3; EDispatch 3; ECall 2].

Definition run0 (n : nat) : System := scheduled until_rest system0 n.

Lemma run0_fair : fair_run run0.
Proof.
  apply scheduled_fair.
  - exists sample_inner, 0%Z, network0. apply rtc_refl.
  - apply not_eq_None_Some. intros Hnone.
    apply (f_equal (fun o => match o with Some _ => true | None => false end)) in Hnone. vm_compute in Hnone. discriminate.
  - vm_compute. reflexivity.
Qed.

Lemma calls_complete_witness :
  calls (client (run0 1)) !! 0 = Some (Post false (sample_request None)) /\
  exists m r, 1 <= m /\ forall k, m <= k -> calls (client (run0 k)) !! 0 = Some (PostDone r).
Proof.
  assert (Hi : calls (client (run0 1)) !! 0 = Some (Post false (sample_request None))) by (vm_compute; reflexivity).
  split; [exact Hi|]. destruct (calls_complete run0 1 0 _ run0_fair Hi) as (m & p' & Hle & Hk & r & Hr).
  exists m, r. split; [exact Hle|]. rewrite <-Hr. exact Hk.
Defined.

Lemma incidents_complete_witness :
  exists m, 18 <= m /\
    removed (history (dispatcher (client (run0 m)))) !! 0 = Some (mkTask (sample_request None) None).
Proof.
  destruct (incidents_complete run0 18 0 (mkTask (sample_request None) None) run0_fair) as (m & m' & [Hle _] & Hr & _);
    [vm_compute; reflexivity|]. exists m. split; [exact Hle|exact Hr].
Defined.

Lemma close_quiesces_witness :
  exists m, 25 <= m /\ forall k, m <= k -> requests (run0 k) = requests (run0 m).
Proof.
  destruct (close_quiesces run0 25 run0_fair) as (m & Hle & Hm); [vm_compute; reflexivity|].
  exists m. split; [exact Hle|]. intros k Hk. apply (Hm k Hk).
Defined.
