(* ===== verification/DeliveryHealthy.v ===== *)
(** * The whole system on a network that works

    When every request is answered with success, no delivery is ever retried or fails,
    however many callers and workers deliver at once: each post sends one request and
    returns what the server answered. *)

From stdpp Require Import prelude list relations.
From S2P Require Import Prelude Fairness Error Response Request Json Wire Retry Transport DropLogger Dispatcher Client ClientSystem.
From S2P Require Import Interrupt InterruptWorld DeliverySystem DeliveryInv DeliveryOwner DeliveryCalls DeliveryProps DeliveryFair DeliveryLive.

Section Healthy.
Context {W : Type} `{SerdeJson} {laws : SerdeJsonLaws} `{!Ureq W}.
Implicit Types (s : System (W := W)) (d : job (W := W)).

(** What the server answers a request: an HTTP status and the members of the JSON
    envelope in the body. *)
Definition Answers : Type := HttpRequest -> Z * list (str * Scalar).

(** What the answer to a request says, as [Wire.envelope_response] specifies it. *)
Definition answered (answer : Answers) (req : HttpRequest) : IncidentResponse :=
  envelope_response (answer req).1 (answer req).2.

(** A body that reads, whenever it is read, as the envelope with these members. *)
Definition reads_back (good : W -> Prop) (members : list (str * Scalar)) (body : Body) : Prop :=
  forall w, good w -> exists w', read_to_string MAX_RESPONSE_BYTES body w = (Ok (object_text members), w') /\ good w'.

(** A network, in a state [good] that lasts, that answers each request of the client as
    [answer] says: with a status of success, and an envelope (members with different
    names and values JSON can carry) that can be read in full. *)
Record healthy_network (self : Inner) (good : W -> Prop) (answer : Answers) : Prop := {
  healthy_status : forall r key, range_contains 200 300 (answer (post_request self r key)).1 = true;
  healthy_envelope : forall r key, let members := (answer (post_request self r key)).2 in
    NoDup (map fst members) /\ Forall (fun kv => scalar_wf kv.2) members;
  healthy_send : forall r key w, good w -> exists body w',
    let req := post_request self r key in
    http_send (agent (transport self)) req w = (Ok ((answer req).1, body), w') /\ good w' /\
    reads_back good (answer req).2 body;
}.

Context (self : Inner) (good : W -> Prop) (answer : Answers).
Hypothesis Hhealthy : healthy_network self good answer.

(** In its first attempt, or ended by it with what the server answered. *)
Definition first_try d : Prop :=
  let req := request_of self (task d) in
  match at_pc d with
  | DSend k | DHead k _ _ => k = 0 /\ attempts d = []
  | DBody k _ _ status body => k = 0 /\ attempts d = [] /\ status = (answer req).1 /\ reads_back good (answer req).2 body
  | DWait _ _ => False
  | DDone r _ => r = Ok (answered answer req) /\ length (attempts d) = 1
  end.

Definition all_well s : Prop :=
  inner_of s = self /\ good (net s) /\ forall n d, deliveries s !! n = Some d -> first_try d.

(** The client reads the answer as it was meant. *)
Lemma parses_answer (t : DeliveryTask) :
  let req := request_of self t in
  parse_response (answer req).1 (object_text (answer req).2) = Ok (answered answer req).
Proof. destruct (healthy_envelope _ _ _ Hhealthy (request t) (default_service_key t)). by apply parse_object_text. Qed.

Lemma well_set s s' (n : nat) d :
  all_well s -> inner_of s' = self -> good (net s') -> deliveries s' = <[n := d]> (deliveries s) -> first_try d -> all_well s'.
Proof.
  intros (_ & _ & Hd) Hin Hnet Hset Hfirst. split_and!; [done|done|]. rewrite Hset.
  intros m e [(_ & <- & _)|(_ & Hm)]%list_lookup_insert_Some; [done|by eapply Hd].
Qed.

Lemma run_delivery_well s s' (n : nat) : run_delivery n s = Some s' -> all_well s -> all_well s'.
Proof.
  intros Hrun Hwell. pose proof Hwell as (Hin & Hnet & Hd).
  assert (Hin' : inner_of s' = self) by (unfold inner_of in *; by rewrite (run_delivery_client _ _ _ Hrun)).
  unfold run_delivery in Hrun. destruct (deliveries s !! n) as [d|] eqn:Hn; [|done]. simpl in Hrun.
  specialize (Hd n d Hn). unfold first_try in Hd. rewrite Hin in Hrun.
  destruct (at_pc d) as [k|k start late|k start late st b|k j|r c] eqn:Hpc; [| | |done|done].
  - simplify_eq. eapply well_set; [exact Hwell|done|done|done|]. unfold first_try. simpl. by destruct Hd.
  - destruct (healthy_send _ _ _ Hhealthy (request (task d)) (default_service_key (task d)) _ Hnet)
      as (b & w' & Hsend & Hgood & Hread).
    change (post_request self _ _) with (request_of self (task d)) in *.
    rewrite Hsend in Hrun. simplify_eq.
    eapply well_set; [exact Hwell|done|done|done|]. unfold first_try. simpl. destruct Hd. by repeat (split; [done|]).
  - destruct Hd as (-> & Hatt & -> & Hread). destruct (Hread _ Hnet) as (w' & Hbody & Hgood).
    rewrite Hbody in Hrun. injection Hrun as <-. unfold received, conclude in *.
    rewrite (healthy_status _ _ _ Hhealthy (request (task d)) (default_service_key (task d)) : range_contains _ _ (answer (request_of self (task d))).1 = true).
    rewrite parses_answer. simpl in *.
    eapply well_set; [exact Hwell|done|done|done|]. unfold first_try. simpl. by rewrite Hatt.
Qed.

Lemma collect_well s s1 (n : nat) d (r : Result IncidentResponse IncidentError) :
  all_well s -> deliveries s !! n = Some d -> at_pc d = DDone r false ->
  inner_of s1 = self -> net s1 = net s -> deliveries s1 = deliveries s -> all_well (collect n d r s1).
Proof.
  intros Hwell Hn Hpc Hin Hnet Hd. pose proof Hwell as (_ & Hgood & Hall). eapply (well_set s); [done|done| | |].
  - simpl. by rewrite Hnet.
  - simpl. by rewrite Hd.
  - specialize (Hall n d Hn). unfold first_try in *. rewrite Hpc in Hall. exact Hall.
Qed.

Lemma begin_well s s1 (o : owner) (t : DeliveryTask) :
  all_well s -> inner_of s1 = self -> net s1 = net s -> deliveries s1 = deliveries s -> all_well (begin_delivery o t s1).
Proof.
  intros (_ & Hgood & Hall) Hin Hnet Hd. split_and!; [done|simpl; by rewrite Hnet|]. simpl. rewrite Hd.
  intros n d [Hn|[_ Hn]]%lookup_app_Some; [by eapply Hall|].
  apply list_lookup_singleton_Some in Hn as [_ <-]. by split.
Qed.

Lemma step_well s s' : step s s' -> all_well s -> all_well s'.
Proof.
  intros Hstep Hwell. pose proof (step_inner _ _ Hstep) as Hin. pose proof Hwell as (Hself & Hgood & Hall).
  rewrite Hself in Hin.
  destruct Hstep as [c Hc|i s' Hcall|i n t d result Hi Hn Ho Hpc|i t d' Hi Hr Ht|i n t d result d' Hi Hn Ho Hpc Hr
    |d' Hd Hlen Hclk Hsame|i' Hi Hlen Hclk Hsig|n s' Hr|t Ht]; try done.
  - revert Hin. apply run_caller_cases in Hcall as [routed r t Hi Hp|c' Hi Hr|c c' Hi Hne Hr Hnp]; intros Hin;
      [by eapply begin_well|by split_and!|by split_and!].
  - by eapply collect_well.
  - by eapply begin_well.
  - assert (Hc : all_well (collect n d result (with_dispatcher d' s))) by (by eapply collect_well). by destruct result.
  - by eapply run_delivery_well.
Qed.

Lemma stays_well s s' : all_well s -> rtc step s s' -> all_well s'.
Proof. intros Hwell Hrtc. induction Hrtc as [|s s1 s2 Hstep _ IH]; [done|]. by apply IH, (step_well s). Qed.

Lemma new_well (now : Z) (w : W) : good w -> all_well (new self now w).
Proof. intros Hgood. by split_and!. Qed.

(** A delivery that has ended has succeeded at once, and nothing has been logged. *)
Lemma well_done s (n : nat) d (r : Result IncidentResponse IncidentError) (c : bool) :
  reachable s -> all_well s -> deliveries s !! n = Some d -> at_pc d = DDone r c ->
  r = Ok (answered answer (request_of self (task d))) /\ sent_by n (requests s) = [request_of self (task d)].
Proof.
  intros Hreach (Hself & _ & Hall) Hn Hpc. specialize (Hall n d Hn). unfold first_try in Hall. rewrite Hpc in Hall.
  destruct Hall as [Hok Hlen]. split; [done|].
  rewrite (requests_invariant _ Hreach n), Hn, Hself. unfold in_attempt. by rewrite Hpc, Hlen.
Qed.

Lemma well_log s : reachable s -> all_well s -> debug_log s = [].
Proof.
  intros Hreach (_ & _ & Hall). pose proof (log_invariant _ Hreach) as Hlog.
  assert (Hnil : omap log_line (deliveries s) = []); [|by rewrite Hnil in Hlog; apply Permutation_nil_r in Hlog].
  clear Hlog Hreach. assert (Hin : forall d, d ∈ deliveries s -> log_line d = None).
  { intros d [n Hn]%list_elem_of_lookup_1. specialize (Hall n d Hn). unfold first_try, log_line in *.
    destruct (by_whom d); [|done]. destruct (at_pc d) as [| | | |r c]; try done. by destruct Hall as [-> _]. }
  clear Hall. induction (deliveries s) as [|d l IH]; [done|]. simpl. rewrite (Hin d) by left. apply IH. intros e He. apply Hin. by right.
Qed.
End Healthy.

(** ** Property *)

(** C12: On a network that works every post succeeds with one request. However many
    calls, workers and deliveries interleave, in a fair run on a network that answers
    each request with a status of success and an envelope, each synchronous call that
    has passed its checks returns exactly what the server answered its request: the
    envelope's success, code, message and data, with the documented defaults; it has
    sent that request once, and nothing is ever logged, at any moment of the run. *)
Theorem healthy_posts_succeed {W : Type} `{SerdeJson} {laws : SerdeJsonLaws} `{!Ureq W} (self : Inner) (now : Z) (w : W)
    (good : W -> Prop) (answer : Answers) (exec : nat -> System (W := W)) (n i : nat) (t : DeliveryTask) :
  let req := post_request self (request t) (default_service_key t) in
  healthy_network self good answer -> good w -> exec 0 = new self now w -> fair_run exec ->
  calls (client (exec n)) !! i = Some (Posting t) ->
  (exists m k d, n <= m /\
    calls (client (exec m)) !! i = Some (PostDone (Ok (envelope_response (answer req).1 (answer req).2))) /\
    deliveries (exec m) !! k = Some d /\ by_whom d = Caller i /\ sent_by k (requests (exec m)) = [req]) /\
  forall m, debug_log (exec m) = [].
Proof.
  intros req Hhealthy Hgood Hstart Hrun Hi.
  assert (Hwell : forall m, all_well self good answer (exec m)).
  { intros m. eapply stays_well; [done| |apply (run_rtc exec Hrun 0 m); lia]. rewrite Hstart. by apply new_well. }
  split; [|intros m; by eapply well_log, Hwell; apply run_reachable].
  destruct (call_returns exec Hrun n i _ Hi) as (m & p & Hle & Hp & Hz & Hkind & _).
  destruct p as [| |r| | | | | | | |]; try done. pose proof (run_reachable exec Hrun m) as Hreach.
  assert (Hown : running (exec n) (Caller i) = Some t) by (simpl; by rewrite Hi).
  pose proof (owned_invariant _ (run_reachable exec Hrun n)) as Howned.
  destruct (owned_exists _ Howned _ _ Hown) as (k & d0 & Hk & Hby & Hu).
  pose proof (owned_running _ Howned _ _ Hk Hu) as Htask. rewrite Hby, Hown in Htask. injection Htask as Htask.
  destruct (delivery_later exec Hrun n m k d0 Hle Hk) as (d & Hd & Hbd & Htd & _).
  destruct (answered_invariant _ Hreach) as [_ Honce Hdone].
  destruct (Hdone i r Hp) as [(e & _ & _ & Hno)|(k' & d' & Hk' & Hby' & Hpc)];
    [destruct (Hno k d Hd); congruence|].
  assert (k' = k) as -> by (eapply (Honce k' k d' d i); congruence). rewrite Hd in Hk'. injection Hk' as <-.
  destruct (well_done self good answer (exec m) k d r true Hreach (Hwell m) Hd Hpc) as [-> Hsent].
  rewrite Htd, <-Htask in *. by exists m, k, d.
Qed.
