(* ===== verification/Programs.v ===== *)
(** * Programs that use the SDK (.github/smoke/rust/src/main.rs, rust/examples/plain.rs)

    The two programs of the repository that only use the public API of the crate,
    written over the model of it: an environment, the network and the clocks of the
    process are its state, with the clients it has made, which its handles name; a step
    of a program returns, fails with an error or panics, and a client is closed
    wherever its scope ends. The client of a program is used by one thread, so that its
    calls are the sequential ones of [Client]; of what the workers may do, a program
    sees one order, in which they take the queued tasks when [close] waits for them, or
    when the program does. Every other order is [ClientSystem]'s and
    [DeliverySystem]'s. *)

From stdpp Require Import prelude list strings.
From S2P Require Import Prelude Error Severity Response Request Json JsonRef Wire Interrupt Retry Transport Stub DropLogger.
From S2P Require Import Dispatcher Client.

(** [VERSION] of lib.rs: the version the manifest of the crate declares. *)
Definition VERSION : str := lit "1.0.0".

(** ** Strings *)

Fixpoint starts_with (needle s : str) : bool :=
  match needle, s with
  | [], _ => true
  | c :: needle, c' :: s => (c =? c')%N && starts_with needle s
  | _ :: _, [] => false
  end.

(** [str::contains] *)
Fixpoint contains (needle s : str) : bool :=
  starts_with needle s || match s with [] => false | _ :: s => contains needle s end.

(** A variable that is removed is not set. *)
Lemma assoc_filter {A : Type} (k : str) (l : list (str * A)) : assoc k (filter (fun kv => kv.1 <> k) l) = None.
Proof.
  induction l as [|[k' v] l IH]; [done|]. rewrite filter_cons. simpl. destruct (decide (k' = k)) as [->|Hne].
  - by rewrite decide_False by auto.
  - rewrite decide_True by done. simpl. by rewrite decide_False by auto.
Qed.

Lemma starts_with_app (needle s : str) : starts_with needle (needle ++ s) = true.
Proof. induction needle as [|c needle IH]; [done|]. simpl. by rewrite N.eqb_refl. Qed.

Lemma contains_app (needle pre post : str) : contains needle (pre ++ needle ++ post) = true.
Proof.
  induction pre as [|c pre IH]; simpl.
  - destruct (needle ++ post) eqn:Heq; simpl; [by destruct needle|]. by rewrite <-Heq, starts_with_app.
  - rewrite IH. apply orb_true_r.
Qed.

(** An [IncidentClient]: its configuration, its flag [closed], the flag of its
    interrupt and the shared state of its dispatcher. *)
Record IncidentClient : Type := mkClientHandle {
  inner : Inner;
  closed : bool;
  signal_sent : bool;
  queue : Shared DeliveryTask;
}.

Section Process.
Context {W : Type} `{SerdeJson} `{!Ureq W} `{!Waiter W}.
(** The system clock, in nanoseconds since the Unix epoch. *)
Context (system_time : W -> Z).

(** ** A process *)

(** A client is named by its place among [clients]. *)
Record Process : Type := mkProcess {
  vars : list (str * str);
  net : W;
  stdout : list str;
  clients : list IncidentClient;
}.

Definition set_vars (l : list (str * str)) (p : Process) : Process := mkProcess l (net p) (stdout p) (clients p).
Definition set_net (w : W) (p : Process) : Process := mkProcess (vars p) w (stdout p) (clients p).
Definition set_clients (l : list IncidentClient) (p : Process) : Process := mkProcess (vars p) (net p) (stdout p) l.

(** How a step of a program ends: with a value, with an error of type [E] that it
    returns, or with a panic. *)
Inductive Exit (E A : Type) : Type :=
| Return (value : A)
| Fail_with (error : E)
| Panic (message : str).
#[global] Arguments Return {E A} value.
#[global] Arguments Fail_with {E A} error.
#[global] Arguments Panic {E A} message.

Definition prog (E A : Type) : Type := Process -> Exit E A * Process.

Definition ret {E A : Type} (a : A) : prog E A := fun p => (Return a, p).
Definition fail {E A : Type} (e : E) : prog E A := fun p => (Fail_with e, p).

Definition bind {E A B : Type} (m : prog E A) (k : A -> prog E B) : prog E B :=
  fun p => match m p with
           | (Return a, p) => k a p
           | (Fail_with e, p) => (Fail_with e, p)
           | (Panic text, p) => (Panic text, p)
           end.

(** [result.map_err(f)?] *)
Definition try_map {E F A : Type} (f : F -> E) (r : Result A F) : prog E A :=
  match r with Ok a => ret a | Err e => fail (f e) end.

(** [result.expect_err(text)] *)
Definition expect_err {E F A : Type} (text : str) (r : Result A F) : prog E F :=
  match r with Err e => ret e | Ok _ => fun p => (Panic text, p) end.

Definition set_var {E : Type} (k v : str) : prog E unit :=
  fun p => (Return tt, set_vars ((k, v) :: filter (fun kv => kv.1 <> k) (vars p)) p).
Definition remove_var {E : Type} (k : str) : prog E unit :=
  fun p => (Return tt, set_vars (filter (fun kv => kv.1 <> k) (vars p)) p).
Definition var {E : Type} (k : str) : prog E (option str) := fun p => (Return (assoc k (vars p)), p).

Definition println {E : Type} (line : str) : prog E unit :=
  fun p => (Return tt, mkProcess (vars p) (net p) (stdout p ++ [line]) (clients p)).

(** ** The API of the crate, for one thread *)

Definition endpoint_var : str := lit "OPPEX_TEST_ENDPOINT_URL".

(** The client [i] names; only [build_client] makes names. *)
Definition with_client {E A : Type} (i : nat) (k : IncidentClient -> prog E A) : prog E A :=
  fun p => match clients p !! i with Some c => k c p | None => (Panic (lit "no such client"), p) end.

Definition set_client {E : Type} (i : nat) (c : IncidentClient) : prog E unit :=
  fun p => (Return tt, set_clients (<[i := c]> (clients p)) p).

Definition set_queue {E : Type} (i : nat) (sh : Shared DeliveryTask) : prog E unit :=
  with_client i (fun c => set_client i (mkClientHandle (inner c) (closed c) (signal_sent c) sh)).

(** What [build] makes at instant [t]. *)
Definition new_client (self : Inner) (t : Z) : IncidentClient :=
  mkClientHandle self false Interrupt.new (shared (Dispatcher.new WORKER_COUNT QUEUE_CAPACITY t)).

Definition build_client {E : Type} (b : IncidentClientBuilder.t) : prog E (Result nat IncidentError) :=
  fun p =>
    match Client.build (assoc endpoint_var (vars p)) b with
    | Err e => (Return (Err e), p)
    | Ok self => (Return (Ok (length (clients p))), set_clients (clients p ++ [new_client self (now (net p))]) p)
    end.

Definition build_request {E : Type} (b : IncidentRequestBuilder.t) : prog E (Result IncidentRequest IncidentError) :=
  fun p => (Return (Request.build (system_time (net p)) b), p).

(** A wait on an interrupt that has been signalled: [Interrupt.wait_begin] finds the
    flag set, and returns [true] at once. *)
Definition signalled_waiter : Waiter W := {|
  now w := now w;
  signal_at w := Some (now w);
  wait _ w := (true, w);
|}.

(** The waits of the deliveries of a client. *)
Definition waiter_of (c : IncidentClient) : Waiter W := if signal_sent c then signalled_waiter else Waiter0.

Definition call_post {E : Type} (routed : bool) (i : nat) (r : IncidentRequest) :
    prog E (Result IncidentResponse IncidentError) :=
  with_client i (fun c p =>
    let '(res, w) := post_mode (Waiter0 := waiter_of c) routed (closed c) (inner c) r (net p) in
    (Return res, set_net w p)).

Definition call_post_async {E : Type} (i : nat) (r : IncidentRequest) : prog E (Result unit IncidentError) :=
  with_client i (fun c p =>
    match post_async (closed c) (inner c) r with
    | Err e => (Return (Err e), p)
    | Ok task =>
        match submit_section (now (net p)) task (queue c) with
        | None => (Return (submit_result false), p)
        | Some (sh, _, _) => bind (set_queue i sh) (fun _ => ret (submit_result true)) p
        end
    end).

(** A worker takes a task, delivers it, and takes it off the count. *)
Definition work {E : Type} (i : nat) : prog E unit :=
  with_client i (fun c p =>
    match work_section (queue c) with
    | Took task sh =>
        let '(_, w) := run_task (Waiter0 := waiter_of c) (inner c) task (net p) in
        set_queue i (done_section sh) (set_net w p)
    | Leave | Sleep => (Return tt, p)
    end).

(** The loop of [drain_until]: while it sleeps, a worker delivers the next of the
    [pending] tasks. No task is in flight when none is pending ([drain_ends]). The
    lines logged are not kept: no program installs a logger. *)
Fixpoint drain {E : Type} (i : nat) (deadline : Z) (pending : list DeliveryTask) : prog E unit :=
  with_client i (fun c p =>
    match drain_section (now (net p)) deadline (queue c) with
    | Drained _ sh => set_queue i sh p
    | DrainSleep =>
        match pending with
        | [] => (Return tt, p)
        | _ :: pending => bind (work i) (fun _ => drain i deadline pending) p
        end
    end).

(** [AsyncDispatcher::close] *)
Definition close_dispatcher {E : Type} (i : nat) (timeout : Z) : prog E unit :=
  with_client i (fun c p =>
    match close_section (queue c) with
    | None => (Return tt, p)
    | Some sh => bind (set_queue i sh) (fun _ => drain i (now (net p) + timeout) (tasks (state sh))) p
    end).

(** [IncidentClient::close]: the swap of the flag, the signal, the dispatcher. *)
Definition close {E : Type} (i : nat) : prog E unit :=
  with_client i (fun c =>
    if closed c then ret tt
    else
      bind (set_client i (mkClientHandle (inner c) true (signal_sent c) (queue c))) (fun _ =>
      bind (set_client i (mkClientHandle (inner c) true true (queue c))) (fun _ =>
      close_dispatcher i CLOSE_DRAIN_TIMEOUT))).

(** The scope of a client: however it ends, the client is dropped, and
    [IncidentClient::drop] closes it. *)
Definition dropping {E A : Type} (i : nat) (body : prog E A) : prog E A :=
  fun p => let '(outcome, p) := body p in (outcome, (close (E := E) i p).2).

(** ** Running a program *)

Lemma bind_return {E A B : Type} (m : prog E A) (k : A -> prog E B) (p p' : Process) (a : A) :
  m p = (Return a, p') -> bind m k p = k a p'.
Proof. unfold bind. by intros ->. Qed.

Lemma with_client_run {E A : Type} (i : nat) (k : IncidentClient -> prog E A) (c : IncidentClient) (p : Process) :
  clients p !! i = Some c -> with_client i k p = k c p.
Proof. unfold with_client. by intros ->. Qed.

Lemma set_queue_run {E : Type} (i : nat) (sh : Shared DeliveryTask) (c : IncidentClient) (p : Process) :
  clients p !! i = Some c ->
  set_queue (E := E) i sh p =
    (Return tt, set_clients (<[i := mkClientHandle (inner c) (closed c) (signal_sent c) sh]> (clients p)) p).
Proof. unfold set_queue. intros Hi. by rewrite (with_client_run _ _ c). Qed.

(** A process with one more client. *)
Definition with_new (self : Inner) (p : Process) : Process :=
  set_clients (clients p ++ [new_client self (now (net p))]) p.

Lemma new_is_there (self : Inner) (p : Process) :
  clients (with_new self p) !! length (clients p) = Some (new_client self (now (net p))).
Proof. by apply list_lookup_middle. Qed.

Lemma client_built {E : Type} (b : IncidentClientBuilder.t) (self : Inner) (p : Process) :
  Client.build (assoc endpoint_var (vars p)) b = Ok self ->
  build_client (E := E) b p = (Return (Ok (length (clients p))), with_new self p).
Proof. unfold build_client. by intros ->. Qed.

Lemma request_built {E : Type} (b : IncidentRequestBuilder.t) (r : Result IncidentRequest IncidentError) (p : Process) :
  Request.build (system_time (net p)) b = r -> build_request (E := E) b p = (Return r, p).
Proof. unfold build_request. by intros ->. Qed.

Lemma post_called {E : Type} (routed : bool) (i : nat) (c : IncidentClient) (r : IncidentRequest)
    (res : Result IncidentResponse IncidentError) (p : Process) (w : W) :
  clients p !! i = Some c -> post_mode (Waiter0 := waiter_of c) routed (closed c) (inner c) r (net p) = (res, w) ->
  call_post (E := E) routed i r p = (Return res, set_net w p).
Proof. intros Hi Hpost. unfold call_post. rewrite (with_client_run _ _ c) by done. by rewrite Hpost. Qed.

(** ** Closing *)

Lemma signalled_waiter_laws : @WaiterLaws W signalled_waiter.
Proof. split; [|done]. intros d w Hd. split; [done|]. by exists (now w). Qed.

(** A signalled wait does what the interrupt does once its flag is set. *)
Lemma signalled_waiter_waits (j : nat) (d : Z) (w : W) (s : Interrupt.Sys) :
  Interrupt.signalled s = true -> j < length (Interrupt.threads s) ->
  exists start, Interrupt.threads (wait_begin j d s) !! j =
    Some (WaitDone (wait (Waiter := signalled_waiter) d w).1 d start (Interrupt.clock s)).
Proof. intros Hs Hj. exists (Interrupt.clock s). unfold wait_begin. rewrite Hs. simpl. by apply list_lookup_insert_eq. Qed.

(** The dispatcher of a closed client: it accepts nothing and its workers leave. *)
Definition shut (sh : Shared DeliveryTask) : Shared DeliveryTask := with_state sh (mkState [] false false 0).

Definition shut_client (c : IncidentClient) : IncidentClient := mkClientHandle (inner c) true true (shut (queue c)).

(** A client whose flag is set and whose drain is under way, with these tasks. *)
Definition draining_client (c : IncidentClient) (pending : list DeliveryTask) : IncidentClient :=
  mkClientHandle (inner c) true true (with_state (queue c) (mkState pending false true 0)).

Definition set_at (i : nat) (c : IncidentClient) (w : W) (p : Process) : Process :=
  set_clients (<[i := c]> (clients p)) (set_net w p).

Lemma set_at_there (i : nat) (c : IncidentClient) (w : W) (p : Process) :
  i < length (clients p) -> clients (set_at i c w p) !! i = Some c.
Proof. apply list_lookup_insert_eq. Qed.

Lemma set_at_twice (i : nat) (c c' : IncidentClient) (w w' : W) (p : Process) :
  set_at i c' w' (set_at i c w p) = set_at i c' w' p.
Proof. unfold set_at, set_clients, set_net. simpl. by rewrite list_insert_insert_eq. Qed.

Lemma set_queue_at {E : Type} (i : nat) (sh : Shared DeliveryTask) (c : IncidentClient) (w : W) (p : Process) :
  i < length (clients p) ->
  set_queue (E := E) i sh (set_at i c w p) =
    (Return tt, set_at i (mkClientHandle (inner c) (closed c) (signal_sent c) sh) w p).
Proof.
  intros Hi. rewrite (set_queue_run _ _ c) by (by apply set_at_there).
  unfold set_at, set_clients, set_net. simpl. by rewrite list_insert_insert_eq.
Qed.

(** The drain delivers the next task, unless its time is over. *)
Lemma drain_delivers {E : Type} (i : nat) (deadline : Z) (t : DeliveryTask) (pending : list DeliveryTask)
    (c : IncidentClient) (w w1 : W) (line : option str) (p : Process) :
  i < length (clients p) -> is_Some (checked_duration_since deadline (now w)) ->
  run_task (Waiter0 := signalled_waiter) (inner c) t w = (line, w1) ->
  drain (E := E) i deadline (t :: pending) (set_at i (draining_client c (t :: pending)) w p) =
  drain i deadline pending (set_at i (draining_client c pending) w1 p).
Proof.
  intros Hi [left Hleft] Ht. simpl. rewrite (with_client_run _ _ (draining_client c (t :: pending))) by (by apply set_at_there).
  unfold drain_section. simpl. rewrite Hleft.
  rewrite (bind_return _ _ _ (set_at i (draining_client c pending) w1 p) tt); [done|]. unfold work.
  rewrite (with_client_run _ _ (draining_client c (t :: pending))) by (by apply set_at_there).
  unfold work_section. simpl. unfold waiter_of. simpl. rewrite Ht.
  rewrite <-(set_at_twice i (draining_client c (t :: pending)) (draining_client c pending) w w1 p).
  change (set_net w1 (set_at i (draining_client c (t :: pending)) w p)) with (set_at i (draining_client c (t :: pending)) w1 p).
  by rewrite set_queue_at, set_at_twice.
Qed.

(** It ends when nothing is queued, or its time is over. *)
Lemma drain_gives_up {E : Type} (i : nat) (deadline : Z) (pending : list DeliveryTask) (c : IncidentClient) (w : W) (p : Process) :
  i < length (clients p) -> pending = [] \/ checked_duration_since deadline (now w) = None ->
  drain (E := E) i deadline pending (set_at i (draining_client c pending) w p) = (Return tt, set_at i (shut_client c) w p).
Proof.
  intros Hi Hend. destruct pending as [|t pending]; simpl;
    rewrite (with_client_run _ _ (draining_client c _)) by (by apply set_at_there); unfold drain_section; simpl;
    [|destruct Hend as [? | ->]; [done|]]; by rewrite set_queue_at.
Qed.

(** However many tasks are queued, the drain ends, with nothing queued and nothing in
    flight. *)
Lemma drain_ends {E : Type} (i : nat) (deadline : Z) (pending : list DeliveryTask) (c : IncidentClient) (w : W) (p : Process) :
  i < length (clients p) ->
  exists w', drain (E := E) i deadline pending (set_at i (draining_client c pending) w p) =
    (Return tt, set_at i (shut_client c) w' p).
Proof.
  intros Hi. revert w. induction pending as [|t pending IH]; intros w; [exists w; apply drain_gives_up; auto|].
  destruct (checked_duration_since deadline (now w)) as [left|] eqn:Hleft; [|exists w; apply drain_gives_up; auto].
  destruct (run_task (Waiter0 := signalled_waiter) (inner c) t w) as [line w1] eqn:Ht.
  destruct (IH w1) as [w' Hdrain]. exists w'. by rewrite (drain_delivers _ _ _ _ _ _ w1 line) by (rewrite ?Hleft; done).
Qed.

(** An open client, with these tasks and none in flight. *)
Definition open_client (c : IncidentClient) (queued : list DeliveryTask) : Prop :=
  closed c = false /\ state (queue c) = mkState queued true true 0.

Lemma close_begins_drain {E : Type} (i : nat) (c : IncidentClient) (queued : list DeliveryTask) (p : Process) :
  clients p !! i = Some c -> open_client c queued ->
  close (E := E) i p =
  drain i (now (net p) + CLOSE_DRAIN_TIMEOUT) queued (set_at i (draining_client c queued) (net p) p).
Proof.
  intros Hi [Hopen Hst]. unfold close. rewrite (with_client_run _ _ c) by done. rewrite Hopen.
  assert (Hlt : i < length (clients p)) by (by eapply lookup_lt_Some).
  set (c1 := mkClientHandle (inner c) true true (queue c)).
  erewrite bind_return by reflexivity. rewrite (bind_return _ _ _ (set_at i c1 (net p) p) tt)
    by (unfold set_client, set_at, set_clients, set_net; simpl; by rewrite list_insert_insert_eq).
  unfold close_dispatcher. rewrite (with_client_run _ _ c1) by (by apply set_at_there).
  unfold close_section. change (queue c1) with (queue c). rewrite Hst. simpl.
  by rewrite (bind_return _ _ _ (set_at i (draining_client c queued) (net p) p) tt) by (by rewrite set_queue_at).
Qed.

(** [close] ends with the client closed, signalled and its dispatcher shut, whatever
    was queued; when nothing was, it leaves the network alone; and it does nothing to
    a client that is closed. *)
Lemma close_shuts {E : Type} (i : nat) (c : IncidentClient) (queued : list DeliveryTask) (p : Process) :
  clients p !! i = Some c -> open_client c queued ->
  exists w, close (E := E) i p = (Return tt, set_at i (shut_client c) w p).
Proof.
  intros Hi Hopen. rewrite (close_begins_drain _ _ _ _ Hi Hopen). apply drain_ends. by eapply lookup_lt_Some.
Qed.

Lemma close_idle {E : Type} (i : nat) (c : IncidentClient) (p : Process) :
  clients p !! i = Some c -> open_client c [] -> close (E := E) i p = (Return tt, set_at i (shut_client c) (net p) p).
Proof.
  intros Hi Hopen. rewrite (close_begins_drain _ _ _ _ Hi Hopen). apply drain_gives_up; [by eapply lookup_lt_Some|by left].
Qed.

Lemma close_again {E : Type} (i : nat) (c : IncidentClient) (p : Process) :
  clients p !! i = Some c -> closed c = true -> close (E := E) i p = (Return tt, p).
Proof. intros Hi Hc. unfold close. rewrite (with_client_run _ _ c) by done. by rewrite Hc. Qed.

(** The scope of a client that is new, and open or closed when it ends. *)
Definition with_shut (self : Inner) (t : Z) (p : Process) : Process :=
  set_clients (clients p ++ [shut_client (new_client self t)]) p.

Lemma shut_is_there (self : Inner) (t : Z) (p : Process) :
  clients (with_shut self t p) !! length (clients p) = Some (shut_client (new_client self t)).
Proof. by apply list_lookup_middle. Qed.

Lemma set_at_last (c c' : IncidentClient) (l : list IncidentClient) (p : Process) :
  clients p = l ++ [c] -> set_at (length l) c' (net p) p = set_clients (l ++ [c']) p.
Proof.
  intros Hl. unfold set_at, set_clients, set_net. simpl. rewrite Hl. f_equal.
  by rewrite insert_app_r_alt, Nat.sub_diag by lia.
Qed.

Lemma close_new {E : Type} (self : Inner) (p : Process) :
  close (E := E) (length (clients p)) (with_new self p) = (Return tt, with_shut self (now (net p)) p).
Proof.
  rewrite (close_idle _ (new_client self (now (net p)))) by (try split; done || apply new_is_there).
  f_equal. by rewrite (set_at_last (new_client self (now (net p)))).
Qed.

Lemma dropped {E A : Type} (i : nat) (body : prog E A) (outcome : Exit E A) (p p1 p2 : Process) :
  body p = (outcome, p1) -> close (E := E) i p1 = (Return tt, p2) -> dropping i body p = (outcome, p2).
Proof. unfold dropping. intros -> Hclose. by rewrite Hclose. Qed.

Lemma dropped_open {E A : Type} (self : Inner) (t : Z) (l : list IncidentClient) (body : prog E A) (outcome : Exit E A)
    (p p1 : Process) :
  body p = (outcome, p1) -> clients p1 = l ++ [new_client self t] ->
  dropping (length l) body p = (outcome, set_clients (l ++ [shut_client (new_client self t)]) p1).
Proof.
  intros Hbody Hl. eapply dropped; [exact Hbody|].
  rewrite (close_idle _ (new_client self t)) by (try split; done || (rewrite Hl; by apply list_lookup_middle)).
  f_equal. by apply (set_at_last (new_client self t)).
Qed.

Lemma dropped_closed {E A : Type} (c : IncidentClient) (i : nat) (body : prog E A) (outcome : Exit E A) (p p1 : Process) :
  body p = (outcome, p1) -> clients p1 !! i = Some c -> closed c = true -> dropping i body p = (outcome, p1).
Proof. intros Hbody Hi Hc. eapply dropped; [exact Hbody|]. by eapply close_again. Qed.

End Process.

(** Builds a request from literals, with the clock [Hq]. *)
Ltac builds_request Hq :=
  apply request_built; unfold Request.build; rewrite Hq; vm_compute; reflexivity.

Arguments Process : clear implicits.
Arguments prog : clear implicits.

Declare Scope prog_scope.
Delimit Scope prog_scope with prog.
Open Scope prog_scope.
Notation "x <~ m ;; k" := (bind m (fun x => k)) (at level 100, m at next level, right associativity) : prog_scope.
Notation "m ;;; k" := (bind m (fun _ => k)) (at level 100, right associativity) : prog_scope.

(** ** The smoke program *)

Module Smoke.
Section Smoke.
Context {W : Type} `{SerdeJson} `{!Ureq W} `{!Waiter W} (system_time : W -> Z).
(** The derived [Debug]. *)
Context (debug_error : IncidentError -> str) (debug_result : Result IncidentResponse IncidentError -> str).

Definition is_delivery (e : IncidentError) : bool := match e with Delivery _ _ _ _ => true | _ => false end.
Definition is_invalid (e : IncidentError) : bool := match e with InvalidRequest _ => true | _ => false end.

Definition building (what : str) (failure : IncidentError) : str :=
  lit "building the " ++ what ++ lit ": " ++ fmt_error failure.

Definition check_real_transport_failure : prog W str unit :=
  set_var endpoint_var (lit "http://127.0.0.1:1") ;;;
  client <~ build_client (IncidentClientBuilder.builder
              |> IncidentClientBuilder.set_api_key (lit "wrong-api-key")
              |> IncidentClientBuilder.set_service_key (lit "wrong-service-key")) ;;
  client <~ try_map (building (lit "client")) client ;;
  dropping client (
  request <~ build_request system_time (IncidentRequestBuilder.builder
              |> IncidentRequestBuilder.set_title (lit "valid title")
              |> IncidentRequestBuilder.set_source (lit "github-actions")
              |> IncidentRequestBuilder.set_severity Medium) ;;
  request <~ try_map (building (lit "request")) request ;;
  result <~ call_post false client request ;;
  failure <~ expect_err (lit "a refused connection must fail") result ;;
  (if negb (is_delivery failure)
   then fail (lit "a refused connection must be a Delivery error: " ++ debug_error failure) else ret tt) ;;;
  (if negb (is_none (status_code failure))
   then fail (lit "a refused connection must carry no HTTP status") else ret tt) ;;;
  (if negb (contains (lit "attempts") (fmt_error failure))
   then fail (lit "an exhausted network failure must report its attempts: " ++ fmt_error failure) else ret tt) ;;;
  remove_var endpoint_var).

Definition check_validation : prog W str unit :=
  result <~ build_request system_time (IncidentRequestBuilder.builder
              |> IncidentRequestBuilder.set_title []
              |> IncidentRequestBuilder.set_source (lit "github-actions")
              |> IncidentRequestBuilder.set_severity Medium) ;;
  failure <~ expect_err (lit "a blank title must be rejected") result ;;
  (if negb (is_invalid failure)
   then fail (lit "a blank title must be an InvalidRequest: " ++ debug_error failure) else ret tt) ;;;
  client <~ build_client (IncidentClientBuilder.builder
              |> IncidentClientBuilder.set_api_key (lit "external-consumer-api-key")
              |> IncidentClientBuilder.set_service_key (lit "external-consumer-service-key")) ;;
  client <~ try_map (building (lit "client")) client ;;
  dropping client (
  request <~ build_request system_time (IncidentRequestBuilder.builder
              |> IncidentRequestBuilder.set_title (lit "Closed client test")
              |> IncidentRequestBuilder.set_source (lit "github-actions")
              |> IncidentRequestBuilder.set_severity Low) ;;
  request <~ try_map (building (lit "request")) request ;;
  close client ;;;
  result <~ call_post false client request ;;
  match result with
  | Err ClientClosed => ret tt
  | other => fail (lit "a post after close must report a closed client: " ++ debug_result other)
  end).

Definition check_service_routing : prog W str unit :=
  client <~ build_client (IncidentClientBuilder.builder
              |> IncidentClientBuilder.set_api_key (lit "external-consumer-api-key")) ;;
  client <~ try_map (building (lit "client")) client ;;
  dropping client (
  keyed <~ build_request system_time (IncidentRequestBuilder.builder
              |> IncidentRequestBuilder.set_title (lit "Service routing test")
              |> IncidentRequestBuilder.set_source (lit "github-actions")
              |> IncidentRequestBuilder.set_severity Low
              |> IncidentRequestBuilder.set_service_key (lit "external-consumer-service-key")) ;;
  keyed <~ try_map (building (lit "request")) keyed ;;
  result <~ call_post true client keyed ;;
  match result with
  | Err (InvalidRequest _) => ret tt
  | other => fail (lit "service routing must refuse a request service key: " ++ debug_result other)
  end).

Definition run : prog W str unit :=
  (if negb (bool_decide (DEFAULT_ENDPOINT = lit "https://api.oppex.ai/api/v1/incident/post"))
   then fail (lit "unexpected endpoint " ++ DEFAULT_ENDPOINT) else ret tt) ;;;
  (if negb (value Medium =? 3)%Z then fail (lit "unexpected severity mapping") else ret tt) ;;;
  check_real_transport_failure ;;;
  check_validation ;;;
  check_service_routing.

(** What [main] leaves: the exit code, and the lines on the two streams; [None] is a
    panic. *)
Definition main (p : Process W) : option (bool * list str * list str) :=
  match run p with
  | (Return _, p) => Some (true, stdout p ++ [lit "EXTERNAL_CONSUMER_OK rust sdk=" ++ VERSION], [])
  | (Fail_with failure, p) => Some (false, stdout p, [failure])
  | (Panic _, _) => None
  end.

(** ** The two checks that send nothing *)

(** The request the three checks build: title, source, severity and perhaps a key. *)
Definition stamped (key : option str) (title : str) (severity : Severity) (at_ms : positive) : IncidentRequest :=
  {| Request.service_key := key; Request.title := title; Request.source := lit "github-actions";
     Request.severity := severity; priority := 1; src_timestamp := Zpos at_ms; component := None; group := None;
     incident_type := None; details := None |}.

(** The client of the first check, and those of the other two in an environment. *)
Definition wrong_inner : Inner :=
  mkInner (Some (lit "wrong-service-key")) (with_endpoint (lit "wrong-api-key") (lit "http://127.0.0.1:1")) DEFAULT_RETRY_DELAYS.
Definition external_inner (key : option str) (env : option str) : Inner :=
  mkInner key (Transport_new env (lit "external-consumer-api-key")) DEFAULT_RETRY_DELAYS.

(** A system clock after 1970 and before the year 292278994. *)
Definition sane (t : Z) : Prop := (1000000 <= t < 2 ^ 63 * 1000000)%Z.

Lemma check_validation_passes (p : Process W) :
  sane (system_time (net p)) ->
  exists self, check_validation p = (Return tt, with_shut self (now (net p)) p).
Proof.
  intros [q Hq]%clock_millis. unfold check_validation.
  rewrite (bind_return _ _ _ p (Err (invalid (lit "title must not be blank")))) by (by apply request_built).
  rewrite (bind_return _ _ _ p (invalid (lit "title must not be blank"))) by reflexivity.
  rewrite (bind_return _ _ _ p tt) by reflexivity.
  set (self := external_inner (Some (lit "external-consumer-service-key")) (assoc endpoint_var (vars p))).
  exists self. set (p1 := with_new self p). set (p2 := with_shut self (now (net p)) p).
  rewrite (bind_return _ _ _ p1 (Ok (length (clients p)))) by (by apply client_built).
  rewrite (bind_return _ _ _ p1 (length (clients p))) by reflexivity.
  assert (Hi : clients p2 !! length (clients p) = Some (shut_client (new_client self (now (net p))))) by apply shut_is_there.
  eapply dropped_closed; [|exact Hi|done].
  rewrite (bind_return _ _ _ p1 (Ok (stamped None (lit "Closed client test") Low q)))
    by (builds_request (Hq : now_millis (system_time (net p1)) = _)).
  rewrite (bind_return _ _ _ p1 (stamped None (lit "Closed client test") Low q)) by reflexivity.
  rewrite (bind_return _ _ _ p2 tt) by apply close_new.
  rewrite (bind_return _ _ _ p2 (Err ClientClosed)); [done|].
  by rewrite (post_called _ _ _ _ (Err ClientClosed) p2 (net p2) Hi) by (by rewrite post_mode_cases).
Qed.

Lemma check_routing_passes (p : Process W) :
  sane (system_time (net p)) ->
  exists self, check_service_routing p = (Return tt, with_shut self (now (net p)) p).
Proof.
  intros [q Hq]%clock_millis. unfold check_service_routing.
  set (self := external_inner None (assoc endpoint_var (vars p))).
  set (r := stamped (Some (lit "external-consumer-service-key")) (lit "Service routing test") Low q).
  exists self. set (p1 := with_new self p).
  rewrite (bind_return _ _ _ p1 (Ok (length (clients p)))) by (by apply client_built).
  rewrite (bind_return _ _ _ p1 (length (clients p))) by reflexivity.
  apply (dropped_open self (now (net p)) (clients p) _ (Return tt) p1 p1); [|reflexivity].
  rewrite (bind_return _ _ _ p1 (Ok r)) by (builds_request (Hq : now_millis (system_time (net p1)) = _)).
  rewrite (bind_return _ _ _ p1 r) by reflexivity.
  rewrite (bind_return _ _ _ p1 (Err (invalid (misuse_text true)))); [done|].
  by rewrite (post_called _ _ _ _ (Err (invalid (misuse_text true))) p1 (net p1) (new_is_there self p))
    by (by rewrite post_mode_cases).
Qed.
End Smoke.

(** ** The smoke program passes *)

Section Passes.
Context {W : Type} `{SerdeJson} `{!Ureq W} `{!Waiter W} {wlaws : WaiterLaws W} (system_time : W -> Z).
Context (debug_error : IncidentError -> str) (debug_result : Result IncidentResponse IncidentError -> str).

(** Nobody listens on port 1 of the loopback interface, now or later; no interrupt is
    signalled; the system clock is set, and no clock goes back. *)
Record refusing_world (refusing : W -> Prop) : Prop := {
  refuses : forall cfg req w, refusing w -> url req = lit "http://127.0.0.1:1" ->
    exists cause w', http_send cfg req w = (Err cause, w') /\ refusing w' /\ (now w <= now w')%Z;
  stays : forall d w, refusing w -> refusing (wait d w).2;
  unsignalled : forall w, refusing w -> signal_at w = None;
  sane_clock : forall w, refusing w -> sane (system_time w);
}.
Context (refusing : W -> Prop) {Hworld : refusing_world refusing}.

(** The same network, with a record of the requests. *)
#[local] Notation Recorded := (W * list HttpRequest)%type.
Definition clock_of (w : Recorded) : Z := system_time w.1.

Definition refused (cause : ureq_error) : IncidentError :=
  delivery_caused_by (lit "incident delivery failed before a response was received") NO_STATUS_CODE true (BoxUreq cause).

Lemma refused_send (t : Transport) (body : str) (w : W) (l : list HttpRequest) :
  refusing w -> endpoint t = lit "http://127.0.0.1:1" ->
  exists cause w', send t body (w, l) = (Err (refused cause), (w', l ++ [request_for t body])) /\
    refusing w' /\ (now w <= now w')%Z.
Proof.
  intros Hw Hurl. destruct (refuses _ Hworld (agent t) (request_for t body) w Hw Hurl) as (cause & w' & Hs & Hw').
  exists cause, w'. split; [|done]. unfold send. simpl. by rewrite Hs.
Qed.

(** The loop runs through what is left of the schedule, and waits out its delays. *)
Lemma refused_loop (delays : list Z) (t : Transport) (body : str) (k left : nat) (w : W) (l : list HttpRequest) :
  endpoint t = lit "http://127.0.0.1:1" -> Forall (fun d => 0 <= d)%Z delays ->
  length delays = k + left -> refusing w ->
  exists cause w', retry_loop delays (send t body) k (w, l) =
    (Err (with_attempt_count (refused cause) (length delays + 1)), (w', l ++ replicate (S left) (request_for t body))) /\
    refusing w' /\ (now w + foldr Z.add 0 (drop k delays) <= now w')%Z.
Proof.
  intros Hurl Hds. revert k w l. induction left as [|left IH]; intros k w l Hlen Hw;
    destruct (refused_send t body w l Hw Hurl) as (cause & w1 & Hs & Hw1 & Hle); rewrite retry_loop_step, Hs; simpl.
  - destruct (Nat.leb_spec (length delays) k); [|lia]. exists cause, w1.
    split; [by replace k with (length delays) by lia|]. split; [done|]. rewrite drop_ge by lia. simpl. lia.
  - destruct (Nat.leb_spec (length delays) k); [lia|].
    assert (Hd : (0 <= nth k delays 0)%Z) by (apply nth_nonneg; done).
    destruct (lookup_lt_is_Some_2 delays k ltac:(lia)) as [d Hk]. rewrite (drop_S _ _ _ Hk). simpl.
    rewrite (nth_lookup_Some _ _ _ _ Hk) in *.
    pose proof (wait_ok d w1 Hd) as [_ Hres]. pose proof (stays _ Hworld d w1 Hw1) as Hw2.
    destruct (wait d w1) as [[] w2]; simpl in *.
    + rewrite (unsignalled _ Hworld _ Hw1) in Hres. by destruct Hres as (? & ? & _).
    + destruct (IH (S k) w2 (l ++ [request_for t body])) as (cause' & w' & Hloop & Hw' & Hle'); [lia|done|].
      exists cause', w'. split; [|split; [done|lia]]. rewrite (Nat.add_1_r k), Hloop, <-app_assoc. reflexivity.
Qed.

Lemma refused_post (self : Inner) (r : IncidentRequest) (w : W) (l : list HttpRequest) :
  endpoint (transport self) = lit "http://127.0.0.1:1" -> retry_delays self = DEFAULT_RETRY_DELAYS ->
  misused false self r = false -> refusing w ->
  exists cause w', post_mode false false self r (w, l) =
    (Err (with_attempt_count (refused cause) 6), (w', l ++ replicate 6 (post_request self r (service_key self)))) /\
    refusing w' /\ (now w + from_millis 15500 <= now w')%Z.
Proof.
  intros Hurl Hds Hm Hw. rewrite post_mode_cases, Hm. unfold deliver, execute_with_retry. rewrite Hds.
  apply (refused_loop DEFAULT_RETRY_DELAYS _ _ 0 5); [done| |done|done].
  repeat constructor; unfold from_millis; lia.
Qed.

(** What the first check posts, at a time of the system clock. *)
Definition smoke_request (at_ms : positive) : HttpRequest :=
  post_request wrong_inner (stamped None (lit "valid title") Medium at_ms) (Some (lit "wrong-service-key")).

Lemma check_real_passes (p : Process Recorded) :
  refusing (net p).1 ->
  exists at_ms p', check_real_transport_failure clock_of debug_error p = (Return tt, p') /\
    refusing (net p').1 /\ (net p').2 = (net p).2 ++ replicate 6 (smoke_request at_ms) /\
    (now (net p).1 + from_millis 15500 <= now (net p').1)%Z /\ stdout p' = stdout p /\
    assoc endpoint_var (vars p') = None /\
    exists c, clients p' = clients p ++ [c] /\ closed c = true.
Proof.
  intros Hw. destruct (clock_millis _ (sane_clock _ Hworld _ Hw)) as [q Hq]. exists q. unfold check_real_transport_failure.
  set (p0 := set_vars ((endpoint_var, lit "http://127.0.0.1:1") :: filter (fun kv => kv.1 <> endpoint_var) (vars p)) p).
  set (i := length (clients p)). set (p1 := with_new wrong_inner p0).
  rewrite (bind_return _ _ _ p0 tt) by reflexivity.
  rewrite (bind_return _ _ _ p1 (Ok i)) by (apply (client_built _ wrong_inner); vm_compute; reflexivity).
  rewrite (bind_return _ _ _ p1 i) by reflexivity.
  set (r := stamped None (lit "valid title") Medium q).
  destruct (refused_post wrong_inner r (net p).1 (net p).2) as (cause & w' & Hpost & Hw' & Hle);
    [reflexivity|reflexivity|reflexivity|done|].
  set (failure := with_attempt_count (refused cause) 6) in *.
  set (p2 := set_net (w', (net p).2 ++ replicate 6 (smoke_request q)) p1).
  set (p3 := set_vars (filter (fun kv => kv.1 <> endpoint_var) (vars p2)) p2).
  exists (set_clients (clients p ++ [shut_client (new_client wrong_inner (now (net p)))]) p3). split.
  2:{ split; [exact Hw'|]. split; [reflexivity|]. split; [exact Hle|]. split; [reflexivity|].
      split; [apply assoc_filter|]. by eexists. }
  apply (dropped_open wrong_inner (now (net p)) (clients p)); [|reflexivity].
  rewrite (bind_return _ _ _ p1 (Ok r)) by (builds_request (Hq : now_millis (clock_of (net p1)) = _)).
  rewrite (bind_return _ _ _ p1 r) by reflexivity.
  rewrite (bind_return _ _ _ p2 (Err failure)).
  2:{ rewrite (post_called _ _ _ _ (Err failure) p1 (net p2) (new_is_there wrong_inner p0)); [reflexivity|].
      simpl. destruct (net p) as [w l]. exact Hpost. }
  rewrite (bind_return _ _ _ p2 failure) by reflexivity.
  rewrite (bind_return _ _ _ p2 tt) by reflexivity.
  rewrite (bind_return _ _ _ p2 tt) by reflexivity.
  assert (Hcount : contains (lit "attempts") (fmt_error failure) = true) by (vm_compute; reflexivity).
  rewrite Hcount. by rewrite (bind_return _ _ _ p2 tt) by reflexivity.
Qed.

(** C40: The smoke program passes where nobody listens. In any environment, on a network
    that refuses connections to port 1 of the loopback interface, with a clock that
    is set, it returns, prints the sentinel with the version of the crate and exits
    successfully. On the way it goes through the whole retry schedule: exactly six
    requests are sent in all, each the POST of its first incident, under its wrong keys,
    to that port, and at least the 15.5 seconds of the schedule pass; so the blank
    title, the post after [close] and the keyed request with service routing send
    nothing, whatever any other address would have answered. Every client it has made
    is closed when its scope ends, and the variable it sets is unset. *)
Theorem smoke_passes (p : Process Recorded) :
  refusing (net p).1 -> (net p).2 = [] -> clients p = [] ->
  main clock_of debug_error debug_result p =
    Some (true, stdout p ++ [lit "EXTERNAL_CONSUMER_OK rust sdk=1.0.0"], []) /\
  exists p' at_ms,
    run clock_of debug_error debug_result p = (Return tt, p') /\
    (net p').2 = replicate 6 (smoke_request at_ms) /\ url (smoke_request at_ms) = lit "http://127.0.0.1:1" /\
    (now (net p).1 + from_millis 15500 <= now (net p').1)%Z /\
    length (clients p') = 3 /\ Forall (fun c => closed c = true) (clients p') /\
    assoc endpoint_var (vars p') = None.
Proof.
  intros Hw Hnone Hclients. destruct (check_real_passes p Hw) as (q & p1 & Hreal & Hw1 & Hsent & Hle & Hout & Henv & c1 & Hc1 & Hclosed).
  pose proof (sane_clock _ Hworld _ Hw1 : sane (clock_of (net p1))) as Hsane.
  destruct (check_validation_passes clock_of debug_error debug_result p1 Hsane) as (self2 & Hvalid).
  set (p2 := with_shut self2 (now (net p1)) p1) in *.
  destruct (check_routing_passes clock_of debug_result p2 Hsane) as (self3 & Hrouting).
  set (p3 := with_shut self3 (now (net p2)) p2) in *.
  assert (Hrun : run clock_of debug_error debug_result p = (Return tt, p3)).
  { unfold run. rewrite (bind_return _ _ _ p tt) by reflexivity. rewrite (bind_return _ _ _ p tt) by reflexivity.
    by rewrite (bind_return _ _ _ p1 tt), (bind_return _ _ _ p2 tt). }
  split; [unfold main; rewrite Hrun; simpl; by rewrite Hout|].
  exists p3, q. split; [done|]. rewrite Hnone in Hsent. rewrite Hclients in Hc1. simpl. rewrite Hc1.
  split_and!; [done|done|done|done|by repeat constructor|done].
Qed.
End Passes.
End Smoke.

(** ** The example program *)

Module Plain.
Section Plain.
Context {W : Type} `{SerdeJson} `{!Ureq W} `{!Waiter W} (system_time : W -> Z).
(** The [Debug] of an [Option<&str>]. *)
Context (debug_option : option str -> str).

(** A [Box<dyn Error>] of the program: a variable that is not set, or an error of the
    SDK. *)
Inductive error : Type :=
| NotPresent
| Incident (e : IncidentError).

Definition try_var (k : str) : prog W error str :=
  v <~ var k ;; match v with Some v => ret v | None => fail NotPresent end.

Definition incident_builder : IncidentRequestBuilder.t :=
  IncidentRequestBuilder.builder
    |> IncidentRequestBuilder.set_title (lit "Checkout latency breached the SLO")
    |> IncidentRequestBuilder.set_source (lit "checkout-api")
    |> IncidentRequestBuilder.set_severity High
    |> IncidentRequestBuilder.set_priority 2
    |> IncidentRequestBuilder.set_component (lit "payments")
    |> IncidentRequestBuilder.set_group (lit "platform")
    |> IncidentRequestBuilder.set_incident_type (lit "latency")
    |> IncidentRequestBuilder.set_details
         (lit "{" ++ [dquote] ++ lit "p99Millis" ++ [dquote] ++ lit ":1200," ++
          [dquote] ++ lit "threshold" ++ [dquote] ++ lit ":800}").

Definition queued_builder : IncidentRequestBuilder.t :=
  IncidentRequestBuilder.builder
    |> IncidentRequestBuilder.set_title (lit "Background job queue is backing up")
    |> IncidentRequestBuilder.set_source (lit "worker")
    |> IncidentRequestBuilder.set_severity Low.

Definition created_line (response : IncidentResponse) : str :=
  lit "incident " ++ debug_option (IncidentResponse.incident_id response) ++ lit " created (code " ++ display_Z (IncidentResponse.code response) ++ lit ")".

Definition main : prog W error unit :=
  api_key <~ try_var (lit "OPPEX_API_KEY") ;;
  service_key <~ try_var (lit "OPPEX_SERVICE_KEY") ;;
  client <~ build_client (IncidentClientBuilder.builder
              |> IncidentClientBuilder.set_api_key api_key
              |> IncidentClientBuilder.set_service_key service_key) ;;
  client <~ try_map Incident client ;;
  dropping client (
  request <~ build_request system_time incident_builder ;;
  request <~ try_map Incident request ;;
  response <~ call_post false client request ;;
  response <~ try_map Incident response ;;
  println (created_line response) ;;;
  queued <~ build_request system_time queued_builder ;;
  queued <~ try_map Incident queued ;;
  submitted <~ call_post_async client queued ;;
  try_map Incident submitted ;;;
  close client).

(** ** What it does *)

(** The incident that is posted, and the one that is queued, at a time of the clock. *)
Definition incident (at_ms : Z) : IncidentRequest :=
  {| Request.service_key := None; Request.title := lit "Checkout latency breached the SLO";
     Request.source := lit "checkout-api"; Request.severity := High; priority := 2; src_timestamp := at_ms;
     component := Some (lit "payments"); group := Some (lit "platform"); incident_type := Some (lit "latency");
     details := IncidentRequestBuilder.details incident_builder |}.
Definition queued (at_ms : Z) : IncidentRequest :=
  {| Request.service_key := None; Request.title := lit "Background job queue is backing up";
     Request.source := lit "worker"; Request.severity := Low; priority := 1; src_timestamp := at_ms;
     component := None; group := None; incident_type := None; details := None |}.

(** The client it builds. *)
Definition client_of (p : Process W) (api_key key : str) : Inner :=
  mkInner (Some key) (Transport_new (assoc endpoint_var (vars p)) api_key) DEFAULT_RETRY_DELAYS.

(** The second half: the incident is queued, and [close] has a worker deliver it in one
    attempt before the dispatcher is shut. *)
Lemma queued_is_delivered (self : Inner) (key : str) (r : IncidentRequest) (t : Z) (l : list IncidentClient) (p : Process W) :
  service_key self = Some key -> clients p = l ++ [new_client self t] ->
  bind (call_post_async (length l) r) (fun submitted => bind (try_map Incident submitted) (fun _ => close (length l))) p =
  (Return tt, set_clients (l ++ [shut_client (new_client self t)])
                (set_net (run_task (Waiter0 := signalled_waiter) self (mkTask r (Some key)) (net p)).2 p)).
Proof.
  intros Hkey Hl. set (c := new_client self t). set (task := mkTask r (Some key)).
  set (c1 := mkClientHandle self false Interrupt.new (with_state (queue c) (mkState [task] true true 0))).
  assert (Hlast : length l < length (clients p)) by (rewrite Hl, length_app; simpl; lia).
  assert (Hi : clients p !! length l = Some c) by (rewrite Hl; by apply list_lookup_middle).
  rewrite (bind_return _ _ _ (set_at (length l) c1 (net p) p) (Ok tt)).
  2:{ unfold call_post_async. rewrite (with_client_run _ _ c) by done. unfold post_async, require_service_key. simpl.
      rewrite Hkey. simpl. unfold submit_section. simpl.
      by rewrite (bind_return _ _ _ (set_at (length l) c1 (net p) p) tt) by (by rewrite (set_queue_run _ _ c)). }
  rewrite (bind_return _ _ _ (set_at (length l) c1 (net p) p) tt) by reflexivity.
  rewrite (close_begins_drain _ c1 [task]) by (by split || by apply set_at_there).
  change (draining_client c1 [task]) with (draining_client c [task]).
  rewrite set_at_twice. change (now (net (set_at (length l) c1 (net p) p))) with (now (net p)).
  destruct (run_task (Waiter0 := signalled_waiter) self task (net p)) as [line w] eqn:Ht.
  rewrite (drain_delivers _ _ _ _ c _ w line); [|done| |exact Ht].
  2:{ unfold checked_duration_since. rewrite (proj2 (Z.leb_le _ _)); [by eexists|]. unfold CLOSE_DRAIN_TIMEOUT, from_secs. cbn [net set_at set_clients set_net]. lia. }
  rewrite drain_gives_up by auto. unfold set_at. rewrite Hl, insert_app_r_alt, Nat.sub_diag by lia. reflexivity.
Qed.

(** What the example does. Given its two variables, with keys that are not blank, and a
    clock that is set when it reads it, it posts the first incident under the
    configured key; if that fails, it returns the failure and queues nothing. Else it
    prints the line of the response, queues the second incident, and [close] delivers
    it, in one attempt as the interrupt is signalled. Either way its client is closed. *)
Lemma plain_posts (p : Process W) (api_key key : str) :
  assoc (lit "OPPEX_API_KEY") (vars p) = Some api_key -> assoc (lit "OPPEX_SERVICE_KEY") (vars p) = Some key ->
  is_blank api_key = false -> is_blank key = false ->
  let self := client_of p api_key key in
  let left := clients p ++ [shut_client (new_client self (now (net p)))] in
  let first := now_millis (system_time (net p)) in
  let '(result, w) := deliver self (incident first) (Some key) (net p) in
  let second := now_millis (system_time w) in
  (0 < first)%Z -> (0 < second)%Z ->
  main p =
  match result with
  | Err failure => (Fail_with (Incident failure), mkProcess (vars p) w (stdout p) left)
  | Ok response =>
      (Return tt,
       mkProcess (vars p) (run_task (Waiter0 := signalled_waiter) self (mkTask (queued second) (Some key)) w).2
         (stdout p ++ [created_line response]) left)
  end.
Proof.
  intros Hapi Hkey Hb1 Hb2. simpl. destruct (deliver _ _ _ _) as [result w] eqn:Hd. intros Hfirst Hsecond.
  set (self := client_of p api_key key) in *. set (i := length (clients p)).
  destruct (now_millis (system_time (net p))) as [|q1|] eqn:Hq1; [lia| |lia].
  destruct (now_millis (system_time w)) as [|q2|] eqn:Hq2; [lia| |lia].
  unfold main. set (p1 := with_new self p).
  rewrite (bind_return _ _ p p api_key) by (unfold try_var, var, bind; by rewrite Hapi).
  rewrite (bind_return _ _ p p key) by (unfold try_var, var, bind; by rewrite Hkey).
  assert (Hbuild : Client.build (assoc endpoint_var (vars p))
            (IncidentClientBuilder.builder |> IncidentClientBuilder.set_api_key api_key
               |> IncidentClientBuilder.set_service_key key) = Ok self)
    by (unfold Client.build; simpl; rewrite Hb1; simpl; by rewrite Hb2).
  rewrite (bind_return _ _ p p1 (Ok i)) by (by apply client_built).
  rewrite (bind_return _ _ p1 p1 i) by reflexivity.
  set (p2 := set_net w p1).
  assert (Hpost : call_post (E := error) false i (incident (Zpos q1)) p1 = (Return result, p2)).
  { rewrite (post_called _ _ _ _ result p1 w (new_is_there self p)); [done|]. by rewrite post_mode_cases. }
  destruct result as [response|failure].
  - eapply (dropped_closed (shut_client (new_client self (now (net p))))); [|apply (shut_is_there self (now (net p)) p)|done].
    rewrite (bind_return _ _ _ p1 (Ok (incident (Zpos q1)))) by (builds_request (Hq1 : now_millis (system_time (net p1)) = _)).
    rewrite (bind_return _ _ _ p1 (incident (Zpos q1))) by reflexivity.
    rewrite (bind_return _ _ _ p2 (Ok response)) by done.
    rewrite (bind_return _ _ _ p2 response) by reflexivity.
    set (p3 := mkProcess (vars p) w (stdout p ++ [created_line response]) (clients p1)).
    rewrite (bind_return _ _ p2 p3 tt) by reflexivity.
    rewrite (bind_return _ _ p3 p3 (Ok (queued (Zpos q2)))) by (builds_request (Hq2 : now_millis (system_time (net p3)) = _)).
    rewrite (bind_return _ _ p3 p3 (queued (Zpos q2))) by reflexivity.
    by rewrite (queued_is_delivered self key _ (now (net p)) (clients p) p3).
  - apply (dropped_open self (now (net p)) (clients p) _ _ p1 p2); [|reflexivity].
    rewrite (bind_return _ _ _ p1 (Ok (incident (Zpos q1)))) by (builds_request (Hq1 : now_millis (system_time (net p1)) = _)).
    rewrite (bind_return _ _ _ p1 (incident (Zpos q1))) by reflexivity.
    by rewrite (bind_return _ _ _ p2 (Err failure)) by done.
Qed.
End Plain.
End Plain.

(** ** Witnesses: on the loopback network *)

(** Nobody listens, and nobody signals. *)
Definition silent (w : Net) : Prop := script (line w) = [] /\ signal_at w = None.
Definition some_time (_ : Net) : Z := 1700000000000000000.

Lemma silent_refuses : Smoke.refusing_world some_time silent.
Proof.
  split.
  - intros cfg req w [Hs Hn] _. simpl. unfold stub_send. rewrite Hs. do 2 eexists. split; [done|]. split; [by split|].
    simpl. unfold from_millis. lia.
  - intros d w [Hs Hn]. simpl in *. unfold timeline_wait. by rewrite Hn.
  - by intros w [_ Hn].
  - intros w _. unfold Smoke.sane, some_time. lia.
Qed.

Definition vars0 : list (str * str) :=
  [(lit "OPPEX_API_KEY", lit "api-key"); (lit "OPPEX_SERVICE_KEY", lit "service-key")].

Definition process0 : Process (Net * list HttpRequest) := mkProcess vars0 (network None [], []) [] [].

Lemma smoke_passes_witness :
  Smoke.main (Smoke.clock_of some_time) fmt_error (fun _ => []) process0 =
    Some (true, [lit "EXTERNAL_CONSUMER_OK rust sdk=1.0.0"], []) /\
  exists p', Smoke.run (Smoke.clock_of some_time) fmt_error (fun _ => []) process0 = (Return tt, p') /\
    length (net p').2 = 6 /\ (from_millis 15500 <= now (net p').1)%Z.
Proof.
  destruct (Smoke.smoke_passes some_time fmt_error (fun _ => []) silent (Hworld := silent_refuses) process0)
    as [Hmain (p' & at_ms & Hrun & Hsent & _ & Hle & _)]; [by split|reflexivity|reflexivity|].
  split; [exact Hmain|]. exists p'. split; [exact Hrun|]. split; [rewrite Hsent; reflexivity|exact Hle].
Defined.

(** The API creates the incident. *)
Definition process1 : Process Net := mkProcess vars0 (network None [Reply 201 (Some [])]) [] [].

(** The second incident meets a refused connection: it is sent once, and lost. *)
Lemma plain_posts_witness :
  exists p, Plain.main some_time (fun _ => lit "None") process1 = (Return tt, p) /\
    stdout p = [lit "incident None created (code 201)"] /\ length (sent (net p)) = 2 /\
    Forall (fun c => closed c = true) (clients p).
Proof.
  pose proof (Plain.plain_posts some_time (fun _ => lit "None") process1 (lit "api-key") (lit "service-key")
    ltac:(reflexivity) ltac:(reflexivity) ltac:(reflexivity) ltac:(reflexivity)) as Hmain.
  cbv zeta in Hmain. destruct (deliver _ _ _ _) as [[response|failure] w] eqn:Hd.
  - eexists. split; [apply Hmain; vm_compute; reflexivity|].
    vm_compute in Hd. injection Hd as <- <-. split; [vm_compute; reflexivity|]. split; [vm_compute; reflexivity|by repeat constructor].
  - exfalso. vm_compute in Hd. discriminate.
Defined.
