(* ===== verification/UnitTests.v ===== *)
(** * The unit tests of the sequential modules

    The tests the crate keeps beside severity.rs, drop_logger.rs, request.rs, wire.rs and
    retry.rs, each as the boolean of its assertions: a panic, of an assertion or of an
    [unwrap], is [false]. What a test takes from its surroundings (a clock, the
    interrupt) is an argument, and the theorem that the test passes says for which
    surroundings it does: the tests of the retry loop pass in every world that meets the
    contract of the interrupt, those of the wire format on the reference instance of
    serde_json. *)

From stdpp Require Import prelude list strings.
From S2P Require Import Prelude Error Severity Response Request Json JsonRef Wire Interrupt Retry DropLogger Programs.

(** ** Assertions *)

Definition assert_eq {A : Type} `{EqDecision A} (expected actual : A) : bool := bool_decide (expected = actual).

(** [result.unwrap()], [result.unwrap_err()] and what the test goes on with. *)
Definition unwrap {A E : Type} (r : Result A E) (k : A -> bool) : bool :=
  match r with Ok a => k a | Err _ => false end.
Definition unwrap_err {A E : Type} (r : Result A E) (k : E -> bool) : bool :=
  match r with Ok _ => false | Err e => k e end.

(** A raw literal of the source, with its quotes written as backquotes. *)
Definition raw (s : string) : str := (fun c => if (c =? 96)%N then dquote else c) <$> lit s.

(** [matches!(result, Err(IncidentError::InvalidRequest { .. }))] *)
Definition assert_invalid `{ErrorTypes} {A : Type} (r : Result A IncidentError) : bool :=
  match r with Err (InvalidRequest _) => true | _ => false end.

(** ** severity.rs *)

Module SeverityTests.
Section SeverityTests.
Context `{ErrorTypes}.

Definition wire_values_match_the_oppex_scale : bool :=
  assert_eq 1%Z (value Lowest) && assert_eq 2%Z (value Low) && assert_eq 3%Z (value Medium)
  && assert_eq 4%Z (value High) && assert_eq 5%Z (value Critical).

Definition from_value_round_trips_every_severity : bool :=
  forallb (fun severity => unwrap (from_value (value severity)) (assert_eq severity))
    [Lowest; Low; Medium; High; Critical].

Definition from_value_rejects_values_outside_the_scale : bool :=
  forallb (fun value => negb (is_ok (from_value value))) [0; 6; 255]%Z.

Definition display_uses_the_documented_names : bool :=
  assert_eq (lit "MEDIUM") (fmt_severity Medium).
End SeverityTests.

Lemma severity_tests_pass `{ErrorTypes} :
  wire_values_match_the_oppex_scale = true /\ from_value_round_trips_every_severity = true /\
  from_value_rejects_values_outside_the_scale = true /\ display_uses_the_documented_names = true.
Proof. by vm_compute. Qed.
End SeverityTests.

(** ** drop_logger.rs *)

Module DropLoggerTests.

(** The answers of consecutive calls of [record_drop], with their clock readings. *)
Fixpoint record_drops (rs : list readings) (logger : RateLimitedDropLogger) : list (option Z) :=
  match rs with
  | [] => []
  | (now, reset) :: rs =>
      let '(due, logger) := record_drop now reset logger in due :: record_drops rs logger
  end.

Definition holds_drops_back_until_the_interval_elapses (created : Z) (rs : list readings) : bool :=
  let logger := logger_new (from_secs 60) created in
  forallb (fun due => assert_eq None due) (record_drops rs logger).

Definition reports_the_accumulated_count_once_the_interval_elapses (created : Z) (r1 r2 : readings) : bool :=
  let logger := logger_new 0 created in
  assert_eq [Some 1%Z; Some 1%Z] (record_drops [r1; r2] logger).

(** No summary is due as long as the test takes less than a minute, however many
    drops there are. *)
Lemma holds_drops_back_passes (created : Z) (rs : list readings) :
  Forall (fun r => (r.1 < created + from_secs 60)%Z) rs ->
  holds_drops_back_until_the_interval_elapses created rs = true.
Proof.
  unfold holds_drops_back_until_the_interval_elapses, logger_new. generalize 0%Z.
  induction rs as [|[now reset] rs IH]; intros n Hrs; [done|].
  apply Forall_cons in Hrs as [Hnow Hrs]. cbn [fst] in Hnow.
  cbn [record_drops]. unfold record_drop. cbn [started_at interval dropped].
  unfold saturating_duration_since. rewrite (proj2 (Z.ltb_lt _ _)) by (unfold from_secs in *; lia).
  cbn [forallb]. by rewrite IH.
Qed.

Lemma reports_the_accumulated_count_passes (created : Z) (r1 r2 : readings) :
  reports_the_accumulated_count_once_the_interval_elapses created r1 r2 = true.
Proof.
  unfold reports_the_accumulated_count_once_the_interval_elapses. destruct r1 as [n1 s1], r2 as [n2 s2].
  cbn [record_drops]. unfold record_drop, logger_new. cbn [started_at interval dropped].
  unfold saturating_duration_since. rewrite (proj2 (Z.ltb_ge _ _)) by lia. cbn [started_at interval dropped].
  by rewrite (proj2 (Z.ltb_ge _ _)) by lia.
Qed.
End DropLoggerTests.

(** ** request.rs *)

Module RequestTests.
Import IncidentRequestBuilder.
Section RequestTests.
Context `{ErrorTypes} (now : Z).

Definition valid : IncidentRequestBuilder.t :=
  builder |> set_title (lit "title") |> set_source (lit "source") |> set_severity Medium.

Definition build_applies_the_documented_defaults : bool :=
  unwrap (Request.build now valid) (fun request =>
    assert_eq 1%Z (IncidentRequest.priority request) && (0 <? IncidentRequest.src_timestamp request)%Z
    && assert_eq None (IncidentRequest.component request)).

Definition build_keeps_explicit_values : bool :=
  unwrap (Request.build now (valid
      |> set_priority 4
      |> set_src_timestamp 1700000000000
      |> set_service_key (lit "request-service-key")
      |> set_component (lit "api")
      |> set_group (lit "payments")
      |> set_incident_type (lit "latency")
      |> set_details (raw "{`p99`:1200}"))) (fun request =>
    assert_eq 4%Z (IncidentRequest.priority request)
    && assert_eq 1700000000000%Z (IncidentRequest.src_timestamp request)
    && assert_eq (Some (lit "request-service-key")) (IncidentRequest.service_key request)
    && assert_eq (Some (lit "latency")) (IncidentRequest.incident_type request)).

Definition build_rejects_missing_or_blank_required_fields : bool :=
  assert_invalid (Request.build now (builder |> set_source (lit "source") |> set_severity Low))
  && assert_invalid (Request.build now (builder |> set_title (lit "title") |> set_severity Low))
  && assert_invalid (Request.build now (builder |> set_title (lit "title") |> set_source (lit "source")))
  && assert_invalid (Request.build now (valid |> set_title (lit "   ")))
  && assert_invalid (Request.build now (valid |> set_source [9%N])).

Definition build_enforces_the_source_length_cap : bool :=
  is_ok (Request.build now (valid |> set_source (replicate MAX_SOURCE_LENGTH 97%N)))
  && assert_invalid (Request.build now (valid |> set_source (replicate (MAX_SOURCE_LENGTH + 1) 97%N))).

Definition build_rejects_a_blank_optional_field : bool :=
  assert_invalid (Request.build now (valid |> set_component (lit "  ")))
  && assert_invalid (Request.build now (valid |> set_group []))
  && assert_invalid (Request.build now (valid |> set_service_key (lit " "))).

Definition build_rejects_out_of_range_numbers : bool :=
  assert_invalid (Request.build now (valid |> set_priority 0))
  && assert_invalid (Request.build now (valid |> set_priority 6))
  && assert_invalid (Request.build now (valid |> set_src_timestamp 0))
  && assert_invalid (Request.build now (valid |> set_src_timestamp (-1))).

(** They pass with any clock that is set: past the first millisecond of 1970 and
    before the year 292278994. *)
Lemma request_tests_pass :
  (1000000 <= now < 2 ^ 63 * 1000000)%Z ->
  build_applies_the_documented_defaults = true /\ build_keeps_explicit_values = true /\
  build_rejects_missing_or_blank_required_fields = true /\ build_enforces_the_source_length_cap = true /\
  build_rejects_a_blank_optional_field = true /\ build_rejects_out_of_range_numbers = true.
Proof.
  intros Hnow. destruct (clock_millis now Hnow) as [q Hq].
  split_and!;
    [unfold build_applies_the_documented_defaults | unfold build_keeps_explicit_values
    |unfold build_rejects_missing_or_blank_required_fields | unfold build_enforces_the_source_length_cap
    |unfold build_rejects_a_blank_optional_field | unfold build_rejects_out_of_range_numbers];
    unfold Request.build; rewrite ?Hq; by vm_compute.
Qed.
End RequestTests.
End RequestTests.

(** ** wire.rs *)

Module WireTests.
Import IncidentRequestBuilder.

(** The clock of the tests, which all set their timestamp. *)
Definition clock : Z := 1700000000000000000.

(** [request()], which unwraps. *)
Definition with_request (k : IncidentRequest -> bool) : bool :=
  unwrap (Request.build clock (builder
    |> set_title (lit "title")
    |> set_source (lit "source")
    |> set_severity High
    |> set_priority 2
    |> set_src_timestamp 1700000000000)) k.

Definition serialize_omits_absent_optional_fields : bool :=
  with_request (fun request =>
    assert_eq
      (raw "{`title`:`title`,`source`:`source`,`severity`:4,`priority`:2,`srcTimestamp`:1700000000000}")
      (serialize_request request None)).

Definition serialize_uses_the_agreed_field_names_and_order : bool :=
  unwrap (Request.build clock (builder
    |> set_title (lit "title")
    |> set_source (lit "source")
    |> set_severity Low
    |> set_src_timestamp 1
    |> set_component (lit "api")
    |> set_group (lit "payments")
    |> set_incident_type (lit "latency")
    |> set_details (raw "{`p99`:1200}"))) (fun request =>
    assert_eq
      (raw "{`serviceKey`:`resolved-service-key`,`title`:`title`,`source`:`source`,`severity`:2,"
       ++ raw "`priority`:1,`srcTimestamp`:1,`component`:`api`,`group`:`payments`,`type`:`latency`,"
       ++ raw "`detailsJSON`:`{\`p99\`:1200}`}")
      (serialize_request request (Some (lit "resolved-service-key")))).

Definition escaped_title : str := raw "a `quoted` " ++ [10]%N ++ lit " title".

Definition serialize_escapes_values : bool :=
  unwrap (Request.build clock (builder
    |> set_title escaped_title
    |> set_source (lit "source")
    |> set_severity Low
    |> set_src_timestamp 1)) (fun request =>
    let payload := serialize_request request None in
    contains (raw "`title`:`a \`quoted\` \n title`") payload
    && unwrap (from_str payload) (fun reparsed =>
         assert_eq (Some escaped_title)
           (as_object reparsed ≫= fun object => get object (lit "title") ≫= as_str))).

Definition parse_reads_the_envelope : bool :=
  unwrap (parse_response 200 (raw "{`success`:true,`code`:201,`message`:`created`,`data`:`INC-1`}")) (fun response =>
    is_successful response && assert_eq 201%Z (IncidentResponse.code response)
    && assert_eq (Some (lit "created")) (IncidentResponse.message response)
    && assert_eq (Some (lit "INC-1")) (IncidentResponse.incident_id response)).

Definition parse_falls_back_to_the_http_status : bool :=
  unwrap (parse_response 202 (lit "   ")) (fun response =>
    is_successful response && assert_eq 202%Z (IncidentResponse.code response) && assert_eq None (IncidentResponse.incident_id response)).

Definition parse_never_echoes_a_non_json_body : bool :=
  unwrap_err (parse_response 502 (lit "<html>X-API-KEY: super-secret</html>")) (fun failure =>
    attempted failure && negb (contains (lit "super-secret") (fmt_error failure))).

Lemma wire_tests_pass :
  serialize_omits_absent_optional_fields = true /\ serialize_uses_the_agreed_field_names_and_order = true /\
  serialize_escapes_values = true /\ parse_reads_the_envelope = true /\
  parse_falls_back_to_the_http_status = true /\ parse_never_echoes_a_non_json_body = true.
Proof. by vm_compute. Qed.
End WireTests.

(** ** retry.rs *)

Module RetryTests.

Definition FAST : list Z := replicate 5 (from_millis 1).

Definition the_retryable_status_list_is_explicit : bool :=
  forallb is_retryable_status [429; 500; 502; 503; 504]%Z
  && forallb (fun status => negb (is_retryable_status status)) [400; 401; 403; 404; 409; 422; 501; 505]%Z.

Definition the_schedule_doubles_from_half_a_second : bool :=
  assert_eq [from_millis 500; from_millis 1000; from_millis 2000; from_millis 4000; from_millis 8000]
    DEFAULT_RETRY_DELAYS.

Section RetryTests.
Context `{ErrorTypes} {W : Type} `{WaiterLaws W}.

(** The world of a test: its counter [attempts], a [Cell], beside the world in which
    the loop waits on the interrupt [w]. *)
Definition Counted : Type := nat * W.

#[local] Instance counted_waiter : Waiter Counted := {|
  now w := now w.2;
  signal_at w := signal_at w.2;
  wait d w := let '(b, w2) := wait d w.2 in (b, (w.1, w2));
|}.

(** A closure that counts its calls. *)
Definition counting {T : Type} (answer : nat -> Result T IncidentError) : Operation (W := Counted) (T := T) :=
  fun w => (answer (S w.1), (S w.1, w.2)).

Definition stops_at_the_first_success (w : W) : bool :=
  let '(result, (attempts, _)) := execute_with_retry FAST (counting (fun attempts =>
    if (attempts <? 3)%nat then Err (delivery (lit "503") 503 true) else Ok (lit "delivered"))) (0, w) in
  unwrap result (assert_eq (lit "delivered")) && assert_eq 3 attempts.

Definition does_not_retry_a_non_retryable_failure (w : W) : bool :=
  let '(result, (attempts, _)) := execute_with_retry (T := unit) FAST
    (counting (fun _ => Err (delivery (lit "401") 401 false))) (0, w) in
  negb (is_ok result) && assert_eq 1 attempts.

Definition exhausts_the_schedule_without_rewriting_an_http_failure (w : W) : bool :=
  let '(result, (attempts, _)) := execute_with_retry (T := unit) FAST
    (counting (fun _ => Err (delivery (lit "Oppex returned HTTP 503") 503 true))) (0, w) in
  unwrap_err result (fun failure =>
    assert_eq (length FAST + 1) attempts && assert_eq (lit "Oppex returned HTTP 503") (fmt_error failure)).

Definition annotates_only_a_failure_that_never_reached_a_status_line (w : W) : bool :=
  let '(result, _) := execute_with_retry (T := unit) FAST
    (counting (fun _ => Err (delivery (lit "connection refused") NO_STATUS_CODE true))) (0, w) in
  unwrap_err result (fun failure =>
    assert_eq (lit "connection refused (after 6 attempts)") (fmt_error failure)).

Definition a_signalled_interrupt_ends_the_backoff_immediately (w : W) : bool :=
  let '(result, _) := execute_with_retry (T := unit) DEFAULT_RETRY_DELAYS
    (counting (fun _ => Err (delivery (lit "503") 503 true))) (0, w) in
  unwrap_err result (fun failure => contains (lit "interrupted") (fmt_error failure)).

(** An interrupt nobody signals: every wait runs to its end. *)
Lemma unsignalled_wait (d : Z) (n : nat) (w : W) :
  signal_at w = None -> (0 <= d)%Z ->
  exists w', wait (W := Counted) d (n, w) = (false, (n, w')) /\ signal_at w' = None.
Proof.
  intros Hw Hd. pose proof (wait_ok d w Hd) as [_ Hres]. pose proof (wait_signal_at d w) as Hs.
  simpl. destruct (wait d w) as [[] w']; simpl in *.
  - rewrite Hw in Hres. by destruct Hres as (? & ? & _).
  - exists w'. by rewrite Hs.
Qed.

(** One turn of the loop after a failed attempt that may be retried. *)
Lemma fast_retry {T : Type} (answer : nat -> Result T IncidentError) (k n : nat) (w : W) (failure : IncidentError) :
  signal_at w = None -> k < 5 -> answer (S n) = Err failure -> is_retryable failure = true ->
  exists w', retry_loop FAST (counting answer) k (n, w) = retry_loop FAST (counting answer) (S k) (S n, w') /\
    signal_at w' = None.
Proof.
  intros Hw Hk Ha Hr. rewrite retry_loop_step. unfold counting at 1. cbn [fst snd]. rewrite Ha, Hr.
  simpl (length FAST). destruct (Nat.leb_spec 5 k); [lia|]. cbn [negb orb].
  assert (Hd : (0 <= nth k FAST 0)%Z).
  { do 5 (destruct k as [|k]; [by vm_compute|]). lia. }
  destruct (unsignalled_wait (nth k FAST 0%Z) (S n) w Hw Hd) as (w' & -> & Hw').
  exists w'. by rewrite Nat.add_1_r.
Qed.

(** Five of them, and then the last attempt. *)
Lemma fast_exhausted {T : Type} (failure : IncidentError) (w : W) :
  signal_at w = None -> is_retryable failure = true ->
  exists w', execute_with_retry (T := T) FAST (counting (fun _ => Err failure)) (0, w) =
    (Err (with_attempt_count failure 6), (6, w')).
Proof.
  intros Hw Hr. unfold execute_with_retry.
  destruct (fast_retry (T := T) (fun _ => Err failure) 0 0 w failure Hw ltac:(lia) eq_refl Hr) as (w1 & -> & Hw1).
  destruct (fast_retry (T := T) (fun _ => Err failure) 1 1 w1 failure Hw1 ltac:(lia) eq_refl Hr) as (w2 & -> & Hw2).
  destruct (fast_retry (T := T) (fun _ => Err failure) 2 2 w2 failure Hw2 ltac:(lia) eq_refl Hr) as (w3 & -> & Hw3).
  destruct (fast_retry (T := T) (fun _ => Err failure) 3 3 w3 failure Hw3 ltac:(lia) eq_refl Hr) as (w4 & -> & Hw4).
  destruct (fast_retry (T := T) (fun _ => Err failure) 4 4 w4 failure Hw4 ltac:(lia) eq_refl Hr) as (w5 & -> & Hw5).
  exists w5. rewrite retry_loop_step. unfold counting. simpl. by destruct (is_retryable failure).
Qed.

(** A fresh interrupt is one nobody signals before the test is over. *)
Lemma retry_tests_pass (w : W) :
  signal_at w = None ->
  stops_at_the_first_success w = true /\ does_not_retry_a_non_retryable_failure w = true /\
  exhausts_the_schedule_without_rewriting_an_http_failure w = true /\
  annotates_only_a_failure_that_never_reached_a_status_line w = true.
Proof.
  intros Hw. split_and!.
  - unfold stops_at_the_first_success, execute_with_retry. set (answer := fun attempts => _).
    destruct (fast_retry answer 0 0 w (delivery (lit "503") 503 true) Hw ltac:(lia) eq_refl eq_refl) as (w1 & -> & Hw1).
    destruct (fast_retry answer 1 1 w1 (delivery (lit "503") 503 true) Hw1 ltac:(lia) eq_refl eq_refl) as (w2 & -> & Hw2).
    rewrite retry_loop_step. by vm_compute.
  - unfold does_not_retry_a_non_retryable_failure, execute_with_retry. rewrite retry_loop_step. by vm_compute.
  - unfold exhausts_the_schedule_without_rewriting_an_http_failure.
    destruct (fast_exhausted (T := unit) (delivery (lit "Oppex returned HTTP 503") 503 true) w Hw eq_refl) as (w' & ->).
    by vm_compute.
  - unfold annotates_only_a_failure_that_never_reached_a_status_line.
    destruct (fast_exhausted (T := unit) (delivery (lit "connection refused") NO_STATUS_CODE true) w Hw eq_refl) as (w' & ->).
    by vm_compute.
Qed.

(** An interrupt that was signalled before the loop began. *)
Lemma signalled_test_passes (w : W) (t : Z) :
  signal_at w = Some t -> (t <= now w)%Z -> a_signalled_interrupt_ends_the_backoff_immediately w = true.
Proof.
  intros Hs Ht. unfold a_signalled_interrupt_ends_the_backoff_immediately, execute_with_retry.
  assert (Hwait : exists w', wait (W := Counted) (from_millis 500) (1, w) = (true, (1, w'))).
  { pose proof (wait_ok (from_millis 500) w ltac:(by vm_compute)) as [Hle Hres]. simpl.
    destruct (wait (from_millis 500) w) as [[] w']; simpl in *; [by exists w'|].
    destruct Hres as [Hlong Hnone]. specialize (Hnone t Hs). unfold from_millis in Hlong. lia. }
  destruct Hwait as [w' Hwait]. rewrite retry_loop_step. unfold counting.
  cbn [fst snd is_retryable delivery negb orb Nat.leb length DEFAULT_RETRY_DELAYS nth].
  rewrite Hwait. by vm_compute.
Qed.
End RetryTests.
End RetryTests.
