(* ===== verification/SystemTests.v ===== *)
(** * The tests of the dispatcher and of the client

    The tests the crate keeps beside dispatcher.rs and client.rs, and those of
    tests/public_api.rs. Those of the dispatcher run under a scheduler of this file,
    which goes through the threads in turn and lets time pass only when none of them
    can move; every run of it is an execution of [Dispatcher.step]. Those of the client
    are programs of one thread in the monad of [Programs], with the loopback server
    they start as their network; what a worker does for them is a step of its own,
    [run_worker]. The test that starts threads of its own is in [ThreadTests]. *)

From stdpp Require Import prelude list strings relations.
From S2P Require Import Prelude Error Severity Response Request Json JsonRef Wire Interrupt Retry Transport Stub DropLogger.
From S2P Require Import Dispatcher Client Programs UnitTests.

(** ** dispatcher.rs *)

Module DispatcherTests.

(** A task is its number; [held] says which tasks wait on a gate of the test. *)
Definition Sys0 : Type := Sys nat.

Definition try_act (a : action nat) (s : Sys0) : Sys0 := default s (act a s).

(** Whether thread [i] is blocked: asleep, finished, or running a held task. *)
Definition blocked (held : nat -> bool) (p : pc nat) : bool :=
  match p with
  | WRun task => held task
  | WWait | WExit | WPanic | SDone _ | CWait _ | CDone => true
  | _ => false
  end.

(** The first thread from [j] on that waits on the condition variable. *)
Fixpoint first_waiting (j : nat) (l : list (pc nat)) : option nat :=
  match l with
  | [] => None
  | p :: l => if waiting p then Some j else first_waiting (S j) l
  end.

(** The turn of thread [i]. *)
Definition turn (held : nat -> bool) (s : Sys0) (i : nat) : Sys0 :=
  match threads s !! i with
  | Some (SNotify _) =>
      match first_waiting 0 (threads s) with
      | Some j => try_act (ANotify i j) s
      | None => try_act (ANotifyNone i) s
      end
  | Some p => if blocked held p then s else try_act (ARun i) s
  | None => s
  end.

(** Nobody can move: the closing threads sleep until their deadline has passed. *)
Definition time_out (s : Sys0) (i : nat) : Sys0 :=
  match threads s !! i with
  | Some (CWait deadline) => try_act (ATimeout i) (try_act (ATick (deadline + 1 - clock s)) s)
  | _ => s
  end.

Definition round (held : nat -> bool) (s : Sys0) : Sys0 :=
  let ids := seq 0 (length (threads s)) in
  if forallb (blocked held) (threads s) then foldl time_out s ids else foldl (turn held) s ids.

Definition run_rounds (held : nat -> bool) (n : nat) (s : Sys0) : Sys0 := Nat.iter n (round held) s.

(** As many rounds as a call of these tests needs. *)
Definition ROUNDS : nat := 40.

(** [dispatcher.submit(task)] and [dispatcher.close(timeout)], run to their return: the
    answer is what [submit] returned, and whether [close] has returned. *)
Definition submit (held : nat -> bool) (task : nat) (s : Sys0) : bool * Sys0 :=
  let s' := run_rounds held ROUNDS (try_act (ASubmit task) s) in
  (match threads s' !! length (threads s) with Some (SDone accepted) => accepted | _ => false end, s').

Definition close (held : nat -> bool) (timeout : Z) (s : Sys0) : bool * Sys0 :=
  let s' := run_rounds held ROUNDS (try_act (AClose timeout) s) in
  (match threads s' !! length (threads s) with Some CDone => true | _ => false end, s').

Fixpoint submit_all (held : nat -> bool) (tasks : list nat) (s : Sys0) : bool * Sys0 :=
  match tasks with
  | [] => (true, s)
  | task :: tasks =>
      let '(accepted, s) := submit held task s in
      let '(all, s) := submit_all held tasks s in (accepted && all, s)
  end.

(** The tasks whose run has begun, in order. Once [active] is zero again they have all
    run to their end. *)
Definition ran (s : Sys0) : list nat :=
  omap (fun e => match e with Started task => Some task | _ => None end) (history s).

Definition free (_ : nat) : bool := false.
Definition gate (task : nat) : bool := (task =? 0)%nat.

Definition runs_submitted_work : bool :=
  let dispatcher := new 2 10 0 in
  let '(accepted, dispatcher) := submit_all free [0; 1; 2; 3; 4] dispatcher in
  let '(returned, dispatcher) := close free (from_secs 5) dispatcher in
  let delivered := ran dispatcher in
  accepted && returned && assert_eq 0%Z (active (state (shared dispatcher)))
  && assert_eq 5 (length delivered) && forallb (fun index => bool_decide (index ∈ delivered)) [0; 1; 2; 3; 4].

(** The gate is task 0; "oldest", "middle" and "newest" are 1, 2 and 3. *)
Definition drops_the_oldest_queued_task_when_full : bool :=
  let dispatcher := new 1 2 0 in
  let '(_, dispatcher) := submit gate 0 dispatcher in
  let worker_started := ran dispatcher in
  let '(_, dispatcher) := submit_all gate [1; 2; 3] dispatcher in
  let '(returned, dispatcher) := close free (from_secs 5) dispatcher in
  let ran := filter (fun task => task <> 0) (ran dispatcher) in
  assert_eq [0] worker_started && returned
  && assert_eq 2 (length ran) && negb (bool_decide (1 ∈ ran)).

Definition refuses_work_after_close_and_close_is_idempotent : bool :=
  let dispatcher := new 1 4 0 in
  let '(first, dispatcher) := close free (from_secs 1) dispatcher in
  let '(second, dispatcher) := close free (from_secs 1) dispatcher in
  let '(accepted, dispatcher) := submit free 0 dispatcher in
  first && second && negb accepted && assert_eq [] (ran dispatcher).

Definition close_gives_up_on_work_that_outlasts_the_drain_timeout : bool :=
  let dispatcher := new 1 10 0 in
  let '(_, dispatcher) := submit gate 0 dispatcher in
  let worker_started := ran dispatcher in
  let '(_, dispatcher) := submit gate 1 dispatcher in
  let started_closing := clock dispatcher in
  let '(returned, dispatcher) := close gate (from_millis 100) dispatcher in
  let elapsed := (clock dispatcher - started_closing)%Z in
  assert_eq [0] worker_started && returned
  && (elapsed <? from_secs 5)%Z && negb (bool_decide (1 ∈ ran dispatcher)).

(** The scheduler only makes steps of the dispatcher. *)
Lemma try_act_steps (a : action nat) (s : Sys0) : rtc step s (try_act a s).
Proof.
  unfold try_act. destruct (act a s) as [s'|] eqn:Ha; simpl; [|done]. apply rtc_once. by eapply act_step.
Qed.

Lemma turn_steps (held : nat -> bool) (s : Sys0) (i : nat) : rtc step s (turn held s i).
Proof. unfold turn. repeat case_match; try done; apply try_act_steps. Qed.

Lemma time_out_steps (s : Sys0) (i : nat) : rtc step s (time_out s i).
Proof.
  unfold time_out. repeat case_match; try done.
  etrans; apply try_act_steps.
Qed.

Lemma foldl_steps (f : Sys0 -> nat -> Sys0) (l : list nat) (s : Sys0) :
  (forall s i, rtc step s (f s i)) -> rtc step s (foldl f s l).
Proof.
  intros Hf. revert s. induction l as [|i l IH]; intros s; simpl; [done|].
  etrans; [apply Hf|apply IH].
Qed.

Lemma rounds_steps (held : nat -> bool) (n : nat) (s : Sys0) : rtc step s (run_rounds held n s).
Proof.
  unfold run_rounds. induction n as [|n IH]; simpl; [done|].
  etrans; [exact IH|]. unfold round.
  case_match; apply foldl_steps; [apply time_out_steps|apply turn_steps].
Qed.

Lemma dispatcher_tests_pass :
  runs_submitted_work = true /\ drops_the_oldest_queued_task_when_full = true /\
  refuses_work_after_close_and_close_is_idempotent = true /\
  close_gives_up_on_work_that_outlasts_the_drain_timeout = true.
Proof. by vm_compute. Qed.
End DispatcherTests.

(** ** client.rs *)

Open Scope prog_scope.

(** A test ends with a value or with a panic. *)
Definition test (W A : Type) : Type := prog W Empty_set A.

Definition panic {W A : Type} (text : string) : test W A := fun p => (Panic (lit text), p).
Definition assert {W : Type} (b : bool) : test W unit := if b then ret tt else panic "assertion failed".
(** [expect] and [unwrap] *)
Definition expect {W A E : Type} (r : Result A E) : test W A :=
  match r with Ok a => ret a | Err _ => panic "expect" end.

Definition is_closed_error `{ErrorTypes} {A : Type} (r : Result A IncidentError) : bool :=
  match r with Err ClientClosed => true | _ => false end.

(** *** The loopback server *)

Record RecordedRequest : Type := mkRecorded {
  recorded_headers : list str;
  body : str;
}.

(** The server, what it has been sent and nobody has asked for yet, and the interrupt
    of the client, which lives in the same world. *)
Record StubServer : Type := mkServer {
  server_url : str;
  responses : list (Z * str);
  served : nat;
  requests : list RecordedRequest;
  interrupt : Timeline unit;
}.

Definition server_start (responses : list (Z * str)) : StubServer :=
  mkServer (lit "http://127.0.0.1:4711/incident") responses 0 [] (mkTimeline 0 None []).

(** [serve]: of the header lines [ureq] writes, those the SDK sets. *)
Definition serve (req : HttpRequest) : RecordedRequest :=
  mkRecorded ((fun h => h.1 ++ lit ": " ++ h.2) <$> headers req) (payload req).

(** One connection: the next response of the list, whose last one repeats. *)
Definition server_send (cfg : AgentConfig) (req : HttpRequest) (w : StubServer) :
    Result (Z * str) ureq_error * StubServer :=
  match decide (url req = server_url w), responses w !! (served w `min` (length (responses w) - 1)) with
  | left _, Some (status, text) =>
      (Ok ((status mod 2 ^ 16)%Z, text),
       mkServer (server_url w) (responses w) (S (served w)) (requests w ++ [serve req]) (interrupt w))
  | _, _ => (Err tt, w)
  end.

#[export] Instance server_ureq : Ureq StubServer := {|
  Body := str;
  http_send := server_send;
  read_to_string limit body w :=
    if (Z.of_nat (length body) <=? limit)%Z then (Ok body, w) else (Err tt, w);
|}.

#[export] Instance server_waiter : Waiter StubServer := {|
  now w := now (interrupt w);
  signal_at w := signal_at (interrupt w);
  wait d w :=
    let '(b, l) := wait d (interrupt w) in
    (b, mkServer (server_url w) (responses w) (served w) (requests w) l);
|}.

(** [str::to_lowercase], of an ASCII text. *)
Definition to_lowercase (s : str) : str :=
  (fun c => if ((65 <=? c) && (c <=? 90))%N then (c + 32)%N else c) <$> s.

(** [header.split_once(':')], the part after the separator. *)
Fixpoint after_colon (s : str) : option str :=
  match s with
  | [] => None
  | c :: s => if (c =? 58)%N then Some s else after_colon s
  end.

Definition header (name : string) (r : RecordedRequest) : option str :=
  let prefix := to_lowercase (lit name) ++ lit ":" in
  line ← find (fun line => starts_with prefix (to_lowercase line)) (recorded_headers r);
  trim <$> after_colon line.

(** [sent.payload()[name]], [None] for an absent member. *)
Definition member (name : string) (r : RecordedRequest) : option Value :=
  match from_str (body r) with
  | Ok payload => as_object payload ≫= fun object => get object (lit name)
  | Err _ => None
  end.

(** *** The tests *)

Module ClientTests.
Import IncidentClientBuilder.

Definition system_time (_ : StubServer) : Z := 1700000000000000000.

(** [next_request], and [assert_no_further_request] once the client has nothing left to
    send. *)
Definition next_request : test StubServer RecordedRequest := fun p =>
  let w := net p in
  match requests w with
  | r :: rest =>
      (Return r, set_net (mkServer (server_url w) (responses w) (served w) rest (interrupt w)) p)
  | [] => (Panic (lit "the client never sent a request"), p)
  end.
Definition assert_no_further_request : test StubServer unit := fun p =>
  match requests (net p) with
  | [] => (Return tt, p)
  | _ => (Panic (lit "the client sent more requests than expected"), p)
  end.

Definition CREATED : str := raw "{`success`:true,`code`:200,`message`:`created`,`data`:`INC-42`}".

Definition client_for (service_key : option str) : test StubServer nat := fun p =>
  let b := builder
    |> set_api_key (lit "api-key")
    |> set_endpoint (server_url (net p))
    |> set_retry_delays RetryTests.FAST in
  let b := match service_key with Some key => set_service_key key b | None => b end in
  (client <~ build_client b ;; expect client) p.

Definition request : test StubServer IncidentRequest :=
  r <~ build_request system_time (IncidentRequestBuilder.builder
    |> IncidentRequestBuilder.set_title (lit "Checkout latency")
    |> IncidentRequestBuilder.set_source (lit "checkout-api")
    |> IncidentRequestBuilder.set_severity High
    |> IncidentRequestBuilder.set_src_timestamp 1700000000000) ;;
  expect r.

(** The request of the tests on service keys. *)
Definition keyed_request : test StubServer IncidentRequest :=
  r <~ build_request system_time (IncidentRequestBuilder.builder
    |> IncidentRequestBuilder.set_title (lit "title")
    |> IncidentRequestBuilder.set_source (lit "source")
    |> IncidentRequestBuilder.set_severity Low
    |> IncidentRequestBuilder.set_service_key (lit "request-service-key")) ;;
  expect r.

Definition build_rejects_a_missing_or_blank_api_key : test StubServer unit :=
  r <~ build_client builder ;;
  assert (assert_invalid r) ;;;
  r <~ build_client (builder |> set_api_key (lit "   ")) ;;
  assert (assert_invalid r).

Definition post_sends_the_agreed_payload_and_header : test StubServer unit :=
  client <~ client_for (Some (lit "client-service-key")) ;;
  dropping client (
  r <~ request ;;
  response <~ call_post false client r ;;
  response <~ expect response ;;
  assert (is_successful response) ;;;
  assert (assert_eq (Some (lit "INC-42")) (IncidentResponse.incident_id response)) ;;;
  sent <~ next_request ;;
  assert (assert_eq (Some (lit "api-key")) (header "X-API-KEY" sent)) ;;;
  assert (assert_eq (Some (lit "application/json")) (header "Content-Type" sent)) ;;;
  assert (assert_eq (Some (lit "client-service-key")) (member "serviceKey" sent ≫= as_str)) ;;;
  assert (assert_eq (Some (lit "Checkout latency")) (member "title" sent ≫= as_str)) ;;;
  assert (assert_eq (Some 4%Z) (member "severity" sent ≫= as_i64)) ;;;
  assert (assert_eq (Some 1%Z) (member "priority" sent ≫= as_i64)) ;;;
  assert (assert_eq (Some 1700000000000%Z) (member "srcTimestamp" sent ≫= as_i64)) ;;;
  assert (is_none (member "component" sent))).

Definition a_request_service_key_overrides_the_clients : test StubServer unit :=
  client <~ client_for (Some (lit "client-service-key")) ;;
  dropping client (
  r <~ keyed_request ;;
  response <~ call_post false client r ;;
  expect response ;;;
  sent <~ next_request ;;
  assert (assert_eq (Some (lit "request-service-key")) (member "serviceKey" sent ≫= as_str))).

Definition post_requires_a_service_key_somewhere : test StubServer unit :=
  client <~ client_for None ;;
  dropping client (
  r <~ request ;;
  response <~ call_post false client r ;;
  assert (assert_invalid response) ;;;
  assert_no_further_request).

Definition service_routing_omits_the_service_key : test StubServer unit :=
  client <~ client_for (Some (lit "client-service-key")) ;;
  dropping client (
  r <~ request ;;
  response <~ call_post true client r ;;
  expect response ;;;
  sent <~ next_request ;;
  assert (is_none (member "serviceKey" sent))).

Definition service_routing_refuses_a_request_service_key : test StubServer unit :=
  client <~ client_for None ;;
  dropping client (
  r <~ keyed_request ;;
  response <~ call_post true client r ;;
  assert (assert_invalid response) ;;;
  assert_no_further_request).

Definition post_retries_a_retryable_status : test StubServer unit :=
  client <~ client_for (Some (lit "service-key")) ;;
  dropping client (
  r <~ request ;;
  response <~ call_post false client r ;;
  response <~ expect response ;;
  assert (is_successful response) ;;;
  next_request ;;; next_request ;;; next_request ;;;
  assert_no_further_request).

Definition post_fails_immediately_on_a_non_retryable_status : test StubServer unit :=
  client <~ client_for (Some (lit "service-key")) ;;
  dropping client (
  r <~ request ;;
  response <~ call_post false client r ;;
  failure <~ expect_err (lit "unwrap_err") response ;;
  assert (assert_eq (Some 401%Z) (status_code failure)) ;;;
  assert (negb (is_retryable failure)) ;;;
  assert (contains (lit "invalid api key") (fmt_error failure)) ;;;
  next_request ;;;
  assert_no_further_request).

Definition post_async_delivers_and_validates_on_the_calling_thread : test StubServer unit :=
  client <~ client_for None ;;
  dropping client (
  r <~ request ;;
  refused <~ call_post_async client r ;;
  assert (assert_invalid refused) ;;;
  routed <~ client_for (Some (lit "service-key")) ;;
  dropping routed (
  r <~ request ;;
  queued <~ call_post_async routed r ;;
  expect queued ;;;
  (* a worker delivers it while [next_request] waits *)
  work routed ;;;
  sent <~ next_request ;;
  assert (assert_eq (Some (lit "service-key")) (member "serviceKey" sent ≫= as_str)))).

Definition every_post_fails_on_a_closed_client : test StubServer unit :=
  client <~ client_for (Some (lit "service-key")) ;;
  dropping client (
  close client ;;; close client ;;;
  r <~ request ;;
  response <~ call_post false client r ;;
  assert (is_closed_error response) ;;;
  queued <~ call_post_async client r ;;
  assert (is_closed_error queued) ;;;
  response <~ call_post true client r ;;
  assert (is_closed_error response) ;;;
  assert_no_further_request).

(** A test passes against a server with these responses. *)
Definition passes (responses : list (Z * str)) (t : test StubServer unit) : bool :=
  match (t (mkProcess [] (server_start responses) [] [])).1 with Return _ => true | _ => false end.

(** The tests, each with the responses its server is started with. *)
Definition client_tests : list (list (Z * str) * test StubServer unit) :=
  [([], build_rejects_a_missing_or_blank_api_key);
   ([(200%Z, CREATED)], post_sends_the_agreed_payload_and_header);
   ([(200%Z, CREATED)], a_request_service_key_overrides_the_clients);
   ([(200%Z, CREATED)], post_requires_a_service_key_somewhere);
   ([(200%Z, CREATED)], service_routing_omits_the_service_key);
   ([(200%Z, CREATED)], service_routing_refuses_a_request_service_key);
   ([(503%Z, []); (503%Z, []); (200%Z, CREATED)], post_retries_a_retryable_status);
   ([(401%Z, raw "{`success`:false,`message`:`invalid api key`}")], post_fails_immediately_on_a_non_retryable_status);
   ([(200%Z, CREATED)], post_async_delivers_and_validates_on_the_calling_thread);
   ([(200%Z, CREATED)], every_post_fails_on_a_closed_client)].

Lemma client_tests_pass : forallb (fun t => passes t.1 t.2) client_tests = true.
Proof. by vm_compute. Qed.
End ClientTests.

(** ** tests/public_api.rs *)

Module PublicApiTests.
Section PublicApiTests.
Context {W : Type} `{SerdeJson} `{!Ureq W} `{!Waiter W} (system_time : W -> Z).

(** [client()] *)
Definition client_builder : IncidentClientBuilder.t :=
  IncidentClientBuilder.builder
    |> IncidentClientBuilder.set_api_key (lit "external-consumer-api-key")
    |> IncidentClientBuilder.set_service_key (lit "external-consumer-service-key").
Definition client : test W nat := c <~ build_client client_builder ;; expect c.

(** A builder with a title, the source of these tests and a severity. *)
Definition request_builder (title : string) (severity : Severity) : IncidentRequestBuilder.t :=
  IncidentRequestBuilder.builder
    |> IncidentRequestBuilder.set_title (lit title)
    |> IncidentRequestBuilder.set_source (lit "cargo-test")
    |> IncidentRequestBuilder.set_severity severity.

Definition the_endpoint_is_the_agreed_one : test W unit :=
  assert (assert_eq (lit "https://api.oppex.ai/api/v1/incident/post") DEFAULT_ENDPOINT).

Definition severity_maps_to_the_oppex_scale : test W unit :=
  assert (assert_eq 3%Z (value Medium)) ;;;
  severity <~ expect (from_value 5) ;;
  assert (assert_eq Critical severity).

Definition a_valid_request_builds : test W unit :=
  r <~ build_request system_time (request_builder "External consumer test" Medium) ;;
  request <~ expect r ;;
  assert (assert_eq Medium (IncidentRequest.severity request)) ;;;
  assert (assert_eq 1%Z (IncidentRequest.priority request)).

Definition an_invalid_request_is_rejected_at_the_call_site : test W unit :=
  r <~ build_request system_time (IncidentRequestBuilder.builder
    |> IncidentRequestBuilder.set_source (lit "cargo-test")
    |> IncidentRequestBuilder.set_severity Medium) ;;
  failure <~ expect_err (lit "unwrap_err") r ;;
  assert (Smoke.is_invalid failure).

Definition a_blank_api_key_is_rejected : test W unit :=
  c <~ build_client (IncidentClientBuilder.builder |> IncidentClientBuilder.set_api_key (lit "  ")) ;;
  failure <~ expect_err (lit "unwrap_err") c ;;
  assert (Smoke.is_invalid failure).

Definition service_routing_refuses_a_request_service_key : test W unit :=
  r <~ build_request system_time (request_builder "Service routing test" Low
    |> IncidentRequestBuilder.set_service_key (lit "external-consumer-service-key")) ;;
  request <~ expect r ;;
  client <~ client ;;
  dropping client (
  response <~ call_post true client request ;;
  failure <~ expect_err (lit "unwrap_err") response ;;
  assert (Smoke.is_invalid failure)).

Definition a_closed_client_refuses_every_post : test W unit :=
  r <~ build_request system_time (request_builder "Closed client test" Low) ;;
  request <~ expect r ;;
  client <~ client ;;
  dropping client (
  close client ;;;
  response <~ call_post false client request ;;
  assert (is_closed_error response) ;;;
  queued <~ call_post_async client request ;;
  assert (is_closed_error queued)).

(** In every environment, on every network and with every clock that is set, the tests
    pass, and they leave the process as they found it: none of them sends anything. *)
Definition quietly_passes (t : test W unit) : Prop :=
  forall p, (1000000 <= system_time (net p) < 2 ^ 63 * 1000000)%Z -> t p = (Return tt, p).

(** A request that builds is there for the rest of the test. *)
Lemma request_runs {A : Type} (b : IncidentRequestBuilder.t) (r : IncidentRequest) (k : IncidentRequest -> test W A)
    (p : Process W) :
  Request.build (system_time (net p)) b = Ok r ->
  (r <~ build_request system_time b ;; request <~ expect r ;; k request) p = k r p.
Proof.
  intros Hb. by rewrite (bind_return _ _ p p (Ok r)) by (by apply request_built).
Qed.

Lemma offline_tests_pass :
  Forall quietly_passes [the_endpoint_is_the_agreed_one; severity_maps_to_the_oppex_scale;
    a_valid_request_builds; an_invalid_request_is_rejected_at_the_call_site; a_blank_api_key_is_rejected].
Proof.
  rewrite !Forall_cons, Forall_nil. split_and!; [..|done]; intros p Hclock; [reflexivity|reflexivity| |reflexivity|reflexivity].
  destruct (clock_millis _ Hclock) as [q Hq].
  etrans; [apply request_runs; unfold Request.build; rewrite Hq; vm_compute; reflexivity|]. reflexivity.
Qed.

(** Likewise for the client of a test, which is closed when the test ends. *)
Lemma client_scope {A : Type} (body : nat -> test W A) (outcome : Exit Empty_set A) (p : Process W) :
  let self := Smoke.external_inner (Some (lit "external-consumer-service-key")) (assoc endpoint_var (vars p)) in
  (body (length (clients p)) (with_new self p) = (outcome, with_new self p) \/
   body (length (clients p)) (with_new self p) = (outcome, with_shut self (now (net p)) p)) ->
  (client <~ client ;; dropping client (body client)) p = (outcome, with_shut self (now (net p)) p).
Proof.
  intros self Hbody. unfold client, bind at 1.
  rewrite (bind_return _ _ p (with_new self p) (Ok (length (clients p)))) by (by apply client_built).
  change (expect (Ok (length (clients p))) (with_new self p)) with
    ((Return (length (clients p)), with_new self p) : Exit Empty_set nat * Process W). cbv iota beta.
  destruct Hbody as [Hbody|Hbody].
  - by apply (dropped_open self (now (net p)) (clients p) _ outcome (with_new self p) (with_new self p)).
  - eapply dropped_closed; [exact Hbody|apply shut_is_there|done].
Qed.

(** They leave the network as it was, and a client that is closed. *)
Definition refused_quietly (t : test W unit) : Prop :=
  forall p, (1000000 <= system_time (net p) < 2 ^ 63 * 1000000)%Z ->
  exists self, t p = (Return tt, with_shut self (now (net p)) p).

Lemma refusal_tests_pass :
  refused_quietly service_routing_refuses_a_request_service_key /\
  refused_quietly a_closed_client_refuses_every_post.
Proof.
  split; intros p Hclock; destruct (clock_millis _ Hclock) as [q Hq]; eexists;
    (etrans; [apply request_runs; unfold Request.build; rewrite Hq; vm_compute; reflexivity|]);
    apply client_scope; set (self := Smoke.external_inner _ _); set (p1 := with_new self p).
  - left. set (r := {| Request.service_key := _ |}).
    rewrite (bind_return _ _ p1 p1 (Err (invalid (misuse_text true)))); [done|].
    by rewrite (post_called _ _ _ _ (Err (invalid (misuse_text true))) p1 (net p1) (new_is_there self p))
      by (by rewrite post_mode_cases).
  - right. set (p2 := with_shut self (now (net p)) p). set (r := {| Request.service_key := _ |}).
    pose proof (shut_is_there self (now (net p)) p : clients p2 !! length (clients p) = _) as Hi.
    rewrite (bind_return _ _ p1 p2 tt) by apply close_new.
    rewrite (bind_return _ _ p2 p2 (Err ClientClosed)).
    2:{ by rewrite (post_called _ _ _ _ (Err ClientClosed) p2 (net p2) Hi) by (by rewrite post_mode_cases). }
    rewrite (bind_return _ _ p2 p2 tt) by reflexivity.
    rewrite (bind_return _ _ p2 p2 (Err ClientClosed)); [done|].
    unfold call_post_async. by rewrite (with_client_run _ _ _ _ Hi).
Qed.
End PublicApiTests.
End PublicApiTests.
