(* ===== verification/Loopback.v ===== *)
(** * The loopback server of the tests on its sockets (src/rust/src/client.rs)

    [StubServer::serve] reads a request off a connection byte by byte and writes the
    response. [SystemTests] only has what comes of it; here are the bytes, and that a
    request is read back as it was written. A connection is the bytes the client sends
    before it closes its end. *)

From stdpp Require Import prelude list strings.
From Stdlib Require Import NArith ZArith Lia.
From Equations Require Import Equations.
From S2P Require Import Prelude Utf8 Error Response Request Json JsonRef Wire Transport Stub Programs SystemTests.

(** ** Reading *)

(** [BufRead::read_line], up to the line feed or the end: the line with its end. *)
Fixpoint read_line (l : bytes) : bytes * bytes :=
  match l with
  | [] => ([], [])
  | b :: l => if (b =? 10)%N then ([b], l) else let '(line, rest) := read_line l in (b :: line, rest)
  end.

Lemma read_line_shorter (l : bytes) (b : N) (line rest : bytes) :
  read_line l = (b :: line, rest) -> length rest < length l.
Proof.
  revert b line rest. induction l as [|c l IH]; intros b line rest; simpl; [done|].
  destruct (c =? 10)%N; [intros [= _ _ ->]; lia|]. destruct (read_line l) as [[|b' line'] rest'] eqn:Hl.
  - intros [= _ _ <-]. clear IH. revert rest' Hl. induction l as [|d l IH]; intros rest'; simpl; [intros [= <-]; simpl; lia|].
    destruct (d =? 10)%N; [done|]. by destruct (read_line l).
  - intros [= _ _ <-]. specialize (IH _ _ _ eq_refl). lia.
Qed.

Definition inspect {A : Type} (a : A) : {a' : A | a = a'} := exist _ a eq_refl.

(** The loop over the head of the request: it ends with the bytes, or at a blank line,
    and each other turn reads a line off the connection. *)
Equations? read_headers (l : bytes) : option (list str * bytes) by wf (length l) lt :=
  read_headers l with inspect (read_line l) => {
  | exist _ ([], rest) _ => Some ([], rest)
  | exist _ (b :: line, rest) Hread with from_utf8 (b :: line) => {
    | None => None
    | Some text =>
        if is_blank text then Some ([], rest)
        else '(headers, rest) ← read_headers rest; Some (trim_end text :: headers, rest) } }.
Proof. by eapply read_line_shorter. Qed.

(** One turn of the loop, without the proof terms of its definition. *)
Lemma read_headers_step (l : bytes) :
  read_headers l =
  match read_line l with
  | ([], rest) => Some ([], rest)
  | (line, rest) =>
      line ← from_utf8 line;
      if is_blank line then Some ([], rest)
      else '(headers, rest) ← read_headers rest; Some (trim_end line :: headers, rest)
  end.
Proof.
  rewrite read_headers_equation_1. destruct (inspect (read_line l)) as [[[|b line] rest] Hread];
    (etrans; [|rewrite Hread; reflexivity]); simpl; [done|].
  by destruct (from_utf8 (b :: line)).
Qed.

(** [str::parse::<usize>] on a 64-bit machine. *)
Definition digit (c : char) : option N := if ((48 <=? c) && (c <=? 57))%N then Some (c - 48)%N else None.

Fixpoint parse_digits (acc : N) (s : str) : option N :=
  match s with
  | [] => Some acc
  | c :: s =>
      d ← digit c;
      let acc := (acc * 10 + d)%N in
      if (acc <? 2 ^ 64)%N then parse_digits acc s else None
  end.

Definition parse_usize (s : str) : option N :=
  match s with
  | [] => None
  | 43%N :: ((_ :: _) as digits) => parse_digits 0 digits
  | s => parse_digits 0 s
  end.

Definition content_length (headers : list str) : N :=
  default 0%N
    (header ← find (fun header => starts_with (lit "content-length:") (to_lowercase header)) headers;
     value ← after_colon header;
     parse_usize (trim value)).

(** ** Writing *)

Definition crlf : str := [13%N; 10%N].

Definition response_text (status : Z) (text : str) : str :=
  lit "HTTP/1.1 " ++ display_Z status ++ lit " X" ++ crlf ++
  lit "Content-Type: application/json" ++ crlf ++
  lit "Content-Length: " ++ display_Z (Z.of_nat (length (encode text))) ++ crlf ++
  lit "Connection: close" ++ crlf ++ crlf ++ text.

(** [StubServer::serve]: what it records and the bytes it writes; [None] for an error of
    the connection, a line that is no UTF-8 or a body that is cut off. *)
Definition serve_stream (stream : bytes) (status : Z) (text : str) : option (RecordedRequest * bytes) :=
  '(headers, rest) ← read_headers stream;
  let size := N.to_nat (content_length headers) in
  if (size <=? length rest)%nat
  then Some (mkRecorded headers (from_utf8_lossy (take size rest)), encode (response_text status text))
  else None.

(** ** A request is read back as it was written *)

(** The text of a request with these lines before its body. *)
Fixpoint head_text (lines : list str) : bytes :=
  match lines with [] => [] | line :: lines => encode (line ++ crlf) ++ head_text lines end.

Definition request_text (lines : list str) (text : str) : bytes := head_text lines ++ encode crlf ++ encode text.

(** What a line of a head may be: not blank, nor blank at its end. *)
Definition line_ok (line : str) : Prop :=
  forallb is_char line = true /\ 10%N ∉ line /\ is_blank line = false /\ trim_end line = line.

Lemma read_line_app (line rest : bytes) : 10%N ∉ line -> read_line (line ++ 10%N :: rest) = (line ++ [10%N], rest).
Proof.
  induction line as [|b line IH]; [done|]. rewrite not_elem_of_cons. intros [Hb Hno]. simpl.
  destruct (N.eqb_spec b 10); [congruence|]. by rewrite IH.
Qed.

Lemma encode_app (s1 s2 : str) : encode (s1 ++ s2) = encode s1 ++ encode s2.
Proof. unfold encode. by rewrite fmap_app, concat_app. Qed.

Lemma trim_end_crlf (line : str) : trim_end (line ++ crlf) = trim_end line.
Proof. unfold trim_end, crlf. by rewrite rev_app_distr. Qed.

(** One line of the head. *)
Lemma read_one (line : str) (rest : bytes) : line_ok line ->
  read_line (encode (line ++ crlf) ++ rest) = (encode (line ++ crlf), rest) /\
  encode (line ++ crlf) <> [] /\ from_utf8 (encode (line ++ crlf)) = Some (line ++ crlf) /\
  is_blank (line ++ crlf) = false /\ trim_end (line ++ crlf) = line.
Proof.
  intros (Hchars & Hno & Hblank & Htrim).
  assert (Henc : encode (line ++ crlf) = (encode line ++ [13%N]) ++ [10%N]) by (by rewrite encode_app, <-app_assoc).
  split_and!.
  - rewrite Henc, <-app_assoc. apply read_line_app. rewrite elem_of_app, list_elem_of_singleton.
    intros [Hin|?]; [|done]. by apply encode_no_newline in Hin.
  - rewrite Henc. by destruct (encode line ++ [13%N]).
  - apply from_utf8_encode. by rewrite forallb_app, Hchars.
  - apply is_blank_false in Hblank. apply is_blank_false, Exists_app. by left.
  - by rewrite trim_end_crlf.
Qed.

Lemma read_request_head (lines : list str) (rest : bytes) :
  Forall line_ok lines -> read_headers (head_text lines ++ encode crlf ++ rest) = Some (lines, rest).
Proof.
  intros Hlines. induction Hlines as [|line lines Hline _ IH]; [by rewrite read_headers_step|].
  rewrite read_headers_step. cbn [head_text]. rewrite <-app_assoc.
  destruct (read_one line (head_text lines ++ encode crlf ++ rest) Hline) as (Hread & Hne & Hutf & Hblank & Htrim).
  rewrite Hread. destruct (encode (line ++ crlf)) as [|b l]; [done|]. rewrite Hutf. cbn [mbind option_bind].
  rewrite Hblank, IH. cbn [mbind option_bind]. by rewrite Htrim.
Qed.

(** A request whose head says how long its body is, in bytes, is recorded line by line
    and with its body, whatever the client sends behind it. *)
Lemma serve_records (lines : list str) (text : str) (more : bytes) (status : Z) (answer : str) :
  Forall line_ok lines -> forallb is_char text = true ->
  content_length lines = N.of_nat (length (encode text)) ->
  serve_stream (request_text lines text ++ more) status answer =
  Some (mkRecorded lines text, encode (response_text status answer)).
Proof.
  intros Hlines Htext Hlen. unfold serve_stream, request_text. rewrite <-!app_assoc.
  rewrite read_request_head by done. cbn [mbind option_bind].
  rewrite Hlen, Nnat.Nat2N.id, length_app, (proj2 (Nat.leb_le _ _)) by lia.
  by rewrite take_app_length, from_utf8_lossy_encode.
Qed.

(** What [SystemTests.serve] says the server records of a request of the SDK is what it
    reads off the connection, beside the lines that [ureq] adds. *)
Definition wire_lines (req : HttpRequest) : list str :=
  [lit "POST /incident HTTP/1.1"; lit "Host: 127.0.0.1:4711"]
  ++ recorded_headers (serve req)
  ++ [lit "content-length: " ++ display_Z (Z.of_nat (length (encode (payload req))))].

Example serve_stream_records :
  let req := request_for test_transport (lit "{}") in
  match serve_stream (request_text (wire_lines req) (payload req)) 200 ClientTests.CREATED with
  | Some (r, _) =>
      header "X-API-KEY" r = header "X-API-KEY" (serve req) /\ header "Content-Type" r = header "Content-Type" (serve req) /\
      body r = body (serve req)
  | None => False
  end.
Proof. vm_compute. split; [reflexivity|split; reflexivity]. Qed.
