(* ===== verification/ThreadTests.v ===== *)
(** * The test of the client that starts threads (src/rust/src/client.rs)

    [the_client_is_shareable_across_threads] posts from eight threads at once. Its
    threads run in the system of [DeliverySystem], on the loopback server of
    [SystemTests], in an order the test does not fix: the interleaving is an argument,
    and the test passes whatever it is, once its threads have ended. *)

From stdpp Require Import prelude list strings relations.
From S2P Require Import Prelude Error Severity Response Request Json JsonRef Wire Interrupt Retry Transport Stub DropLogger.
From S2P Require Import Dispatcher Client Programs UnitTests SystemTests.
From S2P Require ClientSystem DeliverySystem DeliveryInv DeliveryOwner DeliveryCalls DeliveryFair DeliveryLive DeliveryHealthy.

Import ClientSystem DeliverySystem ClientTests.

(** ** [thread::scope] *)

(** The steps of threads that post, and of their deliveries. *)
Definition of_a_thread (e : DeliverySystem.event) : bool :=
  match e with ECall _ | EPostDone _ _ | EDelivery _ | EWait _ | ETick _ => true | _ => false end.

Definition spawn (r : IncidentRequest) (s : System (W := StubServer)) : System :=
  with_client (add_call (Post false r) (client s)) s.

(** The posts of the threads have returned. *)
Definition all_returned (s : System (W := StubServer)) : bool :=
  forallb (fun c => match c with PostDone _ => true | _ => false end) (calls (client s)).

(** What is posted by a scope of threads, one for each request, in the order of an
    interleaving; the scope ends when the threads have. *)
Definition scope (self : Inner) (work : list IncidentRequest) (interleaving : list DeliverySystem.event) (w : StubServer) :
    option System :=
  s ← play_events interleaving (foldr spawn (DeliverySystem.new self 0 w) work);
  if forallb of_a_thread interleaving && all_returned s then Some s else None.

Definition posted_results (s : System (W := StubServer)) : list (Result IncidentResponse IncidentError) :=
  omap (fun c => match c with PostDone r => Some r | _ => None end) (calls (client s)).

(** The threads share the client named [i]. *)
Definition run_scope (i : nat) (work : list IncidentRequest) (interleaving : list DeliverySystem.event) :
    test StubServer (list (Result IncidentResponse IncidentError)) :=
  Programs.with_client i (fun c p =>
    match scope (Programs.inner c) work interleaving (Programs.net p) with
    | Some s => (Return (posted_results s), set_net (DeliverySystem.net s) p)
    | None => (Panic (lit "the threads have not ended"), p)
    end).

(** [expect] of each thread, and [next_request] so many times. *)
Fixpoint expect_all (l : list (Result IncidentResponse IncidentError)) : test StubServer unit :=
  match l with
  | [] => ret tt
  | r :: l => _ <~ expect r ;; expect_all l
  end.

Fixpoint next_requests (n : nat) : test StubServer unit :=
  match n with
  | O => ret tt
  | S n => _ <~ next_request ;; next_requests n
  end.

Definition the_client_is_shareable_across_threads (interleaving : list DeliverySystem.event) : test StubServer unit :=
  client <~ client_for (Some (lit "service-key")) ;;
  dropping client (
  r <~ ClientTests.request ;;
  posted <~ run_scope client (replicate 8 r) interleaving ;;
  expect_all posted ;;;
  next_requests 8).

(** The threads in turn, and one after the other. *)
Definition in_turn : list DeliverySystem.event :=
  (ECall <$> seq 0 8) ++ concat (replicate 3 (EDelivery <$> seq 0 8)) ++ ((fun i => EPostDone i i) <$> seq 0 8).

Definition one_by_one : list DeliverySystem.event :=
  concat ((fun i => [ECall (7 - i); EDelivery i; EDelivery i; EDelivery i; EPostDone (7 - i) i]) <$> seq 0 8).

(** ** The server answers every request *)

Section Interleavings.
Import DeliveryInv DeliveryOwner DeliveryCalls DeliveryFair DeliveryLive DeliveryHealthy.
Context (self : Inner) (r0 : IncidentRequest) (threads : nat).
Hypothesis Hvalid : misused false self r0 = false.
Implicit Types (s : System (W := StubServer)) (d : job (W := StubServer)).

Definition ready_server (w : StubServer) : Prop :=
  endpoint (transport self) = server_url w /\ responses w = [(200%Z, CREATED)].

Lemma server_answers (cfg : AgentConfig) (req : HttpRequest) (w : StubServer) :
  url req = server_url w -> responses w = [(200%Z, CREATED)] ->
  http_send cfg req w =
  (Ok (200%Z, CREATED),
   mkServer (server_url w) (responses w) (S (served w)) (SystemTests.requests w ++ [serve req]) (SystemTests.interrupt w)).
Proof.
  intros Hurl Hres. simpl. unfold server_send. rewrite decide_True by done. rewrite Hres at 1 2. simpl.
  by rewrite Nat.min_0_r.
Qed.

(** The members of [CREATED]: its answer to every request. *)
Definition created : list (str * Scalar) :=
  [(lit "success", SBool true); (lit "code", SInt 200);
   (lit "message", SString (lit "created")); (lit "data", SString (lit "INC-42"))].

Definition always_created : Answers := fun _ => (200%Z, created).

Lemma server_healthy : healthy_network self ready_server always_created.
Proof.
  split; [done| |].
  - intros r key. split; [apply (bool_decide_unpack _); vm_compute; exact I|].
    repeat constructor; unfold i64_min, i64_max; simpl; lia.
  - intros r key w [Hurl Hres]. do 2 eexists. split; [by apply server_answers|].
    split; [by split|]. intros w' Hw'. eexists. split; [vm_compute; reflexivity|done].
Qed.

(** ** What holds while the threads run *)

Definition has_answer d : bool := match at_pc d with DBody _ _ _ _ _ | DDone _ _ => true | _ => false end.

(** A post of the test, not refused. *)
Definition posting (c : call) : Prop :=
  c = Post false r0 \/ (exists t, c = Posting t) \/ exists response, c = PostDone (Ok response).

Record serving s : Prop := {
  serving_reach : reachable s;
  serving_well : all_well self ready_server always_created s;
  serving_open : closed (client s) = false;
  serving_calls : forall i c, calls (client s) !! i = Some c -> posting c;
  serving_threads : length (calls (client s)) = threads;
  serving_answers : length (SystemTests.requests (DeliverySystem.net s)) = count has_answer (deliveries s);
}.

Lemma serving_same s s' : serving s -> step s s' -> calls (client s') = calls (client s) -> closed (client s') = closed (client s) ->
  DeliverySystem.net s' = DeliverySystem.net s ->
  count has_answer (deliveries s') = count has_answer (deliveries s) -> serving s'.
Proof.
  intros [Hreach Hwell Hopen Hcalls Hlen Hans] Hstep Hc Hcl Hnet Hcount.
  split; [eapply system_reachable_rtc; [done|by apply rtc_once]| |by rewrite Hcl|by rewrite Hc|by rewrite Hc|by rewrite Hnet, Hcount].
  eapply step_well; [apply server_healthy|done|done].
Qed.

Lemma call_moves_serving s s' (i : nat) (c : call) :
  serving s -> step s s' -> posting c -> calls (client s') = <[i := c]> (calls (client s)) ->
  closed (client s') = false -> DeliverySystem.net s' = DeliverySystem.net s ->
  count has_answer (deliveries s') = count has_answer (deliveries s) -> serving s'.
Proof.
  intros [Hreach Hwell Hopen Hcalls Hlen Hans] Hstep Hc Hset Hopen' Hnet Hcount.
  split; [eapply system_reachable_rtc; [done|by apply rtc_once]| |done| |by rewrite Hset, length_insert|by rewrite Hnet, Hcount].
  - eapply step_well; [apply server_healthy|done|done].
  - rewrite Hset. intros j e [(_ & <- & _)|(_ & Hj)]%list_lookup_insert_Some; [done|by eapply Hcalls].
Qed.

Lemma run_caller_serving s s' (i : nat) : run_caller i s = Some s' -> serving s -> serving s'.
Proof.
  intros Hrun Hs. pose proof (sys_caller _ _ _ Hrun) as Hstep. pose proof Hs as [Hreach Hwell Hopen Hcalls Hlen Hans].
  revert Hstep. destruct (run_caller_cases _ _ _ Hrun) as [routed r t Hi Hp|c' Hi Hr|c c' Hi Hne Hr Hno]; intros Hstep.
  - eapply call_moves_serving; [exact Hs|exact Hstep|right; left; by exists t|done|done|done|].
    simpl. rewrite count_app. simpl. lia.
  - destruct (Hcalls i _ Hi) as [?|[[t ?]|[? ?]]]; done.
  - exfalso. destruct (Hcalls i _ Hi) as [->|[[t ->]|[? ->]]]; unfold run_call in Hr; rewrite Hi in Hr; try done.
    cbn [mbind option_bind] in Hr. destruct Hwell as (Hin & _). unfold inner_of in Hin.
    rewrite post_async_mode_cases, Hopen, Hin, Hvalid in Hr. injection Hr as <-.
    apply (Hno (mkTask r0 (service_key self))). simpl. apply list_lookup_insert_eq. by eapply lookup_lt_Some.
Qed.

Lemma run_delivery_serving s s' (n : nat) : run_delivery n s = Some s' -> serving s -> serving s'.
Proof.
  intros Hrun Hs. pose proof (sys_delivery _ _ _ Hrun) as Hstep. pose proof Hs as [Hreach Hwell Hopen Hcalls Hlen Hans].
  pose proof (run_delivery_client _ _ _ Hrun) as Hc. pose proof Hwell as (Hin & [Hurl Hres] & Hall).
  split; [eapply system_reachable_rtc; [done|by apply rtc_once]| |by rewrite Hc|by rewrite Hc|by rewrite Hc|].
  { eapply step_well; [apply server_healthy|done|done]. }
  unfold run_delivery in Hrun. destruct (deliveries s !! n) as [d|] eqn:Hn; [|done]. cbn [mbind option_bind] in Hrun.
  assert (Hset : forall d', count has_answer (<[n := d']> (deliveries s)) + (if has_answer d then 1 else 0) =
            count has_answer (deliveries s) + (if has_answer d' then 1 else 0)) by (intros; by apply count_insert).
  specialize (Hall n d Hn). unfold first_try in Hall. unfold has_answer in Hset at 2. rewrite Hin in Hrun.
  destruct (at_pc d) as [k|k start late|k start late st b|k j|r c] eqn:Hpc; [| | |done|done].
  - simplify_eq. simpl. specialize (Hset (at_point (DHead k (now_of s) (Interrupt.signalled (interrupt s))) d)).
    simpl in Hset. lia.
  - rewrite server_answers in Hrun by done. injection Hrun as <-.
    cbn [DeliverySystem.net deliveries set_delivery SystemTests.requests].
    rewrite length_app. match goal with |- _ = count _ (<[n := ?x]> _) => specialize (Hset x) end. simpl in Hset |- *. lia.
  - destruct Hall as (-> & _ & -> & Hread). destruct (Hread (DeliverySystem.net s) (conj Hurl Hres)) as (w' & Hbody & _).
    rewrite Hbody in Hrun. injection Hrun as <-. unfold received, conclude.
    pose proof (parses_answer self ready_server always_created server_healthy (task d)) as Hp.
    cbn [always_created fst snd] in Hp |- *. change (range_contains 200 300 200) with true. cbn iota. rewrite Hp. simpl.
    match goal with |- _ = count _ (<[n := ?x]> _) => specialize (Hset x) end. simpl in Hset.
    simpl in Hbody. destruct (_ <=? _)%Z; simplify_eq. lia.
Qed.

(** The threads of the test keep it so. *)
Lemma event_serving (e : DeliverySystem.event) s s' :
  of_a_thread e = true -> do_event e s = Some s' -> serving s -> serving s'.
Proof.
  intros He Hdo Hs. pose proof (do_event_step _ _ _ Hdo) as Hstep.
  destruct e as [| | |i|i n| | | | |j|n|t]; try done; cbn [do_event] in Hdo.
  - by eapply run_caller_serving.
  - destruct (calls (client s) !! i) as [[]|] eqn:Hi; try done.
    destruct (collectable n (Caller i) s) as [[d r]|] eqn:Hcol; [|done]. injection Hdo as <-.
    apply collectable_spec in Hcol as (Hn & Hby & Hpc).
    pose proof (serving_well _ Hs) as (_ & _ & Hall). specialize (Hall n d Hn). unfold first_try in Hall. rewrite Hpc in Hall.
    destruct Hall as [Hok _].
    eapply (call_moves_serving _ _ _ (PostDone r)); [exact Hs|exact Hstep|right; right; eexists; by rewrite Hok|done|apply (serving_open _ Hs)|done|].
    simpl. pose proof (count_insert has_answer (deliveries s) n d (at_point (DDone r true) d) Hn) as Hcount.
    unfold has_answer in Hcount at 2 4. simpl in Hcount. rewrite Hpc in Hcount. lia.
  - destruct (run_wait j (interrupt s)) as [i'|]; [|done]. injection Hdo as <-. by apply (serving_same s).
  - by eapply run_delivery_serving.
  - destruct (Z.leb_spec 0 t); [|done]. injection Hdo as <-. by apply (serving_same s).
Qed.

Lemma events_serving (l : list DeliverySystem.event) s s' :
  forallb of_a_thread l = true -> play_events l s = Some s' -> serving s -> serving s'.
Proof.
  revert s. induction l as [|e l IH]; intros s Hl Hplay Hs; [by simplify_eq/=|].
  apply andb_prop in Hl as [He Hl]. cbn [play_events] in Hplay.
  destruct (do_event e s) as [s1|] eqn:Hdo; [|done]. eapply IH; [done|done|]. by eapply event_serving.
Qed.

Definition spawned (w : StubServer) (n : nat) : System :=
  foldr spawn (DeliverySystem.new self 0 w) (replicate n r0).

Lemma spawned_calls (w : StubServer) (n : nat) :
  rtc step (DeliverySystem.new self 0 w) (spawned w n) /\ calls (client (spawned w n)) = replicate n (Post false r0) /\
  closed (client (spawned w n)) = false /\ DeliverySystem.net (spawned w n) = w /\ deliveries (spawned w n) = [].
Proof.
  induction n as [|n (Hrtc & Hcalls & Hopen & Hnet & Hd)]; [by split_and!|].
  split; [|split; [|done]].
  - eapply rtc_r; [exact Hrtc|]. apply sys_call. left. by exists false, r0; left.
  - rewrite replicate_S_end, <-Hcalls. done.
Qed.

Lemma spawned_serving (w : StubServer) :
  ready_server w -> SystemTests.requests w = [] -> serving (spawned w threads).
Proof.
  intros Hw Hnone. destruct (spawned_calls w threads) as (Hrtc & Hcalls & Hopen & Hnet & Hd).
  split; [by exists self, 0%Z, w| |done| | |].
  - eapply stays_well; [apply server_healthy|by apply new_well|done].
  - rewrite Hcalls. intros i c Hi. apply lookup_replicate in Hi as [-> _]. by left.
  - by rewrite Hcalls, length_replicate.
  - by rewrite Hnet, Hd, Hnone.
Qed.

(** ** The threads have ended *)

(** The call whose delivery has ended. *)
Definition caller_of d : option nat :=
  match by_whom d, at_pc d with Caller i, DDone _ _ => Some i | _, _ => None end.

Lemma callers_answered (l : list (job (W := StubServer))) : length (omap caller_of l) <= count has_answer l.
Proof.
  induction l as [|d l IH]; [done|]. change (omap caller_of (d :: l)) with
    (match caller_of d with Some i => i :: omap caller_of l | None => omap caller_of l end). cbn [count].
  assert (Hd : is_Some (caller_of d) -> has_answer d = true)
    by (unfold caller_of, has_answer; by destruct (by_whom d), (at_pc d); intros [? ?]).
  destruct (caller_of d) as [i|]; simpl; [rewrite (Hd ltac:(by eexists))|]; lia.
Qed.

Lemma all_answered s : serving s -> all_returned s = true -> threads <= length (SystemTests.requests (DeliverySystem.net s)).
Proof.
  intros [Hreach Hwell Hopen Hcalls Hlen Hans] Hret. rewrite Hans. etrans; [|apply callers_answered].
  assert (Hsub : seq 0 threads ⊆+ omap caller_of (deliveries s)); [|by apply submseteq_length in Hsub; rewrite length_seq in Hsub].
  apply NoDup_submseteq; [apply NoDup_seq|].
  intros i [_ Hi]%elem_of_seq. destruct (lookup_lt_is_Some_2 (calls (client s)) i) as [c Hc]; [simpl in Hi; lia|].
  pose proof (forallb_lookup _ _ _ _ Hret Hc) as Hdone. destruct c as [| |r| | | | | | | |]; try done.
  destruct (answered_done _ (answered_invariant _ Hreach) i r Hc) as [(e & -> & _ & _)|(n & d & Hn & Hby & Hpc)].
  - destruct (Hcalls i _ Hc) as [?|[[? ?]|[? ?]]]; done.
  - apply list_elem_of_omap. exists d. split; [by eapply list_elem_of_lookup_2|]. unfold caller_of. by rewrite Hby, Hpc.
Qed.

Lemma results_ok s (p : Process StubServer) : serving s -> expect_all (posted_results s) p = (Return tt, p).
Proof.
  intros Hs. assert (Hall : forall c, c ∈ calls (client s) -> posting c).
  { intros c [i Hi]%list_elem_of_lookup_1. by eapply serving_calls. }
  unfold posted_results. induction (calls (client s)) as [|c l IH]; [done|].
  destruct (Hall c ltac:(by left)) as [->|[[t ->]|[resp ->]]]; simpl; (apply IH; intros; apply Hall; by right).
Qed.
End Interleavings.

Lemma next_requests_ok (n : nat) (p : Process StubServer) :
  n <= length (SystemTests.requests (Programs.net p)) -> (next_requests n p).1 = Return tt.
Proof.
  revert p. induction n as [|n IH]; intros p Hn; [done|]. simpl. unfold bind, next_request.
  destruct (SystemTests.requests (Programs.net p)) as [|r l]; simpl in Hn; [lia|]. apply IH. simpl. lia.
Qed.

Definition start : Process StubServer := mkProcess [] (server_start [(200%Z, CREATED)]) [] [].

(** The client of the test. *)
Definition self0 : Inner :=
  match clients (client_for (Some (lit "service-key")) start).2 with c :: _ => Programs.inner c | [] => sample_inner end.
Definition begun : Process StubServer := with_new self0 start.

Lemma test_client_built : client_for (Some (lit "service-key")) start = (Return 0, begun).
Proof. vm_compute. reflexivity. Qed.

Lemma test_request_built : exists r, ClientTests.request begun = (Return r, begun).
Proof. eexists. vm_compute. reflexivity. Qed.

Lemma run_scope_begun (work : list IncidentRequest) (interleaving : list DeliverySystem.event) :
  run_scope 0 work interleaving begun =
  match scope self0 work interleaving (Programs.net begun) with
  | Some s => (Return (posted_results s), set_net (DeliverySystem.net s) begun)
  | None => (Panic (lit "the threads have not ended"), begun)
  end.
Proof. unfold run_scope. by rewrite (with_client_run _ _ (new_client self0 0)) by reflexivity. Qed.

(** Whatever the interleaving, the test passes once its threads have ended. *)
Lemma passes_in_every_interleaving (interleaving : list DeliverySystem.event) :
  (the_client_is_shareable_across_threads interleaving start).1 = Return tt \/
  (the_client_is_shareable_across_threads interleaving start).1 = Panic (lit "the threads have not ended").
Proof.
  destruct test_request_built as [r Hr].
  unfold the_client_is_shareable_across_threads. rewrite (bind_return _ _ _ begun 0) by apply test_client_built.
  unfold dropping. rewrite (bind_return _ _ _ begun r) by done.
  unfold bind. rewrite run_scope_begun. destruct (scope _ _ _ _) as [s|] eqn:Hscope; [left|by right].
  unfold scope in Hscope.
  destruct (play_events _ _) as [s'|] eqn:Hplay; [|done]. cbn [mbind option_bind] in Hscope.
  destruct (forallb of_a_thread interleaving) eqn:Hthreads; [|done].
  destruct (all_returned s') eqn:Hret; [|done]. injection Hscope as ->.
  assert (Hvalid : misused false self0 r = false) by reflexivity.
  assert (Hs : serving self0 r 8 s).
  { eapply events_serving; [exact Hvalid|exact Hthreads|exact Hplay|]. by apply spawned_serving. }
  set (p := set_net _ begun). rewrite (results_ok self0 r 8 s) by done.
  pose proof (next_requests_ok 8 p (all_answered _ _ _ s Hs Hret)) as Hok. destruct (next_requests 8 p). exact Hok.
Qed.

(** ** Witness: the test, and its server for ever after *)

Import DeliveryLive DeliveryFair DeliveryHealthy.

Definition r0 : IncidentRequest :=
  match (ClientTests.request start).1 with Return r => r | _ => sample_request None end.

Definition eight_posts : list DeliverySystem.event :=
  replicate 8 (EPost false r0) ++ in_turn ++ [EDispatch 0; EDispatch 1].

Definition posts_run : nat -> System (W := StubServer) :=
  scheduled eight_posts (DeliverySystem.new self0 0 (Programs.net start)).

Lemma posts_run_fair : fair_run posts_run.
Proof.
  apply scheduled_fair.
  - exists self0, 0%Z, (Programs.net start). apply rtc_refl.
  - apply not_eq_None_Some. intros Hnone.
    apply (f_equal (fun o => match o with Some _ => true | None => false end)) in Hnone. vm_compute in Hnone. discriminate.
  - vm_compute. reflexivity.
Qed.

Lemma healthy_posts_succeed_witness :
  (exists m, 9 <= m /\ calls (client (posts_run m)) !! 0 =
     Some (PostDone (Ok (IncidentResponse_new true 200 (Some (lit "created")) (Some (lit "INC-42")))))) /\
  debug_log (posts_run 40) = [].
Proof.
  assert (Hi : calls (client (posts_run 9)) !! 0 = Some (Posting (mkTask r0 (Some (lit "service-key")))))
    by (vm_compute; reflexivity).
  assert (Hw : ready_server self0 (Programs.net start)) by (split; vm_compute; reflexivity).
  assert (Hstart : posts_run 0 = DeliverySystem.new self0 0 (Programs.net start)) by (apply tick_0).
  destruct (healthy_posts_succeed self0 0 (Programs.net start) (ready_server self0) always_created posts_run 9 0 _
              (server_healthy self0) Hw Hstart posts_run_fair Hi) as [(m & k & d & Hle & Hm & _) Hlog].
  split; [exists m; split; [exact Hle|exact Hm]|apply Hlog].
Defined.
